(** * Compliance advisor: analysis and learning-feedback pipeline

    A shallow embedding of the analysis logic of the compliance assistant
    (the root [App.tsx] with the client-side generator, and
    [frontend/src/App.tsx] with the backend service), together with the
    properties of its JSON repair, feedback learning extraction, prompt
    composition and analysis store.

    JavaScript strings are modelled as [string]: sequences of code units
    in the range U+0000..U+00FF.  The built-ins [trim], [toLowerCase],
    [includes], [substring] and the regular-expression classes are
    written out for that range. *)

From Stdlib Require Import ZArith NArith Ascii String List Lia.
From stdpp Require Import base option list gmap strings pretty sorting.

Local Open Scope N_scope.
Local Open Scope nat_scope.
Local Open Scope stdpp_scope.

(** ** Strings *)

Module JsString.

(** The double quote and the line feed, which string literals of this
    file do not spell out. *)
Definition dq : string := String (ascii_of_nat 34) EmptyString.
Definition nl : string := String (ascii_of_nat 10) EmptyString.
Definition dq_char : ascii := ascii_of_nat 34.
Definition nl_char : ascii := ascii_of_nat 10.

(** [quoted s] is [s] between double quotes. *)
Definition quoted (s : string) : string := dq +:+ s +:+ dq.

Definition code (c : ascii) : N := N_of_ascii c.

Definition in_range (lo hi : N) (c : ascii) : bool :=
  (lo <=? code c)%N && (code c <=? hi)%N.

(** WhiteSpace and LineTerminator of ECMAScript below U+0100: TAB, LF, VT,
    FF, CR, SP and NBSP.  This is what [trim] strips and what the class
    [\s] matches. *)
Definition is_space (c : ascii) : bool :=
  in_range 9 13 c || (code c =? 32)%N || (code c =? 160)%N.

(** The class [\w]. *)
Definition is_word (c : ascii) : bool :=
  in_range 97 122 c || in_range 65 90 c || in_range 48 57 c || (code c =? 95)%N.

(** [[a-zA-Z_]] *)
Definition is_ident_start (c : ascii) : bool :=
  in_range 97 122 c || in_range 65 90 c || (code c =? 95)%N.

(** [.] without the [s] flag: everything but LF and CR. *)
Definition is_dot (c : ascii) : bool :=
  negb ((code c =? 10)%N || (code c =? 13)%N).

(** [.] with the [s] flag. *)
Definition is_any (c : ascii) : bool := true.

Fixpoint trimStart (s : string) : string :=
  match s with
  | EmptyString => EmptyString
  | String c s' => if is_space c then trimStart s' else s
  end.

Fixpoint trimEnd (s : string) : string :=
  match s with
  | EmptyString => EmptyString
  | String c s' =>
      match trimEnd s' with
      | EmptyString => if is_space c then EmptyString else String c EmptyString
      | t => String c t
      end
  end.

Definition trim (s : string) : string := trimEnd (trimStart s).

(** [toLowerCase] on one code unit: A-Z, and the Latin-1 capitals
    U+00C0..U+00DE except the multiplication sign U+00D7. *)
Definition lower_char (c : ascii) : ascii :=
  if in_range 65 90 c
     || (in_range 192 222 c && negb (code c =? 215)%N)
  then ascii_of_N (code c + 32)
  else c.

Fixpoint toLowerCase (s : string) : string :=
  match s with
  | EmptyString => EmptyString
  | String c s' => String (lower_char c) (toLowerCase s')
  end.

(** [strip_prefix p s] is [Some r] when [s = p ++ r]. *)
Fixpoint strip_prefix (p s : string) : option string :=
  match p with
  | EmptyString => Some s
  | String a p' =>
      match s with
      | EmptyString => None
      | String b s' => if Ascii.eqb a b then strip_prefix p' s' else None
      end
  end.

Definition startsWith (s p : string) : bool :=
  match strip_prefix p s with Some _ => true | None => false end.

(** [s.includes(sub)] *)
Fixpoint includes (s sub : string) : bool :=
  startsWith s sub ||
  match s with
  | EmptyString => false
  | String _ s' => includes s' sub
  end.

(** [s.substring(0, n)] *)
Definition substring0 (n : nat) (s : string) : string := String.substring 0 n s.

Fixpoint drop (n : nat) (s : string) : string :=
  match n, s with
  | O, _ => s
  | S n', String _ s' => drop n' s'
  | S _, EmptyString => EmptyString
  end.

(** Truthiness of a string value: non-empty. *)
Definition truthy (s : string) : bool :=
  match s with EmptyString => false | _ => true end.

(** Truthiness of an optional string: defined and non-empty. *)
Definition truthy_opt (o : option string) : bool :=
  match o with Some s => truthy s | None => false end.

(** [xs.join(sep)] *)
Fixpoint join (sep : string) (xs : list string) : string :=
  match xs with
  | [] => EmptyString
  | [x] => x
  | x :: rest => x +:+ sep +:+ join sep rest
  end.

End JsString.
Import JsString.

(** ** Regular expressions

    A backtracking matcher for the fragment of ECMAScript regular
    expressions the application uses: literals, classes, sequence,
    alternation, greedy and lazy star, the greedy option, capture groups and
    the anchors (without the [m] flag). *)

Module Regex.

Inductive regex : Type :=
| Chr (c : ascii)
| Lit (s : string)
| Cls (p : ascii -> bool)
| Seq (r1 r2 : regex)
| Alt (r1 r2 : regex)
| Star (greedy : bool) (r : regex)
| Opt (r : regex)
| Group (i : nat) (r : regex)
| Bos
| Eos.

Abbreviation captures := (gmap nat string).

(** The groups inside [r]: they are reset when a quantified [r] starts
    an iteration. *)
Fixpoint groups (r : regex) : list nat :=
  match r with
  | Seq r1 r2 | Alt r1 r2 => groups r1 ++ groups r2
  | Star _ r | Opt r => groups r
  | Group i r => i :: groups r
  | _ => []
  end.

Definition reset (r : regex) (caps : captures) : captures :=
  foldr delete caps (groups r).

Section Matcher.
Context {R : Type}.

(** A continuation gets the position reached, the rest of the input and
    the captures. *)
Definition cont := nat -> string -> captures -> option R.

(** [orelse a b]: the first alternative that succeeds. *)
Definition orelse (a b : option R) : option R :=
  match a with Some x => Some x | None => b end.

(** The iterations of a star over the matcher [m] of its body: an
    iteration has to consume input; a greedy star tries one more
    iteration before it goes on, a lazy one goes on first. *)
Fixpoint star_loop (m : nat → string → captures → cont → option R)
    (greedy : bool) (k : cont) (fuel : nat) (pos : nat) (s : string)
    (caps : captures) {struct fuel} : option R :=
  match fuel with
  | O => k pos s caps
  | S fuel' =>
      let iterate :=
        m pos s caps
          (fun pos' s' caps' =>
             if pos <? pos' then star_loop m greedy k fuel' pos' s' caps'
             else None) in
      if greedy then orelse iterate (k pos s caps)
      else orelse (k pos s caps) iterate
  end.

Fixpoint rmatch (r : regex) (pos : nat) (s : string) (caps : captures)
    (k : cont) {struct r} : option R :=
  match r with
  | Chr c =>
      match s with
      | String b s' => if Ascii.eqb c b then k (S pos) s' caps else None
      | EmptyString => None
      end
  | Lit l =>
      match strip_prefix l s with
      | Some s' => k (pos + String.length l) s' caps
      | None => None
      end
  | Cls p =>
      match s with
      | String b s' => if p b then k (S pos) s' caps else None
      | EmptyString => None
      end
  | Seq r1 r2 =>
      rmatch r1 pos s caps (fun pos' s' caps' => rmatch r2 pos' s' caps' k)
  | Alt r1 r2 =>
      orelse (rmatch r1 pos s caps k) (rmatch r2 pos s caps k)
  | Star greedy r1 =>
      star_loop (fun pos s caps k => rmatch r1 pos s (reset r1 caps) k)
        greedy k (String.length s) pos s caps
  | Opt r1 =>
      orelse
        (rmatch r1 pos s (reset r1 caps)
           (fun pos' s' caps' => if pos <? pos' then k pos' s' caps' else None))
        (k pos s caps)
  | Group i r1 =>
      rmatch r1 pos s caps
        (fun pos' s' caps' =>
           k pos' s' (<[i := substring0 (pos' - pos) s]> caps'))
  | Bos => if pos =? 0 then k pos s caps else None
  | Eos => match s with EmptyString => k pos s caps | _ => None end
  end.
End Matcher.

(** The match of [r] that starts exactly at [pos]: the end position and
    the captures. *)
Definition match_at (r : regex) (pos : nat) (s : string)
    : option (nat * captures) :=
  rmatch r pos s ∅ (fun pos' _ caps => Some (pos', caps)).

Record MatchResult := {
  m_index : nat;           (* where the match starts *)
  m_text : string;         (* match[0] *)
  m_groups : captures      (* match[i], i >= 1 *)
}.

(** [exec_from r pos s]: the leftmost match in [s], which is the input
    from position [pos] on. *)
Fixpoint exec_from (r : regex) (pos : nat) (s : string) : option MatchResult :=
  match match_at r pos s with
  | Some (pos', caps) =>
      Some {| m_index := pos; m_text := substring0 (pos' - pos) s; m_groups := caps |}
  | None =>
      match s with
      | EmptyString => None
      | String _ s' => exec_from r (S pos) s'
      end
  end.

(** [s.match(r)] for a regular expression without the [g] flag. *)
Definition exec (r : regex) (s : string) : option MatchResult := exec_from r 0 s.

(** [r.test(s)] on a freshly created expression ([lastIndex] is 0). *)
Definition test (r : regex) (s : string) : bool :=
  match exec r s with Some _ => true | None => false end.

(** [match[i]], where an unset group reads as [undefined]. *)
Definition group (m : MatchResult) (i : nat) : option string := m_groups m !! i.

(** Replacement templates: ["$1, $3"] is [[TGroup 1; TLit ", "; TGroup 3]]. *)
Inductive tpiece := TLit (s : string) | TGroup (i : nat).

Fixpoint expand (t : list tpiece) (caps : captures) : string :=
  match t with
  | [] => EmptyString
  | TLit l :: t' => l +:+ expand t' caps
  | TGroup i :: t' => default EmptyString (caps !! i) +:+ expand t' caps
  end.

(** [s.replace(r, t)] for [r] with the [g] flag: every match, left to
    right, an empty match advancing by one code unit. *)
Fixpoint replace_from (fuel : nat) (r : regex) (t : list tpiece) (pos : nat)
    (s : string) : string :=
  match fuel with
  | O => s
  | S fuel' =>
      let step :=
        match s with
        | EmptyString => EmptyString
        | String c s' => String c (replace_from fuel' r t (S pos) s')
        end in
      match match_at r pos s with
      | Some (pos', caps) =>
          if pos <? pos'
          then expand t caps +:+ replace_from fuel' r t pos' (drop (pos' - pos) s)
          else expand t caps +:+ step
      | None => step
      end
  end.

Definition replace (r : regex) (t : list tpiece) (s : string) : string :=
  replace_from (S (String.length s)) r t 0 s.

End Regex.
Import Regex.

Declare Scope regex_scope.
Delimit Scope regex_scope with re.
Infix "⋅" := Seq (at level 41, right associativity) : regex_scope.

(** ** JSON repair

    The post-processing of the generator's text in [generateGapReview] and
    [generateDeepDive] (the same four steps in both). *)

Module JsonRepair.
Local Open Scope regex_scope.

Definition ident : regex := Cls is_ident_start ⋅ Star true (Cls is_word).
Definition spaces : regex := Star true (Cls is_space).

(** [fenceRegex], with the [s] flag: start, three backticks, an optional
    group of word characters, spaces, an optional line feed, a lazy group
    of anything, an optional line feed, spaces, three backticks, end. *)
Definition fenceRegex : regex :=
  Bos ⋅ Lit "```" ⋅ Opt (Group 1 (Star true (Cls is_word))) ⋅ spaces
    ⋅ Opt (Chr nl_char) ⋅ Group 2 (Star false (Cls is_any))
    ⋅ Opt (Chr nl_char) ⋅ spaces ⋅ Lit "```" ⋅ Eos.

(** [malformationRegex1], with the [g] flag: a closing brace, spaces, an
    identifier, spaces, an opening brace; groups 1, 2 and 3 are the brace,
    the identifier and the brace. *)
Definition malformationRegex1 : regex :=
  Group 1 (Chr "}") ⋅ spaces ⋅ Group 2 ident ⋅ spaces ⋅ Group 3 (Chr "{").

(** [malformationRegex2], with the [g] flag: a closing brace, spaces, an
    identifier, spaces, a comma; groups 1 and 2 are the brace and the
    comma. *)
Definition malformationRegex2 : regex :=
  Group 1 (Chr "}") ⋅ spaces ⋅ ident ⋅ spaces ⋅ Group 2 (Chr ",").

(** The quoted field name [timeline] and its colon. *)
Definition timelineKey : string := quoted "timeline" +:+ ":".

(** [missingPriorityKeyRegex], with the [g] flag: group 1 is the timeline
    key, spaces, a double quote, a lazy run of [.], a double quote, a
    comma and spaces; then a double quote, group 2 (High, Medium or Low)
    and a double quote. *)
Definition missingPriorityKeyRegex : regex :=
  Group 1 (Lit timelineKey ⋅ spaces ⋅ Chr dq_char ⋅ Star false (Cls is_dot)
             ⋅ Lit (dq +:+ ",") ⋅ spaces)
    ⋅ Chr dq_char ⋅ Group 2 (Alt (Lit "High") (Alt (Lit "Medium") (Lit "Low")))
    ⋅ Chr dq_char.

(** [if (match && match[2]) jsonStr = match[2].trim();] *)
Definition stripFence (jsonStr : string) : string :=
  match exec fenceRegex jsonStr with
  | Some m =>
      match group m 2 with
      | Some inner => if truthy inner then trim inner else jsonStr
      | None => jsonStr
      end
  | None => jsonStr
  end.

(** ['$1, $3'] *)
Definition fixMissingComma (jsonStr : string) : string :=
  if test malformationRegex1 jsonStr
  then replace malformationRegex1 [TGroup 1; TLit ", "; TGroup 3] jsonStr
  else jsonStr.

(** ['$1$2'] *)
Definition fixExtraneousWord (jsonStr : string) : string :=
  if test malformationRegex2 jsonStr
  then replace malformationRegex2 [TGroup 1; TGroup 2] jsonStr
  else jsonStr.

(** The template: group 1, the quoted key [priority_level], a colon and
    a space, then group 2 between double quotes. *)
Definition priorityTemplate : list tpiece :=
  [TGroup 1; TLit (quoted "priority_level" +:+ ": " +:+ dq); TGroup 2; TLit dq].

Definition fixMissingPriorityKey (jsonStr : string) : string :=
  if test missingPriorityKeyRegex jsonStr
  then replace missingPriorityKeyRegex priorityTemplate jsonStr
  else jsonStr.

(** From [let jsonStr = analysisResponse.text.trim()] to the string
    handed to [JSON.parse]. *)
Definition repair (text : string) : string :=
  let jsonStr := trim text in
  let jsonStr := stripFence jsonStr in
  let jsonStr := fixMissingComma jsonStr in
  let jsonStr := fixExtraneousWord jsonStr in
  fixMissingPriorityKey jsonStr.

End JsonRepair.
Import JsonRepair.

(** ** The JSON grammar

    A recogniser for the texts [JSON.parse] accepts (ECMA-404): it is the
    built-in's grammar, used to say that a generator output is well
    formed. *)

Module Json.

Definition is_json_ws (c : ascii) : bool :=
  (code c =? 32)%N || (code c =? 9)%N || (code c =? 10)%N || (code c =? 13)%N.

Fixpoint skip_ws (s : string) : string :=
  match s with
  | String c s' => if is_json_ws c then skip_ws s' else s
  | EmptyString => EmptyString
  end.

Definition is_digit (c : ascii) : bool := in_range 48 57 c.

Definition is_hex (c : ascii) : bool :=
  in_range 48 57 c || in_range 97 102 c || in_range 65 70 c.

(** The single-character escapes after a backslash. *)
Definition is_escape (c : ascii) : bool :=
  existsb (Ascii.eqb c) [dq_char; "\"; "/"; "b"; "f"; "n"; "r"; "t"]%char.

(** After the opening quote: the characters of a string and its closing
    quote. *)
Fixpoint string_body (s : string) : option string :=
  match s with
  | EmptyString => None
  | String c s' =>
      if Ascii.eqb c dq_char then Some s'
      else if Ascii.eqb c "\" then
        match s' with
        | String e s'' =>
            if is_escape e then string_body s''
            else if Ascii.eqb e "u" then
              match s'' with
              | String h1 (String h2 (String h3 (String h4 r))) =>
                  if is_hex h1 && is_hex h2 && is_hex h3 && is_hex h4
                  then string_body r else None
              | _ => None
              end
            else None
        | EmptyString => None
        end
      else if (code c <? 32)%N then None
      else string_body s'
  end.

Fixpoint skip_digits (s : string) : string :=
  match s with
  | String c s' => if is_digit c then skip_digits s' else s
  | EmptyString => EmptyString
  end.

(** One or more digits. *)
Definition digits1 (s : string) : option string :=
  match s with
  | String c s' => if is_digit c then Some (skip_digits s') else None
  | EmptyString => None
  end.

(** The integer part: a zero alone, or digits starting with 1-9. *)
Definition int_part (s : string) : option string :=
  match s with
  | String c s' =>
      if Ascii.eqb c "0" then Some s'
      else if is_digit c then Some (skip_digits s') else None
  | EmptyString => None
  end.

Definition frac_part (s : string) : option string :=
  match s with
  | String "." s' => digits1 s'
  | _ => Some s
  end.

Definition exp_part (s : string) : option string :=
  match s with
  | String c s' =>
      if Ascii.eqb c "e" || Ascii.eqb c "E" then
        match s' with
        | String g s'' =>
            if Ascii.eqb g "+" || Ascii.eqb g "-" then digits1 s'' else digits1 s'
        | EmptyString => None
        end
      else Some s
  | EmptyString => Some s
  end.

Definition number (s : string) : option string :=
  let s1 := match s with String "-" s' => s' | _ => s end in
  i ← int_part s1; f ← frac_part i; exp_part f.

(** A value, without the white space around it. *)
Fixpoint value (fuel : nat) (s : string) {struct fuel} : option string :=
  match fuel with
  | O => None
  | S f =>
      match s with
      | EmptyString => None
      | String c r =>
          if Ascii.eqb c "{" then
            match skip_ws r with
            | String "}" r' => Some r'
            | r1 =>
                (fix members (n : nat) (s : string) {struct n} : option string :=
                   match n with
                   | O => None
                   | S n' =>
                       match skip_ws s with
                       | String q s1 =>
                           if Ascii.eqb q dq_char then
                             s2 ← string_body s1;
                             match skip_ws s2 with
                             | String ":" s3 =>
                                 s4 ← value f (skip_ws s3);
                                 match skip_ws s4 with
                                 | String "," s5 => members n' s5
                                 | String "}" s5 => Some s5
                                 | _ => None
                                 end
                             | _ => None
                             end
                           else None
                       | EmptyString => None
                       end
                   end) f r1
            end
          else if Ascii.eqb c "[" then
            match skip_ws r with
            | String "]" r' => Some r'
            | r1 =>
                (fix elements (n : nat) (s : string) {struct n} : option string :=
                   match n with
                   | O => None
                   | S n' =>
                       s1 ← value f (skip_ws s);
                       match skip_ws s1 with
                       | String "," s2 => elements n' s2
                       | String "]" s2 => Some s2
                       | _ => None
                       end
                   end) f r1
            end
          else if Ascii.eqb c dq_char then string_body r
          else if startsWith s "true" then strip_prefix "true" s
          else if startsWith s "false" then strip_prefix "false" s
          else if startsWith s "null" then strip_prefix "null" s
          else number s
      end
  end.

(** [JSON.parse(s)] does not throw. *)
Definition parses (s : string) : bool :=
  match value (S (String.length s)) (skip_ws s) with
  | Some r => negb (truthy (skip_ws r))
  | None => false
  end.

End Json.

(** ** Data model ([types.ts]) *)

Record UserFeedback := {
  status : option string;
  notes : option string;
  lastUpdated : string;
  finalAdoptedText : option string
}.

Record SuggestedChange := {
  sc_id : string;
  document_section : string;
  current_status_summary : string;
  austrac_relevance : string;
  suggested_modification : string;
  priority : string;
  sc_userFeedback : option UserFeedback;
  source_document_name : option string;
  sc_basis_of_suggestion : option string;
  web_reference_keywords : option (list string)
}.

Record ActionPlanItem := {
  ap_id : string;
  task : string;
  responsible : string;
  timeline : string;
  priority_level : string;
  ap_userFeedback : option UserFeedback;
  ap_basis_of_suggestion : option string
}.

(** The value of one property of an analysis result.  A
    [ChallengeAnalysisResult] has [suggested_changes], [action_plan] and
    [groupedSuggestions]; a [DeepDiveAnalysisResult] has [suggested_changes]
    and [action_plan] too, and strings and lists of strings. *)
Inductive FieldValue :=
| VUndefined
| VString (s : string)
| VStrings (l : list string)
| VChanges (l : list SuggestedChange)
| VPlan (l : list ActionPlanItem)
| VGroups (g : gmap string (list SuggestedChange)).

(** An analysis result is an object: its own properties by name.  A
    [Partial] of a result is an object too. *)
Abbreviation AnalysisResult := (gmap string FieldValue).

Inductive AnalysisType := challenge | deepDive.

#[global] Instance AnalysisType_eq_dec : EqDecision AnalysisType.
Proof. solve_decision. Defined.

Inductive FileType := pdf | txt | generic | pasted.

Record GroundingMetadata := {
  searchQuery : option string;
  groundingChunks : list (option string * option string)
}.

Record AustracUpdate := {
  au_id : string;
  title : string;
  rawContent : string;
  au_type : FileType;
  dateAdded : string;
  au_isProcessedForRag : option bool;
  summary : option string
}.

Record CompanyDocument := {
  cd_id : string;
  cd_name : string;
  textContent : string;
  cd_type : FileType;
  lastModified : Z;
  cd_size : Z;
  cd_isProcessedForRag : option bool
}.

(** [Pick<CompanyDocument, 'id' | 'name' | 'type' | 'lastModified' | 'size'>] *)
Record CompanyDocumentSnapshot := {
  cs_id : string;
  cs_name : string;
  cs_type : FileType;
  cs_lastModified : Z;
  cs_size : Z
}.

(** [Pick<AustracUpdate, 'id' | 'title' | 'type' | 'dateAdded'>] *)
Record AustracSnapshot := {
  as_id : string;
  as_title : string;
  as_type : FileType;
  as_dateAdded : string
}.

(** [timestamp] is the instant its ISO string denotes, in milliseconds:
    what [new Date(timestamp).getTime()] reads. *)
Record SavedAnalysis := {
  sa_id : string;
  sa_name : string;
  timestamp : Z;
  sa_type : AnalysisType;
  challengeAnalysisResult : option AnalysisResult;
  austracInputsUsedSnapshot : option (list AustracSnapshot);
  companyDocumentsUsedSnapshot : option (list CompanyDocumentSnapshot);
  summarizedAustracUpdatesSnapshot : option (list AustracUpdate);
  learningsAppliedToThisAnalysis : option (list string);
  selectedDocumentSnapshot : option CompanyDocumentSnapshot;
  deepDiveAnalysisResult : option AnalysisResult;
  groundingMetadata : option GroundingMetadata;
  userPrompt : option string;
  systemPrompt : option string
}.

Inductive DocumentType := company | austrac.

#[global] Instance DocumentType_eq_dec : EqDecision DocumentType.
Proof. solve_decision. Defined.

Record DocumentChunk := {
  dc_id : string;
  documentId : string;
  documentName : string;
  documentType : DocumentType;
  text : string;
  keywords : list string;
  charCount : nat
}.

Inductive FetchState := IDLE | LOADING | SUCCESS | ERROR.

(** ** The analysis store: order *)

Module Store.

(** [(a, b) => new Date(b.timestamp).getTime() - new Date(a.timestamp).getTime()]
    puts [a] first when its timestamp is the later one; [sort] is stable. *)
Fixpoint insert_desc (x : SavedAnalysis) (l : list SavedAnalysis)
    : list SavedAnalysis :=
  match l with
  | [] => [x]
  | y :: l' =>
      if (timestamp y <=? timestamp x)%Z then x :: y :: l'
      else y :: insert_desc x l'
  end.

Definition sortByTimestampDesc (l : list SavedAnalysis) : list SavedAnalysis :=
  foldr insert_desc [] l.

(** [savedAnalyses.find(sa => sa.id === id)] *)
Definition find (id : string) (l : list SavedAnalysis) : option SavedAnalysis :=
  List.find (fun sa => String.eqb (sa_id sa) id) l.

(** Most recent first. *)
Definition sorted_desc (l : list SavedAnalysis) : Prop :=
  StronglySorted (λ a b, (timestamp b <= timestamp a)%Z) l.

(** Two saved analyses that differ at most in their name. *)
Definition same_but_name (sa sa' : SavedAnalysis) : Prop :=
  sa_id sa' = sa_id sa ∧ timestamp sa' = timestamp sa ∧ sa_type sa' = sa_type sa
  ∧ challengeAnalysisResult sa' = challengeAnalysisResult sa
  ∧ deepDiveAnalysisResult sa' = deepDiveAnalysisResult sa
  ∧ austracInputsUsedSnapshot sa' = austracInputsUsedSnapshot sa
  ∧ companyDocumentsUsedSnapshot sa' = companyDocumentsUsedSnapshot sa
  ∧ summarizedAustracUpdatesSnapshot sa' = summarizedAustracUpdatesSnapshot sa
  ∧ learningsAppliedToThisAnalysis sa' = learningsAppliedToThisAnalysis sa
  ∧ selectedDocumentSnapshot sa' = selectedDocumentSnapshot sa
  ∧ groundingMetadata sa' = groundingMetadata sa
  ∧ userPrompt sa' = userPrompt sa ∧ systemPrompt sa' = systemPrompt sa.

(** Two saved analyses that differ at most in their results and their
    timestamp. *)
Definition same_but_result (sa sa' : SavedAnalysis) : Prop :=
  sa_id sa' = sa_id sa ∧ sa_name sa' = sa_name sa ∧ sa_type sa' = sa_type sa
  ∧ austracInputsUsedSnapshot sa' = austracInputsUsedSnapshot sa
  ∧ companyDocumentsUsedSnapshot sa' = companyDocumentsUsedSnapshot sa
  ∧ summarizedAustracUpdatesSnapshot sa' = summarizedAustracUpdatesSnapshot sa
  ∧ learningsAppliedToThisAnalysis sa' = learningsAppliedToThisAnalysis sa
  ∧ selectedDocumentSnapshot sa' = selectedDocumentSnapshot sa
  ∧ groundingMetadata sa' = groundingMetadata sa
  ∧ userPrompt sa' = userPrompt sa ∧ systemPrompt sa' = systemPrompt sa.

(** The ids of a store are pairwise distinct. *)
Definition unique_ids (l : list SavedAnalysis) : Prop := NoDup (map sa_id l).

End Store.
Import Store.

(** ** Feedback learning extraction *)

Module Learnings.

Definition MAX_NOTE_LENGTH : nat := 100.
Definition MAX_ADOPTED_TEXT_LENGTH : nat := 750.

(** [analysis.type === 'challenge' ? analysis.challengeAnalysisResult
     : analysis.deepDiveAnalysisResult] *)
Definition resultSource (analysis : SavedAnalysis) : option AnalysisResult :=
  match sa_type analysis with
  | challenge => challengeAnalysisResult analysis
  | deepDive => deepDiveAnalysisResult analysis
  end.

(** [resultSource?.suggested_changes], when it is there. *)
Definition suggested_changes_of (r : option AnalysisResult)
    : option (list SuggestedChange) :=
  match r with
  | Some o => match o !! "suggested_changes" with
              | Some (VChanges l) => Some l
              | _ => None
              end
  | None => None
  end.

Definition analysisTypeLabel (analysis : SavedAnalysis) : string :=
  match sa_type analysis with
  | challenge => "Gap Review"
  | deepDive => "Deep Dive"
  end.

(** [text.substring(0, max)] and the ellipsis when it was longer. *)
Definition truncated (max : nat) (s : string) : string :=
  substring0 max s +:+ (if max <? String.length s then "..." else "").

(** The condition under which a feedback becomes a learning. *)
Definition qualifies (fb : UserFeedback) : bool :=
  match status fb with
  | Some st =>
      truthy st &&
      (String.eqb st "Actioned"
       || truthy_opt (finalAdoptedText fb)
       || (String.eqb st "Not Applicable"
           && match notes fb with
              | Some n => truthy n && negb (String.eqb (trim n) "")
              | None => false
              end))
  | None => false
  end.

Definition learningPoint (analysis : SavedAnalysis) (change : SuggestedChange)
    (fb : UserFeedback) : string :=
  let base :=
    "Feedback for suggestion regarding '" +:+ document_section change
    +:+ "' (" +:+ analysisTypeLabel analysis +:+ ": "
    +:+ substring0 20 (sa_name analysis) +:+ "...): User status set to '"
    +:+ default "" (status fb) +:+ "'." in
  let withNote :=
    match notes fb with
    | Some n =>
        if truthy n
        then base +:+ " Note: " +:+ quoted (truncated MAX_NOTE_LENGTH n) +:+ "."
        else base
    | None => base
    end in
  match finalAdoptedText fb with
  | Some t =>
      if truthy t
      then withNote +:+ " Adopted Text: "
           +:+ quoted (truncated MAX_ADOPTED_TEXT_LENGTH t) +:+ "."
      else withNote
  | None => withNote
  end.

(** What one suggested change adds to the learnings: the body of the
    inner loop after the cap test. *)
Definition feedbackLearning (analysis : SavedAnalysis) (change : SuggestedChange)
    : option string :=
  match sc_userFeedback change with
  | Some fb => if qualifies fb then Some (learningPoint analysis change fb) else None
  | None => None
  end.

(** [maxLearnings !== undefined && learnings.length >= maxLearnings] *)
Definition capped (maxLearnings : option nat) (learnings : list string) : bool :=
  match maxLearnings with
  | Some m => m <=? length learnings
  | None => false
  end.

(** The inner loop over the suggested changes of one analysis. *)
Fixpoint scanChanges (maxLearnings : option nat) (analysis : SavedAnalysis)
    (changes : list SuggestedChange) (learnings : list string) : list string :=
  match changes with
  | [] => learnings
  | change :: rest =>
      if capped maxLearnings learnings then learnings
      else scanChanges maxLearnings analysis rest
             (learnings ++ option_list (feedbackLearning analysis change))
  end.

(** The outer loop over the sorted analyses. *)
Fixpoint scanAnalyses (maxLearnings : option nat) (analyses : list SavedAnalysis)
    (learnings : list string) : list string :=
  match analyses with
  | [] => learnings
  | analysis :: rest =>
      let learnings' :=
        match suggested_changes_of (resultSource analysis) with
        | Some changes => scanChanges maxLearnings analysis changes learnings
        | None => learnings
        end in
      if capped maxLearnings learnings' then learnings'
      else scanAnalyses maxLearnings rest learnings'
  end.

Definition extractLearningsFromFeedback (analyses : list SavedAnalysis)
    (maxLearnings : option nat) : list string :=
  scanAnalyses maxLearnings (sortByTimestampDesc analyses) [].

(** The qualifying condition in the words of the specification: status
    Actioned, or a non-empty adopted text, or status Not Applicable with
    notes that are non-empty after trimming. *)
Definition qualifies_as_specified (fb : UserFeedback) : bool :=
  bool_decide (status fb = Some "Actioned")
  || truthy_opt (finalAdoptedText fb)
  || (bool_decide (status fb = Some "Not Applicable")
      && match notes fb with
         | Some n => negb (String.eqb (trim n) "")
         | None => false
         end).

End Learnings.
Import Learnings.

(** ** Learnings for the Gap Review prompt *)

Module PromptLearnings.
Local Open Scope regex_scope.

(** [learningDocSectionRegex]: the text [regarding], a quote, a lazy
    group of [.], a quote. *)
Definition learningDocSectionRegex : regex :=
  Lit "regarding '" ⋅ Group 1 (Star false (Cls is_dot)) ⋅ Chr "'".

(** The expression for the core of a learning: the status between quotes
    (a greedy group), a full stop, then the optional note group and the
    optional adopted-text group, each a greedy run of [.] between double
    quotes. *)
Definition coreLearningContentRegex : regex :=
  Lit ": User status set to '" ⋅ Group 1 (Star true (Cls is_dot)) ⋅ Lit "'."
    ⋅ Opt (Group 2 (Lit (" Note: " +:+ dq) ⋅ Star true (Cls is_dot) ⋅ Chr dq_char))
    ⋅ Opt (Group 3 (Lit (" Adopted Text: " +:+ dq) ⋅ Star true (Cls is_dot)
                      ⋅ Chr dq_char)).

(** [match && match[1]], then [match[1].toLowerCase()] *)
Definition docSectionFromLearning (learningString : string) : option string :=
  match exec learningDocSectionRegex learningString with
  | Some m =>
      match group m 1 with
      | Some g => if truthy g then Some (toLowerCase g) else None
      | None => None
      end
  | None => None
  end.

(** [m[i] || ''] *)
Definition group_or_empty (m : MatchResult) (i : nat) : string :=
  default "" (group m i).

Definition coreLearningContent (learningString : string) : string :=
  match exec coreLearningContentRegex learningString with
  | Some m => group_or_empty m 1 +:+ group_or_empty m 2 +:+ group_or_empty m 3
  | None => learningString
  end.

(** The two accumulators of the loop: [contextualLearnings] and
    [addedLearningContents]. *)
Record Acc := {
  contextualLearnings : list string;
  addedLearningContents : gset string
}.

(** The inner loop over the company documents, for one learning. *)
Fixpoint tryDocs (learningString docSection : string)
    (docs : list CompanyDocument) (acc : Acc) : Acc :=
  match docs with
  | [] => acc
  | companyDoc :: rest =>
      if includes docSection (toLowerCase (cd_name companyDoc)) then
        let key := docSection +:+ coreLearningContent learningString in
        if bool_decide (key ∈ addedLearningContents acc)
        then tryDocs learningString docSection rest acc
        else {| contextualLearnings := contextualLearnings acc ++ [learningString];
                addedLearningContents := {[ key ]} ∪ addedLearningContents acc |}
      else tryDocs learningString docSection rest acc
  end.

(** The outer loop over the learnings. *)
Fixpoint selectLoop (maxLearningsForPrompt : nat) (docs : list CompanyDocument)
    (learnings : list string) (acc : Acc) : Acc :=
  match learnings with
  | [] => acc
  | learningString :: rest =>
      if maxLearningsForPrompt <=? length (contextualLearnings acc) then acc
      else
        selectLoop maxLearningsForPrompt docs rest
          match docSectionFromLearning learningString with
          | Some docSection => tryDocs learningString docSection docs acc
          | None => acc
          end
  end.

Definition selectContextualLearningsForChallengePrompt
    (allPotentialLearnings : list string)
    (currentCompanyDocsForChallenge : list CompanyDocument)
    (maxLearningsForPrompt : nat) : list string :=
  match currentCompanyDocsForChallenge, allPotentialLearnings with
  | [], _ | _, [] => []
  | _, _ =>
      contextualLearnings
        (selectLoop maxLearningsForPrompt currentCompanyDocsForChallenge
           allPotentialLearnings
           {| contextualLearnings := []; addedLearningContents := ∅ |})
  end.

(** The default of the third parameter. *)
Definition defaultMaxLearningsForPrompt : nat := 7.

(** The key under which a learning is deduplicated. *)
Definition dedupKey (learningString : string) : option string :=
  docSection ← docSectionFromLearning learningString;
  Some (docSection +:+ coreLearningContent learningString).

(** A learning is relevant to the documents when its fragment, lower-cased,
    contains the lower-cased name of one of them. *)
Definition relevant (docs : list CompanyDocument) (learningString : string) : bool :=
  match docSectionFromLearning learningString with
  | Some docSection =>
      existsb (fun d => includes docSection (toLowerCase (cd_name d))) docs
  | None => false
  end.


End PromptLearnings.
Import PromptLearnings.

(** ** Effects

    The calls the application makes to its collaborators and to the clock.
    A program is a finite tree of such calls. *)

Module Effects.

(** What an awaited call gives: a value, or an exception with its
    message. *)
Inductive outcome (A : Type) :=
| Returned (a : A)
| Thrown (message : string).
Arguments Returned {A} a.
Arguments Thrown {A} message.

Inductive Event : Type → Type :=
(** [ai.models.generateContent]: the Generator; [json] is the JSON
    response type and [search] the web-search tool. *)
| GenerateContent (contents : string) (json search : bool) : Event (outcome string)
(** [retrieveContextFromVertexAI]: the Retriever. *)
| RetrieveContext (query : string) (topK : nat) : Event (outcome (list DocumentChunk))
(** [ingestDocumentToVertexAI]: success and message. *)
| IngestDocument (docId : string) (docType : DocumentType)
    : Event (outcome (bool * string))
(** [generateGapReviewInBackend] of the backend service. *)
| GapReviewInBackend (targetRegulatoryIds companyDocIds : list string)
    (allAustracContent : list AustracUpdate) (allCompanyDocs : list CompanyDocument)
    (savedAnalyses : list SavedAnalysis) : Event (outcome SavedAnalysis)
(** [Date.now()] and [new Date()], in milliseconds. *)
| Now : Event Z
(** [new Date().toLocaleString()] *)
| LocaleNow : Event string
(** [generateUniqueId()] *)
| UniqueId : Event string.

Inductive Prog (A : Type) : Type :=
| Ret (a : A)
| Vis {R : Type} (e : Event R) (k : R → Prog A).
Arguments Ret {A} a.
Arguments Vis {A R} e k.

Fixpoint bind {A B} (p : Prog A) (f : A → Prog B) : Prog B :=
  match p with
  | Ret a => f a
  | Vis e k => Vis e (λ r, bind (k r) f)
  end.

Definition call {R} (e : Event R) : Prog R := Vis e Ret.

(** A call as it is recorded: the event without its answer. *)
Inductive Call : Type :=
| MkCall {R : Type} (e : Event R).

(** The collaborators: an answer to each call, which may depend on the
    calls made before. *)
Definition World := ∀ R, list Call → Event R → R.

(** Running a program: its result and the calls it made, in order. *)
Fixpoint run {A} (w : World) (log : list Call) (p : Prog A) : A * list Call :=
  match p with
  | Ret a => (a, log)
  | Vis e k => run w (log ++ [MkCall e]) (k (w _ log e))
  end.

Definition isGeneratorCall (c : Call) : bool :=
  match c with MkCall (GenerateContent _ _ _) => true | _ => false end.

Definition isRetrieverCall (c : Call) : bool :=
  match c with MkCall (RetrieveContext _ _) => true | _ => false end.

Definition isBackendCall (c : Call) : bool :=
  match c with MkCall (GapReviewInBackend _ _ _ _ _) => true | _ => false end.

Definition count (p : Call → bool) (log : list Call) : nat :=
  length (List.filter p log).

(** [xs.map(async f)] awaited in order. *)
Fixpoint mapM {A B} (f : A → Prog B) (xs : list A) : Prog (list B) :=
  match xs with
  | [] => Ret []
  | x :: rest => bind (f x) (λ y, bind (mapM f rest) (λ ys, Ret (y :: ys)))
  end.

(** A loop that threads a state through the elements. *)
Fixpoint foldM {A S} (f : S → A → Prog S) (s : S) (xs : list A) : Prog S :=
  match xs with
  | [] => Ret s
  | x :: rest => bind (f s x) (λ s', foldM f s' rest)
  end.

End Effects.
Import Effects.

Notation "'let*' x := p 'in' q" := (Effects.bind p (λ x, q))
  (at level 10, x name, p at level 100, q at level 200, only parsing) : stdpp_scope.

(** ** Application state *)

Record ChallengeInputs := {
  companyDocs : list CompanyDocumentSnapshot;
  austracContent : list AustracSnapshot
}.

Record AnalysisPrompts := {
  system : string;
  user : string
}.

Module State.

Record AppState := {
  ai : bool;
  userAustracContent : list AustracUpdate;
  internalCorpus : list CompanyDocument;
  challengeResult : option AnalysisResult;
  summarizedUserAustracUpdates : list AustracUpdate;
  currentInputsForChallenge : ChallengeInputs;
  selectedRegulatoryIdsForGapReview : list string;
  selectedCompanyDocIdsForGapReview : list string;
  fetchStatus : FetchState;
  error : option string;
  savedAnalyses : list SavedAnalysis;
  activeAnalysisId : option string;
  challengeNotification : option string;
  deepDiveAnalysisNotification : option string;
  isIngestionProcessing : bool;
  ingestionStatus : string;
  selectedDocForDeepDiveId : option string;
  deepDiveResult : option AnalysisResult;
  deepDiveFetchStatus : FetchState;
  deepDiveError : option string;
  deepDiveGroundingMetadata : option GroundingMetadata;
  currentAnalysisPrompts : option AnalysisPrompts
}.

Definition setUserAustracContent (v : list AustracUpdate) (st : AppState) : AppState :=
  {| ai := ai st; userAustracContent := v; internalCorpus := internalCorpus st;
     challengeResult := challengeResult st; summarizedUserAustracUpdates :=
     summarizedUserAustracUpdates st; currentInputsForChallenge :=
     currentInputsForChallenge st; selectedRegulatoryIdsForGapReview :=
     selectedRegulatoryIdsForGapReview st; selectedCompanyDocIdsForGapReview :=
     selectedCompanyDocIdsForGapReview st; fetchStatus := fetchStatus st; error := error
     st; savedAnalyses := savedAnalyses st; activeAnalysisId := activeAnalysisId st;
     challengeNotification := challengeNotification st; deepDiveAnalysisNotification :=
     deepDiveAnalysisNotification st; isIngestionProcessing := isIngestionProcessing st;
     ingestionStatus := ingestionStatus st; selectedDocForDeepDiveId :=
     selectedDocForDeepDiveId st; deepDiveResult := deepDiveResult st; deepDiveFetchStatus
     := deepDiveFetchStatus st; deepDiveError := deepDiveError st;
     deepDiveGroundingMetadata := deepDiveGroundingMetadata st; currentAnalysisPrompts :=
     currentAnalysisPrompts st |}.

Definition setInternalCorpus (v : list CompanyDocument) (st : AppState) : AppState :=
  {| ai := ai st; userAustracContent := userAustracContent st; internalCorpus := v;
     challengeResult := challengeResult st; summarizedUserAustracUpdates :=
     summarizedUserAustracUpdates st; currentInputsForChallenge :=
     currentInputsForChallenge st; selectedRegulatoryIdsForGapReview :=
     selectedRegulatoryIdsForGapReview st; selectedCompanyDocIdsForGapReview :=
     selectedCompanyDocIdsForGapReview st; fetchStatus := fetchStatus st; error := error
     st; savedAnalyses := savedAnalyses st; activeAnalysisId := activeAnalysisId st;
     challengeNotification := challengeNotification st; deepDiveAnalysisNotification :=
     deepDiveAnalysisNotification st; isIngestionProcessing := isIngestionProcessing st;
     ingestionStatus := ingestionStatus st; selectedDocForDeepDiveId :=
     selectedDocForDeepDiveId st; deepDiveResult := deepDiveResult st; deepDiveFetchStatus
     := deepDiveFetchStatus st; deepDiveError := deepDiveError st;
     deepDiveGroundingMetadata := deepDiveGroundingMetadata st; currentAnalysisPrompts :=
     currentAnalysisPrompts st |}.

Definition setChallengeResult (v : option AnalysisResult) (st : AppState) : AppState :=
  {| ai := ai st; userAustracContent := userAustracContent st; internalCorpus :=
     internalCorpus st; challengeResult := v; summarizedUserAustracUpdates :=
     summarizedUserAustracUpdates st; currentInputsForChallenge :=
     currentInputsForChallenge st; selectedRegulatoryIdsForGapReview :=
     selectedRegulatoryIdsForGapReview st; selectedCompanyDocIdsForGapReview :=
     selectedCompanyDocIdsForGapReview st; fetchStatus := fetchStatus st; error := error
     st; savedAnalyses := savedAnalyses st; activeAnalysisId := activeAnalysisId st;
     challengeNotification := challengeNotification st; deepDiveAnalysisNotification :=
     deepDiveAnalysisNotification st; isIngestionProcessing := isIngestionProcessing st;
     ingestionStatus := ingestionStatus st; selectedDocForDeepDiveId :=
     selectedDocForDeepDiveId st; deepDiveResult := deepDiveResult st; deepDiveFetchStatus
     := deepDiveFetchStatus st; deepDiveError := deepDiveError st;
     deepDiveGroundingMetadata := deepDiveGroundingMetadata st; currentAnalysisPrompts :=
     currentAnalysisPrompts st |}.

Definition setSummarizedUserAustracUpdates (v : list AustracUpdate) (st : AppState) : AppState :=
  {| ai := ai st; userAustracContent := userAustracContent st; internalCorpus :=
     internalCorpus st; challengeResult := challengeResult st;
     summarizedUserAustracUpdates := v; currentInputsForChallenge :=
     currentInputsForChallenge st; selectedRegulatoryIdsForGapReview :=
     selectedRegulatoryIdsForGapReview st; selectedCompanyDocIdsForGapReview :=
     selectedCompanyDocIdsForGapReview st; fetchStatus := fetchStatus st; error := error
     st; savedAnalyses := savedAnalyses st; activeAnalysisId := activeAnalysisId st;
     challengeNotification := challengeNotification st; deepDiveAnalysisNotification :=
     deepDiveAnalysisNotification st; isIngestionProcessing := isIngestionProcessing st;
     ingestionStatus := ingestionStatus st; selectedDocForDeepDiveId :=
     selectedDocForDeepDiveId st; deepDiveResult := deepDiveResult st; deepDiveFetchStatus
     := deepDiveFetchStatus st; deepDiveError := deepDiveError st;
     deepDiveGroundingMetadata := deepDiveGroundingMetadata st; currentAnalysisPrompts :=
     currentAnalysisPrompts st |}.

Definition setCurrentInputsForChallenge (v : ChallengeInputs) (st : AppState) : AppState :=
  {| ai := ai st; userAustracContent := userAustracContent st; internalCorpus :=
     internalCorpus st; challengeResult := challengeResult st;
     summarizedUserAustracUpdates := summarizedUserAustracUpdates st;
     currentInputsForChallenge := v; selectedRegulatoryIdsForGapReview :=
     selectedRegulatoryIdsForGapReview st; selectedCompanyDocIdsForGapReview :=
     selectedCompanyDocIdsForGapReview st; fetchStatus := fetchStatus st; error := error
     st; savedAnalyses := savedAnalyses st; activeAnalysisId := activeAnalysisId st;
     challengeNotification := challengeNotification st; deepDiveAnalysisNotification :=
     deepDiveAnalysisNotification st; isIngestionProcessing := isIngestionProcessing st;
     ingestionStatus := ingestionStatus st; selectedDocForDeepDiveId :=
     selectedDocForDeepDiveId st; deepDiveResult := deepDiveResult st; deepDiveFetchStatus
     := deepDiveFetchStatus st; deepDiveError := deepDiveError st;
     deepDiveGroundingMetadata := deepDiveGroundingMetadata st; currentAnalysisPrompts :=
     currentAnalysisPrompts st |}.

Definition setSelectedRegulatoryIdsForGapReview (v : list string) (st : AppState) : AppState :=
  {| ai := ai st; userAustracContent := userAustracContent st; internalCorpus :=
     internalCorpus st; challengeResult := challengeResult st;
     summarizedUserAustracUpdates := summarizedUserAustracUpdates st;
     currentInputsForChallenge := currentInputsForChallenge st;
     selectedRegulatoryIdsForGapReview := v; selectedCompanyDocIdsForGapReview :=
     selectedCompanyDocIdsForGapReview st; fetchStatus := fetchStatus st; error := error
     st; savedAnalyses := savedAnalyses st; activeAnalysisId := activeAnalysisId st;
     challengeNotification := challengeNotification st; deepDiveAnalysisNotification :=
     deepDiveAnalysisNotification st; isIngestionProcessing := isIngestionProcessing st;
     ingestionStatus := ingestionStatus st; selectedDocForDeepDiveId :=
     selectedDocForDeepDiveId st; deepDiveResult := deepDiveResult st; deepDiveFetchStatus
     := deepDiveFetchStatus st; deepDiveError := deepDiveError st;
     deepDiveGroundingMetadata := deepDiveGroundingMetadata st; currentAnalysisPrompts :=
     currentAnalysisPrompts st |}.

Definition setSelectedCompanyDocIdsForGapReview (v : list string) (st : AppState) : AppState :=
  {| ai := ai st; userAustracContent := userAustracContent st; internalCorpus :=
     internalCorpus st; challengeResult := challengeResult st;
     summarizedUserAustracUpdates := summarizedUserAustracUpdates st;
     currentInputsForChallenge := currentInputsForChallenge st;
     selectedRegulatoryIdsForGapReview := selectedRegulatoryIdsForGapReview st;
     selectedCompanyDocIdsForGapReview := v; fetchStatus := fetchStatus st; error := error
     st; savedAnalyses := savedAnalyses st; activeAnalysisId := activeAnalysisId st;
     challengeNotification := challengeNotification st; deepDiveAnalysisNotification :=
     deepDiveAnalysisNotification st; isIngestionProcessing := isIngestionProcessing st;
     ingestionStatus := ingestionStatus st; selectedDocForDeepDiveId :=
     selectedDocForDeepDiveId st; deepDiveResult := deepDiveResult st; deepDiveFetchStatus
     := deepDiveFetchStatus st; deepDiveError := deepDiveError st;
     deepDiveGroundingMetadata := deepDiveGroundingMetadata st; currentAnalysisPrompts :=
     currentAnalysisPrompts st |}.

Definition setFetchStatus (v : FetchState) (st : AppState) : AppState :=
  {| ai := ai st; userAustracContent := userAustracContent st; internalCorpus :=
     internalCorpus st; challengeResult := challengeResult st;
     summarizedUserAustracUpdates := summarizedUserAustracUpdates st;
     currentInputsForChallenge := currentInputsForChallenge st;
     selectedRegulatoryIdsForGapReview := selectedRegulatoryIdsForGapReview st;
     selectedCompanyDocIdsForGapReview := selectedCompanyDocIdsForGapReview st;
     fetchStatus := v; error := error st; savedAnalyses := savedAnalyses st;
     activeAnalysisId := activeAnalysisId st; challengeNotification :=
     challengeNotification st; deepDiveAnalysisNotification :=
     deepDiveAnalysisNotification st; isIngestionProcessing := isIngestionProcessing st;
     ingestionStatus := ingestionStatus st; selectedDocForDeepDiveId :=
     selectedDocForDeepDiveId st; deepDiveResult := deepDiveResult st; deepDiveFetchStatus
     := deepDiveFetchStatus st; deepDiveError := deepDiveError st;
     deepDiveGroundingMetadata := deepDiveGroundingMetadata st; currentAnalysisPrompts :=
     currentAnalysisPrompts st |}.

Definition setError (v : option string) (st : AppState) : AppState :=
  {| ai := ai st; userAustracContent := userAustracContent st; internalCorpus :=
     internalCorpus st; challengeResult := challengeResult st;
     summarizedUserAustracUpdates := summarizedUserAustracUpdates st;
     currentInputsForChallenge := currentInputsForChallenge st;
     selectedRegulatoryIdsForGapReview := selectedRegulatoryIdsForGapReview st;
     selectedCompanyDocIdsForGapReview := selectedCompanyDocIdsForGapReview st;
     fetchStatus := fetchStatus st; error := v; savedAnalyses := savedAnalyses st;
     activeAnalysisId := activeAnalysisId st; challengeNotification :=
     challengeNotification st; deepDiveAnalysisNotification :=
     deepDiveAnalysisNotification st; isIngestionProcessing := isIngestionProcessing st;
     ingestionStatus := ingestionStatus st; selectedDocForDeepDiveId :=
     selectedDocForDeepDiveId st; deepDiveResult := deepDiveResult st; deepDiveFetchStatus
     := deepDiveFetchStatus st; deepDiveError := deepDiveError st;
     deepDiveGroundingMetadata := deepDiveGroundingMetadata st; currentAnalysisPrompts :=
     currentAnalysisPrompts st |}.

Definition setSavedAnalyses (v : list SavedAnalysis) (st : AppState) : AppState :=
  {| ai := ai st; userAustracContent := userAustracContent st; internalCorpus :=
     internalCorpus st; challengeResult := challengeResult st;
     summarizedUserAustracUpdates := summarizedUserAustracUpdates st;
     currentInputsForChallenge := currentInputsForChallenge st;
     selectedRegulatoryIdsForGapReview := selectedRegulatoryIdsForGapReview st;
     selectedCompanyDocIdsForGapReview := selectedCompanyDocIdsForGapReview st;
     fetchStatus := fetchStatus st; error := error st; savedAnalyses := v;
     activeAnalysisId := activeAnalysisId st; challengeNotification :=
     challengeNotification st; deepDiveAnalysisNotification :=
     deepDiveAnalysisNotification st; isIngestionProcessing := isIngestionProcessing st;
     ingestionStatus := ingestionStatus st; selectedDocForDeepDiveId :=
     selectedDocForDeepDiveId st; deepDiveResult := deepDiveResult st; deepDiveFetchStatus
     := deepDiveFetchStatus st; deepDiveError := deepDiveError st;
     deepDiveGroundingMetadata := deepDiveGroundingMetadata st; currentAnalysisPrompts :=
     currentAnalysisPrompts st |}.

Definition setActiveAnalysisId (v : option string) (st : AppState) : AppState :=
  {| ai := ai st; userAustracContent := userAustracContent st; internalCorpus :=
     internalCorpus st; challengeResult := challengeResult st;
     summarizedUserAustracUpdates := summarizedUserAustracUpdates st;
     currentInputsForChallenge := currentInputsForChallenge st;
     selectedRegulatoryIdsForGapReview := selectedRegulatoryIdsForGapReview st;
     selectedCompanyDocIdsForGapReview := selectedCompanyDocIdsForGapReview st;
     fetchStatus := fetchStatus st; error := error st; savedAnalyses := savedAnalyses st;
     activeAnalysisId := v; challengeNotification := challengeNotification st;
     deepDiveAnalysisNotification := deepDiveAnalysisNotification st;
     isIngestionProcessing := isIngestionProcessing st; ingestionStatus := ingestionStatus
     st; selectedDocForDeepDiveId := selectedDocForDeepDiveId st; deepDiveResult :=
     deepDiveResult st; deepDiveFetchStatus := deepDiveFetchStatus st; deepDiveError :=
     deepDiveError st; deepDiveGroundingMetadata := deepDiveGroundingMetadata st;
     currentAnalysisPrompts := currentAnalysisPrompts st |}.

Definition setChallengeNotification (v : option string) (st : AppState) : AppState :=
  {| ai := ai st; userAustracContent := userAustracContent st; internalCorpus :=
     internalCorpus st; challengeResult := challengeResult st;
     summarizedUserAustracUpdates := summarizedUserAustracUpdates st;
     currentInputsForChallenge := currentInputsForChallenge st;
     selectedRegulatoryIdsForGapReview := selectedRegulatoryIdsForGapReview st;
     selectedCompanyDocIdsForGapReview := selectedCompanyDocIdsForGapReview st;
     fetchStatus := fetchStatus st; error := error st; savedAnalyses := savedAnalyses st;
     activeAnalysisId := activeAnalysisId st; challengeNotification := v;
     deepDiveAnalysisNotification := deepDiveAnalysisNotification st;
     isIngestionProcessing := isIngestionProcessing st; ingestionStatus := ingestionStatus
     st; selectedDocForDeepDiveId := selectedDocForDeepDiveId st; deepDiveResult :=
     deepDiveResult st; deepDiveFetchStatus := deepDiveFetchStatus st; deepDiveError :=
     deepDiveError st; deepDiveGroundingMetadata := deepDiveGroundingMetadata st;
     currentAnalysisPrompts := currentAnalysisPrompts st |}.

Definition setDeepDiveAnalysisNotification (v : option string) (st : AppState) : AppState :=
  {| ai := ai st; userAustracContent := userAustracContent st; internalCorpus :=
     internalCorpus st; challengeResult := challengeResult st;
     summarizedUserAustracUpdates := summarizedUserAustracUpdates st;
     currentInputsForChallenge := currentInputsForChallenge st;
     selectedRegulatoryIdsForGapReview := selectedRegulatoryIdsForGapReview st;
     selectedCompanyDocIdsForGapReview := selectedCompanyDocIdsForGapReview st;
     fetchStatus := fetchStatus st; error := error st; savedAnalyses := savedAnalyses st;
     activeAnalysisId := activeAnalysisId st; challengeNotification :=
     challengeNotification st; deepDiveAnalysisNotification := v; isIngestionProcessing :=
     isIngestionProcessing st; ingestionStatus := ingestionStatus st;
     selectedDocForDeepDiveId := selectedDocForDeepDiveId st; deepDiveResult :=
     deepDiveResult st; deepDiveFetchStatus := deepDiveFetchStatus st; deepDiveError :=
     deepDiveError st; deepDiveGroundingMetadata := deepDiveGroundingMetadata st;
     currentAnalysisPrompts := currentAnalysisPrompts st |}.

Definition setIsIngestionProcessing (v : bool) (st : AppState) : AppState :=
  {| ai := ai st; userAustracContent := userAustracContent st; internalCorpus :=
     internalCorpus st; challengeResult := challengeResult st;
     summarizedUserAustracUpdates := summarizedUserAustracUpdates st;
     currentInputsForChallenge := currentInputsForChallenge st;
     selectedRegulatoryIdsForGapReview := selectedRegulatoryIdsForGapReview st;
     selectedCompanyDocIdsForGapReview := selectedCompanyDocIdsForGapReview st;
     fetchStatus := fetchStatus st; error := error st; savedAnalyses := savedAnalyses st;
     activeAnalysisId := activeAnalysisId st; challengeNotification :=
     challengeNotification st; deepDiveAnalysisNotification :=
     deepDiveAnalysisNotification st; isIngestionProcessing := v; ingestionStatus :=
     ingestionStatus st; selectedDocForDeepDiveId := selectedDocForDeepDiveId st;
     deepDiveResult := deepDiveResult st; deepDiveFetchStatus := deepDiveFetchStatus st;
     deepDiveError := deepDiveError st; deepDiveGroundingMetadata :=
     deepDiveGroundingMetadata st; currentAnalysisPrompts := currentAnalysisPrompts st |}.

Definition setIngestionStatus (v : string) (st : AppState) : AppState :=
  {| ai := ai st; userAustracContent := userAustracContent st; internalCorpus :=
     internalCorpus st; challengeResult := challengeResult st;
     summarizedUserAustracUpdates := summarizedUserAustracUpdates st;
     currentInputsForChallenge := currentInputsForChallenge st;
     selectedRegulatoryIdsForGapReview := selectedRegulatoryIdsForGapReview st;
     selectedCompanyDocIdsForGapReview := selectedCompanyDocIdsForGapReview st;
     fetchStatus := fetchStatus st; error := error st; savedAnalyses := savedAnalyses st;
     activeAnalysisId := activeAnalysisId st; challengeNotification :=
     challengeNotification st; deepDiveAnalysisNotification :=
     deepDiveAnalysisNotification st; isIngestionProcessing := isIngestionProcessing st;
     ingestionStatus := v; selectedDocForDeepDiveId := selectedDocForDeepDiveId st;
     deepDiveResult := deepDiveResult st; deepDiveFetchStatus := deepDiveFetchStatus st;
     deepDiveError := deepDiveError st; deepDiveGroundingMetadata :=
     deepDiveGroundingMetadata st; currentAnalysisPrompts := currentAnalysisPrompts st |}.

Definition setSelectedDocForDeepDiveId (v : option string) (st : AppState) : AppState :=
  {| ai := ai st; userAustracContent := userAustracContent st; internalCorpus :=
     internalCorpus st; challengeResult := challengeResult st;
     summarizedUserAustracUpdates := summarizedUserAustracUpdates st;
     currentInputsForChallenge := currentInputsForChallenge st;
     selectedRegulatoryIdsForGapReview := selectedRegulatoryIdsForGapReview st;
     selectedCompanyDocIdsForGapReview := selectedCompanyDocIdsForGapReview st;
     fetchStatus := fetchStatus st; error := error st; savedAnalyses := savedAnalyses st;
     activeAnalysisId := activeAnalysisId st; challengeNotification :=
     challengeNotification st; deepDiveAnalysisNotification :=
     deepDiveAnalysisNotification st; isIngestionProcessing := isIngestionProcessing st;
     ingestionStatus := ingestionStatus st; selectedDocForDeepDiveId := v; deepDiveResult
     := deepDiveResult st; deepDiveFetchStatus := deepDiveFetchStatus st; deepDiveError :=
     deepDiveError st; deepDiveGroundingMetadata := deepDiveGroundingMetadata st;
     currentAnalysisPrompts := currentAnalysisPrompts st |}.

Definition setDeepDiveResult (v : option AnalysisResult) (st : AppState) : AppState :=
  {| ai := ai st; userAustracContent := userAustracContent st; internalCorpus :=
     internalCorpus st; challengeResult := challengeResult st;
     summarizedUserAustracUpdates := summarizedUserAustracUpdates st;
     currentInputsForChallenge := currentInputsForChallenge st;
     selectedRegulatoryIdsForGapReview := selectedRegulatoryIdsForGapReview st;
     selectedCompanyDocIdsForGapReview := selectedCompanyDocIdsForGapReview st;
     fetchStatus := fetchStatus st; error := error st; savedAnalyses := savedAnalyses st;
     activeAnalysisId := activeAnalysisId st; challengeNotification :=
     challengeNotification st; deepDiveAnalysisNotification :=
     deepDiveAnalysisNotification st; isIngestionProcessing := isIngestionProcessing st;
     ingestionStatus := ingestionStatus st; selectedDocForDeepDiveId :=
     selectedDocForDeepDiveId st; deepDiveResult := v; deepDiveFetchStatus :=
     deepDiveFetchStatus st; deepDiveError := deepDiveError st; deepDiveGroundingMetadata
     := deepDiveGroundingMetadata st; currentAnalysisPrompts := currentAnalysisPrompts st
     |}.

Definition setDeepDiveFetchStatus (v : FetchState) (st : AppState) : AppState :=
  {| ai := ai st; userAustracContent := userAustracContent st; internalCorpus :=
     internalCorpus st; challengeResult := challengeResult st;
     summarizedUserAustracUpdates := summarizedUserAustracUpdates st;
     currentInputsForChallenge := currentInputsForChallenge st;
     selectedRegulatoryIdsForGapReview := selectedRegulatoryIdsForGapReview st;
     selectedCompanyDocIdsForGapReview := selectedCompanyDocIdsForGapReview st;
     fetchStatus := fetchStatus st; error := error st; savedAnalyses := savedAnalyses st;
     activeAnalysisId := activeAnalysisId st; challengeNotification :=
     challengeNotification st; deepDiveAnalysisNotification :=
     deepDiveAnalysisNotification st; isIngestionProcessing := isIngestionProcessing st;
     ingestionStatus := ingestionStatus st; selectedDocForDeepDiveId :=
     selectedDocForDeepDiveId st; deepDiveResult := deepDiveResult st; deepDiveFetchStatus
     := v; deepDiveError := deepDiveError st; deepDiveGroundingMetadata :=
     deepDiveGroundingMetadata st; currentAnalysisPrompts := currentAnalysisPrompts st |}.

Definition setDeepDiveError (v : option string) (st : AppState) : AppState :=
  {| ai := ai st; userAustracContent := userAustracContent st; internalCorpus :=
     internalCorpus st; challengeResult := challengeResult st;
     summarizedUserAustracUpdates := summarizedUserAustracUpdates st;
     currentInputsForChallenge := currentInputsForChallenge st;
     selectedRegulatoryIdsForGapReview := selectedRegulatoryIdsForGapReview st;
     selectedCompanyDocIdsForGapReview := selectedCompanyDocIdsForGapReview st;
     fetchStatus := fetchStatus st; error := error st; savedAnalyses := savedAnalyses st;
     activeAnalysisId := activeAnalysisId st; challengeNotification :=
     challengeNotification st; deepDiveAnalysisNotification :=
     deepDiveAnalysisNotification st; isIngestionProcessing := isIngestionProcessing st;
     ingestionStatus := ingestionStatus st; selectedDocForDeepDiveId :=
     selectedDocForDeepDiveId st; deepDiveResult := deepDiveResult st; deepDiveFetchStatus
     := deepDiveFetchStatus st; deepDiveError := v; deepDiveGroundingMetadata :=
     deepDiveGroundingMetadata st; currentAnalysisPrompts := currentAnalysisPrompts st |}.

Definition setDeepDiveGroundingMetadata (v : option GroundingMetadata) (st : AppState) : AppState :=
  {| ai := ai st; userAustracContent := userAustracContent st; internalCorpus :=
     internalCorpus st; challengeResult := challengeResult st;
     summarizedUserAustracUpdates := summarizedUserAustracUpdates st;
     currentInputsForChallenge := currentInputsForChallenge st;
     selectedRegulatoryIdsForGapReview := selectedRegulatoryIdsForGapReview st;
     selectedCompanyDocIdsForGapReview := selectedCompanyDocIdsForGapReview st;
     fetchStatus := fetchStatus st; error := error st; savedAnalyses := savedAnalyses st;
     activeAnalysisId := activeAnalysisId st; challengeNotification :=
     challengeNotification st; deepDiveAnalysisNotification :=
     deepDiveAnalysisNotification st; isIngestionProcessing := isIngestionProcessing st;
     ingestionStatus := ingestionStatus st; selectedDocForDeepDiveId :=
     selectedDocForDeepDiveId st; deepDiveResult := deepDiveResult st; deepDiveFetchStatus
     := deepDiveFetchStatus st; deepDiveError := deepDiveError st;
     deepDiveGroundingMetadata := v; currentAnalysisPrompts := currentAnalysisPrompts st
     |}.

Definition setCurrentAnalysisPrompts (v : option AnalysisPrompts) (st : AppState) : AppState :=
  {| ai := ai st; userAustracContent := userAustracContent st; internalCorpus :=
     internalCorpus st; challengeResult := challengeResult st;
     summarizedUserAustracUpdates := summarizedUserAustracUpdates st;
     currentInputsForChallenge := currentInputsForChallenge st;
     selectedRegulatoryIdsForGapReview := selectedRegulatoryIdsForGapReview st;
     selectedCompanyDocIdsForGapReview := selectedCompanyDocIdsForGapReview st;
     fetchStatus := fetchStatus st; error := error st; savedAnalyses := savedAnalyses st;
     activeAnalysisId := activeAnalysisId st; challengeNotification :=
     challengeNotification st; deepDiveAnalysisNotification :=
     deepDiveAnalysisNotification st; isIngestionProcessing := isIngestionProcessing st;
     ingestionStatus := ingestionStatus st; selectedDocForDeepDiveId :=
     selectedDocForDeepDiveId st; deepDiveResult := deepDiveResult st; deepDiveFetchStatus
     := deepDiveFetchStatus st; deepDiveError := deepDiveError st;
     deepDiveGroundingMetadata := deepDiveGroundingMetadata st; currentAnalysisPrompts :=
     v |}.
End State.
Import State.

(** ** Gap Review: prompt composition and post-processing *)

Module GapReview.

(** A suggested change as [JSON.parse] yields it: every property may be
    missing. *)
Record RawSuggestedChange := {
  raw_source_document_name : option string;
  raw_document_section : option string;
  raw_current_status_summary : option string;
  raw_austrac_relevance : option string;
  raw_suggested_modification : option string;
  raw_priority : option string;
  raw_sc_userFeedback : option UserFeedback;
  raw_sc_basis_of_suggestion : option string;
  raw_web_reference_keywords : option (list string)
}.

Record RawActionPlanItem := {
  raw_task : option string;
  raw_responsible : option string;
  raw_timeline : option string;
  raw_priority_level : option string;
  raw_ap_userFeedback : option UserFeedback;
  raw_ap_basis_of_suggestion : option string
}.

Record RawChallengeResult := {
  raw_suggested_changes : option (list RawSuggestedChange);
  raw_action_plan : option (list RawActionPlanItem)
}.

(** [ids.includes(id)] *)
Definition includes_id (ids : list string) (id : string) : bool :=
  existsb (String.eqb id) ids.

Definition targetedRegulatoryContent (userAustracContent : list AustracUpdate)
    (targetRegulatoryIds : list string) : list AustracUpdate :=
  List.filter (λ doc, includes_id targetRegulatoryIds (au_id doc)) userAustracContent.

Definition targetedCompanyDocs (internalCorpus : list CompanyDocument)
    (companyDocIds : list string) : list CompanyDocument :=
  List.filter (λ doc, includes_id companyDocIds (cd_id doc)) internalCorpus.

(** [c.documentType === 'austrac' &&
     targetedRegulatoryContent.some(d => d.id === c.documentId)] *)
Definition isTargetedRegulatoryChunk (targetedRegulatory : list AustracUpdate)
    (c : DocumentChunk) : bool :=
  bool_decide (documentType c = austrac)
  && existsb (λ d, String.eqb (au_id d) (documentId c)) targetedRegulatory.

(** [c.documentType === 'company' &&
     targetedCompanyDocs.some(d => d.id === c.documentId)] *)
Definition isTargetedCompanyChunk (targetedCompany : list CompanyDocument)
    (c : DocumentChunk) : bool :=
  bool_decide (documentType c = company)
  && existsb (λ d, String.eqb (cd_id d) (documentId c)) targetedCompany.

Definition chunkSeparator : string := nl +:+ nl +:+ "---" +:+ nl +:+ nl.

Definition regulatoryChunkText (c : DocumentChunk) : string :=
  "From Regulatory Document " +:+ quoted (documentName c)
  +:+ " (Retrieved via Vertex AI RAG):" +:+ nl +:+ text c.

Definition companyChunkText (c : DocumentChunk) : string :=
  "From Company Document " +:+ quoted (documentName c)
  +:+ " (Retrieved via Vertex AI RAG):" +:+ nl +:+ text c.

Definition austracContextFromChunks (relevantChunks : list DocumentChunk)
    (targetedRegulatory : list AustracUpdate) : string :=
  join chunkSeparator
    (map regulatoryChunkText
       (List.filter (isTargetedRegulatoryChunk targetedRegulatory) relevantChunks)).

Definition companyContextFromChunks (relevantChunks : list DocumentChunk)
    (targetedCompany : list CompanyDocument) : string :=
  join chunkSeparator
    (map companyChunkText
       (List.filter (isTargetedCompanyChunk targetedCompany) relevantChunks)).

(** [u.summary || 'N/A'] *)
Definition summaryOrNA (u : AustracUpdate) : string :=
  match summary u with
  | Some s => if truthy s then s else "N/A"
  | None => "N/A"
  end.

Definition userPromptContext (relevantChunks : list DocumentChunk)
    (targetedRegulatory : list AustracUpdate) (targetedCompany : list CompanyDocument)
    (newSummarizedLocalUpdates : list AustracUpdate) : string :=
  let austracContext := austracContextFromChunks relevantChunks targetedRegulatory in
  let companyContext := companyContextFromChunks relevantChunks targetedCompany in
  (if truthy austracContext
   then nl +:+ nl +:+ "Retrieved Targeted Regulatory Updates Context (from Vertex AI RAG):"
        +:+ nl +:+ austracContext
   else nl +:+ nl +:+ "No specific Regulatory document context retrieved from Vertex AI RAG; using summaries of the targeted documents. Summaries: "
        +:+ nl
        +:+ join nl (map (λ u, "Title: " +:+ title u +:+ ", Summary: " +:+ summaryOrNA u)
                       newSummarizedLocalUpdates))
  +:+
  (if truthy companyContext
   then nl +:+ nl +:+ "Retrieved Company's Internal Documents Context (from Vertex AI RAG):"
        +:+ nl +:+ companyContext
   else nl +:+ nl +:+ "No specific company document context retrieved from Vertex AI RAG; relying on general document names/types provided. Selected company docs: "
        +:+ join ", " (map cd_name targetedCompany)).

(** The user prompt: the context and the fixed JSON instructions. *)
Definition buildUserPrompt (userPromptContext : string) : string :=
  "
        "
  +:+ userPromptContext
  +:+ "

        Output the analysis in JSON format. For each item in " +:+ quoted "suggested_changes" +:+ ", you MUST include a " +:+ quoted "source_document_name" +:+ " field indicating which of the provided Company Documents it applies to.

        JSON Structure:
        {
          " +:+ quoted "suggested_changes" +:+ ": [ { " +:+ quoted "source_document_name" +:+ ": " +:+ quoted "Name Of The Document.pdf" +:+ ", " +:+ quoted "document_section" +:+ ": " +:+ quoted "..." +:+ ", " +:+ quoted "current_status_summary" +:+ ": " +:+ quoted "..." +:+ ", " +:+ quoted "austrac_relevance" +:+ ": " +:+ quoted "..." +:+ ", " +:+ quoted "suggested_modification" +:+ ": " +:+ quoted "..." +:+ ", " +:+ quoted "priority" +:+ ": " +:+ quoted "High | Medium | Low" +:+ " } ],
          " +:+ quoted "action_plan" +:+ ": [ { " +:+ quoted "task" +:+ ": " +:+ quoted "..." +:+ ", " +:+ quoted "responsible" +:+ ": " +:+ quoted "..." +:+ ", " +:+ quoted "timeline" +:+ ": " +:+ quoted "..." +:+ ", " +:+ quoted "priority_level" +:+ ": " +:+ quoted "High | Medium | Low" +:+ " } ]
        }
        Ensure " +:+ quoted "document_section" +:+ " refers to sections within the " +:+ quoted "source_document_name" +:+ ".
        Prioritize clarity and actionability. If a document is compliant, note it.
      ".

(** The block of learnings of the system prompt, empty without
    learnings. *)
Definition learningsBlock (contextualLearningsForChallenge : list string) : string :=
  match contextualLearningsForChallenge with
  | [] => EmptyString
  | _ =>
      nl +:+ "---Important Context from Previous User Feedback:..." +:+ nl
      +:+ join nl (map (λ learning, "- " +:+ learning) contextualLearningsForChallenge)
      +:+ nl +:+ "---"
  end.

Definition buildSystemPrompt (contextualLearningsForChallenge : list string) : string :=
  "
        Analyze the provided context against the company's internal documentation context. This is a " +:+ quoted "Gap Review" +:+ " to find gaps and suggest improvements, specifically focusing on the impact of the newly provided regulatory content on the selected company documents.
        The company is a Fintech firm focused on international payments and currency exchange.
        Critically evaluate whether the company's documentation reflects a robust, risk-based approach to compliance, where controls are proportionate to the identified risks.
        Identify specific, actionable changes the company needs to make. Also, create a prioritized action plan.
        "
  +:+ learningsBlock contextualLearningsForChallenge
  +:+ "
      ".

(** [['High', 'Medium', 'Low'].includes(p) ? p : 'Medium'] *)
Definition coercePriority (p : option string) : string :=
  match p with
  | Some v => if existsb (String.eqb v) ["High"; "Medium"; "Low"] then v else "Medium"
  | None => "Medium"
  end.

(** [v || "N/A"] *)
Definition orNA (v : option string) : string :=
  match v with
  | Some s => if truthy s then s else "N/A"
  | None => "N/A"
  end.

(** [xs.map((x, index) => ...)] with calls in the callback. *)
Fixpoint mapiM {A B} (f : nat → A → Prog B) (index : nat) (xs : list A)
    : Prog (list B) :=
  match xs with
  | [] => Ret []
  | x :: rest =>
      let* y := f index x in let* ys := mapiM f (S index) rest in Ret (y :: ys)
  end.

Definition finishSuggestedChange (index : nat) (change : RawSuggestedChange)
    : Prog SuggestedChange :=
  let* now := call Now in
  let* uid := call UniqueId in
  Ret {| sc_id := "sc-" +:+ pretty now +:+ "-" +:+ pretty index +:+ "-"
                  +:+ substring0 5 uid;
         document_section := orNA (raw_document_section change);
         current_status_summary := orNA (raw_current_status_summary change);
         austrac_relevance := orNA (raw_austrac_relevance change);
         suggested_modification := orNA (raw_suggested_modification change);
         priority := coercePriority (raw_priority change);
         sc_userFeedback := raw_sc_userFeedback change;
         source_document_name := raw_source_document_name change;
         sc_basis_of_suggestion := raw_sc_basis_of_suggestion change;
         web_reference_keywords := raw_web_reference_keywords change |}.

Definition finishActionPlanItem (index : nat) (item : RawActionPlanItem)
    : Prog ActionPlanItem :=
  let* now := call Now in
  let* uid := call UniqueId in
  Ret {| ap_id := "ap-" +:+ pretty now +:+ "-" +:+ pretty index +:+ "-"
                  +:+ substring0 5 uid;
         task := orNA (raw_task item);
         responsible := orNA (raw_responsible item);
         timeline := orNA (raw_timeline item);
         priority_level := coercePriority (raw_priority_level item);
         ap_userFeedback := raw_ap_userFeedback item;
         ap_basis_of_suggestion := raw_ap_basis_of_suggestion item |}.

(** [change.source_document_name || 'General'] *)
Definition docNameOf (change : SuggestedChange) : string :=
  match source_document_name change with
  | Some n => if truthy n then n else "General"
  | None => "General"
  end.

(** The properties an empty object literal inherits from
    [Object.prototype]: reading one of them on [groupedSuggestions] gives a
    value that is truthy and has no [push]. *)
Definition inheritedProperties : list string :=
  ["constructor"; "__defineGetter__"; "__defineSetter__"; "hasOwnProperty";
   "__lookupGetter__"; "__lookupSetter__"; "isPrototypeOf";
   "propertyIsEnumerable"; "toString"; "valueOf"; "__proto__"; "toLocaleString"].

(** The [forEach] that fills [groupedSuggestions]; [None] when the
    callback throws a [TypeError]. *)
Fixpoint groupLoop (changes : list SuggestedChange)
    (groupedSuggestions : gmap string (list SuggestedChange))
    : option (gmap string (list SuggestedChange)) :=
  match changes with
  | [] => Some groupedSuggestions
  | change :: rest =>
      let docName := docNameOf change in
      match groupedSuggestions !! docName with
      | Some group => groupLoop rest (<[docName := group ++ [change]]> groupedSuggestions)
      | None =>
          if bool_decide (docName ∈ inheritedProperties) then None
          else groupLoop rest (<[docName := [change]]> groupedSuggestions)
      end
  end.

Definition groupSuggestions (suggested_changes : list SuggestedChange)
    : option (gmap string (list SuggestedChange)) :=
  groupLoop suggested_changes ∅.

(** The sum of the sizes of the groups. *)
Definition totalGrouped (g : gmap string (list SuggestedChange)) : nat :=
  map_fold (λ _ group n, length group + n) 0 g.

Definition companySnapshot (d : CompanyDocument) : CompanyDocumentSnapshot :=
  {| cs_id := cd_id d; cs_name := cd_name d; cs_type := cd_type d;
     cs_lastModified := lastModified d; cs_size := cd_size d |}.

Definition austracSnapshot (d : AustracUpdate) : AustracSnapshot :=
  {| as_id := au_id d; as_title := title d; as_type := au_type d;
     as_dateAdded := dateAdded d |}.

(** [!d.isProcessedForRag] *)
Definition notProcessed (flag : option bool) : bool :=
  match flag with Some true => false | _ => true end.

(** *** Ingestion ([ingestAllUnprocessedDocuments]) *)

Record IngestAcc := {
  ia_state : AppState;
  ingestedCount : Z;
  failedCount : Z;
  currentDocProcessingIndex : nat
}.

Definition markCompany (id : string) (d : CompanyDocument) : CompanyDocument :=
  if String.eqb (cd_id d) id
  then {| cd_id := cd_id d; cd_name := cd_name d; textContent := textContent d;
          cd_type := cd_type d; lastModified := lastModified d; cd_size := cd_size d;
          cd_isProcessedForRag := Some true |}
  else d.

Definition markAustrac (id : string) (u : AustracUpdate) : AustracUpdate :=
  if String.eqb (au_id u) id
  then {| au_id := au_id u; title := title u; rawContent := rawContent u;
          au_type := au_type u; dateAdded := dateAdded u;
          au_isProcessedForRag := Some true; summary := summary u |}
  else u.

Definition progressOf (acc : IngestAcc) (total : nat) : string :=
  "(" +:+ pretty (currentDocProcessingIndex acc) +:+ "/" +:+ pretty total +:+ ")".

Definition processAndIngestDoc (forceReprocessAll : bool) (total : nat)
    (docType : DocumentType) (id docNameOrTitle : string) (flag : option bool)
    (acc : IngestAcc) : Prog IngestAcc :=
  let acc :=
    {| ia_state := ia_state acc; ingestedCount := ingestedCount acc;
       failedCount := failedCount acc;
       currentDocProcessingIndex := S (currentDocProcessingIndex acc) |} in
  if negb forceReprocessAll && negb (notProcessed flag) then
    Ret {| ia_state :=
             setIngestionStatus
               ("Skipping already ingested: " +:+ docNameOrTitle +:+ " "
                +:+ progressOf acc total) (ia_state acc);
           ingestedCount := (ingestedCount acc + 1)%Z;
           failedCount := failedCount acc;
           currentDocProcessingIndex := currentDocProcessingIndex acc |}
  else
    let st :=
      setIngestionStatus
        ("Ingesting " +:+ docNameOrTitle +:+ " to Vertex AI RAG "
         +:+ progressOf acc total +:+ "...") (ia_state acc) in
    let* result := call (IngestDocument id docType) in
    match result with
    | Returned (true, _) =>
        Ret {| ia_state :=
                 match docType with
                 | company =>
                     setInternalCorpus (map (markCompany id) (internalCorpus st)) st
                 | austrac =>
                     setUserAustracContent
                       (map (markAustrac id) (userAustracContent st)) st
                 end;
               ingestedCount := (ingestedCount acc + 1)%Z;
               failedCount := failedCount acc;
               currentDocProcessingIndex := currentDocProcessingIndex acc |}
    | Returned (false, _) | Thrown _ =>
        Ret {| ia_state := st; ingestedCount := ingestedCount acc;
               failedCount := (failedCount acc + 1)%Z;
               currentDocProcessingIndex := currentDocProcessingIndex acc |}
    end.

(** The state is the one of the call; the corpora the loops go through
    are those of the closure.  The timer that clears the status five
    seconds later is not part of the run. *)
Definition ingestAllUnprocessedDocuments (forceReprocessAll : bool)
    (closure st : AppState) : Prog AppState :=
  if negb (ai closure) then
    Ret (setDeepDiveError
           (Some "AI client not initialized. Cannot start ingestion process.")
           (setError
              (Some "AI client not initialized. Cannot start ingestion process.") st))
  else
    let st := setIsIngestionProcessing true st in
    let st :=
      setIngestionStatus "Starting Vertex AI RAG document ingestion (simulated)..." st in
    let total := length (internalCorpus closure) + length (userAustracContent closure) in
    let* acc := foldM (λ acc doc,
                   processAndIngestDoc forceReprocessAll total company (cd_id doc)
                     (cd_name doc) (cd_isProcessedForRag doc) acc)
            {| ia_state := st; ingestedCount := 0; failedCount := 0;
               currentDocProcessingIndex := 0 |}
            (internalCorpus closure) in
    let* acc := foldM (λ acc doc,
                   processAndIngestDoc forceReprocessAll total austrac (au_id doc)
                     (title doc) (au_isProcessedForRag doc) acc)
            acc (userAustracContent closure) in
    let st := setIsIngestionProcessing false (ia_state acc) in
    let counts :=
      pretty (ingestedCount acc - failedCount acc)%Z +:+ " successful, "
      +:+ pretty (failedCount acc) +:+ " failed." in
    let finalMessage :=
      if total =? 0 then "No documents to ingest into Vertex AI RAG."
      else if forceReprocessAll
           then "Vertex AI RAG re-ingestion complete (simulated). " +:+ counts
           else "Vertex AI RAG ingestion complete (simulated). " +:+ counts in
    Ret (setIngestionStatus finalMessage st).

(** *** The workflow ([generateGapReview] of the root [App.tsx]) *)

Section Workflow.

(** [RAG_TOP_K_CHUNKS_ANALYSIS] of [constants.tsx]. *)
Variable RAG_TOP_K_CHUNKS_ANALYSIS : nat.

(** [JSON.parse(jsonStr) as ChallengeAnalysisResult], seen through the
    properties the code reads; [None] when the parse throws, or yields
    a value the property reads throw on. *)
Variable JSON_parse : string → option RawChallengeResult.

(** [prev ? prev + more : alone] *)
Definition extendNotification (more alone : string) (st : AppState) : AppState :=
  setChallengeNotification
    (Some match challengeNotification st with
          | Some prev => if truthy prev then prev +:+ " " +:+ more else alone
          | None => alone
          end) st.

Definition summarize (update : AustracUpdate) : Prog AustracUpdate :=
  let summaryPrompt :=
    "Summarize the key compliance implications from the following regulatory content titled "
    +:+ quoted (title update)
    +:+ ". Focus on actionable changes or requirements for a financial services provider, particularly one involved in international payments and currency exchange. The content is: "
    +:+ nl +:+ nl +:+ substring0 (30 * 1000) (rawContent update) in
  let* summaryResult := call (GenerateContent summaryPrompt false false) in
  Ret {| au_id := au_id update; title := title update;
         rawContent := rawContent update; au_type := au_type update;
         dateAdded := dateAdded update;
         au_isProcessedForRag := au_isProcessedForRag update;
         summary := Some match summaryResult with
                         | Returned text => text
                         | Thrown _ => "Could not generate summary due to an error."
                         end |}.

Definition combinedQueryForRag (newSummarizedLocalUpdates : list AustracUpdate)
    (targetedCompany : list CompanyDocument) : string :=
  "Compliance Gap Review for international payments fintech. Analyze impact of new regulations: "
  +:+ join ", " (map title newSummarizedLocalUpdates)
  +:+ " against selected company policies. Company documents include: "
  +:+ join ", " (map cd_name targetedCompany) +:+ ".".

(** The [catch (e)] of the outer [try]. *)
Definition failRun (message : string) (st : AppState) : AppState :=
  setChallengeNotification None
    (setFetchStatus ERROR
       (setError
          (Some ("An error occurred while generating the Gap Review: " +:+ message))
          st)).

(** The [catch (jsonParseError)] of the inner [try]. *)
Definition failParse (st : AppState) : AppState :=
  setChallengeNotification None
    (setFetchStatus ERROR
       (setError
          (Some "Failed to parse the analysis from the AI. The response was not valid JSON. Raw response logged to console.")
          st)).

(** The inner [try] block: parse, post-process, group and save. *)
Definition parseAndSave (jsonStr systemPromptText userPromptText : string)
    (targetedRegulatory : list AustracUpdate) (targetedCompany : list CompanyDocument)
    (newSummarizedLocalUpdates : list AustracUpdate)
    (contextualLearningsForChallenge : list string) (st : AppState)
    : Prog AppState :=
  match JSON_parse jsonStr with
  | None => Ret (failParse st)
  | Some parsedResult =>
      let* suggested_changes :=
        mapiM finishSuggestedChange 0 (default [] (raw_suggested_changes parsedResult)) in
      let* action_plan :=
        mapiM finishActionPlanItem 0 (default [] (raw_action_plan parsedResult)) in
      let inputsUsed :=
        {| companyDocs := map companySnapshot targetedCompany;
           austracContent := map austracSnapshot targetedRegulatory |} in
      let st := setCurrentInputsForChallenge inputsUsed st in
      match groupSuggestions suggested_changes with
      | None => Ret (failParse st)
      | Some groupedSuggestions =>
          let result : AnalysisResult :=
            <["groupedSuggestions" := VGroups groupedSuggestions]>
              (<["action_plan" := VPlan action_plan]>
                 {["suggested_changes" := VChanges suggested_changes]}) in
          let st := setChallengeResult (Some result) st in
          let* idTime := call Now in
          let* localeTime := call LocaleNow in
          let* isoTime := call Now in
          let newAnalysisId := "analysis-" +:+ pretty idTime in
          let newSavedAnalysis :=
            {| sa_id := newAnalysisId;
               sa_name := "Gap Review - " +:+ localeTime;
               timestamp := isoTime;
               sa_type := challenge;
               challengeAnalysisResult := Some result;
               austracInputsUsedSnapshot := Some (austracContent inputsUsed);
               companyDocumentsUsedSnapshot := Some (companyDocs inputsUsed);
               summarizedAustracUpdatesSnapshot := Some newSummarizedLocalUpdates;
               learningsAppliedToThisAnalysis := Some contextualLearningsForChallenge;
               selectedDocumentSnapshot := None;
               deepDiveAnalysisResult := None;
               groundingMetadata := None;
               userPrompt := Some userPromptText;
               systemPrompt := Some systemPromptText |} in
          let st := setSavedAnalyses (newSavedAnalysis :: savedAnalyses st) st in
          let st := setActiveAnalysisId (Some newAnalysisId) st in
          let st :=
            setCurrentAnalysisPrompts
              (Some {| system := systemPromptText; user := userPromptText |}) st in
          let st := setFetchStatus SUCCESS st in
          let st := setChallengeNotification None st in
          let st := setSelectedRegulatoryIdsForGapReview [] st in
          Ret (setSelectedCompanyDocIdsForGapReview [] st)
      end
  end.

(** The outer [try] block. *)
Definition analyse (closure : AppState)
    (targetedRegulatory : list AustracUpdate) (targetedCompany : list CompanyDocument)
    (st : AppState) : Prog AppState :=
  let allPastLearnings :=
    extractLearningsFromFeedback
      (List.filter (λ sa, bool_decide (sa_type sa = challenge)) (savedAnalyses closure))
      None in
  let contextualLearningsForChallenge :=
    selectContextualLearningsForChallengePrompt allPastLearnings targetedCompany 7 in
  let st :=
    match contextualLearningsForChallenge with
    | [] => setChallengeNotification None st
    | _ =>
        setChallengeNotification
          (Some ("Generating Gap Review, incorporating "
                 +:+ pretty (length contextualLearningsForChallenge)
                 +:+ " relevant insight(s) from your past feedback...")) st
    end in
  let systemPromptText := buildSystemPrompt contextualLearningsForChallenge in
  let st :=
    extendNotification "Summarizing selected regulatory updates..."
      ("Summarizing " +:+ pretty (length targetedRegulatory)
       +:+ " selected regulatory update(s)...") st in
  let* newSummarizedLocalUpdates := mapM summarize targetedRegulatory in
  let st := setSummarizedUserAustracUpdates newSummarizedLocalUpdates st in
  let st :=
    extendNotification
      "Retrieving relevant document sections from Vertex AI RAG (simulated)..."
      "Retrieving relevant document sections from Vertex AI RAG (simulated)..." st in
  let* retrieved :=
    call (RetrieveContext
            (combinedQueryForRag newSummarizedLocalUpdates targetedCompany)
            RAG_TOP_K_CHUNKS_ANALYSIS) in
  match retrieved with
  | Thrown message => Ret (failRun message st)
  | Returned relevantChunks =>
      let userPromptText :=
        buildUserPrompt (userPromptContext relevantChunks targetedRegulatory
                      targetedCompany newSummarizedLocalUpdates) in
      let st :=
        extendNotification "Generating final Gap Review with AI..."
          "Generating final Gap Review with AI..." st in
      let* analysisResponse :=
        call (GenerateContent (systemPromptText +:+ userPromptText) true false) in
      match analysisResponse with
      | Thrown message => Ret (failRun message st)
      | Returned responseText =>
          parseAndSave (repair responseText) systemPromptText userPromptText
            targetedRegulatory targetedCompany newSummarizedLocalUpdates
            contextualLearningsForChallenge st
      end
  end.

Definition validationMessage : string :=
  "Please select at least one Company Document AND at least one Regulatory Input to target for the Gap Review.".

(** [st] holds the values of the closure ([ai], the corpora, the saved
    analyses) and is the state the updates apply to.  The timer that
    clears the ingestion status three seconds later is not part of
    the run. *)
Definition generateGapReview (targetRegulatoryIds companyDocIds : list string)
    (st : AppState) : Prog AppState :=
  if negb (ai st) then
    Ret (setFetchStatus ERROR (setError (Some "AI client not initialized.") st))
  else if (length companyDocIds =? 0) || (length targetRegulatoryIds =? 0) then
    Ret (setFetchStatus IDLE (setError (Some validationMessage) st))
  else
    let closure := st in
    let targetedRegulatory :=
      targetedRegulatoryContent (userAustracContent closure) targetRegulatoryIds in
    let targetedCompany :=
      targetedCompanyDocs (internalCorpus closure) companyDocIds in
    let st := setFetchStatus LOADING st in
    let st := setError None st in
    let st := setChallengeResult None st in
    let st := setSummarizedUserAustracUpdates [] st in
    let st :=
      setCurrentInputsForChallenge {| companyDocs := []; austracContent := [] |} st in
    let st := setActiveAnalysisId None st in
    let st := setChallengeNotification None st in
    let st := setDeepDiveAnalysisNotification None st in
    let st := setCurrentAnalysisPrompts None st in
    let uningestedDocsExist :=
      existsb (λ d, notProcessed (cd_isProcessedForRag d)) targetedCompany
      || existsb (λ d, notProcessed (au_isProcessedForRag d)) targetedRegulatory in
    let* st :=
      if uningestedDocsExist then
        let st :=
          setIngestionStatus
            "Some selected documents are not yet ingested for RAG. Analysis may be limited. Processing now (simulated)..."
            st in
        let* st := ingestAllUnprocessedDocuments false closure st in
        Ret (setIngestionStatus
               "Document ingestion for Gap Review complete (simulated)." st)
      else Ret st in
    let* st := analyse closure targetedRegulatory targetedCompany st in
    Ret (setIngestionStatus EmptyString st).

End Workflow.

End GapReview.
Import GapReview.

(** ** The analysis store: operations *)

Module StoreOps.

(** The shallow merge of a partial result into a result: the properties
    of the second spread win. *)
Definition mergeResult (existing updatedAnalysisData : AnalysisResult)
    : AnalysisResult :=
  updatedAnalysisData ∪ existing.

Definition withChallengeResult (r : AnalysisResult) (now : Z) (sa : SavedAnalysis)
    : SavedAnalysis :=
  {| sa_id := sa_id sa; sa_name := sa_name sa; timestamp := now;
     sa_type := sa_type sa; challengeAnalysisResult := Some r;
     austracInputsUsedSnapshot := austracInputsUsedSnapshot sa;
     companyDocumentsUsedSnapshot := companyDocumentsUsedSnapshot sa;
     summarizedAustracUpdatesSnapshot := summarizedAustracUpdatesSnapshot sa;
     learningsAppliedToThisAnalysis := learningsAppliedToThisAnalysis sa;
     selectedDocumentSnapshot := selectedDocumentSnapshot sa;
     deepDiveAnalysisResult := deepDiveAnalysisResult sa;
     groundingMetadata := groundingMetadata sa;
     userPrompt := userPrompt sa; systemPrompt := systemPrompt sa |}.

Definition withDeepDiveResult (r : AnalysisResult) (now : Z) (sa : SavedAnalysis)
    : SavedAnalysis :=
  {| sa_id := sa_id sa; sa_name := sa_name sa; timestamp := now;
     sa_type := sa_type sa; challengeAnalysisResult := challengeAnalysisResult sa;
     austracInputsUsedSnapshot := austracInputsUsedSnapshot sa;
     companyDocumentsUsedSnapshot := companyDocumentsUsedSnapshot sa;
     summarizedAustracUpdatesSnapshot := summarizedAustracUpdatesSnapshot sa;
     learningsAppliedToThisAnalysis := learningsAppliedToThisAnalysis sa;
     selectedDocumentSnapshot := selectedDocumentSnapshot sa;
     deepDiveAnalysisResult := Some r;
     groundingMetadata := groundingMetadata sa;
     userPrompt := userPrompt sa; systemPrompt := systemPrompt sa |}.

(** The callback of the [map] in [updateFeedbackInSavedAnalyses]; [now]
    is what [new Date()] reads. *)
Definition mergeInto (analysisIdToUpdate : string)
    (updatedAnalysisData : AnalysisResult) (now : Z) (sa : SavedAnalysis)
    : SavedAnalysis :=
  if String.eqb (sa_id sa) analysisIdToUpdate then
    match sa_type sa, challengeAnalysisResult sa, deepDiveAnalysisResult sa with
    | challenge, Some r, _ =>
        withChallengeResult (mergeResult r updatedAnalysisData) now sa
    | deepDive, _, Some r =>
        withDeepDiveResult (mergeResult r updatedAnalysisData) now sa
    | _, _, _ => sa
    end
  else sa.

(** The new value of [savedAnalyses]. *)
Definition updateFeedbackInSavedAnalyses (analysisIdToUpdate : string)
    (updatedAnalysisData : AnalysisResult) (now : Z)
    (savedAnalyses : list SavedAnalysis) : list SavedAnalysis :=
  sortByTimestampDesc
    (map (mergeInto analysisIdToUpdate updatedAnalysisData now) savedAnalyses).

(** [{ ...sa, name: newName }] *)
Definition withName (newName : string) (sa : SavedAnalysis) : SavedAnalysis :=
  {| sa_id := sa_id sa; sa_name := newName; timestamp := timestamp sa;
     sa_type := sa_type sa; challengeAnalysisResult := challengeAnalysisResult sa;
     austracInputsUsedSnapshot := austracInputsUsedSnapshot sa;
     companyDocumentsUsedSnapshot := companyDocumentsUsedSnapshot sa;
     summarizedAustracUpdatesSnapshot := summarizedAustracUpdatesSnapshot sa;
     learningsAppliedToThisAnalysis := learningsAppliedToThisAnalysis sa;
     selectedDocumentSnapshot := selectedDocumentSnapshot sa;
     deepDiveAnalysisResult := deepDiveAnalysisResult sa;
     groundingMetadata := groundingMetadata sa;
     userPrompt := userPrompt sa; systemPrompt := systemPrompt sa |}.

Definition renameIn (idToRename newName : string) (prev : list SavedAnalysis)
    : list SavedAnalysis :=
  map (λ sa, if String.eqb (sa_id sa) idToRename then withName newName sa else sa) prev.

Definition handleRenameAnalysis (idToRename newName : string) (st : AppState)
    : AppState :=
  setSavedAnalyses (renameIn idToRename newName (savedAnalyses st)) st.

(** [activeAnalysisId === idToDelete] *)
Definition isActive (st : AppState) (id : string) : bool :=
  match activeAnalysisId st with
  | Some a => String.eqb a id
  | None => false
  end.

(** [handleDeleteAnalysis]; [cleared] is what the selected deep-dive
    document is reset to: [null] in the root [App.tsx], the empty string
    in [frontend/src/App.tsx]. *)
Definition deleteWith (cleared : option string) (idToDelete : string) (st : AppState)
    : AppState :=
  let st' :=
    setSavedAnalyses
      (List.filter (λ sa, negb (String.eqb (sa_id sa) idToDelete)) (savedAnalyses st))
      st in
  if isActive st idToDelete then
    let st' := setActiveAnalysisId None st' in
    let st' := setChallengeResult None st' in
    let st' := setSummarizedUserAustracUpdates [] st' in
    let st' :=
      setCurrentInputsForChallenge {| companyDocs := []; austracContent := [] |} st' in
    let st' := setFetchStatus IDLE st' in
    let st' := setDeepDiveResult None st' in
    let st' := setSelectedDocForDeepDiveId cleared st' in
    let st' := setDeepDiveGroundingMetadata None st' in
    let st' := setDeepDiveFetchStatus IDLE st' in
    setCurrentAnalysisPrompts None st'
  else st'.

Definition handleDeleteAnalysis : string → AppState → AppState := deleteWith None.

(** [savedAnalyses.find(sa => sa.id === id)], then the result its type
    names. *)
Definition resultOf (id : string) (l : list SavedAnalysis) : option AnalysisResult :=
  sa ← find id l; resultSource sa.

(** The active pointer, when set, names a saved analysis. *)
Definition active_in_store (st : AppState) : Prop :=
  ∀ id, activeAnalysisId st = Some id → is_Some (find id (savedAnalyses st)).

End StoreOps.
Import StoreOps.

(** ** The frontend variant ([frontend/src/App.tsx]) *)

Module Frontend.

(** The analysis comes whole from the backend service. *)
Definition generateGapReview (targetRegulatoryIds companyDocIds : list string)
    (st : AppState) : Prog AppState :=
  if (length companyDocIds =? 0) || (length targetRegulatoryIds =? 0) then
    Ret (setFetchStatus IDLE (setError (Some validationMessage) st))
  else
    let closure := st in
    let st := setFetchStatus LOADING st in
    let st := setError None st in
    let st := setChallengeResult None st in
    let st := setSummarizedUserAustracUpdates [] st in
    let st :=
      setCurrentInputsForChallenge {| companyDocs := []; austracContent := [] |} st in
    let st := setActiveAnalysisId None st in
    let st :=
      setChallengeNotification
        (Some "Sending request to backend for Gap Review analysis...") st in
    let st := setCurrentAnalysisPrompts None st in
    let st := setDeepDiveAnalysisNotification None st in
    let st :=
      setChallengeNotification
        (Some "Backend is processing... This may take a moment.") st in
    let* answer :=
      call (GapReviewInBackend targetRegulatoryIds companyDocIds
              (userAustracContent closure) (internalCorpus closure)
              (savedAnalyses closure)) in
    match answer with
    | Thrown message => Ret (failRun message st)
    | Returned newSavedAnalysis =>
        let st := setChallengeResult (challengeAnalysisResult newSavedAnalysis) st in
        let st :=
          setSummarizedUserAustracUpdates
            (default [] (summarizedAustracUpdatesSnapshot newSavedAnalysis)) st in
        let st :=
          setCurrentInputsForChallenge
            {| companyDocs := default [] (companyDocumentsUsedSnapshot newSavedAnalysis);
               austracContent := default [] (austracInputsUsedSnapshot newSavedAnalysis) |}
            st in
        let st :=
          match systemPrompt newSavedAnalysis, userPrompt newSavedAnalysis with
          | Some s, Some u =>
              if truthy s && truthy u
              then setCurrentAnalysisPrompts (Some {| system := s; user := u |}) st
              else st
          | _, _ => st
          end in
        let st :=
          setSavedAnalyses
            (sortByTimestampDesc (newSavedAnalysis :: savedAnalyses st)) st in
        let st := setActiveAnalysisId (Some (sa_id newSavedAnalysis)) st in
        let st := setFetchStatus SUCCESS st in
        let st := setChallengeNotification None st in
        let st := setSelectedRegulatoryIdsForGapReview [] st in
        Ret (setSelectedCompanyDocIdsForGapReview [] st)
    end.

Definition handleDeleteAnalysis : string → AppState → AppState :=
  deleteWith (Some EmptyString).

End Frontend.

(** ** Vocabulary of the statements *)

Module Vocabulary.

(** Every code unit of [s] satisfies [p]. *)
Fixpoint all_chars (p : ascii → bool) (s : string) : bool :=
  match s with
  | EmptyString => true
  | String c s' => p c && all_chars p s'
  end.

(** A timeline field up to the place of the next key: the key, spaces,
    the value between double quotes, a comma and spaces. *)
Definition timelineField (wsa v wsb : string) : string :=
  timelineKey +:+ wsa +:+ dq +:+ v +:+ dq +:+ "," +:+ wsb.

(** A code unit of a value that [.] matches and that does not end the
    value. *)
Definition plain_value_char (c : ascii) : bool :=
  is_dot c && negb (Ascii.eqb c dq_char).

Definition priorities : list string := ["High"; "Medium"; "Low"].

(** The leading code units of [s] that satisfy [p]. *)
Fixpoint leading (p : ascii → bool) (s : string) : string :=
  match s with
  | String c s' => if p c then String c (leading p s') else EmptyString
  | EmptyString => EmptyString
  end.

(** High, Medium or Low at the start of [s], and what follows. *)
Definition priority_prefix (s : string) : option (string * string) :=
  match strip_prefix "High" s with
  | Some r => Some ("High", r)
  | None =>
      match strip_prefix "Medium" s with
      | Some r => Some ("Medium", r)
      | None =>
          match strip_prefix "Low" s with
          | Some r => Some ("Low", r)
          | None => None
          end
      end
  end.

(** A priority between double quotes at the start of [s], and what
    follows. *)
Definition quoted_priority (s : string) : option (string * string) :=
  match s with
  | String b s1 =>
      if Ascii.eqb dq_char b then
        match priority_prefix s1 with
        | Some (P, String b' s2) => if Ascii.eqb dq_char b' then Some (P, s2) else None
        | _ => None
        end
      else None
  | EmptyString => None
  end.

(** The end of a defective timeline field at the start of [s]: the closing
    double quote of the value, a comma, spaces and a quoted priority.  The
    result is the spaces, the priority and what follows. *)
Definition field_end (s : string) : option (string * string * string) :=
  match strip_prefix (dq +:+ ",") s with
  | Some s1 =>
      match quoted_priority (trimStart s1) with
      | Some (P, rest) => Some (leading is_space s1, P, rest)
      | None => None
      end
  | None => None
  end.

(** The shortest run of [.] after which the field ends. *)
Fixpoint value_then_end (s : string) : option (string * (string * string * string)) :=
  match field_end s with
  | Some e => Some (EmptyString, e)
  | None =>
      match s with
      | String c s' =>
          if is_dot c then
            match value_then_end s' with
            | Some (u, e) => Some (String c u, e)
            | None => None
            end
          else None
      | EmptyString => None
      end
  end.

(** The match of the missing-key pattern at the start of [s]: group 1,
    group 2 and what follows the match. *)
Definition missing_key_at (s : string) : option (string * string * string) :=
  match strip_prefix timelineKey s with
  | Some s1 =>
      match trimStart s1 with
      | String b s2 =>
          if Ascii.eqb dq_char b then
            match value_then_end s2 with
            | Some (u, (ws, P, rest)) =>
                Some (timelineKey +:+ leading is_space s1 +:+ dq +:+ u +:+ dq +:+ ","
                      +:+ ws, P, rest)
            | None => None
            end
          else None
      | EmptyString => None
      end
  | None => None
  end.

(** The last code unit of [s]. *)
Fixpoint last_char (s : string) : option ascii :=
  match s with
  | EmptyString => None
  | String c EmptyString => Some c
  | String _ s' => last_char s'
  end.

(** [pre] ends where a key can start: it is empty or its last code unit
    is not a word character. *)
Definition key_position (pre : string) : bool :=
  match last_char pre with
  | Some c => negb (is_word c)
  | None => true
  end.

(** A code unit other than the double quote. *)
Definition not_dq (c : ascii) : bool := negb (Ascii.eqb dq_char c).

(** The learnings of one analysis, in the order of its suggested
    changes. *)
Definition learningsOf (analysis : SavedAnalysis) : list string :=
  omap (feedbackLearning analysis)
    (default [] (suggested_changes_of (resultSource analysis))).

(** The condition under which the code makes a feedback a learning, as a
    proposition. *)
Definition qualifying (fb : UserFeedback) : Prop :=
  status fb = Some "Actioned"
  ∨ ((∃ st, status fb = Some st ∧ st ≠ EmptyString)
     ∧ ∃ t, finalAdoptedText fb = Some t ∧ t ≠ EmptyString)
  ∨ (status fb = Some "Not Applicable"
     ∧ ∃ n, notes fb = Some n ∧ trim n ≠ EmptyString).

(** One learning, as the two loops of the selection treat it. *)
Definition selectStep (docs : list CompanyDocument) (learningString : string)
    (acc : Acc) : Acc :=
  match dedupKey learningString with
  | Some key =>
      if relevant docs learningString
         && negb (bool_decide (key ∈ addedLearningContents acc))
      then {| contextualLearnings := contextualLearnings acc ++ [learningString];
              addedLearningContents := {[ key ]} ∪ addedLearningContents acc |}
      else acc
  | None => acc
  end.

(** The learnings whose deduplication key is not in [seen] and not the
    key of a learning before them, in order. *)
Fixpoint newKeys (seen : gset string) (learnings : list string) : list string :=
  match learnings with
  | [] => []
  | l :: rest =>
      match dedupKey l with
      | Some key =>
          if bool_decide (key ∈ seen) then newKeys seen rest
          else l :: newKeys ({[ key ]} ∪ seen) rest
      | None => newKeys seen rest
      end
  end.


(** The state a rejected Gap Review run ends in. *)
Definition rejected (st : AppState) : AppState :=
  setFetchStatus IDLE (setError (Some validationMessage) st).

(** The changes of a list that go to group [k], in order. *)
Definition groupOf (k : string) (changes : list SuggestedChange)
    : list SuggestedChange :=
  List.filter (λ c, String.eqb (docNameOf c) k) changes.

(** What the grouping loop leaves in a group that held [before] after it
    has seen the changes [added] of that group. *)
Definition extended (before : option (list SuggestedChange))
    (added : list SuggestedChange) : option (list SuggestedChange) :=
  match before, added with
  | None, [] => None
  | None, _ => Some added
  | Some old, _ => Some (old ++ added)
  end.

(** Everything of the state but the store is the same. *)
Definition same_but_store (st st' : AppState) : Prop :=
  setSavedAnalyses (savedAnalyses st) st' = st.

(** The displayed result state is cleared; [cleared] is what the selected
    deep-dive document is reset to. *)
Definition displayed_state_cleared (cleared : option string) (st : AppState) : Prop :=
  activeAnalysisId st = None
  ∧ challengeResult st = None ∧ deepDiveResult st = None
  ∧ summarizedUserAustracUpdates st = []
  ∧ currentInputsForChallenge st = {| companyDocs := []; austracContent := [] |}
  ∧ currentAnalysisPrompts st = None
  ∧ deepDiveGroundingMetadata st = None
  ∧ fetchStatus st = IDLE ∧ deepDiveFetchStatus st = IDLE
  ∧ selectedDocForDeepDiveId st = cleared.

(** The collaborators of [w] with a Retriever whose answers go through
    [f]. *)
Definition withChunks (f : list DocumentChunk → list DocumentChunk) (w : World)
    : World :=
  λ R log e,
    match e in Event R return R → R with
    | RetrieveContext _ _ =>
        λ r, match r with
             | Returned chunks => Returned (f chunks)
             | Thrown message => Thrown message
             end
    | _ => λ r, r
    end (w R log e).

(** A program that never calls the Retriever. *)
Fixpoint retrieval_free {A} (p : Prog A) : Prop :=
  match p with
  | Ret _ => True
  | Vis e k =>
      match e with RetrieveContext _ _ => False | _ => True end
      ∧ ∀ r, retrieval_free (k r)
  end.

End Vocabulary.
Import Vocabulary.

(** ** Sample data *)

Module Samples.

Definition feedback (st n adopted : option string) : UserFeedback :=
  {| status := st; notes := n; lastUpdated := "2025-01-02T10:00:00.000Z";
     finalAdoptedText := adopted |}.

Definition change (id section : string) (source : option string)
    (fb : option UserFeedback) : SuggestedChange :=
  {| sc_id := id; document_section := section;
     current_status_summary := "Outdated"; austrac_relevance := "Chapter 4";
     suggested_modification := "Update the threshold"; priority := "High";
     sc_userFeedback := fb; source_document_name := source;
     sc_basis_of_suggestion := None; web_reference_keywords := None |}.

Definition gapReview (id name : string) (t : Z) (changes : list SuggestedChange)
    : SavedAnalysis :=
  {| sa_id := id; sa_name := name; timestamp := t; sa_type := challenge;
     challengeAnalysisResult := Some {[ "suggested_changes" := VChanges changes ]};
     austracInputsUsedSnapshot := None; companyDocumentsUsedSnapshot := None;
     summarizedAustracUpdatesSnapshot := None;
     learningsAppliedToThisAnalysis := None; selectedDocumentSnapshot := None;
     deepDiveAnalysisResult := None; groundingMetadata := None;
     userPrompt := Some "user prompt"; systemPrompt := Some "system prompt" |}.

Definition document (id name : string) : CompanyDocument :=
  {| cd_id := id; cd_name := name; textContent := "Text"; cd_type := pdf;
     lastModified := 0; cd_size := 4; cd_isProcessedForRag := Some true |}.

Definition regulation : AustracUpdate :=
  {| au_id := "reg-1"; title := "Threshold transaction reporting";
     rawContent := "Reporting entities must report transfers.";
     au_type := txt; dateAdded := "2025-01-01T00:00:00.000Z";
     au_isProcessedForRag := Some true; summary := None |}.

Definition policyA : CompanyDocument := document "doc-a" "Policy A.pdf".
Definition policyB : CompanyDocument := document "doc-b" "Policy B.pdf".

Definition actioned : UserFeedback :=
  feedback (Some "Actioned") (Some "Done in March") None.

Definition pendingReview : UserFeedback :=
  feedback (Some "Pending Review") None None.

(** An adopted text and no status label. *)
Definition adoptedWithoutStatus : UserFeedback :=
  feedback None None (Some "The threshold is 10,000 AUD.").

Definition older : SavedAnalysis :=
  gapReview "analysis-1" "Gap Review - 1/2/2025, 10:00:00 AM" 1000
    [change "sc-1" "Policy A.pdf" (Some "Policy A.pdf") (Some actioned);
     change "sc-2" "Policy" None (Some pendingReview)].

Definition newer : SavedAnalysis :=
  gapReview "analysis-2" "Gap Review - 2/2/2025, 9:00:00 AM" 2000
    [change "sc-3" "Policy" (Some "Policy B.pdf") (Some actioned)].

Definition store : list SavedAnalysis := [newer; older].

(** The learning about the section [Policy A.pdf] of [older]. *)
Definition learningPolicyA : string :=
  "Feedback for suggestion regarding 'Policy A.pdf' (Gap Review: Gap Review - 1/2/202...): User status set to 'Actioned'. Note: "
  +:+ quoted "Done in March" +:+ ".".


Definition stateWith (client : bool) (analyses : list SavedAnalysis)
    (active : option string) : AppState :=
  {| ai := client; userAustracContent := [regulation];
     internalCorpus := [policyA; policyB];
     challengeResult := None; summarizedUserAustracUpdates := [];
     currentInputsForChallenge := {| companyDocs := []; austracContent := [] |};
     selectedRegulatoryIdsForGapReview := [];
     selectedCompanyDocIdsForGapReview := [];
     fetchStatus := SUCCESS; error := None; savedAnalyses := analyses;
     activeAnalysisId := active; challengeNotification := None;
     deepDiveAnalysisNotification := None; isIngestionProcessing := false;
     ingestionStatus := EmptyString; selectedDocForDeepDiveId := None;
     deepDiveResult := None; deepDiveFetchStatus := IDLE; deepDiveError := None;
     deepDiveGroundingMetadata := None; currentAnalysisPrompts := None |}.

(** Collaborators that are out of reach. *)
Definition offline : World :=
  λ R log e,
    match e in Event R return R with
    | GenerateContent _ _ _ => Thrown "offline"
    | RetrieveContext _ _ => Thrown "offline"
    | IngestDocument _ _ => Thrown "offline"
    | GapReviewInBackend _ _ _ _ _ => Thrown "offline"
    | Now => 0%Z
    | LocaleNow => EmptyString
    | UniqueId => EmptyString
    end.

(** A retrieved chunk of each kind. *)
Definition chunk (id docId : string) (type : DocumentType) : DocumentChunk :=
  {| dc_id := id; documentId := docId; documentName := "Name"; documentType := type;
     text := "Chunk text"; keywords := []; charCount := 10 |}.

(** A well-formed output that holds a brace, a word and a brace inside a
    string literal. *)
Definition bracesInString : string :=
  "{" +:+ quoted "a" +:+ ":" +:+ quoted "}b{" +:+ "}".

(** The start of an action plan: a first item that is as it should be,
    and the start of the second. *)
Definition firstItem : string :=
  "[{" +:+ quoted "timeline" +:+ ": " +:+ quoted "Q1 2025" +:+ ", "
    +:+ quoted "priority_level" +:+ ": " +:+ quoted "Low" +:+ "}, {".

(** The timeline field followed by a bare priority. *)
Definition bareHigh : string :=
  quoted "timeline" +:+ ": " +:+ quoted "Q1 2025" +:+ ", " +:+ quoted "High".

End Samples.

(** ** Viewing a saved analysis (root [App.tsx]) *)

Module Viewing.

(** The tabs of the application. *)
Inductive Tab :=
| tabChallenge | tabDeepDive | tabAustracInputs | tabCompanyDocs | tabChat | tabHistory.

#[global] Instance Tab_eq_dec : EqDecision Tab.
Proof. solve_decision. Defined.

(** The application state together with the tab that is shown. *)
Record View := {
  view_state : AppState;
  activeTab : Tab
}.

(** [analysisToLoad.systemPrompt && analysisToLoad.userPrompt], then the
    prompts, [null] otherwise. *)
Definition promptsOf (analysisToLoad : SavedAnalysis) : option AnalysisPrompts :=
  match systemPrompt analysisToLoad, userPrompt analysisToLoad with
  | Some s, Some u =>
      if truthy s && truthy u then Some {| system := s; user := u |} else None
  | _, _ => None
  end.

(** [analysisToLoad.selectedDocumentSnapshot?.id || null] *)
Definition snapshotIdOf (analysisToLoad : SavedAnalysis) : option string :=
  match selectedDocumentSnapshot analysisToLoad with
  | Some snapshot => if truthy (cs_id snapshot) then Some (cs_id snapshot) else None
  | None => None
  end.

(** [analysesList] is the optional second argument; an array is truthy
    even when it is empty. *)
Definition loadAnalysisForViewing (analysisIdToLoad : string)
    (analysesList : option (list SavedAnalysis)) (v : View) : View :=
  let st := view_state v in
  let listToUse := default (savedAnalyses st) analysesList in
  match find analysisIdToLoad listToUse with
  | Some analysisToLoad =>
      let st := setActiveAnalysisId (Some (sa_id analysisToLoad)) st in
      let st := setChallengeNotification None st in
      let st := setDeepDiveAnalysisNotification None st in
      let st := setError None st in
      let st := setDeepDiveError None st in
      let st := setCurrentAnalysisPrompts (promptsOf analysisToLoad) st in
      match sa_type analysisToLoad, challengeAnalysisResult analysisToLoad,
            deepDiveAnalysisResult analysisToLoad with
      | challenge, Some result, _ =>
          let st := setChallengeResult (Some result) st in
          let st :=
            setSummarizedUserAustracUpdates
              (default [] (summarizedAustracUpdatesSnapshot analysisToLoad)) st in
          let st :=
            setCurrentInputsForChallenge
              {| companyDocs := default [] (companyDocumentsUsedSnapshot analysisToLoad);
                 austracContent := default [] (austracInputsUsedSnapshot analysisToLoad) |}
              st in
          let st := setSelectedRegulatoryIdsForGapReview [] st in
          let st := setSelectedCompanyDocIdsForGapReview [] st in
          let st := setFetchStatus SUCCESS st in
          let st := setDeepDiveResult None st in
          let st := setSelectedDocForDeepDiveId None st in
          let st := setDeepDiveGroundingMetadata None st in
          let st := setDeepDiveFetchStatus IDLE st in
          {| view_state := st; activeTab := tabChallenge |}
      | deepDive, _, Some result =>
          let st := setDeepDiveResult (Some result) st in
          let st := setSelectedDocForDeepDiveId (snapshotIdOf analysisToLoad) st in
          let st := setDeepDiveGroundingMetadata (groundingMetadata analysisToLoad) st in
          let st := setDeepDiveFetchStatus SUCCESS st in
          let st := setChallengeResult None st in
          let st := setSummarizedUserAustracUpdates [] st in
          let st :=
            setCurrentInputsForChallenge {| companyDocs := []; austracContent := [] |} st in
          let st := setFetchStatus IDLE st in
          {| view_state := st; activeTab := tabDeepDive |}
      | _, _, _ =>
          let st := setFetchStatus IDLE st in
          let st := setDeepDiveFetchStatus IDLE st in
          let st := setCurrentAnalysisPrompts None st in
          {| view_state := st; activeTab := activeTab v |}
      end
  | None =>
      let st := setChallengeResult None st in
      let st := setSummarizedUserAustracUpdates [] st in
      let st :=
        setCurrentInputsForChallenge {| companyDocs := []; austracContent := [] |} st in
      let st := setDeepDiveResult None st in
      let st := setSelectedDocForDeepDiveId None st in
      let st := setDeepDiveGroundingMetadata None st in
      let st := setActiveAnalysisId None st in
      let st := setFetchStatus IDLE st in
      let st := setDeepDiveFetchStatus IDLE st in
      let st := setCurrentAnalysisPrompts None st in
      {| view_state := st; activeTab := activeTab v |}
  end.

(** The Gap Review view is reset: the first branch of the effect on
    [activeTab], [activeAnalysisId] and [savedAnalyses]. *)
Definition clearChallengeView (st : AppState) : AppState :=
  let st := setActiveAnalysisId None st in
  let st := setChallengeResult None st in
  let st := setSummarizedUserAustracUpdates [] st in
  let st :=
    setCurrentInputsForChallenge {| companyDocs := []; austracContent := [] |} st in
  let st := setSelectedRegulatoryIdsForGapReview [] st in
  let st := setFetchStatus IDLE st in
  let st := setError None st in
  let st := setChallengeNotification None st in
  setCurrentAnalysisPrompts None st.

(** [handleClearDeepDiveView], which is also what the second branch of
    the effect does. *)
Definition handleClearDeepDiveView (st : AppState) : AppState :=
  let st := setActiveAnalysisId None st in
  let st := setDeepDiveResult None st in
  let st := setSelectedDocForDeepDiveId None st in
  let st := setDeepDiveGroundingMetadata None st in
  let st := setDeepDiveFetchStatus IDLE st in
  let st := setDeepDiveError None st in
  let st := setDeepDiveAnalysisNotification None st in
  setCurrentAnalysisPrompts None st.

(** The effect that runs when the tab, the active pointer or the store
    changes: a view whose analysis is of the other kind is reset. *)
Definition tabEffect (v : View) : View :=
  let st := view_state v in
  match activeAnalysisId st with
  | Some activeId =>
      if truthy activeId then
        match find activeId (savedAnalyses st) with
        | None => v
        | Some activeAnalysis =>
            if bool_decide (activeTab v = tabChallenge)
               && negb (bool_decide (sa_type activeAnalysis = challenge))
            then {| view_state := clearChallengeView st; activeTab := activeTab v |}
            else if bool_decide (activeTab v = tabDeepDive)
                    && negb (bool_decide (sa_type activeAnalysis = deepDive))
            then {| view_state := handleClearDeepDiveView st; activeTab := activeTab v |}
            else v
        end
      else v
  | None => v
  end.

End Viewing.
Import Viewing.

(** ** Learnings for the chat (root [App.tsx]) *)

Module ChatLearnings.

(** The tag by which the learnings of an analysis are recognised. *)
Definition analysisTag (activeAnalysis : SavedAnalysis) : string :=
  "(" +:+ analysisTypeLabel activeAnalysis +:+ ": "
  +:+ substring0 20 (sa_name activeAnalysis) +:+ "...)".

(** The loop over the general learnings. *)
Fixpoint addGeneral (maxTotalLearnings : nat) (generalRecentLearnings : list string)
    (combinedLearnings : list string) : list string :=
  match generalRecentLearnings with
  | [] => combinedLearnings
  | generalLearning :: rest =>
      if maxTotalLearnings <=? length combinedLearnings then combinedLearnings
      else addGeneral maxTotalLearnings rest
             (if bool_decide (generalLearning ∈ combinedLearnings)
              then combinedLearnings
              else combinedLearnings ++ [generalLearning])
  end.

Definition selectContextualLearningsForChat (generalRecentLearnings : list string)
    (activeAnalysis : option SavedAnalysis) (allSavedAnalyses : list SavedAnalysis)
    (extractAllLearningsFn : list SavedAnalysis → list string)
    (maxTotalLearnings : nat) : list string :=
  match activeAnalysis with
  | None => generalRecentLearnings
  | Some activeAnalysis =>
      let fullPotentialLearnings := extractAllLearningsFn allSavedAnalyses in
      let activeAnalysisSpecificLearnings :=
        List.filter (λ learning, includes learning (analysisTag activeAnalysis))
          fullPotentialLearnings in
      let combinedLearnings :=
        if length activeAnalysisSpecificLearnings <? maxTotalLearnings
        then addGeneral maxTotalLearnings generalRecentLearnings
               activeAnalysisSpecificLearnings
        else activeAnalysisSpecificLearnings in
      take maxTotalLearnings combinedLearnings
  end.

(** [finalLearningsForPrompt] of [initializeChat], as the effect that
    initialises the chat calls it: [chatbotLearnings] as the general
    learnings, the active analysis when the pointer names one, the store,
    and the extraction without a cap as [extractAllLearningsFn]; the cap is
    the default of the parameter. *)
Definition finalLearningsForPrompt (chatbotLearnings : list string) (st : AppState)
    : list string :=
  selectContextualLearningsForChat chatbotLearnings
    (match activeAnalysisId st with
     | Some activeId =>
         if truthy activeId then find activeId (savedAnalyses st) else None
     | None => None
     end)
    (savedAnalyses st)
    (λ analyses, extractLearningsFromFeedback analyses None)
    10.

End ChatLearnings.
Import ChatLearnings.

(** ** Feedback on suggestions and action items (root [App.tsx]) *)

Module Feedback.

(** [Partial<UserFeedback>]: for each property, [Some] of its value when
    the object has the property; the value [undefined] is [None]. *)
Record FeedbackUpdate := {
  fu_status : option (option string);
  fu_notes : option (option string);
  fu_lastUpdated : option (option string);
  fu_finalAdoptedText : option (option string)
}.

(** [{ lastUpdated: new Date().toISOString() }], and the same with
    [finalAdoptedText: change.userFeedback?.finalAdoptedText] where there
    is no [userFeedback]. *)
Definition blankFeedback (isoNow : string) : UserFeedback :=
  {| status := None; notes := None; lastUpdated := isoNow; finalAdoptedText := None |}.

(** [{ ...base, ...feedbackUpdate, lastUpdated: new Date().toISOString() }];
    [isoNow] is what [new Date().toISOString()] reads. *)
Definition spreadFeedback (base : UserFeedback) (feedbackUpdate : FeedbackUpdate)
    (isoNow : string) : UserFeedback :=
  {| status := default (status base) (fu_status feedbackUpdate);
     notes := default (notes base) (fu_notes feedbackUpdate);
     lastUpdated := isoNow;
     finalAdoptedText :=
       default (finalAdoptedText base) (fu_finalAdoptedText feedbackUpdate) |}.

(** The callback of the [map] over the suggested changes. *)
Definition updateChange (itemId : string) (feedbackUpdate : FeedbackUpdate)
    (isoNow : string) (change : SuggestedChange) : SuggestedChange :=
  if String.eqb (sc_id change) itemId then
    {| sc_id := sc_id change;
       document_section := document_section change;
       current_status_summary := current_status_summary change;
       austrac_relevance := austrac_relevance change;
       suggested_modification := suggested_modification change;
       priority := priority change;
       sc_userFeedback :=
         Some (spreadFeedback (default (blankFeedback isoNow) (sc_userFeedback change))
                 feedbackUpdate isoNow);
       source_document_name := source_document_name change;
       sc_basis_of_suggestion := sc_basis_of_suggestion change;
       web_reference_keywords := web_reference_keywords change |}
  else change.

(** The callback of the [map] over the action plan. *)
Definition updateItem (itemId : string) (feedbackUpdate : FeedbackUpdate)
    (isoNow : string) (item : ActionPlanItem) : ActionPlanItem :=
  if String.eqb (ap_id item) itemId then
    {| ap_id := ap_id item; task := task item; responsible := responsible item;
       timeline := timeline item; priority_level := priority_level item;
       ap_userFeedback :=
         Some (spreadFeedback (default (blankFeedback isoNow) (ap_userFeedback item))
                 feedbackUpdate isoNow);
       ap_basis_of_suggestion := ap_basis_of_suggestion item |}
  else item.

(** [{ ...result, suggested_changes: result.suggested_changes.map(...) }];
    [None] when the result has no array of suggested changes, on which
    the call of [map] throws. *)
Definition withUpdatedChange (itemId : string) (feedbackUpdate : FeedbackUpdate)
    (isoNow : string) (result : AnalysisResult) : option AnalysisResult :=
  match result !! "suggested_changes" with
  | Some (VChanges changes) =>
      Some (<["suggested_changes" :=
                VChanges (map (updateChange itemId feedbackUpdate isoNow) changes)]>
              result)
  | _ => None
  end.

(** [{ ...result, action_plan: result.action_plan.map(...) }] *)
Definition withUpdatedItem (itemId : string) (feedbackUpdate : FeedbackUpdate)
    (isoNow : string) (result : AnalysisResult) : option AnalysisResult :=
  match result !! "action_plan" with
  | Some (VPlan items) =>
      Some (<["action_plan" :=
                VPlan (map (updateItem itemId feedbackUpdate isoNow) items)]> result)
  | _ => None
  end.

(** The four handlers.  [isoNow] and [now] are what the clock reads for
    the feedback and for the timestamp of the analysis; the result is
    [None] when the handler throws. *)
Definition handleUpdateSuggestedChangeFeedback (itemId : string)
    (feedbackUpdate : FeedbackUpdate) (isoNow : string) (now : Z) (st : AppState)
    : option AppState :=
  match activeAnalysisId st, challengeResult st with
  | Some activeId, Some result =>
      if truthy activeId then
        newChallengeResult ← withUpdatedChange itemId feedbackUpdate isoNow result;
        Some (setSavedAnalyses
                (updateFeedbackInSavedAnalyses activeId newChallengeResult now
                   (savedAnalyses st))
                (setChallengeResult (Some newChallengeResult) st))
      else Some st
  | _, _ => Some st
  end.

Definition handleUpdateActionPlanItemFeedback (itemId : string)
    (feedbackUpdate : FeedbackUpdate) (isoNow : string) (now : Z) (st : AppState)
    : option AppState :=
  match activeAnalysisId st, challengeResult st with
  | Some activeId, Some result =>
      if truthy activeId then
        newChallengeResult ← withUpdatedItem itemId feedbackUpdate isoNow result;
        Some (setSavedAnalyses
                (updateFeedbackInSavedAnalyses activeId newChallengeResult now
                   (savedAnalyses st))
                (setChallengeResult (Some newChallengeResult) st))
      else Some st
  | _, _ => Some st
  end.

Definition handleUpdateDeepDiveChangeFeedback (itemId : string)
    (feedbackUpdate : FeedbackUpdate) (isoNow : string) (now : Z) (st : AppState)
    : option AppState :=
  match activeAnalysisId st, deepDiveResult st with
  | Some activeId, Some result =>
      if truthy activeId then
        newDeepDiveResult ← withUpdatedChange itemId feedbackUpdate isoNow result;
        Some (setSavedAnalyses
                (updateFeedbackInSavedAnalyses activeId newDeepDiveResult now
                   (savedAnalyses st))
                (setDeepDiveResult (Some newDeepDiveResult) st))
      else Some st
  | _, _ => Some st
  end.

Definition handleUpdateDeepDiveActionPlanFeedback (itemId : string)
    (feedbackUpdate : FeedbackUpdate) (isoNow : string) (now : Z) (st : AppState)
    : option AppState :=
  match activeAnalysisId st, deepDiveResult st with
  | Some activeId, Some result =>
      if truthy activeId then
        newDeepDiveResult ← withUpdatedItem itemId feedbackUpdate isoNow result;
        Some (setSavedAnalyses
                (updateFeedbackInSavedAnalyses activeId newDeepDiveResult now
                   (savedAnalyses st))
                (setDeepDiveResult (Some newDeepDiveResult) st))
      else Some st
  | _, _ => Some st
  end.

(** *** The callers in the components *)

(** [handleStatusChange] of [SuggestedChangeCard]: the update it sends. *)
Definition handleStatusChange (newStatus : string) : FeedbackUpdate :=
  {| fu_status := Some (if String.eqb newStatus "select" then None else Some newStatus);
     fu_notes := None; fu_lastUpdated := None; fu_finalAdoptedText := None |}.

(** [handleSaveNotes] of [SuggestedChangeCard]: the update it sends. *)
Definition handleSaveNotes (currentNotes : string) : FeedbackUpdate :=
  {| fu_status := None; fu_notes := Some (Some (trim currentNotes));
     fu_lastUpdated := None; fu_finalAdoptedText := None |}.





(** [handleConfirmRename] of [AnalysisHistoryPage]: the call of
    [onRenameAnalysis] it makes, if any. *)
Definition handleConfirmRename (renamingId : option string) (newName : string)
    : option (string * string) :=
  match renamingId with
  | Some id =>
      if truthy id && truthy (trim newName) then Some (id, trim newName) else None
  | None => None
  end.

(** The page and the application together: the rename that is
    confirmed, applied by [handleRenameAnalysis]. *)
Definition confirmRename (renamingId : option string) (newName : string)
    (st : AppState) : AppState :=
  match handleConfirmRename renamingId newName with
  | Some (id, name) => handleRenameAnalysis id name st
  | None => st
  end.

End Feedback.
Import Feedback.

(** ** The simulated retrieval service ([ragService.ts])

    [retrieveContextFromVertexAI] draws ids and sizes at random.  The
    draws are given by position: [uids j] is what [generateUniqueId()]
    returns for the [j]-th chunk that is built, [sizes j] what
    [Math.floor(Math.random() * n)] gives for it, and [year] what
    [new Date().getFullYear()] reads.  The delay is not modelled. *)

Module Simulation.

(** [s.split(" ")] *)
Fixpoint split (s : string) : list string :=
  match s with
  | EmptyString => [EmptyString]
  | String c s' =>
      match split s' with
      | w :: ws =>
          if Ascii.eqb c " " then EmptyString :: w :: ws else String c w :: ws
      | [] => []
      end
  end.

(** [queryText.toLowerCase().split(" ").filter(kw => kw.length > 2)] *)
Definition queryKeywordsOf (queryText : string) : list string :=
  List.filter (λ kw, 2 <? String.length kw) (split (toLowerCase queryText)).

(** [queryKeywords.some(kw => words.includes(kw))] *)
Definition someIn (words queryKeywords : list string) : bool :=
  existsb (λ kw, existsb (String.eqb kw) words) queryKeywords.

(** The quoted start of the query in the texts of the chunks. *)
Definition queryStart (queryText : string) : string :=
  dq +:+ substring0 30 queryText +:+ "..." +:+ dq.

Definition companyChunk (queryText uid : string) (size : nat) : DocumentChunk :=
  {| dc_id := "vertex-chunk-comp-" +:+ substring0 4 uid;
     documentId := "simulated-policy-doc-id";
     documentName := "Simulated Company Policy Document.pdf";
     documentType := company;
     text := "This is a simulated relevant chunk from a company policy regarding: "
             +:+ queryStart queryText
             +:+ ". It mentions specific procedures (like section 4.B) and general compliance requirements related to user queries. For detailed information, please refer to the official internal documentation provided.";
     keywords := ["policy"; "compliance"; "procedure"; "internal"]
                 ++ List.filter (λ k, 3 <? String.length k) (queryKeywordsOf queryText);
     charCount := 250 + size |}.

Definition austracChunk (queryText uid year : string) (size : nat) : DocumentChunk :=
  {| dc_id := "vertex-chunk-aus-" +:+ substring0 4 uid;
     documentId := "simulated-austrac-doc-id";
     documentName := "Simulated AUSTRAC Update Q3.txt";
     documentType := austrac;
     text := "Simulated AUSTRAC update context: A recent regulatory change (AUSTRAC Notice "
             +:+ year
             +:+ "-X) impacts reporting obligations for transactions. This is relevant to your query: "
             +:+ queryStart queryText
             +:+ ". Entities must update their AML/CTF programs accordingly.";
     keywords := ["austrac"; "regulatory"; "transaction"; "reporting"; "aml/ctf"]
                 ++ List.filter (λ k, 3 <? String.length k) (queryKeywordsOf queryText);
     charCount := 230 + size |}.

(** [['general', 'information', queryText.split(" ")[0]?.toLowerCase()]
     .filter(Boolean)] *)
Definition genericKeywords (queryText : string) : list string :=
  List.filter truthy
    (["general"; "information"]
     ++ match split queryText with
        | first :: _ => [toLowerCase first]
        | [] => []
        end).

(** [i % 2 === 0 && mockChunks.some(c => c.documentType === 'company')] *)
Definition genericType (i : nat) (mockChunks : list DocumentChunk) : DocumentType :=
  if Nat.even i && existsb (λ c, bool_decide (documentType c = company)) mockChunks
  then company else austrac.

Definition genericChunk (queryText uid : string) (size i : nat)
    (mockChunks : list DocumentChunk) : DocumentChunk :=
  {| dc_id := "vertex-chunk-gen-" +:+ substring0 4 uid +:+ "-" +:+ pretty i;
     documentId := "simulated-generic-doc-id-" +:+ pretty i;
     documentName := "General Information Store (Simulated Topic " +:+ pretty (i + 1)
                     +:+ ")";
     documentType := genericType i mockChunks;
     text := "This is a generic simulated chunk from Vertex AI RAG relevant to your query: "
             +:+ queryStart queryText
             +:+ ". It provides general information or a tangentially related point. For more specific details, a refined query might be needed or ensure relevant documents are ingested. This chunk pertains to simulated topic "
             +:+ pretty (i + 1) +:+ ".";
     keywords := genericKeywords queryText;
     charCount := 180 + size |}.

Section Draws.

Variable uids : nat → string.
Variable sizes : nat → nat.
Variable year : string.

(** The loop [for (let i = 0; i < numGenericNeeded; i++)]: [todo] is
    what is left of [numGenericNeeded]. *)
Fixpoint addGeneric (queryText : string) (todo i : nat)
    (mockChunks : list DocumentChunk) : list DocumentChunk :=
  match todo with
  | O => mockChunks
  | S todo' =>
      addGeneric queryText todo' (S i)
        (mockChunks
         ++ [genericChunk queryText (uids (length mockChunks))
               (sizes (length mockChunks)) i mockChunks])
  end.

Definition retrieveContextFromVertexAI (queryText : string) (topK : nat)
    : list DocumentChunk :=
  let mockChunks := [] in
  let queryKeywords := queryKeywordsOf queryText in
  let mockChunks :=
    if someIn ["policy"; "procedure"; "internal"] queryKeywords
    then mockChunks
         ++ [companyChunk queryText (uids (length mockChunks))
               (sizes (length mockChunks))]
    else mockChunks in
  let mockChunks :=
    if someIn ["austrac"; "update"; "regulation"; "guidance"] queryKeywords
    then mockChunks
         ++ [austracChunk queryText (uids (length mockChunks)) year
               (sizes (length mockChunks))]
    else mockChunks in
  let mockChunks :=
    if (length mockChunks <? topK) || (length mockChunks =? 0)
    then addGeneric queryText (Nat.max 1 (topK - length mockChunks)) 0 mockChunks
    else mockChunks in
  take topK mockChunks.

End Draws.

End Simulation.
Import Simulation.

(** ** Vocabulary of the further statements *)

Module Consistency.

(** What is displayed is what is stored: when the active pointer names
    an analysis, the analysis is in the store and the result view of its
    kind holds its result. *)
Definition shows_stored (st : AppState) : Prop :=
  ∀ id, activeAnalysisId st = Some id →
    ∃ sa r, find id (savedAnalyses st) = Some sa
      ∧ resultSource sa = Some r
      ∧ match sa_type sa with
        | challenge => challengeResult st = Some r
        | deepDive => deepDiveResult st = Some r
        end.

(** The active analysis, when it is in the store, is of kind [k]. *)
Definition active_kind (k : AnalysisType) (st : AppState) : Prop :=
  ∀ id sa, activeAnalysisId st = Some id → find id (savedAnalyses st) = Some sa →
           sa_type sa = k.

(** A suggested change without its feedback. *)
Definition withoutFeedback (change : SuggestedChange) : SuggestedChange :=
  {| sc_id := sc_id change;
     document_section := document_section change;
     current_status_summary := current_status_summary change;
     austrac_relevance := austrac_relevance change;
     suggested_modification := suggested_modification change;
     priority := priority change;
     sc_userFeedback := None;
     source_document_name := source_document_name change;
     sc_basis_of_suggestion := sc_basis_of_suggestion change;
     web_reference_keywords := web_reference_keywords change |}.

(** The general learnings that the loop of the chat selection adds to
    [seen]: those not in [seen] and not added before, in order. *)
Fixpoint freshLearnings (seen general : list string) : list string :=
  match general with
  | [] => []
  | g :: rest =>
      if bool_decide (g ∈ seen) then freshLearnings seen rest
      else g :: freshLearnings (seen ++ [g]) rest
  end.

(** The suggested changes of a result. *)
Definition changesOf (r : AnalysisResult) : list SuggestedChange :=
  default [] (suggested_changes_of (Some r)).

(** The status, the notes and the adopted text of the feedback of a
    change, if any. *)
Definition statusOf (change : SuggestedChange) : option string :=
  fb ← sc_userFeedback change; status fb.

Definition notesOf (change : SuggestedChange) : option string :=
  fb ← sc_userFeedback change; notes fb.

Definition adoptedTextOf (change : SuggestedChange) : option string :=
  fb ← sc_userFeedback change; finalAdoptedText fb.

(** What a feedback update for [itemId] makes of a change: nothing but
    the feedback changes; a change with another id is left as it is; in a
    change with the id, each property takes the value the update has for
    it, keeps its value when the update does not have the property, and
    the time of the update is recorded. *)
Definition feedback_updated (itemId : string) (feedbackUpdate : FeedbackUpdate)
    (isoNow : string) (change change' : SuggestedChange) : Prop :=
  withoutFeedback change' = withoutFeedback change
  ∧ if String.eqb (sc_id change) itemId then
      statusOf change' = default (statusOf change) (fu_status feedbackUpdate)
      ∧ notesOf change' = default (notesOf change) (fu_notes feedbackUpdate)
      ∧ adoptedTextOf change'
        = default (adoptedTextOf change) (fu_finalAdoptedText feedbackUpdate)
      ∧ lastUpdated <$> sc_userFeedback change' = Some isoNow
    else change' = change.

(** The calls of the ingestion service that a run over the corpora of
    [closure] makes: one for each document that is not yet processed (for
    every document when reprocessing is forced), the company documents
    first, each corpus in its order. *)
Definition ingestionCalls (forceReprocessAll : bool) (closure : AppState) : list Call :=
  map (λ d, MkCall (IngestDocument (cd_id d) company))
    (List.filter (λ d, forceReprocessAll || notProcessed (cd_isProcessedForRag d))
       (internalCorpus closure))
  ++ map (λ u, MkCall (IngestDocument (au_id u) austrac))
       (List.filter (λ u, forceReprocessAll || notProcessed (au_isProcessedForRag u))
          (userAustracContent closure)).

(** Every document of both corpora is marked as processed. *)
Definition all_processed (st : AppState) : Prop :=
  Forall (λ d, cd_isProcessedForRag d = Some true) (internalCorpus st)
  ∧ Forall (λ u, au_isProcessedForRag u = Some true) (userAustracContent st).

(** The ingestion service accepts every document, as the simulated
    service does. *)
Definition ingestion_succeeds (world : World) : Prop :=
  ∀ log id docType, ∃ message,
    world _ log (IngestDocument id docType) = Returned (true, message).

(** Everything of the state but the two corpora, the ingestion status
    and the ingestion flag is the same. *)
Definition same_but_ingestion (st st' : AppState) : Prop :=
  setInternalCorpus (internalCorpus st)
    (setUserAustracContent (userAustracContent st)
       (setIngestionStatus (ingestionStatus st)
          (setIsIngestionProcessing (isIngestionProcessing st) st'))) = st.

(** Two documents that differ at most in the processed mark. *)
Definition same_document (d d' : CompanyDocument) : Prop :=
  cd_id d' = cd_id d ∧ cd_name d' = cd_name d ∧ textContent d' = textContent d
  ∧ cd_type d' = cd_type d ∧ lastModified d' = lastModified d ∧ cd_size d' = cd_size d.

Definition same_update (u u' : AustracUpdate) : Prop :=
  au_id u' = au_id u ∧ title u' = title u ∧ rawContent u' = rawContent u
  ∧ au_type u' = au_type u ∧ dateAdded u' = dateAdded u ∧ summary u' = summary u.

(** What the post-processing guarantees of a suggested change and of an
    action item: a priority among High, Medium and Low, texts that are not
    empty, and an id with the prefix of its kind. *)
Definition finished_change (c : SuggestedChange) : Prop :=
  priority c ∈ priorities
  ∧ document_section c ≠ EmptyString ∧ current_status_summary c ≠ EmptyString
  ∧ austrac_relevance c ≠ EmptyString ∧ suggested_modification c ≠ EmptyString
  ∧ startsWith (sc_id c) "sc-" = true ∧ startsWith (sc_id c) "ddsc" = false.

Definition finished_item (i : ActionPlanItem) : Prop :=
  priority_level i ∈ priorities
  ∧ task i ≠ EmptyString ∧ responsible i ≠ EmptyString ∧ timeline i ≠ EmptyString
  ∧ startsWith (ap_id i) "ap-" = true.

(** A text is kept when it is there and not empty; otherwise it is
    [N/A]. *)
Definition kept_or_NA (raw : option string) (s : string) : Prop :=
  match raw with
  | Some v => if truthy v then s = v else s = "N/A"
  | None => s = "N/A"
  end.

(** A priority is kept when it is one of the three; otherwise it is
    Medium. *)
Definition kept_or_Medium (raw : option string) (p : string) : Prop :=
  match raw with
  | Some v => if bool_decide (v ∈ priorities) then p = v else p = "Medium"
  | None => p = "Medium"
  end.

(** A Gap Review run that saved an analysis, from [st] to [st']: the new
    analysis is a Gap Review at the head of the store, the active pointer
    names it, its result holds the suggested changes, the action plan and
    the grouping of these changes, all of them post-processed, and is the
    displayed result; the run succeeded without an error message and the
    selection is cleared. *)
Definition review_saved (st st' : AppState) : Prop :=
  ∃ sa suggested_changes action_plan groupedSuggestions,
    savedAnalyses st' = sa :: savedAnalyses st
    ∧ activeAnalysisId st' = Some (sa_id sa)
    ∧ sa_type sa = challenge
    ∧ challengeAnalysisResult sa
      = Some (<["groupedSuggestions" := VGroups groupedSuggestions]>
                (<["action_plan" := VPlan action_plan]>
                   {["suggested_changes" := VChanges suggested_changes]}))
    ∧ groupSuggestions suggested_changes = Some groupedSuggestions
    ∧ Forall finished_change suggested_changes
    ∧ Forall finished_item action_plan
    ∧ challengeResult st' = challengeAnalysisResult sa
    ∧ fetchStatus st' = SUCCESS ∧ error st' = None
    ∧ selectedRegulatoryIdsForGapReview st' = []
    ∧ selectedCompanyDocIdsForGapReview st' = [].

(** A Gap Review run that failed after its guards, from [st] to [st']:
    nothing is saved, nothing is displayed, no analysis is active, and
    there is an error message. *)
Definition review_failed (st st' : AppState) : Prop :=
  savedAnalyses st' = savedAnalyses st
  ∧ activeAnalysisId st' = None ∧ challengeResult st' = None
  ∧ fetchStatus st' = ERROR ∧ is_Some (error st')
  ∧ challengeNotification st' = None.

(** A code unit of a section name that the selection can read back: one
    that [.] matches and that is not the single quote. *)
Definition section_char (c : ascii) : bool :=
  is_dot c && negb (Ascii.eqb c "'").








(** A reading of the clock or of the id source. *)
Definition isClockCall (c : Call) : bool :=
  match c with
  | MkCall Now | MkCall LocaleNow | MkCall UniqueId => true
  | _ => false
  end.

(** A program that calls nothing but the clock and the id source. *)
Fixpoint clock_only {A} (p : Prog A) : Prop :=
  match p with
  | Ret _ => True
  | Vis e k =>
      match e with Now | LocaleNow | UniqueId => True | _ => False end
      ∧ ∀ r, clock_only (k r)
  end.

(** The rest of [s] after its leading code units that satisfy [p]. *)
Fixpoint skip (p : ascii → bool) (s : string) : string :=
  match s with
  | String c s' => if p c then skip p s' else s
  | EmptyString => EmptyString
  end.

(** A closing brace, spaces, an identifier, spaces and the code unit [x]
    at the start of [s]: what follows them. *)
Definition word_after_brace (x : ascii) (s : string) : option string :=
  match s with
  | String b s1 =>
      if Ascii.eqb "}" b then
        match trimStart s1 with
        | String c0 s3 =>
            if is_ident_start c0 then
              match trimStart (skip is_word s3) with
              | String y rest => if Ascii.eqb x y then Some rest else None
              | EmptyString => None
              end
            else None
        | EmptyString => None
        end
      else None
  | EmptyString => None
  end.

(** In [s] no closing brace is followed, after spaces, by a letter or an
    underscore. *)
Fixpoint no_word_after_brace (s : string) : bool :=
  match s with
  | String c s' =>
      (if Ascii.eqb "}" c then
         match trimStart s' with
         | String d _ => negb (is_ident_start d)
         | EmptyString => true
         end
       else true)
      && no_word_after_brace s'
  | EmptyString => true
  end.

(** An identifier: a letter or an underscore, then word characters. *)
Definition identifier (w : string) : bool :=
  match w with
  | String c w' => is_ident_start c && all_chars is_word w'
  | EmptyString => false
  end.

End Consistency.
Import Consistency.

(** ** More sample data *)

Module Scenarios.

(** The result of [Samples.older]. *)
Definition olderResult : AnalysisResult :=
  {[ "suggested_changes" :=
       VChanges
         [Samples.change "sc-1" "Policy A.pdf" (Some "Policy A.pdf")
            (Some Samples.actioned);
          Samples.change "sc-2" "Policy" None (Some Samples.pendingReview)] ]}.

(** [Samples.older] on display. *)
Definition viewingOlder : AppState :=
  setChallengeResult (Some olderResult)
    (Samples.stateWith true Samples.store (Some "analysis-1")).

(** The history tab, with nothing on display. *)
Definition historyView : View :=
  {| view_state := Samples.stateWith true Samples.store None;
     activeTab := tabHistory |}.


(** Two learnings with different fragments and different payloads, and a
    document that both are relevant to. *)
Definition learningAbC : string :=
  "Feedback for suggestion regarding 'ab' (Gap Review: Review...): User status set to 'c'.".

Definition learningABc : string :=
  "Feedback for suggestion regarding 'a' (Gap Review: Review...): User status set to 'bc'.".

Definition documentA : CompanyDocument := Samples.document "doc-1" "a".

(** A feedback with a note and an adopted text. *)
Definition adopted : UserFeedback :=
  Samples.feedback (Some "Actioned") (Some "Done in March")
    (Some "The threshold is 10,000 AUD.").

(** A fenced answer: the tag [json], a line feed, an empty object, a
    line feed. *)
Definition fencedObject : string :=
  "```" +:+ "json" +:+ String nl_char EmptyString +:+ String "{" "}"
    +:+ String nl_char EmptyString +:+ "```".

End Scenarios.

(** * Properties *)

(** ** Strings and the matcher *)

Section StringFacts.
Implicit Types (a b s : string) (c : ascii).

Lemma append_cons c a s : String c a +:+ s = String c (a +:+ s).
Proof. done. Qed.

Lemma append_nil_l s : EmptyString +:+ s = s.
Proof. done. Qed.

Lemma append_assoc a b s : (a +:+ b) +:+ s = a +:+ (b +:+ s).
Proof.
  induction a as [|c a IH]; [done|]. by rewrite !append_cons, IH.
Qed.

Lemma append_nil_r a : a +:+ EmptyString = a.
Proof. induction a as [|c a IH]; [done|]. by rewrite append_cons, IH. Qed.

Lemma length_append a b : String.length (a +:+ b) = String.length a + String.length b.
Proof. induction a as [|c a IH]; [done|]. rewrite append_cons. simpl. by rewrite IH. Qed.

Lemma strip_prefix_append a s : strip_prefix a (a +:+ s) = Some s.
Proof.
  induction a as [|c a IH]; [done|]. rewrite append_cons. simpl.
  by rewrite Ascii.eqb_refl.
Qed.

Lemma substring0_append a s : substring0 (String.length a) (a +:+ s) = a.
Proof.
  unfold substring0. induction a as [|c a IH].
  - by destruct s.
  - rewrite append_cons. simpl. by rewrite IH.
Qed.

Lemma drop_append a s : drop (String.length a) (a +:+ s) = s.
Proof. induction a as [|c a IH]; [done|]. by rewrite append_cons. Qed.

Lemma strip_prefix_cons (x y : ascii) (p s : string) :
  strip_prefix (String x p) (String y s)
  = if Ascii.eqb x y then strip_prefix p s else None.
Proof. done. Qed.

Lemma strip_prefix_Some p s r : strip_prefix p s = Some r → s = p +:+ r.
Proof.
  revert s. induction p as [|a p IH]; intros s H.
  - by injection H as ->.
  - destruct s as [|b s]; [done|]. rewrite strip_prefix_cons in H.
    destruct (Ascii.eqb_spec a b) as [->|]; [|done].
    rewrite append_cons. f_equal. by apply IH.
Qed.

Lemma dq_cons s : dq +:+ s = String dq_char s.
Proof. done. Qed.

Lemma quoted_cons a s : quoted a +:+ s = String dq_char (a +:+ String dq_char s).
Proof. unfold quoted. by rewrite !append_assoc, !dq_cons. Qed.

Lemma length_quoted a : String.length (quoted a) = S (S (String.length a)).
Proof. unfold quoted. rewrite !length_append. simpl. lia. Qed.

End StringFacts.

Section MatcherFacts.
Context {R : Type}.
Implicit Types (k : @cont R) (s : string) (caps : captures) (c : ascii).

Lemma rmatch_Seq r1 r2 pos s caps k :
  rmatch (Seq r1 r2) pos s caps k
  = rmatch r1 pos s caps (λ pos' s' caps', rmatch r2 pos' s' caps' k).
Proof. done. Qed.

Lemma rmatch_Group i r pos s caps k :
  rmatch (Group i r) pos s caps k
  = rmatch r pos s caps
      (λ pos' s' caps', k pos' s' (<[i := substring0 (pos' - pos) s]> caps')).
Proof. done. Qed.

Lemma rmatch_Chr c pos s caps k :
  rmatch (Chr c) pos s caps k
  = match s with
    | String b s' => if Ascii.eqb c b then k (S pos) s' caps else None
    | EmptyString => None
    end.
Proof. done. Qed.

Lemma rmatch_Lit l pos s caps k :
  rmatch (Lit l) pos s caps k
  = match strip_prefix l s with
    | Some s' => k (pos + String.length l) s' caps
    | None => None
    end.
Proof. done. Qed.

Lemma rmatch_Star greedy r pos s caps k :
  rmatch (Star greedy r) pos s caps k
  = star_loop (λ pos s caps k, rmatch r pos s (reset r caps) k)
      greedy k (String.length s) pos s caps.
Proof. done. Qed.

End MatcherFacts.

Section TimelineKeyFacts.
Local Arguments Ascii.eqb : simpl never.

(** The key does not overlap itself: when it is a prefix of [p] followed
    by the key, with [p] non-empty, it is a prefix of [p]. *)
Lemma timelineKey_no_straddle p s :
  p ≠ EmptyString → startsWith p timelineKey = false →
  strip_prefix timelineKey (p +:+ timelineKey +:+ s) = None.
Proof.
  intros Hne Hst. unfold startsWith in Hst.
  let T := eval vm_compute in timelineKey in
  change (strip_prefix timelineKey) with (strip_prefix T) in *.
  destruct p as [|c p]; [done|]. clear Hne.
  do 11 (try (rewrite append_cons, strip_prefix_cons;
              rewrite strip_prefix_cons in Hst;
              match goal with
              | |- context [Ascii.eqb ?a c] =>
                  destruct (Ascii.eqb_spec a c) as [<-|_]; [|done]
              end;
              destruct p as [|c p]; [by vm_compute|])).
  done.
Qed.

End TimelineKeyFacts.

Section RepairFacts.
Implicit Types (r : regex) (t : list tpiece) (s x : string).

Lemma replace_from_no_match fuel r t pos s :
  exec_from r pos s = None → replace_from fuel r t pos s = s.
Proof.
  revert fuel pos. induction s as [|c s IH]; intros fuel pos Hex.
  - destruct fuel; simpl in *; [done|].
    by destruct (match_at r pos EmptyString) as [[??]|].
  - destruct fuel as [|fuel]; [done|]. simpl in *.
    destruct (match_at r pos (String c s)) as [[??]|]; [done|].
    by rewrite IH.
Qed.

(** Without a match the replacement is the identity, whether the guard
    is there or not. *)
Lemma replace_no_match r t s : test r s = false → replace r t s = s.
Proof.
  unfold test, replace, exec. intros Hex. apply replace_from_no_match.
  by destruct (exec_from r 0 s).
Qed.

Lemma exec_from_unfold r pos s :
  exec_from r pos s
  = match match_at r pos s with
    | Some (pos', caps) =>
        Some {| m_index := pos; m_text := substring0 (pos' - pos) s;
                m_groups := caps |}
    | None =>
        match s with
        | EmptyString => None
        | String _ s' => exec_from r (S pos) s'
        end
    end.
Proof. by destruct s. Qed.

Lemma exec_from_Bos_later r pos s : exec_from (Seq Bos r) (S pos) s = None.
Proof.
  revert pos. induction s as [|c s IH]; intros pos; simpl; [done|]. apply IH.
Qed.

Lemma fence_needs_backticks x : startsWith x "```" = false → exec fenceRegex x = None.
Proof.
  unfold startsWith, exec, fenceRegex. intros Hst.
  assert (Hhere : match_at (Seq Bos (Seq (Lit "```")
                    (Seq (Opt (Group 1 (Star true (Cls is_word))))
                       (Seq spaces (Seq (Opt (Chr nl_char))
                          (Seq (Group 2 (Star false (Cls is_any)))
                             (Seq (Opt (Chr nl_char))
                                (Seq spaces (Seq (Lit "```") Eos)))))))))
                    0 x = None).
  { destruct (strip_prefix "```" x) eqn:Hstrip; [done|].
    unfold match_at. rewrite rmatch_Seq.
    change (rmatch Bos 0 x ∅ ?k) with (k 0 x ∅). cbv beta.
    rewrite rmatch_Seq.
    change (rmatch (Lit "```") ?pos ?s ?caps ?k)
      with (match strip_prefix "```" s with
            | Some s' => k (pos + 3) s' caps
            | None => None
            end).
    by rewrite Hstrip. }
  rewrite exec_from_unfold, Hhere. destruct x as [|c x]; [done|].
  apply exec_from_Bos_later.
Qed.

Lemma stripFence_no_fence x : exec fenceRegex x = None → stripFence x = x.
Proof. unfold stripFence. by intros ->. Qed.

End RepairFacts.

(** C2. On a text without surrounding white space that does not start
    with a code fence and in which none of the three defect patterns
    occurs, the repair is the identity, and so is each of its rewriting
    steps even without its guard. *)
Theorem repair_identity_without_defect (x : string) :
  trim x = x → startsWith x "```" = false →
  test malformationRegex1 x = false →
  test malformationRegex2 x = false →
  test missingPriorityKeyRegex x = false →
  repair x = x
  ∧ replace malformationRegex1 [TGroup 1; TLit ", "; TGroup 3] x = x
  ∧ replace malformationRegex2 [TGroup 1; TGroup 2] x = x
  ∧ replace missingPriorityKeyRegex priorityTemplate x = x.
Proof.
  intros Htrim Hfence H1 H2 H3. split_and!; [|by apply replace_no_match..].
  unfold repair. rewrite Htrim, stripFence_no_fence by by apply fence_needs_backticks.
  unfold fixMissingComma. rewrite H1.
  unfold fixExtraneousWord. rewrite H2.
  unfold fixMissingPriorityKey. by rewrite H3.
Qed.

(** ** The missing priority key

    The match of the missing-key pattern is first written without
    continuations ([missing_key_at]) and shown to be what the matcher
    computes; the replacement is then followed through a text that holds a
    defective timeline field. *)

Section ReferenceFacts.
Implicit Types (s r : string) (c : ascii).
Local Arguments Ascii.eqb : simpl never.

Lemma leading_trimStart s : s = leading is_space s +:+ trimStart s.
Proof.
  induction s as [|c s IH]; [done|]. simpl.
  destruct (is_space c); [|done]. rewrite append_cons. by f_equal.
Qed.

Lemma all_chars_leading p s : all_chars p (leading p s) = true.
Proof.
  induction s as [|c s IH]; [done|]. simpl.
  destruct (p c) eqn:Hc; [|done]. simpl. by rewrite Hc.
Qed.

Lemma is_space_not_dq c : is_space c = true → Ascii.eqb dq_char c = false.
Proof. destruct (Ascii.eqb_spec dq_char c) as [<-|]; [by vm_compute | done]. Qed.

(** The greedy run of spaces before something that no space starts. *)
Lemma greedy_spaces {R} (k : @cont R) fuel pos s caps :
  (∀ pos' c r caps', is_space c = true → k pos' (String c r) caps' = None) →
  String.length s ≤ fuel →
  star_loop (λ pos s caps k, rmatch (Cls is_space) pos s (reset (Cls is_space) caps) k)
    true k fuel pos s caps
  = k (pos + String.length (leading is_space s)) (trimStart s) caps.
Proof.
  intros Hk. revert fuel pos. induction s as [|c s IH]; intros fuel pos Hfuel.
  - simpl. rewrite Nat.add_0_r. by destruct fuel.
  - destruct fuel as [|fuel]; [simpl in Hfuel; lia|].
    simpl. destruct (is_space c) eqn:Hc.
    + assert ((pos <? S pos) = true) as -> by (apply Nat.ltb_lt; lia).
      rewrite IH by (simpl in Hfuel; lia). simpl.
      replace (pos + S (String.length (leading is_space s)))
        with (S pos + String.length (leading is_space s)) by lia.
      unfold orelse. destruct (k _ (trimStart s) caps) eqn:Hres; [done|].
      by rewrite Hk.
    + simpl. by rewrite Nat.add_0_r.
Qed.

Lemma rmatch_spaces {R} (k : @cont R) pos s caps :
  (∀ pos' c r caps', is_space c = true → k pos' (String c r) caps' = None) →
  rmatch spaces pos s caps k
  = k (pos + String.length (leading is_space s)) (trimStart s) caps.
Proof. intros Hk. unfold spaces. simpl. by apply greedy_spaces. Qed.

Lemma priority_prefix_Some s P r :
  priority_prefix s = Some (P, r) → s = P +:+ r ∧ P ∈ priorities.
Proof.
  unfold priority_prefix, priorities. intros H.
  destruct (strip_prefix "High" s) eqn:E1.
  { injection H as <- <-. apply strip_prefix_Some in E1. set_solver. }
  destruct (strip_prefix "Medium" s) eqn:E2.
  { injection H as <- <-. apply strip_prefix_Some in E2. set_solver. }
  destruct (strip_prefix "Low" s) eqn:E3; [|done].
  injection H as <- <-. apply strip_prefix_Some in E3. set_solver.
Qed.

Lemma priority_prefix_alt {R} (k : @cont R) pos s caps :
  rmatch (Alt (Lit "High") (Alt (Lit "Medium") (Lit "Low"))) pos s caps k
  = match priority_prefix s with
    | Some (P, r) => k (pos + String.length P) r caps
    | None => None
    end.
Proof.
  unfold priority_prefix.
  change (rmatch (Alt (Lit "High") (Alt (Lit "Medium") (Lit "Low"))) pos s caps k)
    with (orelse
            (match strip_prefix "High" s with
             | Some s' => k (pos + 4) s' caps | None => None end)
            (orelse
               (match strip_prefix "Medium" s with
                | Some s' => k (pos + 6) s' caps | None => None end)
               (match strip_prefix "Low" s with
                | Some s' => k (pos + 3) s' caps | None => None end))).
  destruct (strip_prefix "High" s) as [r|] eqn:E1.
  { apply strip_prefix_Some in E1 as ->. rewrite !append_cons.
    rewrite !strip_prefix_cons.
    change (Ascii.eqb "M" "H") with false. change (Ascii.eqb "L" "H") with false.
    unfold orelse. by destruct (k _ r caps). }
  destruct (strip_prefix "Medium" s) as [r|] eqn:E2.
  { apply strip_prefix_Some in E2 as ->. rewrite !append_cons.
    rewrite !strip_prefix_cons.
    change (Ascii.eqb "L" "M") with false.
    unfold orelse. by destruct (k _ r caps). }
  by destruct (strip_prefix "Low" s).
Qed.

Lemma quoted_priority_Some s P r :
  quoted_priority s = Some (P, r) → s = quoted P +:+ r ∧ P ∈ priorities.
Proof.
  unfold quoted_priority. destruct s as [|b s1]; [done|].
  destruct (Ascii.eqb_spec dq_char b) as [<-|]; [|done].
  destruct (priority_prefix s1) as [[P' r']|] eqn:E; [|done].
  destruct r' as [|b' s2]; [done|].
  destruct (Ascii.eqb_spec dq_char b') as [<-|]; [|done].
  intros [= <- <-]. apply priority_prefix_Some in E as [-> ?].
  split; [|done]. by rewrite quoted_cons.
Qed.

Lemma field_end_Some s ws P r :
  field_end s = Some (ws, P, r) →
  s = (dq +:+ ",") +:+ ws +:+ quoted P +:+ r
  ∧ all_chars is_space ws = true ∧ P ∈ priorities.
Proof.
  unfold field_end. destruct (strip_prefix (dq +:+ ",") s) as [s1|] eqn:E1; [|done].
  destruct (quoted_priority (trimStart s1)) as [[P' r']|] eqn:E2; [|done].
  intros [= <- <- <-]. apply strip_prefix_Some in E1 as ->.
  apply quoted_priority_Some in E2 as [E2 ?].
  split_and!; [|apply all_chars_leading|done].
  by rewrite <- E2, <- leading_trimStart.
Qed.

Lemma value_then_end_unfold s :
  value_then_end s
  = match field_end s with
    | Some e => Some (EmptyString, e)
    | None =>
        match s with
        | String c s' =>
            if is_dot c then
              match value_then_end s' with
              | Some (u, e) => Some (String c u, e)
              | None => None
              end
            else None
        | EmptyString => None
        end
    end.
Proof. by destruct s. Qed.

Lemma value_then_end_Some s u ws P r :
  value_then_end s = Some (u, (ws, P, r)) →
  s = u +:+ (dq +:+ ",") +:+ ws +:+ quoted P +:+ r
  ∧ all_chars is_dot u = true ∧ all_chars is_space ws = true ∧ P ∈ priorities.
Proof.
  revert u. induction s as [|c s IH]; intros u; rewrite value_then_end_unfold.
  - destruct (field_end EmptyString) as [e|] eqn:E; [|done].
    intros [= <- ->]. by apply field_end_Some in E as (? & ? & ?).
  - destruct (field_end (String c s)) as [e|] eqn:E.
    { intros [= <- ->]. by apply field_end_Some in E as (? & ? & ?). }
    destruct (is_dot c) eqn:Hc; [|done].
    destruct (value_then_end s) as [[u' e']|]; [|done].
    intros [= <- ->]. destruct (IH u' eq_refl) as (-> & Hu & ? & ?).
    split_and!; [done| |done..]. simpl. by rewrite Hc.
Qed.

Lemma missing_key_at_Some s g P r :
  missing_key_at s = Some (g, P, r) → s = g +:+ quoted P +:+ r ∧ P ∈ priorities.
Proof.
  unfold missing_key_at.
  destruct (strip_prefix timelineKey s) as [s1|] eqn:E1; [|done].
  destruct (trimStart s1) as [|b s2] eqn:E2; [done|].
  destruct (Ascii.eqb_spec dq_char b) as [<-|]; [|done].
  destruct (value_then_end s2) as [[u [[ws P'] r']]|] eqn:E3; [|done].
  intros [= <- <- <-]. apply strip_prefix_Some in E1 as ->.
  apply value_then_end_Some in E3 as (-> & _ & _ & ?). split; [|done].
  rewrite (leading_trimStart s1) at 1. rewrite E2.
  by rewrite !append_assoc, !dq_cons, !append_cons, !append_nil_l.
Qed.

(** The lazy run of [.] before the end of the field. *)
Lemma lazy_value {R} (k : @cont R) (f : nat → string * string * string → R)
    fuel pos s caps :
  (∀ pos' s', k pos' s' caps = f pos' <$> field_end s') →
  String.length s ≤ fuel →
  star_loop (λ pos s caps k, rmatch (Cls is_dot) pos s (reset (Cls is_dot) caps) k)
    false k fuel pos s caps
  = (λ '(u, e), f (pos + String.length u) e) <$> value_then_end s.
Proof.
  intros Hk. revert fuel pos. induction s as [|c s IH]; intros fuel pos Hfuel;
    rewrite value_then_end_unfold.
  - destruct fuel; simpl; rewrite Hk; by change (field_end EmptyString) with
      (@None (string * string * string)).
  - destruct fuel as [|fuel]; [simpl in Hfuel; lia|].
    simpl star_loop. rewrite Hk.
    destruct (field_end (String c s)) as [e|]; simpl; [by rewrite Nat.add_0_r|].
    destruct (is_dot c); [|done].
    assert ((pos <? S pos) = true) as -> by (apply Nat.ltb_lt; lia).
    change (foldr delete caps []) with caps.
    rewrite IH by (simpl in Hfuel; lia).
    destruct (value_then_end s) as [[u e]|]; simpl; [|done].
    by replace (pos + S (String.length u)) with (S pos + String.length u) by lia.
Qed.

Lemma rmatch_quoted_priority pos s caps :
  rmatch (Chr dq_char ⋅ Group 2 (Alt (Lit "High") (Alt (Lit "Medium") (Lit "Low")))
            ⋅ Chr dq_char)%re pos s caps (λ pos' _ caps', Some (pos', caps'))
  = (λ '(P, r), (pos + String.length (quoted P), <[2 := P]> caps))
      <$> quoted_priority s.
Proof.
  unfold quoted_priority. rewrite rmatch_Seq, rmatch_Chr.
  destruct s as [|b s1]; [done|].
  destruct (Ascii.eqb dq_char b); [|done].
  rewrite rmatch_Seq, rmatch_Group, priority_prefix_alt.
  destruct (priority_prefix s1) as [[P r]|] eqn:E; [|done].
  apply priority_prefix_Some in E as [-> _].
  rewrite rmatch_Chr. destruct r as [|b' s2]; [done|].
  destruct (Ascii.eqb dq_char b'); [|done]. cbn [fmap option_fmap option_map].
  replace (S pos + String.length P - S pos) with (String.length P) by lia.
  rewrite substring0_append, length_quoted. do 2 f_equal. lia.
Qed.

(** The matcher on the missing-key pattern, without continuations. *)
Lemma missing_key_match_at pos s :
  match_at missingPriorityKeyRegex pos s
  = (λ '(g, P, r), (pos + String.length g + String.length (quoted P),
                    <[2 := P]> (<[1 := g]> ∅)))
      <$> missing_key_at s.
Proof.
  pose proof (missing_key_at_Some s) as Hs. revert Hs.
  unfold match_at, missingPriorityKeyRegex, missing_key_at.
  rewrite rmatch_Seq, rmatch_Group, rmatch_Seq, rmatch_Lit.
  destruct (strip_prefix timelineKey s) as [s1|]; [|done].
  rewrite rmatch_Seq, rmatch_spaces.
  2:{ intros. rewrite rmatch_Seq, rmatch_Chr. by rewrite is_space_not_dq. }
  rewrite rmatch_Seq, rmatch_Chr.
  destruct (trimStart s1) as [|b s2]; [done|].
  destruct (Ascii.eqb dq_char b); [|done].
  rewrite rmatch_Seq, rmatch_Star.
  rewrite (lazy_value _
             (λ p '(ws, P, r),
                (p + 2 + String.length ws + String.length (quoted P),
                 <[2 := P]> (<[1 := substring0 (p + 2 + String.length ws - pos) s]> ∅))));
    [| |lia].
  2:{ intros pos' s'. unfold field_end. rewrite rmatch_Seq, rmatch_Lit.
      destruct (strip_prefix (dq +:+ ",") s') as [s1'|]; [|done].
      rewrite rmatch_spaces.
      2:{ intros. rewrite rmatch_Seq, rmatch_Chr. by rewrite is_space_not_dq. }
      rewrite rmatch_quoted_priority.
      destruct (quoted_priority (trimStart s1')) as [[P' r']|]; [|done].
      simpl. do 2 f_equal. }
  destruct (value_then_end s2) as [[u [[ws P'] r']]|]; [|done].
  intros Hs. destruct (Hs _ _ _ eq_refl) as [Hs' _]. simpl. f_equal.
  rewrite !length_append. simpl.
  match goal with
  | |- context [substring0 ?n s] =>
      replace n with (String.length (timelineKey +:+ leading is_space s1 +:+ dq +:+ u
                                       +:+ dq +:+ "," +:+ ws))
        by (rewrite !length_append; simpl; lia)
  end.
  rewrite Hs' at 1. rewrite substring0_append. f_equal. lia.
Qed.

End ReferenceFacts.

(** Appends to the right, with the code units that are known in front. *)
Ltac normalize_append :=
  repeat (rewrite append_assoc || rewrite append_cons || rewrite append_nil_l
          || rewrite dq_cons).

Section FieldFacts.
Implicit Types (a b s u pre post : string) (c : ascii).
Local Arguments Ascii.eqb : simpl never.

Lemma all_chars_impl (p q : ascii → bool) s :
  (∀ c, p c = true → q c = true) → all_chars p s = true → all_chars q s = true.
Proof.
  intros Hpq. induction s as [|c s IH]; [done|]. simpl.
  intros [Hc Hs]%andb_true_iff. by rewrite (Hpq _ Hc), IH.
Qed.

Lemma space_not_dq c : is_space c = true → not_dq c = true.
Proof. intros H. unfold not_dq. by rewrite is_space_not_dq. Qed.

Lemma plain_not_dq c : plain_value_char c = true → not_dq c = true.
Proof.
  unfold plain_value_char, not_dq. intros [_ H]%andb_true_iff.
  destruct (Ascii.eqb_spec dq_char c) as [<-|]; [|done].
  by rewrite Ascii.eqb_refl in H.
Qed.

Lemma plain_is_dot c : plain_value_char c = true → is_dot c = true.
Proof. unfold plain_value_char. by intros [? _]%andb_true_iff. Qed.

Lemma last_char_append a b : b ≠ EmptyString → last_char (a +:+ b) = last_char b.
Proof.
  intros Hb. induction a as [|c a IH]; [done|]. rewrite append_cons.
  simpl. destruct (a +:+ b) eqn:E; [|done].
  destruct a; [|done]. by rewrite append_nil_l in E.
Qed.

Lemma key_position_suffix a b : key_position (a +:+ b) = true → key_position b = true.
Proof.
  destruct b as [|c b]; [done|]. unfold key_position.
  by rewrite last_char_append.
Qed.

Lemma key_position_priority a P : P ∈ priorities → key_position (a +:+ P) = false.
Proof.
  unfold priorities, key_position. rewrite !elem_of_cons, elem_of_nil.
  intros [->|[->|[->|[]]]]; by rewrite last_char_append.
Qed.

Lemma field_end_not_dq c s : not_dq c = true → field_end (String c s) = None.
Proof.
  unfold not_dq, field_end. intros H%negb_true_iff.
  change (dq +:+ ",") with (String dq_char (String "," EmptyString)).
  by rewrite strip_prefix_cons, H.
Qed.

Lemma field_end_dq s :
  field_end (String dq_char s)
  = match s with
    | String b s1 =>
        if Ascii.eqb "," b then
          match quoted_priority (trimStart s1) with
          | Some (P, rest) => Some (leading is_space s1, P, rest)
          | None => None
          end
        else None
    | EmptyString => None
    end.
Proof.
  unfold field_end.
  change (dq +:+ ",") with (String dq_char (String "," EmptyString)).
  rewrite strip_prefix_cons, Ascii.eqb_refl. destruct s as [|b s1]; [done|].
  rewrite strip_prefix_cons. by destruct (Ascii.eqb "," b).
Qed.

(** The value does not end inside a run without a double quote. *)
Lemma value_then_end_skip a s u e :
  all_chars not_dq a = true →
  value_then_end (a +:+ s) = Some (u, e) →
  ∃ u', u = a +:+ u' ∧ value_then_end s = Some (u', e).
Proof.
  revert u. induction a as [|c a IH]; intros u Ha H.
  - by exists u.
  - simpl in Ha. apply andb_true_iff in Ha as [Hc Ha].
    rewrite append_cons, value_then_end_unfold, field_end_not_dq in H by done.
    destruct (is_dot c); [|done].
    destruct (value_then_end (a +:+ s)) as [[u0 e0]|] eqn:E; [|done].
    injection H as <- <-. destruct (IH u0 Ha eq_refl) as (u' & -> & Hu').
    by exists u'.
Qed.

Lemma trimStart_spaces ws c s :
  all_chars is_space ws = true → is_space c = false →
  trimStart (ws +:+ String c s) = String c s
  ∧ leading is_space (ws +:+ String c s) = ws.
Proof.
  intros Hws Hc. induction ws as [|a ws IH].
  - rewrite append_nil_l. simpl. by rewrite Hc.
  - simpl in Hws. apply andb_true_iff in Hws as [Ha Hws].
    rewrite append_cons. simpl. rewrite Ha.
    destruct (IH Hws) as [-> ->]. done.
Qed.

(** White space at the start of [a +:+ s], when [s] starts with
    something else. *)
Lemma trimStart_append a c s :
  is_space c = false →
  match trimStart a with
  | EmptyString =>
      trimStart (a +:+ String c s) = String c s
      ∧ leading is_space (a +:+ String c s) = a
  | String b a' =>
      trimStart (a +:+ String c s) = String b (a' +:+ String c s)
      ∧ leading is_space (a +:+ String c s) = leading is_space a
      ∧ a = leading is_space a +:+ String b a'
  end.
Proof.
  intros Hc. induction a as [|x a IH].
  - simpl. by rewrite Hc.
  - simpl. rewrite ?append_cons. simpl. destruct (is_space x) eqn:Hx.
    + destruct (trimStart a) as [|b a'].
      * destruct IH as [-> ->]. done.
      * destruct IH as (-> & -> & Ha). split_and!; [done..|].
        rewrite ?append_cons. by f_equal.
    + done.
Qed.

(** A literal without a double quote at the start of [y] followed by a
    double quote lies inside [y]. *)
Lemma strip_prefix_before_dq l y m r :
  all_chars not_dq l = true →
  strip_prefix l (y +:+ String dq_char m) = Some r →
  ∃ y', y = l +:+ y' ∧ r = y' +:+ String dq_char m.
Proof.
  revert y. induction l as [|a l IH]; intros y Hl H.
  - injection H as <-. by exists y.
  - simpl in Hl. apply andb_true_iff in Hl as [Ha Hl].
    destruct y as [|c y].
    + rewrite append_nil_l, strip_prefix_cons in H.
      unfold not_dq in Ha. rewrite Ascii.eqb_sym in Ha.
      by destruct (Ascii.eqb a dq_char).
    + rewrite append_cons, strip_prefix_cons in H.
      destruct (Ascii.eqb_spec a c) as [<-|]; [|done].
      destruct (IH y Hl H) as (y' & -> & ->). by exists y'.
Qed.

Lemma priority_prefix_before_dq y m P r :
  priority_prefix (y +:+ String dq_char m) = Some (P, r) →
  ∃ y', y = P +:+ y' ∧ r = y' +:+ String dq_char m.
Proof.
  unfold priority_prefix. intros H.
  destruct (strip_prefix "High" _) eqn:E1.
  { injection H as <- <-. by apply strip_prefix_before_dq in E1. }
  destruct (strip_prefix "Medium" _) eqn:E2.
  { injection H as <- <-. by apply strip_prefix_before_dq in E2. }
  destruct (strip_prefix "Low" _) eqn:E3; [|done].
  injection H as <- <-. by apply strip_prefix_before_dq in E3.
Qed.

End FieldFacts.

Section TimelineField.
Variables (wsa v wsb P post : string).
Hypothesis Hwsa : all_chars is_space wsa = true.
Hypothesis Hwsb : all_chars is_space wsb = true.
Hypothesis Hv : all_chars plain_value_char v = true.
Hypothesis HP : P ∈ priorities.

(** What follows the value of the field. *)
Local Abbreviation after_value :=
  (String dq_char (String "," (wsb +:+ quoted P +:+ post))).

(** The field and what follows it. *)
Local Abbreviation M := (timelineField wsa v wsb +:+ quoted P +:+ post).

(** The same without its first double quote. *)
Local Abbreviation M1 :=
  ("timeline" +:+ String dq_char (String ":" (wsa +:+ String dq_char (v +:+ after_value)))).

Lemma field_text : M = String dq_char M1.
Proof.
  unfold timelineField, timelineKey, quoted.
  by rewrite !append_assoc, !dq_cons, !append_cons, !append_nil_l.
Qed.

Lemma priority_prefix_priority s :
  priority_prefix (P +:+ String dq_char s) = Some (P, String dq_char s).
Proof.
  revert HP. unfold priorities. rewrite !elem_of_cons, elem_of_nil.
  by intros [->|[->|[->|[]]]].
Qed.

Lemma field_end_after_value : field_end after_value = Some (wsb, P, post).
Proof.
  rewrite field_end_dq, quoted_cons.
  destruct (trimStart_spaces wsb dq_char (P +:+ String dq_char post)) as [-> ->];
    [done..|].
  unfold quoted_priority. by rewrite priority_prefix_priority.
Qed.

Lemma quoted_priority_in_value a s :
  all_chars plain_value_char a = true →
  quoted_priority (trimStart (a +:+ String dq_char (String "," s))) = None.
Proof.
  induction a as [|c a IH]; [done|]. simpl.
  intros [Hc Ha]%andb_true_iff. rewrite ?append_cons. simpl.
  destruct (is_space c); [by apply IH|].
  apply plain_not_dq in Hc. unfold not_dq in Hc. unfold quoted_priority.
  by destruct (Ascii.eqb dq_char c).
Qed.

Lemma field_end_before_value s :
  field_end (String dq_char (v +:+ String dq_char (String "," s))) = None.
Proof.
  rewrite field_end_dq. destruct v as [|c v']; [done|].
  rewrite append_cons. destruct (Ascii.eqb "," c); [|done].
  rewrite quoted_priority_in_value; [done|].
  simpl in Hv. by apply andb_true_iff in Hv as [_ ?].
Qed.

Lemma value_then_end_value :
  value_then_end (v +:+ after_value) = Some (v, (wsb, P, post)).
Proof.
  clear Hwsa. induction v as [|c v' IH].
  - rewrite append_nil_l, value_then_end_unfold. by rewrite field_end_after_value.
  - simpl in Hv. apply andb_true_iff in Hv as [Hc Hv'].
    rewrite append_cons, value_then_end_unfold.
    rewrite field_end_not_dq by by apply plain_not_dq.
    rewrite (plain_is_dot _ Hc). by rewrite IH.
Qed.

(** The lazy run that starts inside the key of the field ends with the
    value of the field. *)
Lemma value_then_end_in_field u e :
  value_then_end M1 = Some (u, e) →
  u = "timeline" +:+ String dq_char (String ":" (wsa +:+ String dq_char v))
  ∧ e = (wsb, P, post).
Proof.
  intros H.
  apply value_then_end_skip in H as (u1 & -> & H); [|done].
  rewrite value_then_end_unfold in H.
  rewrite field_end_dq in H. cbn [Ascii.eqb] in H.
  change (is_dot dq_char) with true in H. cbv iota in H.
  destruct (value_then_end _) as [[u2 e2]|] eqn:H2 in H; [|done].
  injection H as <- <-.
  change (String ":" (wsa +:+ ?x)) with (String ":" wsa +:+ x) in H2.
  apply value_then_end_skip in H2 as (u3 & -> & H2).
  2:{ simpl. by apply (all_chars_impl is_space), Hwsa; apply space_not_dq. }
  rewrite value_then_end_unfold, field_end_before_value in H2.
  change (is_dot dq_char) with true in H2. cbv iota in H2.
  rewrite value_then_end_value in H2. injection H2 as <- <-.
  split; [|done]. by rewrite !append_cons.
Qed.

Lemma value_then_end_at_field u ws P' r :
  value_then_end M = Some (u, (ws, P', r)) →
  u +:+ dq +:+ "," +:+ ws = timelineField wsa v wsb ∧ P' = P ∧ r = post.
Proof.
  rewrite field_text, value_then_end_unfold, field_end_dq.
  change (is_dot dq_char) with true. cbv iota.
  change (match "timeline" +:+ ?x with String b s1 => if Ascii.eqb "," b then _ else None
                                  | EmptyString => None end)
    with (@None (string * string * string)). cbv iota.
  destruct (value_then_end M1) as [[u1 e1]|] eqn:H1; [|done].
  apply value_then_end_in_field in H1 as [-> ->].
  intros Heq. injection Heq as <- Hws HP' Hr.
  rewrite <- Hws, <- HP', <- Hr. split_and!; [|done..].
  unfold timelineField, timelineKey, quoted.
  by normalize_append.
Qed.

Lemma missing_key_at_field :
  missing_key_at M = Some (timelineField wsa v wsb, P, post).
Proof.
  unfold missing_key_at, timelineField. rewrite !append_assoc, strip_prefix_append.
  rewrite dq_cons.
  destruct (trimStart_spaces wsa dq_char
              (v +:+ dq +:+ "," +:+ wsb +:+ quoted P +:+ post)) as [-> ->]; [done..|].
  rewrite Ascii.eqb_refl. rewrite dq_cons.
  change ("," +:+ ?x) with (String "," x).
  by rewrite value_then_end_value, dq_cons.
Qed.

Lemma quoted_priority_key s : quoted_priority (String dq_char ("timeline" +:+ s)) = None.
Proof. done. Qed.

(** The end of a field that starts before the timeline field lies
    before it as well. *)
Lemma field_end_inside y ws P' r :
  y ≠ EmptyString → key_position y = true →
  field_end (y +:+ M) = Some (ws, P', r) →
  ∃ z, y = (dq +:+ ",") +:+ ws +:+ quoted P' +:+ z ∧ r = z +:+ M.
Proof.
  intros Hy Hkey H. rewrite field_text in H |- *.
  destruct y as [|c y]; [done|]. rewrite append_cons in H.
  destruct (Ascii.eqb_spec dq_char c) as [<-|Hne].
  2:{ rewrite field_end_not_dq in H; [done|].
      unfold not_dq. by destruct (Ascii.eqb_spec dq_char c). }
  rewrite field_end_dq in H. destruct y as [|c2 y]; [done|].
  rewrite append_cons in H.
  destruct (Ascii.eqb_spec "," c2) as [<-|]; [|done].
  pose proof (trimStart_append y dq_char M1 eq_refl) as Ht.
  destruct (trimStart y) as [|b y5].
  { destruct Ht as [Ht _]. by rewrite Ht, quoted_priority_key in H. }
  destruct Ht as (Ht & Hl & Hy5). rewrite Ht, Hl in H.
  unfold quoted_priority in H.
  destruct (Ascii.eqb_spec dq_char b) as [<-|]; [|done].
  destruct (priority_prefix _) as [[P0 r0]|] eqn:Epp in H; [|done].
  pose proof (priority_prefix_Some _ _ _ Epp) as [_ HP0].
  apply priority_prefix_before_dq in Epp as (y6 & -> & ->).
  destruct y6 as [|b' y7].
  - exfalso. rewrite Hy5, append_nil_r in Hkey.
    replace (String dq_char (String "," (leading is_space y +:+ String dq_char P0)))
      with (String dq_char (String "," (leading is_space y +:+ dq)) +:+ P0)
      in Hkey by by normalize_append.
    by rewrite key_position_priority in Hkey.
  - rewrite append_cons in H.
    destruct (Ascii.eqb_spec dq_char b') as [<-|]; [|done].
    injection H as <- <- <-. exists y7. split; [|done].
    rewrite Hy5 at 1. unfold quoted. by normalize_append.
Qed.

(** A lazy run that starts before the timeline field ends before it or
    goes on into it. *)
Lemma value_then_end_inside y u ws P' r :
  key_position y = true →
  value_then_end (y +:+ M) = Some (u, (ws, P', r)) →
  (∃ z, y = u +:+ (dq +:+ ",") +:+ ws +:+ quoted P' +:+ z ∧ r = z +:+ M)
  ∨ (∃ u', u = y +:+ u' ∧ value_then_end M = Some (u', (ws, P', r))).
Proof.
  revert u. induction y as [|c y IH]; intros u Hkey H.
  - right. by exists u.
  - rewrite append_cons, value_then_end_unfold in H.
    destruct (field_end (String c (y +:+ M))) as [[[ws0 P0] r0]|] eqn:E.
    + injection H as <- <- <- <-. left.
      apply (field_end_inside (String c y)) in E as (z & Hz & ->); [|done..].
      exists z. by rewrite append_nil_l.
    + destruct (is_dot c); [|done].
      destruct (value_then_end (y +:+ M)) as [[u0 e0]|] eqn:E2; [|done].
      injection H as <- ->.
      destruct (IH u0) as [(z & -> & ->)|(u' & -> & Hu')]; [|done|..].
      * by apply (key_position_suffix (String c EmptyString)).
      * left. by exists z.
      * right. by exists u'.
Qed.

(** A match that starts at or before the timeline field ends before
    the field or with the priority after it. *)
Lemma missing_key_at_before_field pre g P' r :
  key_position pre = true →
  missing_key_at (pre +:+ M) = Some (g, P', r) →
  (∃ z, pre = g +:+ quoted P' +:+ z ∧ r = z +:+ M)
  ∨ (g = pre +:+ timelineField wsa v wsb ∧ P' = P ∧ r = post).
Proof.
  intros Hkey. destruct (decide (pre = EmptyString)) as [->|Hne].
  { rewrite append_nil_l, missing_key_at_field. intros [= <- HP' Hr]. by right. }
  unfold missing_key_at.
  destruct (strip_prefix timelineKey pre) as [x|] eqn:Ex.
  2:{ unfold timelineField. rewrite !append_assoc, timelineKey_no_straddle; [done..|].
      unfold startsWith. by rewrite Ex. }
  apply strip_prefix_Some in Ex. rewrite Ex in Hkey |- *. clear Ex Hne pre.
  rewrite (append_assoc timelineKey x), strip_prefix_append, field_text.
  pose proof (trimStart_append x dq_char M1 eq_refl) as Ht.
  destruct (trimStart x) as [|b x3].
  - destruct Ht as [-> ->]. rewrite Ascii.eqb_refl.
    destruct (value_then_end M1) as [[u e]|] eqn:E; [|done].
    apply value_then_end_in_field in E as [-> ->].
    intros [= <- HP' Hr]. right. split_and!; [|done..].
    unfold timelineField, timelineKey, quoted. by normalize_append.
  - destruct Ht as (-> & -> & Hx).
    destruct (Ascii.eqb_spec dq_char b) as [<-|]; [|done].
    rewrite <- field_text.
    destruct (value_then_end (x3 +:+ M)) as [[u [[ws P0] r0]]|] eqn:E; [|done].
    intros [= <- <- <-].
    apply value_then_end_inside in E as [(z & Hz & ->)|(u' & -> & Hu')].
    + left. exists z. split; [|done]. rewrite Hx at 1. rewrite Hz at 1.
      by normalize_append.
    + right. apply value_then_end_at_field in Hu' as (HF & HP' & Hr).
      split_and!; [|done..]. rewrite <- HF. rewrite Hx at 2.
      by normalize_append.
    + rewrite Hx in Hkey. rewrite <- append_assoc in Hkey.
      apply (key_position_suffix _ (String dq_char x3)) in Hkey.
      by apply (key_position_suffix (String dq_char EmptyString) x3).
Qed.

End TimelineField.

Section MissingKeyReplace.
Implicit Types (s g pre post : string).

Local Abbreviation inserted P := (quoted "priority_level" +:+ ": " +:+ quoted P).

Lemma missing_key_at_starts s g P r :
  missing_key_at s = Some (g, P, r) → startsWith g timelineKey = true.
Proof.
  unfold missing_key_at.
  destruct (strip_prefix timelineKey s) as [s1|]; [|done].
  destruct (trimStart s1) as [|b s2]; [done|].
  destruct (Ascii.eqb dq_char b); [|done].
  destruct (value_then_end s2) as [[u [[ws P'] r']]|]; [|done].
  intros [= <- _ _]. unfold startsWith. by rewrite strip_prefix_append.
Qed.

Lemma includes_prefix p s : startsWith p timelineKey = true →
  includes (p +:+ s) timelineKey = true.
Proof.
  unfold startsWith. destruct (strip_prefix timelineKey p) as [x|] eqn:E; [|done].
  apply strip_prefix_Some in E as ->. intros _.
  assert (startsWith ((timelineKey +:+ x) +:+ s) timelineKey = true) as H.
  { unfold startsWith. by rewrite append_assoc, strip_prefix_append. }
  revert H. generalize ((timelineKey +:+ x) +:+ s). clear.
  intros s H. destruct s; cbn [includes]; by rewrite H.
Qed.

Lemma replace_from_S fuel r t pos s :
  replace_from (S fuel) r t pos s
  = match match_at r pos s with
    | Some (pos', caps) =>
        if pos <? pos'
        then expand t caps +:+ replace_from fuel r t pos' (drop (pos' - pos) s)
        else expand t caps
             +:+ match s with
                 | EmptyString => EmptyString
                 | String c s' => String c (replace_from fuel r t (S pos) s')
                 end
    | None =>
        match s with
        | EmptyString => EmptyString
        | String c s' => String c (replace_from fuel r t (S pos) s')
        end
    end.
Proof. done. Qed.

(** One step of the replacement of the missing-key pattern. *)
Lemma replace_from_missing_key fuel pos s :
  replace_from (S fuel) missingPriorityKeyRegex priorityTemplate pos s
  = match missing_key_at s with
    | Some (g, P, r) =>
        g +:+ inserted P
          +:+ replace_from fuel missingPriorityKeyRegex priorityTemplate
                (pos + String.length g + String.length (quoted P)) r
    | None =>
        match s with
        | EmptyString => EmptyString
        | String c s' =>
            String c (replace_from fuel missingPriorityKeyRegex priorityTemplate
                        (S pos) s')
        end
    end.
Proof.
  rewrite replace_from_S, missing_key_match_at.
  destruct (missing_key_at s) as [[[g P] r]|] eqn:E; [|done].
  apply missing_key_at_Some in E as [-> _]. cbn [fmap option_fmap option_map].
  assert ((pos <? pos + String.length g + String.length (quoted P)) = true) as ->.
  { apply Nat.ltb_lt. rewrite length_quoted. lia. }
  replace (pos + String.length g + String.length (quoted P) - pos)
    with (String.length (g +:+ quoted P)) by (rewrite length_append; lia).
  rewrite <- (append_assoc g (quoted P) r), drop_append.
  unfold priorityTemplate. cbn [expand].
  rewrite lookup_insert_ne, lookup_insert_eq, lookup_insert_eq by done.
  cbn [default]. unfold quoted. by normalize_append.
Qed.

(** Neither the fuel nor the position matters to this replacement. *)
Lemma replace_from_missing_key_fuel fuel1 fuel2 pos1 pos2 s :
  String.length s < fuel1 → String.length s < fuel2 →
  replace_from fuel1 missingPriorityKeyRegex priorityTemplate pos1 s
  = replace_from fuel2 missingPriorityKeyRegex priorityTemplate pos2 s.
Proof.
  revert fuel2 pos1 pos2 s.
  induction fuel1 as [|fuel1 IH]; intros [|fuel2] pos1 pos2 s H1 H2; [lia..|].
  rewrite !replace_from_missing_key.
  destruct (missing_key_at s) as [[[g P] r]|] eqn:E.
  - apply missing_key_at_Some in E as [-> _].
    rewrite !length_append, length_quoted in H1, H2.
    do 2 f_equal. apply IH; lia.
  - destruct s as [|c s]; [done|]. simpl in H1, H2. f_equal. apply IH; lia.
Qed.

Lemma fixMissingPriorityKey_replace s :
  fixMissingPriorityKey s = replace missingPriorityKeyRegex priorityTemplate s.
Proof.
  unfold fixMissingPriorityKey.
  destruct (test missingPriorityKeyRegex s) eqn:E; [done|].
  by rewrite replace_no_match.
Qed.

(** The replacement reaches the timeline field, whatever is before. *)
Lemma replace_from_field fuel pos pre wsa v wsb P post :
  all_chars is_space wsa = true → all_chars is_space wsb = true →
  all_chars plain_value_char v = true → P ∈ priorities →
  key_position pre = true →
  String.length (pre +:+ timelineField wsa v wsb +:+ quoted P +:+ post) < fuel →
  ∃ pre',
    replace_from fuel missingPriorityKeyRegex priorityTemplate pos
      (pre +:+ timelineField wsa v wsb +:+ quoted P +:+ post)
    = pre' +:+ timelineField wsa v wsb +:+ inserted P
      +:+ fixMissingPriorityKey post
    ∧ (includes pre timelineKey = false → pre' = pre).
Proof.
  intros Hwsa Hwsb Hv HP. revert pos pre.
  induction fuel as [|fuel IH]; intros pos pre Hkey Hfuel; [lia|].
  rewrite replace_from_missing_key.
  destruct (missing_key_at _) as [[[g P'] r]|] eqn:E.
  - pose proof (missing_key_at_starts _ _ _ _ E) as Hg.
    apply (missing_key_at_before_field wsa v wsb P post Hwsa Hwsb Hv HP pre)
      in E as [(z & -> & ->)|(-> & -> & ->)]; [| |done].
    + destruct (IH (pos + String.length g + String.length (quoted P')) z)
        as (pre1 & -> & _).
      * rewrite <- append_assoc in Hkey. by apply key_position_suffix in Hkey.
      * rewrite !length_append, length_quoted in Hfuel.
        rewrite !length_append. lia.
      * exists (g +:+ inserted P' +:+ pre1). split; [by normalize_append|].
        by rewrite includes_prefix.
    + exists pre. split; [|done]. rewrite fixMissingPriorityKey_replace.
      unfold replace.
      rewrite (replace_from_missing_key_fuel fuel (S (String.length post)) _ 0).
      * by rewrite !append_assoc.
      * rewrite !length_append, length_quoted in Hfuel. lia.
      * lia.
  - destruct pre as [|c pre].
    { by rewrite append_nil_l, missing_key_at_field in E. }
    rewrite append_cons.
    destruct (IH (S pos) pre) as (pre1 & -> & Hpre1).
    + by apply (key_position_suffix (String c EmptyString)).
    + rewrite append_cons in Hfuel. simpl in Hfuel. lia.
    + exists (String c pre1). split; [done|].
      simpl. intros [_ ?]%orb_false_iff. f_equal. by apply Hpre1.
Qed.

End MissingKeyReplace.

(** C3. When a timeline field (the key, spaces, a value between double
    quotes on one line and without a double quote, a comma and spaces)
    that starts the text or follows a code unit that is not a word
    character is followed by a bare High, Medium or Low literal, the repair
    step puts the key priority_level, a colon and a space between the field
    and the literal; what follows is repaired in the same way, and what is
    before is unchanged when it has no timeline key. *)
Theorem missing_priority_key_inserted (pre wsa v wsb P post : string) :
  key_position pre = true →
  all_chars is_space wsa = true → all_chars is_space wsb = true →
  all_chars plain_value_char v = true → P ∈ priorities →
  ∃ pre',
    fixMissingPriorityKey (pre +:+ timelineField wsa v wsb +:+ quoted P +:+ post)
    = pre' +:+ timelineField wsa v wsb +:+ quoted "priority_level" +:+ ": "
      +:+ quoted P +:+ fixMissingPriorityKey post
    ∧ (includes pre timelineKey = false → pre' = pre).
Proof.
  intros Hpre Hwa Hwb Hv HP.
  rewrite (fixMissingPriorityKey_replace (pre +:+ _)). unfold replace.
  destruct (replace_from_field
              (S (String.length (pre +:+ timelineField wsa v wsb +:+ quoted P +:+ post)))
              0 pre wsa v wsb P post) as (pre' & -> & Hpre'); [done..|lia|].
  exists pre'. split; [|done]. by rewrite !append_assoc.
Qed.

Section ValidationFacts.
Variable RAG_TOP_K_CHUNKS_ANALYSIS : nat.
Variable JSON_parse : string → option RawChallengeResult.

Lemma empty_selection (companyDocIds targetRegulatoryIds : list string) :
  companyDocIds = [] ∨ targetRegulatoryIds = [] →
  (length companyDocIds =? 0) || (length targetRegulatoryIds =? 0) = true.
Proof. intros [->| ->]; simpl; [done | apply orb_true_r]. Qed.

Lemma generateGapReview_rejects targetRegulatoryIds companyDocIds st :
  ai st = true → companyDocIds = [] ∨ targetRegulatoryIds = [] →
  generateGapReview RAG_TOP_K_CHUNKS_ANALYSIS JSON_parse targetRegulatoryIds
    companyDocIds st = Ret (rejected st).
Proof.
  intros Hai Hempty. unfold generateGapReview.
  by rewrite Hai, (empty_selection _ _ Hempty).
Qed.

Lemma frontend_generateGapReview_rejects targetRegulatoryIds companyDocIds st :
  companyDocIds = [] ∨ targetRegulatoryIds = [] →
  Frontend.generateGapReview targetRegulatoryIds companyDocIds st = Ret (rejected st).
Proof.
  intros Hempty. unfold Frontend.generateGapReview.
  by rewrite (empty_selection _ _ Hempty).
Qed.

End ValidationFacts.

(** C5. A Gap Review run with an empty list of company document ids or of
    regulatory ids, in the frontend variant always and in the root variant
    when the generator client is initialised, ends at once: no call is made
    to any collaborator (hence none to the Generator, the Retriever or the
    backend), the error is the validation message, the fetch state is
    idle, the store and the active pointer are the ones before, and nothing
    but the error and the fetch state changes. *)
Theorem gap_review_validation (RAG_TOP_K_CHUNKS_ANALYSIS : nat)
    (JSON_parse : string → option RawChallengeResult)
    (targetRegulatoryIds companyDocIds : list string) (st : AppState)
    (world : World) :
  companyDocIds = [] ∨ targetRegulatoryIds = [] →
  (ai st = true →
   run world []
     (generateGapReview RAG_TOP_K_CHUNKS_ANALYSIS JSON_parse targetRegulatoryIds
        companyDocIds st) = (rejected st, []))
  ∧ run world [] (Frontend.generateGapReview targetRegulatoryIds companyDocIds st)
    = (rejected st, [])
  ∧ count isGeneratorCall [] = 0 ∧ count isRetrieverCall [] = 0
  ∧ count isBackendCall [] = 0
  ∧ error (rejected st) = Some validationMessage
  ∧ fetchStatus (rejected st) = IDLE
  ∧ savedAnalyses (rejected st) = savedAnalyses st
  ∧ activeAnalysisId (rejected st) = activeAnalysisId st
  ∧ setFetchStatus (fetchStatus st) (setError (error st) (rejected st)) = st.
Proof.
  intros Hempty. split.
  - intros Hai. by rewrite generateGapReview_rejects.
  - rewrite frontend_generateGapReview_rejects by done.
    repeat split. by destruct st.
Qed.

(** ** Feedback learnings *)

Section LearningFacts.
Implicit Types (analysis : SavedAnalysis) (change : SuggestedChange)
  (fb : UserFeedback) (learnings : list string).

Lemma scanChanges_uncapped analysis changes learnings :
  scanChanges None analysis changes learnings
  = learnings ++ omap (feedbackLearning analysis) changes.
Proof.
  revert learnings. induction changes as [|change changes IH]; intros learnings; simpl.
  - by rewrite app_nil_r.
  - rewrite IH, <- app_assoc. by destruct (feedbackLearning analysis change).
Qed.

Lemma scanAnalyses_uncapped analyses learnings :
  scanAnalyses None analyses learnings = learnings ++ concat (map learningsOf analyses).
Proof.
  revert learnings. induction analyses as [|analysis analyses IH]; intros learnings; simpl.
  - by rewrite app_nil_r.
  - rewrite IH. unfold learningsOf.
    destruct (suggested_changes_of (resultSource analysis)) as [changes|]; simpl.
    + by rewrite scanChanges_uncapped, <- app_assoc.
    + done.
Qed.


Lemma take_app_full {A} (m : nat) (l l' : list A) :
  m ≤ length l → take m (l ++ l') = take m l.
Proof.
  intros H. rewrite take_app. replace (m - length l) with 0 by lia.
  by rewrite take_0, app_nil_r.
Qed.

Lemma scanChanges_capped m analysis changes learnings :
  length learnings ≤ m →
  scanChanges (Some m) analysis changes learnings
  = take m (learnings ++ omap (feedbackLearning analysis) changes).
Proof.
  revert learnings. induction changes as [|change changes IH]; intros learnings Hlen.
  - simpl. rewrite app_nil_r. by rewrite firstn_all2.
  - simpl. destruct (Nat.leb_spec m (length learnings)) as [Hcap|Hroom].
    + rewrite take_app_full by done. by rewrite firstn_all2.
    + rewrite IH.
      * rewrite <- app_assoc. by destruct (feedbackLearning analysis change).
      * rewrite length_app. destruct (feedbackLearning analysis change); simpl; lia.
Qed.

Lemma scanAnalyses_capped m analyses learnings :
  length learnings ≤ m →
  scanAnalyses (Some m) analyses learnings
  = take m (learnings ++ concat (map learningsOf analyses)).
Proof.
  revert learnings. induction analyses as [|analysis analyses IH]; intros learnings Hlen.
  - simpl. rewrite app_nil_r. by rewrite firstn_all2.
  - simpl. unfold learningsOf at 1.
    destruct (suggested_changes_of (resultSource analysis)) as [changes|]; simpl.
    + rewrite scanChanges_capped by done.
      set (X := learnings ++ omap (feedbackLearning analysis) changes).
      rewrite app_assoc. fold X.
      destruct (Nat.leb_spec m (length (take m X))) as [Hcap|Hroom].
      * rewrite length_take in Hcap. rewrite take_app_full by lia. done.
      * rewrite length_take in Hroom. rewrite (firstn_all2 X) by lia.
        apply IH. lia.
    + destruct (Nat.leb_spec m (length learnings)) as [Hcap|Hroom].
      * rewrite take_app_full by done. by rewrite firstn_all2.
      * apply IH. lia.
Qed.

Lemma extractLearnings_capped analyses m :
  extractLearningsFromFeedback analyses (Some m)
  = take m (extractLearningsFromFeedback analyses None).
Proof.
  unfold extractLearningsFromFeedback.
  rewrite scanAnalyses_capped by (simpl; lia). by rewrite scanAnalyses_uncapped.
Qed.

Lemma truthy_true s : truthy s = true ↔ s ≠ EmptyString.
Proof. by destruct s. Qed.

Lemma truthy_opt_true o : truthy_opt o = true ↔ ∃ s, o = Some s ∧ s ≠ EmptyString.
Proof.
  destruct o as [s|]; simpl.
  - rewrite truthy_true. split; [by eexists | by intros (? & [= <-] & ?)].
  - split; [done | by intros (? & ? & ?)].
Qed.

Lemma trim_nonempty s : trim s ≠ EmptyString → s ≠ EmptyString.
Proof. by intros H ->. Qed.

Lemma qualifies_true fb : qualifies fb = true ↔ qualifying fb.
Proof.
  unfold qualifies, qualifying. destruct (status fb) as [st|]; last first.
  { split; [done|]. by intros [?|[[(? & ? & ?) ?]|[? ?]]]. }
  rewrite andb_true_iff, !orb_true_iff, andb_true_iff, truthy_true,
    truthy_opt_true, !String.eqb_eq.
  split.
  - intros (Hst & [[->| Hadopted] | [-> Hnotes]]).
    + by left.
    + right; left. split; [by eexists | done].
    + right; right. split; [done|].
      destruct (notes fb) as [n|]; [|done].
      apply andb_true_iff in Hnotes as [_ Htrim].
      apply negb_true_iff, String.eqb_neq in Htrim. by eexists.
  - intros [[= ->] | [[(st' & [= <-] & Hst) Hadopted] | [[= ->] (n & Hn & Htrim)]]].
    + split; [done | by left; left].
    + split; [done | by left; right].
    + split; [done|]. right. split; [done|]. rewrite Hn.
      apply andb_true_iff. split.
      * apply truthy_true. by apply trim_nonempty.
      * by apply negb_true_iff, String.eqb_neq.
Qed.

Lemma feedbackLearning_is_Some analysis change :
  is_Some (feedbackLearning analysis change)
  ↔ ∃ fb, sc_userFeedback change = Some fb ∧ qualifying fb.
Proof.
  unfold feedbackLearning. destruct (sc_userFeedback change) as [fb|].
  - destruct (qualifies fb) eqn:Hq.
    + apply qualifies_true in Hq. split; [by eexists | by eexists].
    + split; [by intros [? ?]|]. intros (fb' & [= <-] & Hq').
      apply qualifies_true in Hq'. congruence.
  - split; [by intros [? ?] | by intros (? & ? & ?)].
Qed.

End LearningFacts.

(** C1. Without a cap, the extracted learnings are, for the analyses most
    recent first and for the suggested changes of each in order, one
    learning per qualifying feedback and nothing else; with a cap they are
    the first ones of these; a feedback qualifies if and only if its status
    is Actioned, or a non-empty status label is set and its adopted text is
    non-empty, or its status is Not Applicable and its notes are non-empty
    after trimming.  A feedback with status Pending Review and neither notes
    nor adopted text gives no learning. *)
Theorem extracted_learnings_qualification (analyses : list SavedAnalysis) :
  extractLearningsFromFeedback analyses None
  = concat (map learningsOf (sortByTimestampDesc analyses))
  ∧ (∀ maxLearnings,
       extractLearningsFromFeedback analyses (Some maxLearnings)
       = take maxLearnings (extractLearningsFromFeedback analyses None))
  ∧ (∀ analysis change,
       is_Some (feedbackLearning analysis change)
       ↔ ∃ fb, sc_userFeedback change = Some fb ∧ qualifying fb)
  ∧ (∀ analysis change fb,
       sc_userFeedback change = Some fb →
       status fb = Some "Pending Review" → notes fb = None →
       finalAdoptedText fb = None →
       feedbackLearning analysis change = None).
Proof.
  split; [apply scanAnalyses_uncapped|].
  split; [intros m; apply extractLearnings_capped|].
  split; [apply feedbackLearning_is_Some|].
  intros analysis change fb Hfb Hst Hn Ha.
  unfold feedbackLearning, qualifies. by rewrite Hfb, Hst, Hn, Ha.
Qed.

(** ** Learnings for the prompt *)

Section SelectionFacts.
Implicit Types (docs : list CompanyDocument) (acc : Acc) (l learningString : string)
  (learnings : list string).

Lemma tryDocs_spec learningString docSection docs acc :
  tryDocs learningString docSection docs acc
  = if existsb (λ d, includes docSection (toLowerCase (cd_name d))) docs
       && negb (bool_decide (docSection +:+ coreLearningContent learningString
                             ∈ addedLearningContents acc))
    then {| contextualLearnings := contextualLearnings acc ++ [learningString];
            addedLearningContents :=
              {[ docSection +:+ coreLearningContent learningString ]}
              ∪ addedLearningContents acc |}
    else acc.
Proof.
  induction docs as [|d docs IH]; simpl; [done|].
  destruct (includes docSection (toLowerCase (cd_name d))); simpl; [|done].
  destruct (bool_decide (_ ∈ addedLearningContents acc)) eqn:Hin; simpl; [|done].
  rewrite IH. by rewrite andb_false_r.
Qed.

Lemma selectLoop_step maxLearningsForPrompt docs learningString learnings acc :
  selectLoop maxLearningsForPrompt docs (learningString :: learnings) acc
  = if maxLearningsForPrompt <=? length (contextualLearnings acc) then acc
    else selectLoop maxLearningsForPrompt docs learnings
           (selectStep docs learningString acc).
Proof.
  simpl. destruct (maxLearningsForPrompt <=? length (contextualLearnings acc)); [done|].
  f_equal. unfold selectStep, dedupKey, relevant.
  destruct (docSectionFromLearning learningString) as [docSection|]; simpl; [|done].
  apply tryDocs_spec.
Qed.








Lemma selectLoop_exact maxLearningsForPrompt docs learnings acc :
  contextualLearnings (selectLoop maxLearningsForPrompt docs learnings acc)
  = contextualLearnings acc
    ++ take (maxLearningsForPrompt - length (contextualLearnings acc))
         (newKeys (addedLearningContents acc) (List.filter (relevant docs) learnings)).
Proof.
  revert acc. induction learnings as [|x learnings IH]; intros acc.
  - simpl. by rewrite take_nil, app_nil_r.
  - rewrite selectLoop_step.
    destruct (Nat.leb_spec maxLearningsForPrompt (length (contextualLearnings acc)))
      as [Hcap|Hroom].
    { replace (maxLearningsForPrompt - length (contextualLearnings acc)) with 0 by lia.
      by rewrite take_0, app_nil_r. }
    rewrite IH. unfold selectStep. cbn [List.filter].
    destruct (dedupKey x) as [key|] eqn:Hkey.
    + destruct (relevant docs x); simpl; [|done]. rewrite Hkey.
      case_bool_decide as Hin; simpl; [done|].
      rewrite length_app, <- app_assoc. simpl. f_equal.
      destruct (maxLearningsForPrompt - length (contextualLearnings acc))
        as [|n] eqn:Hn; [lia|].
      simpl. do 2 f_equal. lia.
    + assert (relevant docs x = false) as ->; [|done].
      unfold relevant, dedupKey in *.
      by destruct (docSectionFromLearning x).
Qed.

Lemma selection_exact allPotentialLearnings docs maxLearningsForPrompt :
  selectContextualLearningsForChallengePrompt allPotentialLearnings docs
    maxLearningsForPrompt
  = take maxLearningsForPrompt
      (newKeys ∅ (List.filter (relevant docs) allPotentialLearnings)).
Proof.
  unfold selectContextualLearningsForChallengePrompt.
  destruct docs as [|d docs].
  { assert (List.filter (relevant []) allPotentialLearnings = []) as ->.
    { induction allPotentialLearnings as [|x l IH]; simpl; [done|].
      unfold relevant at 1. by destruct (docSectionFromLearning x). }
    simpl. by rewrite take_nil. }
  destruct allPotentialLearnings as [|x learnings]; [by destruct maxLearningsForPrompt|].
  rewrite selectLoop_exact. simpl. by rewrite Nat.sub_0_r.
Qed.

End SelectionFacts.

(** ** Gap Review *)

Section PromptFacts.
Implicit Types (chunks : list DocumentChunk) (c : DocumentChunk).

Lemma includes_id_elem_of ids id : includes_id ids id = true ↔ id ∈ ids.
Proof.
  unfold includes_id. rewrite existsb_exists. split.
  - intros (x & Hin & Heq). apply String.eqb_eq in Heq as ->.
    by apply list_elem_of_In.
  - intros Hin. exists id. split; [by apply list_elem_of_In | apply String.eqb_refl].
Qed.

Lemma isTargetedRegulatoryChunk_inv userAustracContent targetRegulatoryIds c :
  isTargetedRegulatoryChunk
    (targetedRegulatoryContent userAustracContent targetRegulatoryIds) c = true →
  documentType c = austrac ∧ documentId c ∈ targetRegulatoryIds
  ∧ documentId c ∈ map au_id userAustracContent.
Proof.
  unfold isTargetedRegulatoryChunk, targetedRegulatoryContent.
  rewrite andb_true_iff, bool_decide_eq_true, existsb_exists.
  intros (Hty & d & Hd & Heq). apply String.eqb_eq in Heq.
  apply filter_In in Hd as [Hin Hid]. apply includes_id_elem_of in Hid.
  rewrite <- Heq. repeat split; [done..|].
  apply list_elem_of_fmap_2. by apply list_elem_of_In.
Qed.

Lemma isTargetedCompanyChunk_inv internalCorpus companyDocIds c :
  isTargetedCompanyChunk (targetedCompanyDocs internalCorpus companyDocIds) c = true →
  documentType c = company ∧ documentId c ∈ companyDocIds
  ∧ documentId c ∈ map cd_id internalCorpus.
Proof.
  unfold isTargetedCompanyChunk, targetedCompanyDocs.
  rewrite andb_true_iff, bool_decide_eq_true, existsb_exists.
  intros (Hty & d & Hd & Heq). apply String.eqb_eq in Heq.
  apply filter_In in Hd as [Hin Hid]. apply includes_id_elem_of in Hid.
  rewrite <- Heq. repeat split; [done..|].
  apply list_elem_of_fmap_2. by apply list_elem_of_In.
Qed.

Lemma filter_filter_or {A} (p q : A → bool) (l : list A) :
  List.filter p (List.filter (λ x, p x || q x) l) = List.filter p l.
Proof.
  induction l as [|x l IH]; simpl; [done|].
  destruct (p x) eqn:Hp; simpl; [by rewrite Hp, IH|].
  destruct (q x); simpl; [by rewrite Hp|done].
Qed.

Lemma filter_filter_or_r {A} (p q : A → bool) (l : list A) :
  List.filter q (List.filter (λ x, p x || q x) l) = List.filter q l.
Proof.
  induction l as [|x l IH]; simpl; [done|].
  destruct (q x) eqn:Hq; destruct (p x); simpl; rewrite ?Hq, ?IH; done.
Qed.

(** The context of the prompt reads the retrieved chunks only through
    the two filters. *)
Lemma userPromptContext_filtered chunks targetedRegulatory targetedCompany summaries :
  userPromptContext
    (List.filter (λ c, isTargetedRegulatoryChunk targetedRegulatory c
                       || isTargetedCompanyChunk targetedCompany c) chunks)
    targetedRegulatory targetedCompany summaries
  = userPromptContext chunks targetedRegulatory targetedCompany summaries.
Proof.
  unfold userPromptContext, austracContextFromChunks, companyContextFromChunks.
  by rewrite filter_filter_or, filter_filter_or_r.
Qed.

End PromptFacts.

Section RunFacts.
Implicit Types (world : World) (log : list Call).

Lemma run_bind {A B} world log (p : Prog A) (f : A → Prog B) :
  run world log (Effects.bind p f)
  = run world (run world log p).2 (f (run world log p).1).
Proof.
  revert log. induction p as [a|R e k IH]; intros log; simpl; [done|]. apply IH.
Qed.

Lemma run_call {R} world log (e : Event R) :
  run world log (call e) = (world R log e, log ++ [MkCall e]).
Proof. done. Qed.

End RunFacts.

Section RetrievalFacts.
Variable RAG_TOP_K_CHUNKS_ANALYSIS : nat.
Variable JSON_parse : string → option RawChallengeResult.
Implicit Types (world : World) (log : list Call).

Lemma withChunks_retrieve f world log query topK :
  withChunks f world _ log (RetrieveContext query topK)
  = match world _ log (RetrieveContext query topK) with
    | Returned chunks => Returned (f chunks)
    | Thrown message => Thrown message
    end.
Proof. done. Qed.

Lemma run_retrieval_free {A} f world log (p : Prog A) :
  retrieval_free p → run (withChunks f world) log p = run world log p.
Proof.
  revert log. induction p as [a|R e k IH]; intros log; simpl; [done|].
  intros [He Hk]. rewrite <- IH by done. by destruct e.
Qed.

Lemma retrieval_free_bind {A B} (p : Prog A) (g : A → Prog B) :
  retrieval_free p → (∀ a, retrieval_free (g a)) → retrieval_free (Effects.bind p g).
Proof.
  intros Hp Hg. induction p as [a|R e k IH]; simpl; [done|].
  destruct Hp as [He Hk]. split; [done|]. intros r. by apply IH.
Qed.

Lemma retrieval_free_mapM {A B} (g : A → Prog B) xs :
  (∀ x, retrieval_free (g x)) → retrieval_free (mapM g xs).
Proof.
  intros Hg. induction xs as [|x xs IH]; simpl; [done|].
  apply retrieval_free_bind; [done|]. intros y.
  by apply retrieval_free_bind.
Qed.

Lemma retrieval_free_mapiM {A B} (g : nat → A → Prog B) index xs :
  (∀ i x, retrieval_free (g i x)) → retrieval_free (mapiM g index xs).
Proof.
  intros Hg. revert index. induction xs as [|x xs IH]; intros index; simpl; [done|].
  apply retrieval_free_bind; [done|]. intros y.
  by apply retrieval_free_bind.
Qed.

Lemma retrieval_free_summarize update : retrieval_free (summarize update).
Proof. by split. Qed.

Lemma retrieval_free_parseAndSave jsonStr systemPromptText userPromptText
    targetedRegulatory targetedCompany newSummarizedLocalUpdates
    contextualLearningsForChallenge st :
  retrieval_free
    (parseAndSave JSON_parse jsonStr systemPromptText userPromptText
       targetedRegulatory targetedCompany newSummarizedLocalUpdates
       contextualLearningsForChallenge st).
Proof.
  unfold parseAndSave. destruct (JSON_parse jsonStr) as [parsedResult|]; [|done].
  cbv zeta. apply retrieval_free_bind.
  { apply retrieval_free_mapiM. intros i x. unfold finishSuggestedChange.
    repeat (apply retrieval_free_bind || split || intros || done). }
  intros changes. apply retrieval_free_bind.
  { apply retrieval_free_mapiM. intros i x. unfold finishActionPlanItem.
    repeat (apply retrieval_free_bind || split || intros || done). }
  intros plan. destruct (groupSuggestions changes); [|done].
  repeat (apply retrieval_free_bind || split || intros || done).
Qed.

(** The run of the analysis is the same when the Retriever leaves out
    every chunk that is not about a targeted document: the same calls,
    with the same prompts, and the same state. *)
Lemma analyse_untargeted_chunks world log closure targetedRegulatory
    targetedCompany st :
  run (withChunks
         (List.filter (λ c, isTargetedRegulatoryChunk targetedRegulatory c
                            || isTargetedCompanyChunk targetedCompany c)) world)
    log
    (analyse RAG_TOP_K_CHUNKS_ANALYSIS JSON_parse closure targetedRegulatory
       targetedCompany st)
  = run world log
      (analyse RAG_TOP_K_CHUNKS_ANALYSIS JSON_parse closure targetedRegulatory
         targetedCompany st).
Proof.
  unfold analyse. cbv zeta. rewrite !(run_bind _ _ (mapM _ _)).
  rewrite (run_retrieval_free _ _ _ (mapM summarize targetedRegulatory))
    by (apply retrieval_free_mapM, retrieval_free_summarize).
  set (r := run world log (mapM summarize targetedRegulatory)).
  rewrite !(run_bind _ _ (call (RetrieveContext _ _))), !run_call. cbn [fst snd].
  rewrite withChunks_retrieve.
  destruct (world _ r.2 (RetrieveContext _ _)) as [chunks|message]; [|done].
  rewrite userPromptContext_filtered.
  apply run_retrieval_free, retrieval_free_bind; [by split|].
  intros [responseText|message]; [apply retrieval_free_parseAndSave | done].
Qed.

Lemma retrieval_free_foldM {A S} (g : S → A → Prog S) s xs :
  (∀ s x, retrieval_free (g s x)) → retrieval_free (foldM g s xs).
Proof.
  intros Hg. revert s. induction xs as [|x xs IH]; intros s; simpl; [done|].
  by apply retrieval_free_bind.
Qed.

Lemma retrieval_free_processAndIngestDoc forceReprocessAll total docType id
    docNameOrTitle flag acc :
  retrieval_free
    (processAndIngestDoc forceReprocessAll total docType id docNameOrTitle flag acc).
Proof.
  unfold processAndIngestDoc. cbv zeta.
  destruct (negb forceReprocessAll && negb (notProcessed flag)); [done|].
  split; [done|]. by intros [[[] ?]|?].
Qed.

Lemma retrieval_free_ingestAll forceReprocessAll closure st :
  retrieval_free (ingestAllUnprocessedDocuments forceReprocessAll closure st).
Proof.
  unfold ingestAllUnprocessedDocuments. destruct (negb (ai closure)); [done|].
  cbv zeta. apply retrieval_free_bind.
  { apply retrieval_free_foldM. intros. apply retrieval_free_processAndIngestDoc. }
  intros acc. apply retrieval_free_bind; [|done].
  apply retrieval_free_foldM. intros. apply retrieval_free_processAndIngestDoc.
Qed.

(** The same for the whole workflow. *)
Lemma generateGapReview_untargeted_chunks world log targetRegulatoryIds
    companyDocIds st :
  let targetedRegulatory :=
    targetedRegulatoryContent (userAustracContent st) targetRegulatoryIds in
  let targetedCompany := targetedCompanyDocs (internalCorpus st) companyDocIds in
  run (withChunks
         (List.filter (λ c, isTargetedRegulatoryChunk targetedRegulatory c
                            || isTargetedCompanyChunk targetedCompany c)) world)
    log
    (generateGapReview RAG_TOP_K_CHUNKS_ANALYSIS JSON_parse targetRegulatoryIds
       companyDocIds st)
  = run world log
      (generateGapReview RAG_TOP_K_CHUNKS_ANALYSIS JSON_parse targetRegulatoryIds
         companyDocIds st).
Proof.
  cbv zeta. unfold generateGapReview. destruct (negb (ai st)); [done|].
  destruct ((length companyDocIds =? 0) || (length targetRegulatoryIds =? 0));
    [done|].
  cbv zeta. rewrite !run_bind.
  match goal with
  | |- context [run (withChunks ?f world) log (if ?b then ?p else ?q)] =>
      rewrite (run_retrieval_free f world log (if b then p else q))
  end.
  2:{ destruct (_ || _); [|done].
      apply retrieval_free_bind; [apply retrieval_free_ingestAll | done]. }
  by rewrite analyse_untargeted_chunks.
Qed.

End RetrievalFacts.

(** C6. The regulatory section of the user prompt is built from the
    retrieved chunks of regulatory type whose document is among the targeted
    regulatory ids, the company section from the chunks of company type
    whose document is among the targeted company document ids, and the
    prompt is the same as the one built after every other retrieved chunk
    has been removed.  A run of the workflow is the same, in its calls,
    their prompts and its final state, when the Retriever leaves out the
    chunks that are not about a targeted document. *)
Theorem chunk_filtering_discipline (relevantChunks : list DocumentChunk)
    (userAustracContent : list AustracUpdate) (internalCorpus : list CompanyDocument)
    (targetRegulatoryIds companyDocIds : list string)
    (newSummarizedLocalUpdates : list AustracUpdate) :
  let targetedRegulatory :=
    targetedRegulatoryContent userAustracContent targetRegulatoryIds in
  let targetedCompany := targetedCompanyDocs internalCorpus companyDocIds in
  let regulatoryUsed :=
    List.filter (isTargetedRegulatoryChunk targetedRegulatory) relevantChunks in
  let companyUsed :=
    List.filter (isTargetedCompanyChunk targetedCompany) relevantChunks in
  let targeted c :=
    isTargetedRegulatoryChunk targetedRegulatory c
    || isTargetedCompanyChunk targetedCompany c in
  austracContextFromChunks relevantChunks targetedRegulatory
  = join chunkSeparator (map regulatoryChunkText regulatoryUsed)
  ∧ companyContextFromChunks relevantChunks targetedCompany
    = join chunkSeparator (map companyChunkText companyUsed)
  ∧ (∀ c, c ∈ regulatoryUsed →
       c ∈ relevantChunks ∧ documentType c = austrac
       ∧ documentId c ∈ targetRegulatoryIds)
  ∧ (∀ c, c ∈ companyUsed →
       c ∈ relevantChunks ∧ documentType c = company
       ∧ documentId c ∈ companyDocIds)
  ∧ buildUserPrompt
      (userPromptContext relevantChunks targetedRegulatory targetedCompany
         newSummarizedLocalUpdates)
    = buildUserPrompt
        (userPromptContext (List.filter targeted relevantChunks) targetedRegulatory
           targetedCompany newSummarizedLocalUpdates)
  ∧ (∀ RAG_TOP_K_CHUNKS_ANALYSIS JSON_parse world log st,
       State.userAustracContent st = userAustracContent →
       State.internalCorpus st = internalCorpus →
       run (withChunks (List.filter targeted) world) log
         (generateGapReview RAG_TOP_K_CHUNKS_ANALYSIS JSON_parse targetRegulatoryIds
            companyDocIds st)
       = run world log
           (generateGapReview RAG_TOP_K_CHUNKS_ANALYSIS JSON_parse
              targetRegulatoryIds companyDocIds st)).
Proof.
  cbv zeta. split; [done|]. split; [done|]. split; [|split; [|split]].
  - intros c Hc. apply list_elem_of_In, filter_In in Hc as [Hin Hc].
    apply isTargetedRegulatoryChunk_inv in Hc as (? & ? & _).
    by rewrite list_elem_of_In.
  - intros c Hc. apply list_elem_of_In, filter_In in Hc as [Hin Hc].
    apply isTargetedCompanyChunk_inv in Hc as (? & ? & _).
    by rewrite list_elem_of_In.
  - by rewrite userPromptContext_filtered.
  - intros RAG_TOP_K_CHUNKS_ANALYSIS JSON_parse world log st <- <-.
    apply generateGapReview_untargeted_chunks.
Qed.

Section GroupingFacts.
Implicit Types (changes : list SuggestedChange) (c : SuggestedChange)
  (g : gmap string (list SuggestedChange)) (k : string).

Lemma totalGrouped_insert_fresh g k group :
  g !! k = None → totalGrouped (<[k := group]> g) = length group + totalGrouped g.
Proof.
  intros Hk. unfold totalGrouped.
  rewrite (map_fold_insert_L (λ _ grp n, length grp + n) 0 k group g); [done| |done].
  intros. lia.
Qed.

Lemma totalGrouped_insert_present g k old group :
  g !! k = Some old →
  totalGrouped (<[k := group]> g) + length old = length group + totalGrouped g.
Proof.
  intros Hk. rewrite <- (insert_delete_eq g k group).
  rewrite totalGrouped_insert_fresh by apply lookup_delete_eq.
  unfold totalGrouped at 2.
  rewrite (map_fold_delete_L _ _ k old g); [|intros; lia|done].
  fold (totalGrouped (delete k g)). lia.
Qed.

Lemma groupOf_cons k c changes :
  groupOf k (c :: changes)
  = if String.eqb (docNameOf c) k then c :: groupOf k changes else groupOf k changes.
Proof. done. Qed.

Lemma groupLoop_lookup changes g g' k :
  groupLoop changes g = Some g' → g' !! k = extended (g !! k) (groupOf k changes).
Proof.
  revert g. induction changes as [|c changes IH]; intros g Hg.
  - injection Hg as <-. destruct (g !! k); simpl; by rewrite ?app_nil_r.
  - rewrite groupOf_cons. simpl in Hg.
    destruct (g !! docNameOf c) as [group|] eqn:Hlook.
    + rewrite (IH _ Hg). destruct (String.eqb_spec (docNameOf c) k) as [Heq|Hne].
      * subst k. rewrite lookup_insert_eq, Hlook. simpl. by rewrite <- app_assoc.
      * by rewrite lookup_insert_ne.
    + case_bool_decide; [done|]. rewrite (IH _ Hg).
      destruct (String.eqb_spec (docNameOf c) k) as [Heq|Hne].
      * subst k. by rewrite lookup_insert_eq, Hlook.
      * by rewrite lookup_insert_ne.
Qed.

Lemma groupLoop_total changes g g' :
  groupLoop changes g = Some g' → totalGrouped g' = totalGrouped g + length changes.
Proof.
  revert g. induction changes as [|c changes IH]; simpl; intros g Hg.
  - simplify_eq. lia.
  - destruct (g !! docNameOf c) as [group|] eqn:Hlook.
    + rewrite (IH _ Hg).
      pose proof (totalGrouped_insert_present g _ group (group ++ [c]) Hlook) as H.
      rewrite length_app in H. simpl in H. lia.
    + case_bool_decide; [done|]. rewrite (IH _ Hg).
      rewrite totalGrouped_insert_fresh by done. simpl. lia.
Qed.

Lemma groupLoop_completes changes g :
  Forall (λ c, docNameOf c ∉ inheritedProperties) changes →
  is_Some (groupLoop changes g).
Proof.
  intros Hall. revert g. induction Hall as [|c changes Hc Hall IH]; simpl; intros g.
  - by eexists.
  - destruct (g !! docNameOf c); [apply IH|].
    case_bool_decide; [done | apply IH].
Qed.

Lemma elem_of_groupOf k changes c :
  c ∈ groupOf k changes ↔ c ∈ changes ∧ docNameOf c = k.
Proof.
  unfold groupOf. by rewrite !list_elem_of_In, filter_In, String.eqb_eq.
Qed.

End GroupingFacts.

Section SavedFacts.
Variable JSON_parse : string → option RawChallengeResult.

(** What a successful post-processing saves. *)
Lemma parseAndSave_saved world log jsonStr systemPromptText userPromptText
    targetedRegulatory targetedCompany newSummarizedLocalUpdates
    contextualLearningsForChallenge st :
  let st' :=
    (run world log
       (parseAndSave JSON_parse jsonStr systemPromptText userPromptText
          targetedRegulatory targetedCompany newSummarizedLocalUpdates
          contextualLearningsForChallenge st)).1 in
  fetchStatus st' = SUCCESS →
  ∃ sa suggested_changes action_plan groupedSuggestions,
    savedAnalyses st' = sa :: savedAnalyses st
    ∧ activeAnalysisId st' = Some (sa_id sa)
    ∧ challengeResult st' = challengeAnalysisResult sa
    ∧ challengeAnalysisResult sa
      = Some (<["groupedSuggestions" := VGroups groupedSuggestions]>
                (<["action_plan" := VPlan action_plan]>
                   {["suggested_changes" := VChanges suggested_changes]}))
    ∧ groupSuggestions suggested_changes = Some groupedSuggestions.
Proof.
  unfold parseAndSave. destruct (JSON_parse jsonStr) as [parsedResult|]; [|done].
  cbv zeta. rewrite !run_bind.
  set (r1 := run world log (mapiM finishSuggestedChange 0 _)).
  set (r2 := run world r1.2 (mapiM finishActionPlanItem 0 _)).
  destruct (groupSuggestions r1.1) as [g|] eqn:Hg; [|done].
  rewrite !run_bind, !run_call. simpl. intros _.
  eexists _, r1.1, r2.1, g. by split_and!.
Qed.
End SavedFacts.

(** C7. The group name of a suggested change is its source document name
    when it has one that is not empty, and General otherwise.  Whenever the
    grouping of the post-processing completes, which it does as soon as no
    group name is a property that an empty object inherits, the groups
    partition the suggested changes: the group under a
    name holds, in order, exactly the changes whose source document name is
    that name (General when the name is absent or empty), no group is
    empty, every change is in the group of its name and in no other, and
    the sizes of the groups add up to the length of the list.  The analysis
    that a successful post-processing saves holds the grouping of its own
    suggested changes. *)
Theorem grouped_suggestions_partition (suggested_changes : list SuggestedChange) :
  (Forall (λ c, docNameOf c ∉ inheritedProperties) suggested_changes →
   is_Some (groupSuggestions suggested_changes))
  ∧ (∀ c,
      (∀ n, source_document_name c = Some n → n ≠ EmptyString → docNameOf c = n)
      ∧ (source_document_name c = None ∨ source_document_name c = Some EmptyString →
         docNameOf c = "General"))
  ∧ (∀ groupedSuggestions,
      groupSuggestions suggested_changes = Some groupedSuggestions →
      (∀ k group, groupedSuggestions !! k = Some group ↔
                  group = groupOf k suggested_changes ∧ group ≠ [])
      ∧ (∀ c, c ∈ suggested_changes →
           ∃ group, groupedSuggestions !! docNameOf c = Some group ∧ c ∈ group)
      ∧ (∀ k group c, groupedSuggestions !! k = Some group → c ∈ group →
           c ∈ suggested_changes ∧ docNameOf c = k)
      ∧ totalGrouped groupedSuggestions = length suggested_changes)
  ∧ (∀ JSON_parse world log jsonStr systemPromptText userPromptText
       targetedRegulatory targetedCompany newSummarizedLocalUpdates
       contextualLearningsForChallenge st,
      let st' :=
        (run world log
           (parseAndSave JSON_parse jsonStr systemPromptText userPromptText
              targetedRegulatory targetedCompany newSummarizedLocalUpdates
              contextualLearningsForChallenge st)).1 in
      fetchStatus st' = SUCCESS →
      ∃ sa changes action_plan groupedSuggestions,
        savedAnalyses st' = sa :: savedAnalyses st
        ∧ activeAnalysisId st' = Some (sa_id sa)
        ∧ challengeResult st' = challengeAnalysisResult sa
        ∧ challengeAnalysisResult sa
          = Some (<["groupedSuggestions" := VGroups groupedSuggestions]>
                    (<["action_plan" := VPlan action_plan]>
                       {["suggested_changes" := VChanges changes]}))
        ∧ groupSuggestions changes = Some groupedSuggestions).
Proof.
  split; [apply groupLoop_completes|].
  split.
  { intros c. unfold docNameOf. split.
    - intros n -> Hn. by destruct n.
    - by intros [->| ->]. }
  split; [|intros; by apply parseAndSave_saved].
  intros g Hg.
  assert (Hlook : ∀ k group, g !! k = Some group ↔
                    group = groupOf k suggested_changes ∧ group ≠ []).
  { intros k group. rewrite (groupLoop_lookup _ _ _ k Hg), lookup_empty. simpl.
    destruct (groupOf k suggested_changes) eqn:Hk; split.
    - done.
    - by intros [-> ?].
    - intros ?; simplify_eq. done.
    - intros [-> _]. done. }
  split; [done|]. split; [|split].
  - intros c Hc. exists (groupOf (docNameOf c) suggested_changes).
    assert (c ∈ groupOf (docNameOf c) suggested_changes) as Hin
      by by apply elem_of_groupOf.
    split; [|done]. apply Hlook. split; [done|].
    intros Hnil. rewrite Hnil in Hin. by apply elem_of_nil in Hin.
  - intros k group c Hk Hc. apply Hlook in Hk as [-> _].
    by apply elem_of_groupOf.
  - rewrite (groupLoop_total _ _ _ Hg). unfold totalGrouped.
    by rewrite map_fold_empty.
Qed.

(** ** The analysis store *)

Section StoreFacts.
Implicit Types (l : list SavedAnalysis) (sa x y : SavedAnalysis) (id : string).

Lemma insert_desc_perm x l : insert_desc x l ≡ₚ x :: l.
Proof.
  induction l as [|y l IH]; simpl; [done|].
  destruct (timestamp y <=? timestamp x)%Z; [done|].
  rewrite IH. apply Permutation_swap.
Qed.

Lemma sortByTimestampDesc_perm l : sortByTimestampDesc l ≡ₚ l.
Proof.
  induction l as [|x l IH]; simpl; [done|].
  rewrite insert_desc_perm. by f_equiv.
Qed.

Lemma insert_desc_sorted x l : sorted_desc l → sorted_desc (insert_desc x l).
Proof.
  unfold sorted_desc. induction 1 as [|y l Hs IH Hall]; simpl.
  - repeat constructor.
  - destruct (Z.leb_spec (timestamp y) (timestamp x)) as [Hle|Hlt].
    + constructor; [by constructor|].
      constructor; [done|].
      eapply Forall_impl; [exact Hall|]. intros z Hz. simpl in *. lia.
    + constructor; [done|].
      rewrite insert_desc_perm. constructor; [lia | done].
Qed.

Lemma sortByTimestampDesc_sorted l : sorted_desc (sortByTimestampDesc l).
Proof.
  induction l as [|x l IH]; simpl; [constructor|].
  by apply insert_desc_sorted.
Qed.

Lemma find_Some_inv id l sa : find id l = Some sa → sa ∈ l ∧ sa_id sa = id.
Proof.
  unfold find. intros H. apply find_some in H as [Hin Heq].
  split; [by apply list_elem_of_In | by apply String.eqb_eq].
Qed.

Lemma find_None_iff id l : find id l = None ↔ id ∉ map sa_id l.
Proof.
  unfold find. induction l as [|x l IH]; simpl.
  - split; [intros _; apply not_elem_of_nil | done].
  - destruct (String.eqb_spec (sa_id x) id) as [->|Hne].
    + split; [done|]. intros H. exfalso. apply H. left.
    + rewrite IH. split.
      * intros H Hin. apply elem_of_cons in Hin as [Heq|Hin]; [by subst | done].
      * intros H Hin. apply H. by right.
Qed.

(** With distinct ids, [find] reads the one analysis that carries the
    id, wherever it stands. *)
Lemma find_unique id l sa :
  unique_ids l → sa ∈ l → sa_id sa = id → find id l = Some sa.
Proof.
  unfold unique_ids, find. induction l as [|x l IH]; simpl; intros Hnd Hin Hid.
  - by apply elem_of_nil in Hin.
  - apply NoDup_cons in Hnd as [Hx Hnd].
    apply elem_of_cons in Hin as [->|Hin].
    + by rewrite Hid, String.eqb_refl.
    + destruct (String.eqb_spec (sa_id x) id) as [Heq|Hne]; [|by apply IH].
      exfalso. apply Hx. rewrite Heq, <- Hid. by apply list_elem_of_fmap_2.
Qed.

Lemma unique_ids_perm l l' : l ≡ₚ l' → unique_ids l → unique_ids l'.
Proof. unfold unique_ids. intros Hp. by rewrite Hp. Qed.

Lemma sorted_desc_timestamps l l' :
  map timestamp l' = map timestamp l → sorted_desc l → sorted_desc l'.
Proof.
  unfold sorted_desc. intros Heq Hs. revert l' Heq.
  induction Hs as [|x l Hs IH Hall]; intros [|x' l'] Heq; simplify_eq/=;
    constructor.
  - by apply IH.
  - apply Forall_forall. intros z Hz.
    assert (timestamp z ∈ map timestamp l') as Hz'
      by by apply list_elem_of_fmap_2.
    rewrite H0 in Hz'. apply list_elem_of_fmap in Hz' as (z0 & Hz0 & Hin).
    rewrite Forall_forall in Hall. specialize (Hall _ Hin). simpl in Hall.
    rewrite H. lia.
Qed.

End StoreFacts.

Section StoreOperations.
Implicit Types (l store : list SavedAnalysis) (sa : SavedAnalysis) (st : AppState).

Lemma withName_same_but_name newName sa : same_but_name sa (withName newName sa).
Proof. by repeat split. Qed.

Lemma same_but_name_refl sa : same_but_name sa sa.
Proof. by repeat split. Qed.

Lemma renameIn_lookup idToRename newName store i sa :
  store !! i = Some sa →
  renameIn idToRename newName store !! i
  = Some (if String.eqb (sa_id sa) idToRename then withName newName sa else sa).
Proof. intros H. unfold renameIn. by rewrite list_lookup_fmap, H. Qed.

Lemma renameIn_timestamps idToRename newName store :
  map timestamp (renameIn idToRename newName store) = map timestamp store.
Proof.
  unfold renameIn. rewrite map_map. apply map_ext. intros sa.
  by destruct (String.eqb (sa_id sa) idToRename).
Qed.

Lemma renameIn_ids idToRename newName store :
  map sa_id (renameIn idToRename newName store) = map sa_id store.
Proof.
  unfold renameIn. rewrite map_map. apply map_ext. intros sa.
  by destruct (String.eqb (sa_id sa) idToRename).
Qed.

Lemma renameIn_absent idToRename newName store :
  find idToRename store = None → renameIn idToRename newName store = store.
Proof.
  rewrite find_None_iff. unfold renameIn. induction store as [|sa store IH]; simpl.
  - done.
  - intros Hnot. rewrite not_elem_of_cons in Hnot. destruct Hnot as [Hne Hnot].
    destruct (String.eqb_spec (sa_id sa) idToRename) as [Heq|_]; [by subst|].
    by rewrite IH.
Qed.

Lemma setSavedAnalyses_same st : setSavedAnalyses (savedAnalyses st) st = st.
Proof. by destruct st. Qed.

Lemma filter_absent idToDelete store :
  find idToDelete store = None →
  List.filter (λ sa, negb (String.eqb (sa_id sa) idToDelete)) store = store.
Proof.
  rewrite find_None_iff. induction store as [|sa store IH]; simpl; [done|].
  intros Hnot. rewrite not_elem_of_cons in Hnot. destruct Hnot as [Hne Hnot].
  destruct (String.eqb_spec (sa_id sa) idToDelete) as [Heq|_]; [by subst|].
  simpl. by rewrite IH.
Qed.

Lemma find_filter_deleted idToDelete store :
  find idToDelete
    (List.filter (λ sa, negb (String.eqb (sa_id sa) idToDelete)) store) = None.
Proof.
  apply find_None_iff. intros Hin.
  apply list_elem_of_fmap in Hin as (sa & -> & Hin).
  apply list_elem_of_In, filter_In in Hin as [_ Hne].
  by rewrite String.eqb_refl in Hne.
Qed.

Lemma elem_of_filter_deleted idToDelete store sa :
  sa ∈ List.filter (λ sa, negb (String.eqb (sa_id sa) idToDelete)) store
  ↔ sa ∈ store ∧ sa_id sa ≠ idToDelete.
Proof.
  rewrite !list_elem_of_In, filter_In, negb_true_iff, String.eqb_neq. done.
Qed.

Lemma isActive_true st id : isActive st id = true ↔ activeAnalysisId st = Some id.
Proof.
  unfold isActive. destruct (activeAnalysisId st) as [a|]; [|done].
  rewrite String.eqb_eq. split; congruence.
Qed.

Lemma deleteWith_absent cleared idToDelete st :
  find idToDelete (savedAnalyses st) = None → active_in_store st →
  deleteWith cleared idToDelete st = st.
Proof.
  intros Habs Hact. unfold deleteWith.
  destruct (isActive st idToDelete) eqn:Hia.
  - apply isActive_true in Hia. destruct (Hact _ Hia) as [sa Hsa]. congruence.
  - rewrite filter_absent by done. apply setSavedAnalyses_same.
Qed.

End StoreOperations.

(** C10. Renaming a saved analysis replaces only its name: at every
    position of the store the analysis keeps its id, timestamp, type,
    results (with the feedback they carry), snapshots and prompts, and its
    name becomes the new one exactly when its id is the renamed one; the
    timestamps, hence the order of the store, are unchanged; nothing else of
    the application state changes; and renaming an id that is not in the
    store leaves the state as it is. *)
Theorem rename_frame (idToRename newName : string) (st : AppState) :
  let st' := handleRenameAnalysis idToRename newName st in
  length (savedAnalyses st') = length (savedAnalyses st)
  ∧ (∀ i sa, savedAnalyses st !! i = Some sa →
       ∃ sa', savedAnalyses st' !! i = Some sa'
              ∧ same_but_name sa sa'
              ∧ sa_name sa' = if String.eqb (sa_id sa) idToRename
                              then newName else sa_name sa)
  ∧ map timestamp (savedAnalyses st') = map timestamp (savedAnalyses st)
  ∧ (sorted_desc (savedAnalyses st) → sorted_desc (savedAnalyses st'))
  ∧ same_but_store st st'
  ∧ (find idToRename (savedAnalyses st) = None → st' = st).
Proof.
  assert (Hstore : savedAnalyses (handleRenameAnalysis idToRename newName st)
                   = renameIn idToRename newName (savedAnalyses st)) by done.
  cbv zeta. rewrite Hstore. repeat split.
  - unfold renameIn. by rewrite length_map.
  - intros i sa Hi. eexists. split; [by apply renameIn_lookup|].
    destruct (String.eqb (sa_id sa) idToRename).
    + split; [apply withName_same_but_name | done].
    + split; [apply same_but_name_refl | done].
  - apply renameIn_timestamps.
  - apply sorted_desc_timestamps, renameIn_timestamps.
  - unfold same_but_store. by destruct st.
  - intros Habs. unfold handleRenameAnalysis.
    rewrite renameIn_absent by done. apply setSavedAnalyses_same.
Qed.

Section DeleteFacts.
Implicit Types (st : AppState) (cleared : option string).

Lemma deleteWith_store cleared idToDelete st :
  savedAnalyses (deleteWith cleared idToDelete st)
  = List.filter (λ sa, negb (String.eqb (sa_id sa) idToDelete)) (savedAnalyses st).
Proof. unfold deleteWith. by destruct (isActive st idToDelete). Qed.

Lemma deleteWith_active cleared idToDelete st :
  activeAnalysisId st = Some idToDelete →
  displayed_state_cleared cleared (deleteWith cleared idToDelete st).
Proof.
  intros Hact. apply isActive_true in Hact. unfold deleteWith. rewrite Hact.
  by repeat split.
Qed.

Lemma deleteWith_spec cleared idToDelete st :
  let st' := deleteWith cleared idToDelete st in
  (find idToDelete (savedAnalyses st') = None
   ∧ ∀ sa, sa ∈ savedAnalyses st' ↔ sa ∈ savedAnalyses st ∧ sa_id sa ≠ idToDelete)
  ∧ (activeAnalysisId st = Some idToDelete → displayed_state_cleared cleared st')
  ∧ (find idToDelete (savedAnalyses st) = None →
     savedAnalyses st' = savedAnalyses st ∧ (active_in_store st → st' = st)).
Proof.
  cbv zeta. rewrite deleteWith_store. split; [split|split].
  - apply find_filter_deleted.
  - intros sa. apply elem_of_filter_deleted.
  - apply deleteWith_active.
  - intros Habs. split; [by apply filter_absent | by apply deleteWith_absent].
Qed.

(** The operations keep the active pointer inside the store. *)
Lemma deleteWith_active_in_store cleared idToDelete st :
  active_in_store st → active_in_store (deleteWith cleared idToDelete st).
Proof.
  intros Hinv id Hid. rewrite deleteWith_store.
  unfold deleteWith in Hid. destruct (isActive st idToDelete) eqn:Hia; [done|].
  assert (activeAnalysisId st = Some id) as Hact by done.
  destruct (Hinv _ Hact) as [sa Hsa]. exists sa.
  apply find_Some_inv in Hsa as Hsa'. destruct Hsa' as [_ Hsid].
  assert (id ≠ idToDelete) as Hne.
  { intros ->. apply isActive_true in Hact. congruence. }
  clear Hid Hact Hia Hinv. unfold find in *.
  induction (savedAnalyses st) as [|x l IH]; simpl in *; [done|].
  destruct (String.eqb_spec (sa_id x) id) as [Hx|Hx].
  - simplify_eq. apply String.eqb_neq in Hne. rewrite Hne. simpl.
    by rewrite String.eqb_refl.
  - destruct (negb (String.eqb (sa_id x) idToDelete)); simpl; [|by apply IH].
    apply String.eqb_neq in Hx. rewrite Hx. by apply IH.
Qed.

End DeleteFacts.

(** C9. Deleting an analysis removes it from the store and keeps the
    other analyses; when it is the active one, the active pointer, the
    cached result views, the prompts, the grounding metadata and both fetch
    states are cleared; deleting an id that is not in the store leaves the
    store as it is, and the whole state when the active pointer names a
    saved analysis.  The root variant and the frontend variant differ only in
    the value the selected deep-dive document is reset to. *)
Theorem delete_consistency (idToDelete : string) (st : AppState) :
  (let st' := handleDeleteAnalysis idToDelete st in
   (find idToDelete (savedAnalyses st') = None
    ∧ ∀ sa, sa ∈ savedAnalyses st' ↔ sa ∈ savedAnalyses st ∧ sa_id sa ≠ idToDelete)
   ∧ (activeAnalysisId st = Some idToDelete → displayed_state_cleared None st')
   ∧ (find idToDelete (savedAnalyses st) = None →
      savedAnalyses st' = savedAnalyses st ∧ (active_in_store st → st' = st)))
  ∧
  (let st' := Frontend.handleDeleteAnalysis idToDelete st in
   (find idToDelete (savedAnalyses st') = None
    ∧ ∀ sa, sa ∈ savedAnalyses st' ↔ sa ∈ savedAnalyses st ∧ sa_id sa ≠ idToDelete)
   ∧ (activeAnalysisId st = Some idToDelete →
      displayed_state_cleared (Some EmptyString) st')
   ∧ (find idToDelete (savedAnalyses st) = None →
      savedAnalyses st' = savedAnalyses st ∧ (active_in_store st → st' = st))).
Proof. split; apply deleteWith_spec. Qed.

Section MergeFacts.
Implicit Types (store : list SavedAnalysis) (sa : SavedAnalysis)
  (partial r : AnalysisResult).

Lemma mergeResult_lookup r partial k :
  mergeResult r partial !! k
  = match partial !! k with Some v => Some v | None => r !! k end.
Proof.
  unfold mergeResult. rewrite lookup_union.
  by destruct (partial !! k), (r !! k).
Qed.

Lemma mergeInto_id id partial now sa : sa_id (mergeInto id partial now sa) = sa_id sa.
Proof.
  unfold mergeInto. destruct (String.eqb (sa_id sa) id); [|done].
  by destruct (sa_type sa), (challengeAnalysisResult sa), (deepDiveAnalysisResult sa).
Qed.

Lemma mergeInto_other id partial now sa :
  sa_id sa ≠ id → mergeInto id partial now sa = sa.
Proof. intros Hne. unfold mergeInto. apply String.eqb_neq in Hne. by rewrite Hne. Qed.

Lemma mergeInto_target id partial now sa r :
  sa_id sa = id → resultSource sa = Some r →
  let sa' := mergeInto id partial now sa in
  resultSource sa' = Some (mergeResult r partial)
  ∧ timestamp sa' = now ∧ same_but_result sa sa'.
Proof.
  intros Hid Hr. unfold mergeInto. apply String.eqb_eq in Hid. rewrite Hid.
  unfold resultSource in *.
  destruct (sa_type sa) eqn:Hty; rewrite Hr; simpl.
  - unfold resultSource. simpl. rewrite Hty. by repeat split.
  - destruct (challengeAnalysisResult sa);
      unfold resultSource; simpl; rewrite Hty; by repeat split.
Qed.

Lemma map_mergeInto_ids id partial now store :
  map sa_id (map (mergeInto id partial now) store) = map sa_id store.
Proof. rewrite map_map. apply map_ext. intros sa. apply mergeInto_id. Qed.

Lemma updateFeedback_perm id partial now store :
  updateFeedbackInSavedAnalyses id partial now store
  ≡ₚ map (mergeInto id partial now) store.
Proof. apply sortByTimestampDesc_perm. Qed.

Lemma updateFeedback_unique_ids id partial now store :
  unique_ids store → unique_ids (updateFeedbackInSavedAnalyses id partial now store).
Proof.
  intros Hu. eapply unique_ids_perm; [symmetry; apply updateFeedback_perm|].
  unfold unique_ids. by rewrite map_mergeInto_ids.
Qed.

End MergeFacts.


Section InvariantFacts.
Implicit Types (st : AppState) (store : list SavedAnalysis).

Lemma find_is_Some id store : is_Some (find id store) ↔ id ∈ map sa_id store.
Proof.
  rewrite <- not_eq_None_Some, find_None_iff.
  split; [|by intros ? ?]. intros H. by destruct (decide (id ∈ map sa_id store)).
Qed.

(** Renaming and merging keep the ids, hence the active pointer inside
    the store and the ids distinct. *)
Lemma handleRenameAnalysis_active_in_store idToRename newName st :
  active_in_store st → active_in_store (handleRenameAnalysis idToRename newName st).
Proof.
  intros Hinv id Hid. apply find_is_Some.
  change (savedAnalyses (handleRenameAnalysis idToRename newName st))
    with (renameIn idToRename newName (savedAnalyses st)).
  rewrite renameIn_ids. apply find_is_Some. by apply Hinv.
Qed.

Lemma renameIn_unique_ids idToRename newName store :
  unique_ids store → unique_ids (renameIn idToRename newName store).
Proof. unfold unique_ids. by rewrite renameIn_ids. Qed.

Lemma updateFeedback_ids id partial now store x :
  x ∈ map sa_id (updateFeedbackInSavedAnalyses id partial now store)
  ↔ x ∈ map sa_id store.
Proof.
  rewrite <- (map_mergeInto_ids id partial now store).
  by rewrite (fmap_Permutation sa_id _ _ (updateFeedback_perm id partial now store)).
Qed.

End InvariantFacts.

(** C8. In a store with distinct ids, merging a partial result into an
    analysis that carries the result its type names, then reading the
    analysis back by its id: the result read is the shallow merge (a
    property of the partial where it has one, the previous property
    otherwise), the timestamp is the refreshed one, every other field of the
    analysis is kept, the store is sorted most recent first, has the same
    size and distinct ids, and the analyses with another id are the same as
    before. *)
Theorem mergeFeedback_roundtrip_frame (id : string) (partial : AnalysisResult)
    (now : Z) (store : list SavedAnalysis) (sa : SavedAnalysis) (r : AnalysisResult) :
  unique_ids store → find id store = Some sa → resultSource sa = Some r →
  let store' := updateFeedbackInSavedAnalyses id partial now store in
  (∃ sa', find id store' = Some sa'
          ∧ resultSource sa' = Some (mergeResult r partial)
          ∧ timestamp sa' = now
          ∧ same_but_result sa sa')
  ∧ resultOf id store' = Some (mergeResult r partial)
  ∧ (∀ k, mergeResult r partial !! k
          = match partial !! k with Some v => Some v | None => r !! k end)
  ∧ sorted_desc store'
  ∧ (∀ x, sa_id x ≠ id → x ∈ store' ↔ x ∈ store)
  ∧ length store' = length store
  ∧ unique_ids store'.
Proof.
  intros Hu Hfind Hr store'.
  apply find_Some_inv in Hfind as [Hin Hid].
  destruct (mergeInto_target id partial now sa r Hid Hr) as (Hres & Hts & Hsame).
  assert (Hfind' : find id store' = Some (mergeInto id partial now sa)).
  { apply find_unique.
    - by apply updateFeedback_unique_ids.
    - unfold store'. rewrite updateFeedback_perm. by apply list_elem_of_fmap_2.
    - by rewrite mergeInto_id. }
  split; [by eexists|].
  split; [unfold resultOf; by rewrite Hfind'|].
  split; [apply mergeResult_lookup|].
  split; [apply sortByTimestampDesc_sorted|].
  split; [|split].
  - intros x Hx. unfold store'. rewrite updateFeedback_perm. split.
    + intros Hx'. apply list_elem_of_fmap in Hx' as (y & -> & Hy).
      rewrite mergeInto_id in Hx. by rewrite mergeInto_other.
    + intros Hx'. rewrite <- (mergeInto_other id partial now x Hx).
      by apply list_elem_of_fmap_2.
  - unfold store'. by rewrite updateFeedback_perm, length_map.
  - by apply updateFeedback_unique_ids.
Qed.

(** ** The claims on concrete data *)

Example sample_learnings :
  extractLearningsFromFeedback [Samples.older] None = [Samples.learningPolicyA].
Proof. by vm_compute. Qed.

Example sample_fence :
  repair ("```json" +:+ nl +:+ "{}" +:+ nl +:+ "```") = "{}".
Proof. by vm_compute. Qed.

Example sample_missing_comma : repair "[{} foo {}, {}ayal, {}]" = "[{}, {}, {}, {}]".
Proof. by vm_compute. Qed.

(** C1, as stated: a feedback with an adopted text and no status label
    qualifies in the words of the specification, and the code extracts
    nothing from it. *)
Lemma adopted_text_without_status_not_extracted :
  qualifies_as_specified Samples.adoptedWithoutStatus = true
  ∧ extractLearningsFromFeedback
      [Samples.gapReview "analysis-3" "Gap Review" 3000
         [Samples.change "sc-9" "Policy A.pdf" None (Some Samples.adoptedWithoutStatus)]]
      None = [].
Proof. by vm_compute. Qed.

Lemma extracted_learnings_qualification_witness :
  extractLearningsFromFeedback Samples.store None
  = concat (map learningsOf (sortByTimestampDesc Samples.store))
  ∧ feedbackLearning Samples.older
      (Samples.change "sc-2" "Policy" None (Some Samples.pendingReview)) = None.
Proof.
  destruct (extracted_learnings_qualification Samples.store)
    as (Hall & _ & _ & Hpending).
  split; [exact Hall|].
  apply (Hpending _ _ Samples.pendingReview); reflexivity.
Defined.

(** C2, as stated: a well-formed JSON text that the repair changes. *)
Lemma repair_changes_well_formed_json :
  Json.parses Samples.bracesInString = true
  ∧ repair Samples.bracesInString ≠ Samples.bracesInString.
Proof. split; [by vm_compute|]. vm_compute. discriminate. Qed.

Lemma repair_identity_without_defect_witness :
  repair ("{" +:+ quoted "a" +:+ ": 1}") = "{" +:+ quoted "a" +:+ ": 1}".
Proof.
  apply (repair_identity_without_defect ("{" +:+ quoted "a" +:+ ": 1}"));
    vm_compute; reflexivity.
Defined.

(** C3, as stated: the repaired text of the example holds the key
    priority_level, and the key priorityLevel nowhere. *)
Lemma repaired_key_is_priority_level :
  repair Samples.bareHigh
  = quoted "timeline" +:+ ": " +:+ quoted "Q1 2025" +:+ ", "
    +:+ quoted "priority_level" +:+ ": " +:+ quoted "High"
  ∧ includes (repair Samples.bareHigh)
      (quoted "priorityLevel" +:+ ": " +:+ quoted "High") = false.
Proof. by vm_compute. Qed.

(** What is before the field matters: a field glued to the word High
    gives its first double quote to the match that ends there, and is left
    as it is. *)
Example field_glued_to_a_priority :
  key_position (quoted "timeline" +:+ ": " +:+ quoted "a" +:+ ", " +:+ dq +:+ "High")
  = false
  ∧ fixMissingPriorityKey
      ((quoted "timeline" +:+ ": " +:+ quoted "a" +:+ ", " +:+ dq +:+ "High")
       +:+ timelineField " " "b" " " +:+ quoted "Low")
    = (quoted "timeline" +:+ ": " +:+ quoted "a" +:+ ", " +:+ quoted "priority_level"
       +:+ ": " +:+ dq +:+ "High")
      +:+ timelineField " " "b" " " +:+ quoted "Low".
Proof. by vm_compute. Qed.

Lemma missing_priority_key_inserted_witness :
  ∃ pre',
    fixMissingPriorityKey
      (Samples.firstItem +:+ timelineField " " "Q2 2025" " " +:+ quoted "High" +:+ "}]")
    = pre' +:+ timelineField " " "Q2 2025" " " +:+ quoted "priority_level" +:+ ": "
      +:+ quoted "High" +:+ fixMissingPriorityKey "}]"
    ∧ (includes Samples.firstItem timelineKey = false → pre' = Samples.firstItem).
Proof.
  apply (missing_priority_key_inserted Samples.firstItem " " "Q2 2025" " " "High" "}]");
    [vm_compute; reflexivity.. |].
  apply list_elem_of_here.
Defined.

(** C5, as stated: without a generator client, the root variant answers
    an empty selection with another error and the error state. *)
Lemma validation_without_client :
  let st' :=
    (run Samples.offline []
       (generateGapReview 5 (λ _, None) ["reg-1"] []
          (Samples.stateWith false Samples.store None))).1 in
  fetchStatus st' = ERROR ∧ fetchStatus st' ≠ IDLE
  ∧ error st' = Some "AI client not initialized."
  ∧ error st' ≠ Some validationMessage.
Proof. by vm_compute. Qed.

Lemma gap_review_validation_witness :
  run Samples.offline []
    (generateGapReview 5 (λ _, None) ["reg-1"] []
       (Samples.stateWith true Samples.store None))
  = (rejected (Samples.stateWith true Samples.store None), [])
  ∧ run Samples.offline []
      (Frontend.generateGapReview ["reg-1"] []
         (Samples.stateWith true Samples.store None))
    = (rejected (Samples.stateWith true Samples.store None), []).
Proof.
  destruct (gap_review_validation 5 (λ _, None) ["reg-1"] []
              (Samples.stateWith true Samples.store None) Samples.offline)
    as (Hroot & Hfrontend & _).
  - left. reflexivity.
  - split; [apply Hroot; reflexivity | exact Hfrontend].
Defined.

(** A run with a selection does call the collaborators: here the
    Generator for the summary and the Retriever, which fails. *)
Example sample_run_calls :
  let outcome :=
    run Samples.offline []
      (generateGapReview 5 (λ _, None) ["reg-1"] ["doc-a"]
         (Samples.stateWith true Samples.store None)) in
  count isGeneratorCall outcome.2 = 1 ∧ count isRetrieverCall outcome.2 = 1
  ∧ fetchStatus outcome.1 = ERROR
  ∧ savedAnalyses outcome.1 = Samples.store.
Proof. by vm_compute. Qed.

Lemma chunk_filtering_discipline_witness :
  documentType (Samples.chunk "c-1" "doc-a" company) = company
  ∧ documentId (Samples.chunk "c-1" "doc-a" company) ∈ ["doc-a"].
Proof.
  destruct (chunk_filtering_discipline
              [Samples.chunk "c-1" "doc-a" company;
               Samples.chunk "c-2" "doc-b" company;
               Samples.chunk "c-3" "doc-a" austrac]
              [] [Samples.policyA; Samples.policyB] [] ["doc-a"] [])
    as (_ & _ & _ & Hcompany & _).
  apply Hcompany. vm_compute. apply list_elem_of_here.
Defined.

Lemma grouped_suggestions_partition_witness :
  ∃ groupedSuggestions,
    groupSuggestions
      [Samples.change "sc-1" "s" (Some "Policy A.pdf") None;
       Samples.change "sc-2" "s" None None;
       Samples.change "sc-3" "s" (Some "Policy A.pdf") None]
    = Some groupedSuggestions
    ∧ groupedSuggestions !! "Policy A.pdf"
      = Some [Samples.change "sc-1" "s" (Some "Policy A.pdf") None;
              Samples.change "sc-3" "s" (Some "Policy A.pdf") None]
    ∧ groupedSuggestions !! "General" = Some [Samples.change "sc-2" "s" None None]
    ∧ totalGrouped groupedSuggestions = 3.
Proof.
  destruct (grouped_suggestions_partition
              [Samples.change "sc-1" "s" (Some "Policy A.pdf") None;
               Samples.change "sc-2" "s" None None;
               Samples.change "sc-3" "s" (Some "Policy A.pdf") None])
    as (Hcompletes & _ & Hpartition & _).
  destruct Hcompletes as [groupedSuggestions Hgrouped].
  { apply (bool_decide_unpack _). vm_compute. exact I. }
  destruct (Hpartition groupedSuggestions Hgrouped) as (Hgroups & _ & _ & Htotal).
  exists groupedSuggestions. split; [exact Hgrouped|].
  split; [apply Hgroups; split; [vm_compute; reflexivity|discriminate]|].
  split; [apply Hgroups; split; [vm_compute; reflexivity|discriminate]|].
  exact Htotal.
Defined.

Lemma mergeFeedback_roundtrip_frame_witness :
  resultOf "analysis-1"
    (updateFeedbackInSavedAnalyses "analysis-1" {[ "action_plan" := VPlan [] ]} 3000
       Samples.store)
  = Some (mergeResult
            {[ "suggested_changes" :=
                 VChanges
                   [Samples.change "sc-1" "Policy A.pdf" (Some "Policy A.pdf")
                      (Some Samples.actioned);
                    Samples.change "sc-2" "Policy" None (Some Samples.pendingReview)] ]}
            {[ "action_plan" := VPlan [] ]})
  ∧ sorted_desc
      (updateFeedbackInSavedAnalyses "analysis-1" {[ "action_plan" := VPlan [] ]} 3000
         Samples.store).
Proof.
  destruct (mergeFeedback_roundtrip_frame "analysis-1" {[ "action_plan" := VPlan [] ]}
              3000 Samples.store Samples.older
              {[ "suggested_changes" :=
                   VChanges
                     [Samples.change "sc-1" "Policy A.pdf" (Some "Policy A.pdf")
                        (Some Samples.actioned);
                      Samples.change "sc-2" "Policy" None
                        (Some Samples.pendingReview)] ]})
    as (_ & Hread & _ & Hsorted & _).
  - apply (bool_decide_unpack _). vm_compute. exact I.
  - reflexivity.
  - reflexivity.
  - split; [exact Hread | exact Hsorted].
Defined.

Lemma delete_consistency_witness :
  displayed_state_cleared None
    (handleDeleteAnalysis "analysis-1"
       (Samples.stateWith true Samples.store (Some "analysis-1")))
  ∧ handleDeleteAnalysis "analysis-9"
      (Samples.stateWith true Samples.store (Some "analysis-1"))
    = Samples.stateWith true Samples.store (Some "analysis-1").
Proof.
  split.
  - destruct (delete_consistency "analysis-1"
                (Samples.stateWith true Samples.store (Some "analysis-1")))
      as ((_ & Hactive & _) & _).
    apply Hactive. reflexivity.
  - destruct (delete_consistency "analysis-9"
                (Samples.stateWith true Samples.store (Some "analysis-1")))
      as ((_ & _ & Habsent) & _).
    apply Habsent; [reflexivity|].
    intros id Hid. injection Hid as <-. eexists. reflexivity.
Defined.

Lemma rename_frame_witness :
  sorted_desc
    (savedAnalyses
       (handleRenameAnalysis "analysis-1" "Q1 review"
          (Samples.stateWith true Samples.store None)))
  ∧ handleRenameAnalysis "analysis-9" "Q1 review"
      (Samples.stateWith true Samples.store None)
    = Samples.stateWith true Samples.store None.
Proof.
  split.
  - destruct (rename_frame "analysis-1" "Q1 review"
                (Samples.stateWith true Samples.store None))
      as (_ & _ & _ & Hsorted & _).
    apply Hsorted. repeat constructor; simpl; lia.
  - destruct (rename_frame "analysis-9" "Q1 review"
                (Samples.stateWith true Samples.store None))
      as (_ & _ & _ & _ & _ & Habsent).
    apply Habsent. reflexivity.
Defined.

(** * Further properties of the store, the views and the runs *)

Section OrderFacts.
Implicit Types (l store : list SavedAnalysis) (sa x : SavedAnalysis) (id : string).

Lemma insert_desc_head x l :
  Forall (λ y, (timestamp y <= timestamp x)%Z) l → insert_desc x l = x :: l.
Proof.
  destruct l as [|y l]; simpl; [done|]. intros H.
  apply Forall_cons in H as [Hy _].
  by destruct (Z.leb_spec (timestamp y) (timestamp x)); [|lia].
Qed.

Lemma sortByTimestampDesc_sorted_id l : sorted_desc l → sortByTimestampDesc l = l.
Proof.
  unfold sorted_desc. induction 1 as [|x l Hs IH Hall]; simpl; [done|].
  rewrite IH. by apply insert_desc_head.
Qed.

Lemma find_filter_other id idToDelete store :
  id ≠ idToDelete →
  find id (List.filter (λ sa, negb (String.eqb (sa_id sa) idToDelete)) store)
  = find id store.
Proof.
  intros Hne. unfold find. induction store as [|x l IH]; simpl; [done|].
  destruct (String.eqb_spec (sa_id x) idToDelete) as [Hx|Hx]; simpl.
  - rewrite IH. destruct (String.eqb_spec (sa_id x) id); [congruence | done].
  - by rewrite IH.
Qed.

Lemma find_renameIn id idToRename newName store :
  find id (renameIn idToRename newName store)
  = (λ sa, if String.eqb (sa_id sa) idToRename then withName newName sa else sa)
      <$> find id store.
Proof.
  unfold find, renameIn. induction store as [|x l IH]; simpl; [done|].
  destruct (String.eqb (sa_id x) idToRename) eqn:E1; simpl;
    destruct (String.eqb (sa_id x) id) eqn:E2; simpl; rewrite ?E1; done.
Qed.

Lemma filter_deleted_twice idToDelete store :
  let keep := λ sa : SavedAnalysis, negb (String.eqb (sa_id sa) idToDelete) in
  List.filter keep (List.filter keep store) = List.filter keep store.
Proof.
  cbv zeta. induction store as [|x l IH]; simpl; [done|].
  destruct (negb (String.eqb (sa_id x) idToDelete)) eqn:E; simpl; [|done].
  by rewrite E, IH.
Qed.

Lemma filter_deleted_comm a b store :
  List.filter (λ sa, negb (String.eqb (sa_id sa) a))
    (List.filter (λ sa, negb (String.eqb (sa_id sa) b)) store)
  = List.filter (λ sa, negb (String.eqb (sa_id sa) b))
      (List.filter (λ sa, negb (String.eqb (sa_id sa) a)) store).
Proof.
  induction store as [|x l IH]; simpl; [done|].
  destruct (negb (String.eqb (sa_id x) a)) eqn:Ea,
           (negb (String.eqb (sa_id x) b)) eqn:Eb; simpl;
    rewrite ?Ea, ?Eb, ?IH; done.
Qed.

Lemma updateFeedback_find id partial now store sa :
  unique_ids store → find id store = Some sa →
  find id (updateFeedbackInSavedAnalyses id partial now store)
  = Some (mergeInto id partial now sa).
Proof.
  intros Hu Hfind. apply find_Some_inv in Hfind as [Hin Hid].
  apply find_unique.
  - by apply updateFeedback_unique_ids.
  - rewrite updateFeedback_perm. by apply list_elem_of_fmap_2.
  - by rewrite mergeInto_id.
Qed.

Lemma map_mergeInto_untouched id partial now store :
  (∀ sa, sa ∈ store → sa_id sa = id → resultSource sa = None) →
  map (mergeInto id partial now) store = store.
Proof.
  intros H. induction store as [|x l IH]; simpl; [done|].
  rewrite IH by (intros sa Hsa; apply H; by right). f_equal.
  unfold mergeInto. destruct (String.eqb_spec (sa_id x) id) as [Hx|]; [|done].
  specialize (H x (list_elem_of_here _ _) Hx). unfold resultSource in H.
  destruct (sa_type x); by rewrite H.
Qed.

End OrderFacts.

(** X1. Merging a partial result under an id that no analysis carries, or
    that is carried only by analyses without the result their type names,
    changes no analysis: the store is only sorted again, and a store that
    is sorted most recent first is left exactly as it is. *)
Theorem merge_without_target (id : string) (partial : AnalysisResult) (now : Z)
    (store : list SavedAnalysis) :
  (∀ sa, sa ∈ store → sa_id sa = id → resultSource sa = None) →
  updateFeedbackInSavedAnalyses id partial now store = sortByTimestampDesc store
  ∧ (sorted_desc store → updateFeedbackInSavedAnalyses id partial now store = store).
Proof.
  intros H. unfold updateFeedbackInSavedAnalyses.
  rewrite map_mergeInto_untouched by done.
  split; [done | apply sortByTimestampDesc_sorted_id].
Qed.

(** X2. Two successive merges into the same analysis read back as one
    merge of both partial results in which the later one wins: a property
    of the second partial where it has one, else of the first, else of the
    stored result; the timestamp is that of the second merge. *)
Theorem merge_twice (id : string) (p1 p2 : AnalysisResult) (now1 now2 : Z)
    (store : list SavedAnalysis) (sa : SavedAnalysis) (r : AnalysisResult) :
  unique_ids store → find id store = Some sa → resultSource sa = Some r →
  let store2 :=
    updateFeedbackInSavedAnalyses id p2 now2
      (updateFeedbackInSavedAnalyses id p1 now1 store) in
  resultOf id store2 = Some (mergeResult r (mergeResult p1 p2))
  ∧ resultOf id store2
    = resultOf id (updateFeedbackInSavedAnalyses id (mergeResult p1 p2) now2 store)
  ∧ (∀ k, mergeResult r (mergeResult p1 p2) !! k
          = match p2 !! k with
            | Some v => Some v
            | None => match p1 !! k with Some v => Some v | None => r !! k end
            end)
  ∧ (∃ sa2, find id store2 = Some sa2 ∧ timestamp sa2 = now2 ∧ same_but_result sa sa2)
  ∧ (∀ x, sa_id x ≠ id → x ∈ store2 ↔ x ∈ store).
Proof.
  intros Hu Hfind Hr store2.
  pose proof (find_Some_inv _ _ _ Hfind) as [Hin Hid].
  destruct (mergeInto_target id p1 now1 sa r Hid Hr) as (Hres1 & Hts1 & Hsame1).
  set (sa1 := mergeInto id p1 now1 sa) in *.
  assert (Hid1 : sa_id sa1 = id) by (unfold sa1; by rewrite mergeInto_id).
  destruct (mergeInto_target id p2 now2 sa1 _ Hid1 Hres1) as (Hres2 & Hts2 & Hsame2).
  assert (Hf2 : find id store2 = Some (mergeInto id p2 now2 sa1)).
  { apply updateFeedback_find; [by apply updateFeedback_unique_ids|].
    by apply updateFeedback_find. }
  assert (Hassoc : mergeResult (mergeResult r p1) p2 = mergeResult r (mergeResult p1 p2)).
  { unfold mergeResult. by rewrite (assoc_L (∪)). }
  split_and!.
  - unfold resultOf. rewrite Hf2. simpl. by rewrite Hres2, Hassoc.
  - unfold resultOf. rewrite Hf2, (updateFeedback_find _ _ _ _ sa) by done. simpl.
    destruct (mergeInto_target id (mergeResult p1 p2) now2 sa r Hid Hr) as (-> & _).
    by rewrite Hres2, Hassoc.
  - intros k. rewrite !mergeResult_lookup. by destruct (p2 !! k).
  - eexists. split; [exact Hf2|]. split; [done|].
    destruct Hsame1 as (?&?&?&?&?&?&?&?&?&?&?), Hsame2 as (?&?&?&?&?&?&?&?&?&?&?).
    repeat split; congruence.
  - intros x Hx. unfold store2. rewrite !updateFeedback_perm. split.
    + intros Hx'. apply list_elem_of_fmap in Hx' as (y & -> & Hy).
      rewrite mergeInto_id in Hx. rewrite mergeInto_other by done.
      apply list_elem_of_fmap in Hy as (z & -> & Hz).
      rewrite mergeInto_id in Hx. by rewrite mergeInto_other.
    + intros Hx'. rewrite <- (mergeInto_other id p2 now2 x Hx).
      apply list_elem_of_fmap_2.
      rewrite <- (mergeInto_other id p1 now1 x Hx). by apply list_elem_of_fmap_2.
Qed.


Section DeleteMore.
Implicit Types (st : AppState) (cleared : option string).

Lemma isActive_deleted cleared idToDelete id st :
  isActive (deleteWith cleared idToDelete st) id
  = isActive st id && negb (isActive st idToDelete).
Proof.
  unfold deleteWith. destruct (isActive st idToDelete) eqn:E; simpl.
  - by rewrite andb_false_r.
  - by rewrite andb_true_r.
Qed.

Lemma deleteWith_twice cleared idToDelete st :
  deleteWith cleared idToDelete (deleteWith cleared idToDelete st)
  = deleteWith cleared idToDelete st.
Proof.
  unfold deleteWith at 1.
  rewrite (isActive_deleted cleared idToDelete idToDelete st), andb_negb_r.
  rewrite deleteWith_store, filter_deleted_twice, <- (deleteWith_store cleared).
  apply setSavedAnalyses_same.
Qed.

Lemma deleteWith_comm cleared a b st :
  deleteWith cleared a (deleteWith cleared b st)
  = deleteWith cleared b (deleteWith cleared a st).
Proof.
  unfold deleteWith at 1 3.
  rewrite (isActive_deleted cleared b a st), (isActive_deleted cleared a b st).
  rewrite !deleteWith_store, (filter_deleted_comm a b).
  destruct (isActive st a) eqn:Ea, (isActive st b) eqn:Eb; simpl.
  - apply isActive_true in Ea, Eb. assert (a = b) as -> by congruence. done.
  - unfold deleteWith. by rewrite Ea, Eb.
  - unfold deleteWith. by rewrite Ea, Eb.
  - unfold deleteWith. by rewrite Ea, Eb.
Qed.

Lemma deleteWith_other cleared idToDelete st :
  activeAnalysisId st ≠ Some idToDelete →
  same_but_store st (deleteWith cleared idToDelete st).
Proof.
  intros Hne. unfold deleteWith, same_but_store.
  destruct (isActive st idToDelete) eqn:E; [by apply isActive_true in E|].
  by destruct st.
Qed.

End DeleteMore.

(** X3. Deleting is idempotent, and two deletions commute; deleting an
    analysis that is not the active one changes nothing but the store.
    This holds in any state, for the root variant and for the frontend
    variant. *)
Theorem delete_idempotent_commutes (a b : string) (st : AppState) :
  (handleDeleteAnalysis a (handleDeleteAnalysis a st) = handleDeleteAnalysis a st
   ∧ handleDeleteAnalysis a (handleDeleteAnalysis b st)
     = handleDeleteAnalysis b (handleDeleteAnalysis a st)
   ∧ (activeAnalysisId st ≠ Some a → same_but_store st (handleDeleteAnalysis a st)))
  ∧ (Frontend.handleDeleteAnalysis a (Frontend.handleDeleteAnalysis a st)
     = Frontend.handleDeleteAnalysis a st
     ∧ Frontend.handleDeleteAnalysis a (Frontend.handleDeleteAnalysis b st)
       = Frontend.handleDeleteAnalysis b (Frontend.handleDeleteAnalysis a st)
     ∧ (activeAnalysisId st ≠ Some a →
        same_but_store st (Frontend.handleDeleteAnalysis a st))).
Proof.
  split; (split; [apply deleteWith_twice|]; split;
          [apply deleteWith_comm | apply deleteWith_other]).
Qed.

Section ViewingFacts.
Implicit Types (v : View) (st : AppState) (sa : SavedAnalysis) (id : string).

Lemma loadAnalysisForViewing_store id v :
  savedAnalyses (view_state (loadAnalysisForViewing id None v))
  = savedAnalyses (view_state v).
Proof.
  unfold loadAnalysisForViewing. simpl.
  destruct (find id (savedAnalyses (view_state v))) as [sa|]; [|done].
  by destruct (sa_type sa), (challengeAnalysisResult sa), (deepDiveAnalysisResult sa).
Qed.

Lemma loadAnalysisForViewing_pointer id v :
  activeAnalysisId (view_state (loadAnalysisForViewing id None v))
  = match find id (savedAnalyses (view_state v)) with
    | Some _ => Some id
    | None => None
    end.
Proof.
  unfold loadAnalysisForViewing. simpl.
  destruct (find id (savedAnalyses (view_state v))) as [sa|] eqn:E; [|done].
  apply find_Some_inv in E as [_ <-].
  by destruct (sa_type sa), (challengeAnalysisResult sa), (deepDiveAnalysisResult sa).
Qed.

Lemma tabEffect_fixed v :
  (∀ id sa, activeAnalysisId (view_state v) = Some id → id ≠ EmptyString →
            find id (savedAnalyses (view_state v)) = Some sa →
            (activeTab v = tabChallenge → sa_type sa = challenge)
            ∧ (activeTab v = tabDeepDive → sa_type sa = deepDive)) →
  tabEffect v = v.
Proof.
  intros H. unfold tabEffect.
  destruct (activeAnalysisId (view_state v)) as [id|] eqn:Ea; [|done].
  destruct (truthy id) eqn:Et; [|done].
  destruct (find id (savedAnalyses (view_state v))) as [sa|] eqn:Ef; [|done].
  assert (id ≠ EmptyString) as Hne by (by destruct id).
  destruct (H id sa eq_refl Hne Ef) as [Hc Hd].
  destruct (decide (activeTab v = tabChallenge)) as [Ht|Ht].
  - rewrite (bool_decide_eq_true_2 _ Ht), (bool_decide_eq_true_2 _ (Hc Ht)). simpl.
    rewrite bool_decide_eq_false_2; [done|]. by rewrite Ht.
  - rewrite (bool_decide_eq_false_2 _ Ht). simpl.
    destruct (decide (activeTab v = tabDeepDive)) as [Ht'|Ht'].
    + by rewrite (bool_decide_eq_true_2 _ Ht'), (bool_decide_eq_true_2 _ (Hd Ht')).
    + by rewrite (bool_decide_eq_false_2 _ Ht').
Qed.

End ViewingFacts.

(** X4. Loading a saved analysis that carries the result its type names
    leaves the store as it is, points the active pointer at it, shows its
    result in the view of its kind and nothing in the view of the other
    kind, clears both error messages, restores its prompts and switches to
    the tab of its kind; the effect that resets mismatched views then has
    nothing to reset, and what is displayed is what is stored. *)
Theorem load_shows_the_stored_result (id : string) (v : View) (sa : SavedAnalysis)
    (r : AnalysisResult) :
  find id (savedAnalyses (view_state v)) = Some sa → resultSource sa = Some r →
  let v' := loadAnalysisForViewing id None v in
  let st' := view_state v' in
  savedAnalyses st' = savedAnalyses (view_state v)
  ∧ activeAnalysisId st' = Some id
  ∧ currentAnalysisPrompts st' = promptsOf sa
  ∧ error st' = None ∧ deepDiveError st' = None
  ∧ match sa_type sa with
    | challenge =>
        challengeResult st' = Some r ∧ deepDiveResult st' = None
        ∧ fetchStatus st' = SUCCESS ∧ deepDiveFetchStatus st' = IDLE
        ∧ activeTab v' = tabChallenge
    | deepDive =>
        deepDiveResult st' = Some r ∧ challengeResult st' = None
        ∧ deepDiveFetchStatus st' = SUCCESS ∧ fetchStatus st' = IDLE
        ∧ activeTab v' = tabDeepDive
    end
  ∧ tabEffect v' = v'
  ∧ shows_stored st'.
Proof.
  intros Hfind Hr v' st'.
  assert (Hstore : savedAnalyses st' = savedAnalyses (view_state v))
    by apply loadAnalysisForViewing_store.
  assert (Hptr : activeAnalysisId st' = Some id).
  { unfold st', v'. by rewrite loadAnalysisForViewing_pointer, Hfind. }
  assert (Hview :
    currentAnalysisPrompts st' = promptsOf sa
    ∧ error st' = None ∧ deepDiveError st' = None
    ∧ match sa_type sa with
      | challenge =>
          challengeResult st' = Some r ∧ deepDiveResult st' = None
          ∧ fetchStatus st' = SUCCESS ∧ deepDiveFetchStatus st' = IDLE
          ∧ activeTab v' = tabChallenge
      | deepDive =>
          deepDiveResult st' = Some r ∧ challengeResult st' = None
          ∧ deepDiveFetchStatus st' = SUCCESS ∧ fetchStatus st' = IDLE
          ∧ activeTab v' = tabDeepDive
      end).
  { unfold st', v', loadAnalysisForViewing. simpl. rewrite Hfind.
    unfold resultSource in Hr. destruct (sa_type sa); rewrite Hr; simpl.
    - by repeat split.
    - destruct (challengeAnalysisResult sa); by repeat split. }
  destruct Hview as (Hp & He & Hde & Hkind).
  split_and!; try done.
  - apply tabEffect_fixed. fold st'. rewrite Hstore. intros id' sa' Hid' _ Hsa'.
    assert (id' = id) as -> by congruence. assert (sa' = sa) as -> by congruence.
    destruct (sa_type sa); destruct Hkind as (_ & _ & _ & _ & ->); by split.
  - intros id' Hid'. assert (id' = id) as -> by congruence.
    exists sa, r. rewrite Hstore. split_and!; [done..|].
    destruct (sa_type sa); by destruct Hkind as (-> & _).
Qed.

(** X5. Loading an id that is not in the store clears the displayed
    result state and the active pointer, and leaves the store and the tab
    as they are; the effect on the tab then changes nothing. *)
Theorem load_absent_clears (id : string) (v : View) :
  find id (savedAnalyses (view_state v)) = None →
  let v' := loadAnalysisForViewing id None v in
  displayed_state_cleared None (view_state v')
  ∧ savedAnalyses (view_state v') = savedAnalyses (view_state v)
  ∧ activeTab v' = activeTab v
  ∧ tabEffect v' = v'.
Proof.
  intros Hfind v'.
  assert (Hv : v' = loadAnalysisForViewing id None v) by done.
  unfold loadAnalysisForViewing in Hv. simpl in Hv. rewrite Hfind in Hv.
  rewrite Hv. split; [by repeat split|]. by split_and!.
Qed.

(** X6. After the effect on the tab has run, the tab and the store are as
    before, and an active analysis that is in the store is of the kind of
    the tab whenever the tab is the Gap Review tab or the Deep Dive tab (a
    pointer that is the empty string excepted).  The effect either keeps
    the active pointer or clears it, and it is idempotent. *)
Theorem tabEffect_matches_the_tab (v : View) :
  let v' := tabEffect v in
  activeTab v' = activeTab v
  ∧ savedAnalyses (view_state v') = savedAnalyses (view_state v)
  ∧ (activeAnalysisId (view_state v') = activeAnalysisId (view_state v)
     ∨ activeAnalysisId (view_state v') = None)
  ∧ (∀ id sa, activeAnalysisId (view_state v') = Some id → id ≠ EmptyString →
              find id (savedAnalyses (view_state v')) = Some sa →
              (activeTab v' = tabChallenge → sa_type sa = challenge)
              ∧ (activeTab v' = tabDeepDive → sa_type sa = deepDive))
  ∧ tabEffect v' = v'.
Proof.
  cbv zeta.
  assert (Hframe : activeTab (tabEffect v) = activeTab v
                   ∧ savedAnalyses (view_state (tabEffect v))
                     = savedAnalyses (view_state v)).
  { unfold tabEffect. by repeat case_match. }
  destruct Hframe as [Htab Hstore].
  assert (Hkind : ∀ id sa,
            activeAnalysisId (view_state (tabEffect v)) = Some id → id ≠ EmptyString →
            find id (savedAnalyses (view_state (tabEffect v))) = Some sa →
            (activeTab (tabEffect v) = tabChallenge → sa_type sa = challenge)
            ∧ (activeTab (tabEffect v) = tabDeepDive → sa_type sa = deepDive)).
  { rewrite Htab, Hstore. unfold tabEffect. intros id sa.
    destruct (activeAnalysisId (view_state v)) as [a|] eqn:Ea; [|by rewrite Ea].
    destruct (truthy a) eqn:Et.
    2:{ rewrite Ea. intros [= ->]. by destruct id. }
    destruct (find a (savedAnalyses (view_state v))) as [sa0|] eqn:Ef.
    2:{ rewrite Ea. intros [= ->]. congruence. }
    repeat case_match; simpl; try done; rewrite Ea; intros [= ->] _ Hsa;
      simplify_eq; repeat match goal with
      | H : _ && _ = false |- _ => apply andb_false_iff in H as [H|H]
      | H : bool_decide _ = false |- _ => apply bool_decide_eq_false in H
      | H : negb _ = false |- _ => apply negb_false_iff in H
      | H : bool_decide _ = true |- _ => apply bool_decide_eq_true in H
      end; split; intros; congruence. }
  split_and!; try done.
  - unfold tabEffect. repeat case_match; simpl; auto.
  - by apply tabEffect_fixed.
Qed.

Section AgreementFacts.
Implicit Types (st : AppState) (sa : SavedAnalysis) (id : string).

Lemma shows_stored_no_pointer st : activeAnalysisId st = None → shows_stored st.
Proof. intros H id Hid. congruence. Qed.

Lemma handleRenameAnalysis_shows_stored idToRename newName st :
  shows_stored st → shows_stored (handleRenameAnalysis idToRename newName st).
Proof.
  intros H id Hid. destruct (H id) as (sa & r & Hf & Hr & Hk); [by destruct st|].
  unfold handleRenameAnalysis.
  assert (savedAnalyses (setSavedAnalyses (renameIn idToRename newName (savedAnalyses st)) st)
          = renameIn idToRename newName (savedAnalyses st)) as -> by done.
  rewrite find_renameIn, Hf. simpl.
  destruct (String.eqb (sa_id sa) idToRename); eexists _, r;
    (split; [reflexivity|]); (split; [exact Hr|]); simpl; by destruct (sa_type sa).
Qed.

Lemma deleteWith_shows_stored cleared idToDelete st :
  shows_stored st → shows_stored (deleteWith cleared idToDelete st).
Proof.
  intros H. destruct (isActive st idToDelete) eqn:E.
  - apply shows_stored_no_pointer. unfold deleteWith. by rewrite E.
  - intros id Hid. rewrite deleteWith_store.
    unfold deleteWith in Hid |- *. rewrite E in Hid |- *.
    destruct (H id) as (sa & r & Hf & Hr & Hk); [by destruct st|].
    exists sa, r. rewrite find_filter_other; [by split_and!|].
    intros ->. assert (activeAnalysisId st = Some idToDelete) as Ha by by destruct st.
    apply isActive_true in Ha. congruence.
Qed.

Lemma tabEffect_shows_stored v :
  shows_stored (view_state v) → shows_stored (view_state (tabEffect v)).
Proof.
  intros H. unfold tabEffect.
  repeat case_match; try done; by apply shows_stored_no_pointer.
Qed.

End AgreementFacts.

(** X7. What is displayed stays what is stored: if, whenever the active
    pointer is set, it names a saved analysis whose result is the one in
    the view of its kind, then the same holds after a rename, after a
    deletion (in both variants), after the effect on the tab and after
    the Deep Dive view is cleared. *)
Theorem display_agrees_with_store_preserved (st : AppState) :
  shows_stored st →
  (∀ idToRename newName, shows_stored (handleRenameAnalysis idToRename newName st))
  ∧ (∀ idToDelete, shows_stored (handleDeleteAnalysis idToDelete st))
  ∧ (∀ idToDelete, shows_stored (Frontend.handleDeleteAnalysis idToDelete st))
  ∧ (∀ tab, shows_stored (view_state (tabEffect {| view_state := st; activeTab := tab |})))
  ∧ shows_stored (handleClearDeepDiveView st).
Proof.
  intros H. split_and!.
  - intros. by apply handleRenameAnalysis_shows_stored.
  - intros. by apply deleteWith_shows_stored.
  - intros. by apply deleteWith_shows_stored.
  - intros. by apply tabEffect_shows_stored.
  - by apply shows_stored_no_pointer.
Qed.

Section FeedbackFacts.
Implicit Types (st : AppState) (sa : SavedAnalysis) (id itemId isoNow : string)
  (u : FeedbackUpdate) (r : AnalysisResult) (change : SuggestedChange).

Lemma withUpdatedChange_Some itemId u isoNow r r' :
  withUpdatedChange itemId u isoNow r = Some r' →
  ∃ changes, r !! "suggested_changes" = Some (VChanges changes)
    ∧ r' = <["suggested_changes" :=
               VChanges (map (updateChange itemId u isoNow) changes)]> r.
Proof.
  unfold withUpdatedChange. intros H.
  destruct (r !! "suggested_changes") as [[| | |changes| |]|]; simplify_eq.
  by exists changes.
Qed.

Lemma withUpdatedItem_Some itemId u isoNow r r' :
  withUpdatedItem itemId u isoNow r = Some r' →
  ∃ items, r !! "action_plan" = Some (VPlan items)
    ∧ r' = <["action_plan" := VPlan (map (updateItem itemId u isoNow) items)]> r.
Proof.
  unfold withUpdatedItem. intros H.
  destruct (r !! "action_plan") as [[| | | |items|]|]; simplify_eq.
  by exists items.
Qed.

Lemma mergeResult_insert r k (v : FieldValue) : mergeResult r (<[k := v]> r) = <[k := v]> r.
Proof.
  unfold mergeResult. apply map_eq. intros i. rewrite lookup_union.
  destruct (decide (k = i)) as [->|Hne].
  - rewrite lookup_insert_eq. by destruct (r !! i).
  - rewrite lookup_insert_ne by done. by destruct (r !! i).
Qed.

Lemma merge_displayed id r r' now store sa :
  unique_ids store → find id store = Some sa → resultSource sa = Some r →
  mergeResult r r' = r' →
  ∃ sa', find id (updateFeedbackInSavedAnalyses id r' now store) = Some sa'
         ∧ resultSource sa' = Some r' ∧ sa_type sa' = sa_type sa
         ∧ timestamp sa' = now ∧ same_but_result sa sa'.
Proof.
  intros Hu Hf Hr Hm. exists (mergeInto id r' now sa).
  pose proof (find_Some_inv _ _ _ Hf) as [_ Hid].
  destruct (mergeInto_target id r' now sa r Hid Hr) as (Hres & Hts & Hsame).
  split; [by apply updateFeedback_find|]. rewrite Hres, Hm.
  split_and!; try done. by destruct Hsame as (_ & _ & ? & _).
Qed.

Lemma challenge_update_agreement st id r r' now :
  unique_ids (savedAnalyses st) → shows_stored st → active_kind challenge st →
  activeAnalysisId st = Some id → challengeResult st = Some r →
  mergeResult r r' = r' →
  shows_stored
    (setSavedAnalyses (updateFeedbackInSavedAnalyses id r' now (savedAnalyses st))
       (setChallengeResult (Some r') st)).
Proof.
  intros Hu Hs Hk Ha Hc Hm id' Hid'. simpl in Hid'.
  assert (id' = id) as -> by congruence.
  destruct (Hs id Ha) as (sa & r0 & Hf & Hr & Hkind).
  pose proof (Hk id sa Ha Hf) as Hty. rewrite Hty in Hkind.
  assert (r0 = r) as -> by congruence.
  destruct (merge_displayed id r r' now _ sa Hu Hf Hr Hm) as (sa' & Hf' & Hr' & Hty' & _).
  exists sa', r'. simpl. split; [done|]. split; [done|]. by rewrite Hty', Hty.
Qed.

Lemma deepDive_update_agreement st id r r' now :
  unique_ids (savedAnalyses st) → shows_stored st → active_kind deepDive st →
  activeAnalysisId st = Some id → deepDiveResult st = Some r →
  mergeResult r r' = r' →
  shows_stored
    (setSavedAnalyses (updateFeedbackInSavedAnalyses id r' now (savedAnalyses st))
       (setDeepDiveResult (Some r') st)).
Proof.
  intros Hu Hs Hk Ha Hc Hm id' Hid'. simpl in Hid'.
  assert (id' = id) as -> by congruence.
  destruct (Hs id Ha) as (sa & r0 & Hf & Hr & Hkind).
  pose proof (Hk id sa Ha Hf) as Hty. rewrite Hty in Hkind.
  assert (r0 = r) as -> by congruence.
  destruct (merge_displayed id r r' now _ sa Hu Hf Hr Hm) as (sa' & Hf' & Hr' & Hty' & _).
  exists sa', r'. simpl. split; [done|]. split; [done|]. by rewrite Hty', Hty.
Qed.

End FeedbackFacts.

(** X8. A feedback update keeps what is displayed and what is stored in
    agreement.  In a store with distinct ids in which the displayed result
    is the stored result of the active analysis, each of the two Gap Review
    handlers (when the active analysis is a Gap Review) and each of the two
    Deep Dive handlers (when it is a Deep Dive), if it does not throw, ends
    in a state in which the displayed result is again the stored result of
    the active analysis; the ids stay distinct and the pointer is kept. *)
Theorem feedback_keeps_display_and_store_agreeing (itemId : string)
    (feedbackUpdate : FeedbackUpdate) (isoNow : string) (now : Z) (st : AppState) :
  unique_ids (savedAnalyses st) → shows_stored st →
  let kept := λ st', shows_stored st' ∧ unique_ids (savedAnalyses st')
                     ∧ activeAnalysisId st' = activeAnalysisId st in
  (active_kind challenge st →
   (∀ st', handleUpdateSuggestedChangeFeedback itemId feedbackUpdate isoNow now st
           = Some st' → kept st')
   ∧ (∀ st', handleUpdateActionPlanItemFeedback itemId feedbackUpdate isoNow now st
             = Some st' → kept st'))
  ∧ (active_kind deepDive st →
     (∀ st', handleUpdateDeepDiveChangeFeedback itemId feedbackUpdate isoNow now st
             = Some st' → kept st')
     ∧ (∀ st', handleUpdateDeepDiveActionPlanFeedback itemId feedbackUpdate isoNow now st
               = Some st' → kept st')).
Proof.
  intros Hu Hs kept. unfold kept.
  split; intros Hk; split; intros st';
    [unfold handleUpdateSuggestedChangeFeedback
    |unfold handleUpdateActionPlanItemFeedback
    |unfold handleUpdateDeepDiveChangeFeedback
    |unfold handleUpdateDeepDiveActionPlanFeedback];
    (destruct (activeAnalysisId st) as [id|] eqn:Ha; [|by intros [= <-]]).
  - destruct (challengeResult st) as [r|] eqn:Hc; [|by intros [= <-]; rewrite Ha].
    destruct (truthy id); [|by intros [= <-]; rewrite Ha].
    destruct (withUpdatedChange itemId feedbackUpdate isoNow r) as [r'|] eqn:Hw; [|done].
    apply withUpdatedChange_Some in Hw as (changes & _ & ->). intros [= <-].
    split; [|split; [by apply updateFeedback_unique_ids | done]].
    apply (challenge_update_agreement st id r); try done. apply mergeResult_insert.
  - destruct (challengeResult st) as [r|] eqn:Hc; [|by intros [= <-]; rewrite Ha].
    destruct (truthy id); [|by intros [= <-]; rewrite Ha].
    destruct (withUpdatedItem itemId feedbackUpdate isoNow r) as [r'|] eqn:Hw; [|done].
    apply withUpdatedItem_Some in Hw as (items & _ & ->). intros [= <-].
    split; [|split; [by apply updateFeedback_unique_ids | done]].
    apply (challenge_update_agreement st id r); try done. apply mergeResult_insert.
  - destruct (deepDiveResult st) as [r|] eqn:Hc; [|by intros [= <-]; rewrite Ha].
    destruct (truthy id); [|by intros [= <-]; rewrite Ha].
    destruct (withUpdatedChange itemId feedbackUpdate isoNow r) as [r'|] eqn:Hw; [|done].
    apply withUpdatedChange_Some in Hw as (changes & _ & ->). intros [= <-].
    split; [|split; [by apply updateFeedback_unique_ids | done]].
    apply (deepDive_update_agreement st id r); try done. apply mergeResult_insert.
  - destruct (deepDiveResult st) as [r|] eqn:Hc; [|by intros [= <-]; rewrite Ha].
    destruct (truthy id); [|by intros [= <-]; rewrite Ha].
    destruct (withUpdatedItem itemId feedbackUpdate isoNow r) as [r'|] eqn:Hw; [|done].
    apply withUpdatedItem_Some in Hw as (items & _ & ->). intros [= <-].
    split; [|split; [by apply updateFeedback_unique_ids | done]].
    apply (deepDive_update_agreement st id r); try done. apply mergeResult_insert.
Qed.

Section FeedbackSpec.
Implicit Types (st : AppState) (sa : SavedAnalysis) (id itemId isoNow : string)
  (u : FeedbackUpdate) (r : AnalysisResult) (change : SuggestedChange).

Lemma updateChange_updated itemId u isoNow change :
  feedback_updated itemId u isoNow change (updateChange itemId u isoNow change).
Proof.
  unfold feedback_updated, updateChange.
  destruct (String.eqb (sc_id change) itemId); [|done].
  split; [done|]. unfold statusOf, notesOf, adoptedTextOf. simpl.
  by destruct (sc_userFeedback change).
Qed.

Lemma changesOf_lookup r changes :
  r !! "suggested_changes" = Some (VChanges changes) → changesOf r = changes.
Proof. unfold changesOf. simpl. by intros ->. Qed.

Lemma withUpdatedChange_spec itemId u isoNow r r' :
  withUpdatedChange itemId u isoNow r = Some r' →
  changesOf r' = map (updateChange itemId u isoNow) (changesOf r)
  ∧ Forall2 (feedback_updated itemId u isoNow) (changesOf r) (changesOf r')
  ∧ (∀ k, k ≠ "suggested_changes" → r' !! k = r !! k)
  ∧ mergeResult r r' = r'.
Proof.
  intros H. apply withUpdatedChange_Some in H as (changes & Hr & ->).
  rewrite (changesOf_lookup r changes Hr).
  rewrite (changesOf_lookup _ (map (updateChange itemId u isoNow) changes))
    by apply lookup_insert_eq.
  split_and!; [done| | |apply mergeResult_insert].
  - clear Hr. induction changes as [|c l IH]; simpl; constructor; [|done].
    apply updateChange_updated.
  - intros k Hk. by rewrite lookup_insert_ne.
Qed.

End FeedbackSpec.

(** X9. What a feedback update on a suggested change does, for the Gap
    Review handler and for the Deep Dive handler alike, when an analysis
    is active and the handler does not throw.  In the displayed result only
    the suggested changes are replaced, position by position: a change
    with another id is left as it is; in a change with the id nothing but
    the feedback changes, where each property takes the value the update
    has for it, keeps its value when the update does not have the property
    (so an adopted text survives a status change), and the time of the
    update is recorded.  The grouping, the action plan and every other
    property of the result are as before.  The new result is merged into
    the store under the active id, and nothing else of the state
    changes. *)
Theorem change_feedback_update_spec (itemId : string) (feedbackUpdate : FeedbackUpdate)
    (isoNow : string) (now : Z) (st : AppState) (id : string) :
  activeAnalysisId st = Some id → id ≠ EmptyString →
  (∀ r st', challengeResult st = Some r →
     handleUpdateSuggestedChangeFeedback itemId feedbackUpdate isoNow now st = Some st' →
     ∃ r', challengeResult st' = Some r'
       ∧ Forall2 (feedback_updated itemId feedbackUpdate isoNow)
           (changesOf r) (changesOf r')
       ∧ (∀ k, k ≠ "suggested_changes" → r' !! k = r !! k)
       ∧ savedAnalyses st' = updateFeedbackInSavedAnalyses id r' now (savedAnalyses st)
       ∧ setSavedAnalyses (savedAnalyses st) (setChallengeResult (Some r) st') = st)
  ∧ (∀ r st', deepDiveResult st = Some r →
       handleUpdateDeepDiveChangeFeedback itemId feedbackUpdate isoNow now st = Some st' →
       ∃ r', deepDiveResult st' = Some r'
         ∧ Forall2 (feedback_updated itemId feedbackUpdate isoNow)
             (changesOf r) (changesOf r')
         ∧ (∀ k, k ≠ "suggested_changes" → r' !! k = r !! k)
         ∧ savedAnalyses st' = updateFeedbackInSavedAnalyses id r' now (savedAnalyses st)
         ∧ setSavedAnalyses (savedAnalyses st) (setDeepDiveResult (Some r) st') = st).
Proof.
  intros Ha Hne. assert (truthy id = true) as Ht by (by destruct id).
  split; intros r st' Hr;
    [unfold handleUpdateSuggestedChangeFeedback
    |unfold handleUpdateDeepDiveChangeFeedback];
    rewrite Ha, Hr, Ht;
    (destruct (withUpdatedChange itemId feedbackUpdate isoNow r) as [r'|] eqn:Hw;
     [|done]);
    apply withUpdatedChange_spec in Hw as (_ & Hall & Hframe & _);
    intros [= <-]; exists r'; (split_and!; [done..|]);
    destruct st; simpl in *; by subst.
Qed.

Section DraftFacts.
Implicit Types (st : AppState) (sa : SavedAnalysis) (change : SuggestedChange).


Lemma learningsOf_extracted sa store :
  sa ∈ store → learningsOf sa ⊆ extractLearningsFromFeedback store None.
Proof.
  intros Hin l Hl. unfold extractLearningsFromFeedback.
  rewrite scanAnalyses_uncapped. simpl. apply list_elem_of_In, in_concat.
  exists (learningsOf sa). split; [|by apply list_elem_of_In].
  apply list_elem_of_In, list_elem_of_fmap_2. by rewrite sortByTimestampDesc_perm.
Qed.

End DraftFacts.


Section ChatFacts.
Implicit Types (general combined seen learnings : list string) (sa : SavedAnalysis)
  (s t a b : string).

Lemma addGeneral_spec maxTotalLearnings general combined :
  take maxTotalLearnings (addGeneral maxTotalLearnings general combined)
  = take maxTotalLearnings (combined ++ freshLearnings combined general).
Proof.
  revert combined. induction general as [|g rest IH]; intros combined; simpl.
  - by rewrite app_nil_r.
  - destruct (Nat.leb_spec maxTotalLearnings (length combined)) as [Hle|Hlt].
    + by rewrite take_app_full.
    + destruct (bool_decide (g ∈ combined)); [apply IH|].
      rewrite IH. by rewrite <- app_assoc.
Qed.

Lemma includes_here t s : includes (t +:+ s) t = true.
Proof.
  destruct (t +:+ s) eqn:E; simpl; unfold startsWith.
  - destruct t; [done|]. by rewrite append_cons in E.
  - by rewrite <- E, strip_prefix_append.
Qed.

Lemma includes_append a s t : includes s t = true → includes (a +:+ s) t = true.
Proof.
  intros H. induction a as [|c a IH]; [done|].
  rewrite append_cons. cbn [includes]. by rewrite IH, orb_true_r.
Qed.

Lemma learningPoint_tagged sa change fb :
  includes (learningPoint sa change fb) (analysisTag sa) = true.
Proof.
  assert (∃ rest, learningPoint sa change fb
                  = ("Feedback for suggestion regarding '" +:+ document_section change
                     +:+ "' ") +:+ analysisTag sa +:+ rest) as [rest ->].
  { unfold learningPoint, analysisTag.
    destruct (notes fb) as [n|]; [destruct (truthy n)|];
      (destruct (finalAdoptedText fb) as [t|]; [destruct (truthy t)|]);
      eexists; rewrite !append_assoc; repeat f_equal;
      rewrite ?append_cons, ?append_nil_l; reflexivity. }
  apply includes_append, includes_here.
Qed.

Lemma selectContextualLearningsForChat_exact general sa all
    (extractAll : list SavedAnalysis → list string) maxTotalLearnings :
  let specific :=
    List.filter (λ learning, includes learning (analysisTag sa)) (extractAll all) in
  selectContextualLearningsForChat general (Some sa) all extractAll maxTotalLearnings
  = take maxTotalLearnings (specific ++ freshLearnings specific general).
Proof.
  intros specific. unfold selectContextualLearningsForChat. fold specific.
  destruct (Nat.ltb_spec (length specific) maxTotalLearnings) as [Hlt|Hle].
  - apply addGeneral_spec.
  - by rewrite take_app_full.
Qed.

Lemma learningsOf_tagged sa l :
  l ∈ learningsOf sa → includes l (analysisTag sa) = true.
Proof.
  unfold learningsOf. intros H. apply list_elem_of_omap in H as (change & _ & H).
  unfold feedbackLearning in H. destruct (sc_userFeedback change) as [fb|]; [|done].
  destruct (qualifies fb); [|done]. simplify_eq. apply learningPoint_tagged.
Qed.

End ChatFacts.

(** X11. The learnings selected for the chat when an analysis is active:
    the learnings that bear the tag of the active analysis, in the order of
    the extraction, followed by the general learnings that are not among
    them and have not been added before, the whole cut at the cap.  So the
    tagged learnings come first and nothing is selected twice from the
    general ones; the result never exceeds the cap.  Without an active
    analysis the general learnings are returned as they are, whatever the
    cap. *)
Theorem chat_learning_selection (generalRecentLearnings : list string)
    (activeAnalysis : SavedAnalysis) (allSavedAnalyses : list SavedAnalysis)
    (extractAllLearningsFn : list SavedAnalysis → list string)
    (maxTotalLearnings : nat) :
  let specific :=
    List.filter (λ learning, includes learning (analysisTag activeAnalysis))
      (extractAllLearningsFn allSavedAnalyses) in
  let selected :=
    selectContextualLearningsForChat generalRecentLearnings (Some activeAnalysis)
      allSavedAnalyses extractAllLearningsFn maxTotalLearnings in
  selected
  = take maxTotalLearnings (specific ++ freshLearnings specific generalRecentLearnings)
  ∧ take maxTotalLearnings specific = take (length specific) selected
  ∧ length selected ≤ maxTotalLearnings
  ∧ selectContextualLearningsForChat generalRecentLearnings None allSavedAnalyses
      extractAllLearningsFn maxTotalLearnings = generalRecentLearnings.
Proof.
  intros specific selected.
  assert (Hsel : selected
    = take maxTotalLearnings (specific ++ freshLearnings specific generalRecentLearnings))
    by apply selectContextualLearningsForChat_exact.
  split; [done|]. split; [|split; [|done]].
  - rewrite Hsel, take_take.
    destruct (Nat.le_ge_cases (length specific) maxTotalLearnings) as [Hle|Hge].
    + rewrite Nat.min_l by done.
      rewrite (take_ge specific) by done. by rewrite take_app_length.
    + rewrite Nat.min_r, take_app_full by done. done.
  - rewrite Hsel, length_take. lia.
Qed.

(** X12. The chat puts the active analysis first.  When the active pointer
    names a saved analysis, every learning of that analysis bears its tag;
    the learnings given to the chat are at most ten, the tagged ones first;
    and when the tagged learnings of the store are at most ten, every
    learning of the active analysis is given to the chat, whatever the
    recent learnings are. *)
Theorem chat_puts_the_active_analysis_first (chatbotLearnings : list string)
    (st : AppState) (id : string) (sa : SavedAnalysis) :
  activeAnalysisId st = Some id → id ≠ EmptyString →
  find id (savedAnalyses st) = Some sa →
  let specific :=
    List.filter (λ learning, includes learning (analysisTag sa))
      (extractLearningsFromFeedback (savedAnalyses st) None) in
  let given := finalLearningsForPrompt chatbotLearnings st in
  given = take 10 (specific ++ freshLearnings specific chatbotLearnings)
  ∧ length given ≤ 10
  ∧ (∀ l, l ∈ learningsOf sa → l ∈ specific)
  ∧ (length specific ≤ 10 → ∀ l, l ∈ learningsOf sa → l ∈ given).
Proof.
  intros Ha Hne Hf specific given.
  assert (truthy id = true) as Ht by (by destruct id).
  assert (Hgiven : given
            = take 10 (specific ++ freshLearnings specific chatbotLearnings)).
  { unfold given, finalLearningsForPrompt. rewrite Ha, Ht, Hf.
    apply selectContextualLearningsForChat_exact. }
  assert (Hspec : ∀ l, l ∈ learningsOf sa → l ∈ specific).
  { intros l Hl. unfold specific. apply list_elem_of_In, filter_In.
    split; [|by apply learningsOf_tagged]. apply list_elem_of_In.
    apply (learningsOf_extracted sa); [|done]. by apply find_Some_inv in Hf as [? _]. }
  split_and!; [done| |done|].
  - rewrite Hgiven, length_take. lia.
  - intros Hlen l Hl. rewrite Hgiven, take_app, (take_ge specific) by done.
    apply elem_of_app. left. by apply Hspec.
Qed.

(** X13. Confirming a rename on the history page never stores an empty
    name.  With a blank new name, or when no analysis is being renamed,
    the state is left as it is; otherwise the analysis found under the id
    gets the new name without its surrounding white space.  So if every
    saved analysis has a name that is not empty, this still holds
    afterwards; ids and timestamps are as before. *)
Theorem confirmed_rename_keeps_names_nonempty (renamingId : option string)
    (newName : string) (st : AppState) :
  let st' := confirmRename renamingId newName st in
  (trim newName = EmptyString ∨ renamingId = None ∨ renamingId = Some EmptyString →
   st' = st)
  ∧ (∀ id sa, renamingId = Some id → id ≠ EmptyString → trim newName ≠ EmptyString →
       find id (savedAnalyses st) = Some sa →
       find id (savedAnalyses st') = Some (withName (trim newName) sa))
  ∧ (Forall (λ sa, sa_name sa ≠ EmptyString) (savedAnalyses st) →
     Forall (λ sa, sa_name sa ≠ EmptyString) (savedAnalyses st'))
  ∧ map sa_id (savedAnalyses st') = map sa_id (savedAnalyses st)
  ∧ map timestamp (savedAnalyses st') = map timestamp (savedAnalyses st).
Proof.
  cbv zeta. unfold confirmRename, handleConfirmRename.
  destruct renamingId as [id|]; [|by split_and!; [done|intros; simplify_eq|done..]].
  destruct (truthy id) eqn:Ht.
  2:{ destruct id; [|done]. simpl.
      split_and!; [done|intros; simplify_eq|done..]. }
  destruct (truthy (trim newName)) eqn:Hn; simpl.
  2:{ split_and!; [done| |done..]. intros id' sa _ _ Hnn.
      apply truthy_true in Hnn. congruence. }
  apply truthy_true in Hn, Ht. split_and!.
  - intros [H|[H|H]]; [done|done|]. by simplify_eq.
  - intros id' sa [= <-] _ _ Hf. unfold handleRenameAnalysis. simpl.
    rewrite find_renameIn, Hf. simpl.
    apply find_Some_inv in Hf as [_ ->]. by rewrite String.eqb_refl.
  - unfold handleRenameAnalysis, renameIn. simpl. intros H.
    apply Forall_fmap. eapply Forall_impl; [exact H|]. intros sa Hsa. simpl.
    by destruct (String.eqb (sa_id sa) id).
  - apply renameIn_ids.
  - apply renameIn_timestamps.
Qed.

Section IngestionFacts.
Variable world : World.
Implicit Types (log : list Call) (st closure : AppState) (acc : IngestAcc).

Lemma run_foldM_inv {A S} (P : list A → S → list Call → Prop) (f : S → A → Prog S)
    xs s log :
  (∀ x rest s log,
     P (x :: rest) s log →
     P rest (run world log (f s x)).1 (run world log (f s x)).2) →
  P xs s log →
  P [] (run world log (foldM f s xs)).1 (run world log (foldM f s xs)).2.
Proof.
  intros Hstep. revert s log. induction xs as [|x xs IH]; intros s log H; simpl;
    [done|].
  rewrite run_bind. apply IH. by apply Hstep.
Qed.

Lemma same_but_ingestion_refl st : same_but_ingestion st st.
Proof. by destruct st. Qed.

Lemma same_but_ingestion_trans st1 st2 st3 :
  same_but_ingestion st1 st2 → same_but_ingestion st2 st3 → same_but_ingestion st1 st3.
Proof.
  unfold same_but_ingestion. destruct st1, st2, st3. simpl.
  intros H1 H2. injection H1; injection H2; intros; subst; reflexivity.
Qed.

(** One document of the loop. *)
Lemma run_processAndIngestDoc log forceReprocessAll total docType id name flag acc :
  let r := run world log
             (processAndIngestDoc forceReprocessAll total docType id name flag acc) in
  r.2 = log ++ (if forceReprocessAll || notProcessed flag
                then [MkCall (IngestDocument id docType)] else [])
  ∧ same_but_ingestion (ia_state acc) (ia_state r.1)
  ∧ (internalCorpus (ia_state r.1) = internalCorpus (ia_state acc)
     ∨ docType = company
       ∧ (forceReprocessAll || notProcessed flag) = true
       ∧ internalCorpus (ia_state r.1) = map (markCompany id) (internalCorpus (ia_state acc)))
  ∧ (userAustracContent (ia_state r.1) = userAustracContent (ia_state acc)
     ∨ docType = austrac
       ∧ (forceReprocessAll || notProcessed flag) = true
       ∧ userAustracContent (ia_state r.1)
         = map (markAustrac id) (userAustracContent (ia_state acc)))
  ∧ (ingestion_succeeds world → (forceReprocessAll || notProcessed flag) = true →
     match docType with
     | company =>
         internalCorpus (ia_state r.1) = map (markCompany id) (internalCorpus (ia_state acc))
     | austrac =>
         userAustracContent (ia_state r.1)
         = map (markAustrac id) (userAustracContent (ia_state acc))
     end).
Proof.
  cbv zeta. unfold processAndIngestDoc. cbv zeta.
  destruct forceReprocessAll, (notProcessed flag) eqn:Ef; simpl;
    try (split_and!; [by rewrite app_nil_r|by destruct (ia_state acc)|by left|by left|done]).
  all: destruct (world _ log (IngestDocument id docType)) as [[[] msg]|msg] eqn:Ew; simpl.
  all: split_and!; try done; try (by left);
    try (by destruct docType, (ia_state acc));
    try (destruct docType; [by right | by left]);
    try (destruct docType; [by left | by right]);
    try (intros Hs _; destruct (Hs log id docType) as [m Hm]; congruence);
    try (intros _ _; by destruct docType).
Qed.

Lemma same_document_mark id d : same_document d (markCompany id d).
Proof. unfold markCompany. by destruct (String.eqb (cd_id d) id). Qed.

Lemma same_update_mark id u : same_update u (markAustrac id u).
Proof. unfold markAustrac. by destruct (String.eqb (au_id u) id). Qed.

Lemma same_document_refl l : Forall2 same_document l l.
Proof. induction l; by constructor. Qed.

Lemma same_update_refl l : Forall2 same_update l l.
Proof. induction l; by constructor. Qed.

Lemma same_document_trans l1 l2 l3 :
  Forall2 same_document l1 l2 → Forall2 same_document l2 l3 →
  Forall2 same_document l1 l3.
Proof.
  intros H. revert l3. induction H as [|x y l l' Hxy _ IH]; intros l3 H3;
    inversion H3; subst; constructor; [|by apply IH].
  unfold same_document in *. destruct_and!. split_and!; congruence.
Qed.

Lemma same_update_trans l1 l2 l3 :
  Forall2 same_update l1 l2 → Forall2 same_update l2 l3 → Forall2 same_update l1 l3.
Proof.
  intros H. revert l3. induction H as [|x y l l' Hxy _ IH]; intros l3 H3;
    inversion H3; subst; constructor; [|by apply IH].
  unfold same_update in *. destruct_and!. split_and!; congruence.
Qed.

Lemma same_document_map id l : Forall2 same_document l (map (markCompany id) l).
Proof. induction l; constructor; [apply same_document_mark | done]. Qed.

Lemma same_update_map id l : Forall2 same_update l (map (markAustrac id) l).
Proof. induction l; constructor; [apply same_update_mark | done]. Qed.

(** The loop over the company documents. *)
Lemma run_companyLoop log forceReprocessAll total docs acc :
  let r := run world log
             (foldM (λ acc doc,
                       processAndIngestDoc forceReprocessAll total company (cd_id doc)
                         (cd_name doc) (cd_isProcessedForRag doc) acc) acc docs) in
  r.2 = log ++ map (λ d, MkCall (IngestDocument (cd_id d) company))
                 (List.filter
                    (λ d, forceReprocessAll || notProcessed (cd_isProcessedForRag d))
                    docs)
  ∧ same_but_ingestion (ia_state acc) (ia_state r.1)
  ∧ userAustracContent (ia_state r.1) = userAustracContent (ia_state acc)
  ∧ Forall2 same_document (internalCorpus (ia_state acc)) (internalCorpus (ia_state r.1))
  ∧ (ingestion_succeeds world →
     (∀ d, d ∈ internalCorpus (ia_state acc) →
           cd_isProcessedForRag d = Some true
           ∨ ∃ d0, d0 ∈ docs ∧ cd_id d0 = cd_id d
                   ∧ forceReprocessAll || notProcessed (cd_isProcessedForRag d0) = true) →
     Forall (λ d, cd_isProcessedForRag d = Some true) (internalCorpus (ia_state r.1))).
Proof.
  revert log acc. induction docs as [|d0 rest IH]; intros log acc; cbv zeta.
  { simpl. split_and!; [by rewrite app_nil_r|apply same_but_ingestion_refl|done
                       |apply same_document_refl|].
    intros _ H. apply Forall_forall. intros d Hd.
    destruct (H d Hd) as [?|(d0 & Hd0 & _)]; [done|]. by apply elem_of_nil in Hd0. }
  cbn [foldM]. rewrite run_bind.
  pose proof (run_processAndIngestDoc log forceReprocessAll total company (cd_id d0)
                (cd_name d0) (cd_isProcessedForRag d0) acc) as Hstep.
  cbv zeta in Hstep.
  set (r0 := run world log _) in *.
  destruct Hstep as (Hlog0 & Hframe0 & Hcorpus0 & Haus0 & Hok0).
  specialize (IH r0.2 r0.1). cbv zeta in IH.
  destruct IH as (Hlog & Hframe & Haus & Hsame & Hok).
  split_and!.
  - rewrite Hlog, Hlog0. cbn [List.filter].
    destruct (forceReprocessAll || notProcessed (cd_isProcessedForRag d0));
      simpl; by rewrite <- app_assoc.
  - by eapply same_but_ingestion_trans.
  - rewrite Haus. by destruct Haus0 as [?|(? & _)].
  - eapply same_document_trans; [|exact Hsame].
    destruct Hcorpus0 as [->|(_ & _ & ->)];
      [apply same_document_refl | apply same_document_map].
  - intros Hs Hcover. apply Hok; [done|]. intros d Hd.
    destruct (forceReprocessAll || notProcessed (cd_isProcessedForRag d0)) eqn:Ec.
    + rewrite (Hok0 Hs eq_refl) in Hd. apply list_elem_of_fmap in Hd as (d' & -> & Hd').
      unfold markCompany. destruct (String.eqb_spec (cd_id d') (cd_id d0)) as [Heq|Hne];
        [by left|].
      destruct (Hcover d' Hd') as [?|(d1 & Hd1 & Hid1 & Hc1)]; [by left|right].
      exists d1. split; [|done].
      apply elem_of_cons in Hd1 as [->|?]; [congruence | done].
    + destruct Hcorpus0 as [Heq|(_ & ? & _)]; [|done]. rewrite Heq in Hd.
      destruct (Hcover d Hd) as [?|(d1 & Hd1 & Hid1 & Hc1)]; [by left|right].
      exists d1. split; [|done].
      apply elem_of_cons in Hd1 as [->|?]; [congruence | done].
Qed.

(** The loop over the regulatory documents. *)
Lemma run_austracLoop log forceReprocessAll total docs acc :
  let r := run world log
             (foldM (λ acc doc,
                       processAndIngestDoc forceReprocessAll total austrac (au_id doc)
                         (title doc) (au_isProcessedForRag doc) acc) acc docs) in
  r.2 = log ++ map (λ u, MkCall (IngestDocument (au_id u) austrac))
                 (List.filter
                    (λ u, forceReprocessAll || notProcessed (au_isProcessedForRag u))
                    docs)
  ∧ same_but_ingestion (ia_state acc) (ia_state r.1)
  ∧ internalCorpus (ia_state r.1) = internalCorpus (ia_state acc)
  ∧ Forall2 same_update (userAustracContent (ia_state acc))
      (userAustracContent (ia_state r.1))
  ∧ (ingestion_succeeds world →
     (∀ u, u ∈ userAustracContent (ia_state acc) →
           au_isProcessedForRag u = Some true
           ∨ ∃ u0, u0 ∈ docs ∧ au_id u0 = au_id u
                   ∧ forceReprocessAll || notProcessed (au_isProcessedForRag u0) = true) →
     Forall (λ u, au_isProcessedForRag u = Some true)
       (userAustracContent (ia_state r.1))).
Proof.
  revert log acc. induction docs as [|d0 rest IH]; intros log acc; cbv zeta.
  { simpl. split_and!; [by rewrite app_nil_r|apply same_but_ingestion_refl|done
                       |apply same_update_refl|].
    intros _ H. apply Forall_forall. intros d Hd.
    destruct (H d Hd) as [?|(u0 & Hu0 & _)]; [done|]. by apply elem_of_nil in Hu0. }
  cbn [foldM]. rewrite run_bind.
  pose proof (run_processAndIngestDoc log forceReprocessAll total austrac (au_id d0)
                (title d0) (au_isProcessedForRag d0) acc) as Hstep.
  cbv zeta in Hstep.
  set (r0 := run world log _) in *.
  destruct Hstep as (Hlog0 & Hframe0 & Hcorpus0 & Haus0 & Hok0).
  specialize (IH r0.2 r0.1). cbv zeta in IH.
  destruct IH as (Hlog & Hframe & Hcorpus & Hsame & Hok).
  split_and!.
  - rewrite Hlog, Hlog0. cbn [List.filter].
    destruct (forceReprocessAll || notProcessed (au_isProcessedForRag d0));
      simpl; by rewrite <- app_assoc.
  - by eapply same_but_ingestion_trans.
  - rewrite Hcorpus. by destruct Hcorpus0 as [?|(? & _)].
  - eapply same_update_trans; [|exact Hsame].
    destruct Haus0 as [->|(_ & _ & ->)];
      [apply same_update_refl | apply same_update_map].
  - intros Hs Hcover. apply Hok; [done|]. intros d Hd.
    destruct (forceReprocessAll || notProcessed (au_isProcessedForRag d0)) eqn:Ec.
    + rewrite (Hok0 Hs eq_refl) in Hd. apply list_elem_of_fmap in Hd as (d' & -> & Hd').
      unfold markAustrac. destruct (String.eqb_spec (au_id d') (au_id d0)) as [Heq|Hne];
        [by left|].
      destruct (Hcover d' Hd') as [?|(d1 & Hd1 & Hid1 & Hc1)]; [by left|right].
      exists d1. split; [|done].
      apply elem_of_cons in Hd1 as [->|?]; [congruence | done].
    + destruct Haus0 as [Heq|(_ & ? & _)]; [|done]. rewrite Heq in Hd.
      destruct (Hcover d Hd) as [?|(d1 & Hd1 & Hid1 & Hc1)]; [by left|right].
      exists d1. split; [|done].
      apply elem_of_cons in Hd1 as [->|?]; [congruence | done].
Qed.

Lemma covered_by_itself {A} (flag : A → option bool) (key : A → string)
    forceReprocessAll (l : list A) (x : A) :
  x ∈ l →
  flag x = Some true
  ∨ ∃ x0, x0 ∈ l ∧ key x0 = key x ∧ forceReprocessAll || notProcessed (flag x0) = true.
Proof.
  intros Hx. destruct (flag x) as [[]|] eqn:E; [by left|right..];
    exists x; rewrite E; simpl; by rewrite orb_true_r.
Qed.

Lemma same_but_ingestion_status st status flag :
  same_but_ingestion st (setIngestionStatus status (setIsIngestionProcessing flag st)).
Proof. by destruct st. Qed.

Lemma run_ingestAll log forceReprocessAll closure st :
  ai closure = true →
  let r := run world log (ingestAllUnprocessedDocuments forceReprocessAll closure st) in
  r.2 = log ++ ingestionCalls forceReprocessAll closure
  ∧ same_but_ingestion st r.1
  ∧ isIngestionProcessing r.1 = false
  ∧ Forall2 same_document (internalCorpus st) (internalCorpus r.1)
  ∧ Forall2 same_update (userAustracContent st) (userAustracContent r.1)
  ∧ (ingestion_succeeds world → internalCorpus st = internalCorpus closure →
     userAustracContent st = userAustracContent closure → all_processed r.1).
Proof.
  intros Hai. cbv zeta. unfold ingestAllUnprocessedDocuments. rewrite Hai. simpl negb.
  cbv iota zeta. rewrite !run_bind.
  set (total := length (internalCorpus closure) + length (userAustracContent closure)).
  set (acc0 := {| ia_state := _ |}).
  pose proof (run_companyLoop log forceReprocessAll total (internalCorpus closure) acc0)
    as H1. cbv zeta in H1.
  set (r1 := run world log _) in *.
  destruct H1 as (Hlog1 & Hframe1 & Haus1 & Hsame1 & Hok1).
  pose proof (run_austracLoop r1.2 forceReprocessAll total (userAustracContent closure)
                r1.1) as H2. cbv zeta in H2.
  set (r2 := run world r1.2 _) in *.
  destruct H2 as (Hlog2 & Hframe2 & Hcorpus2 & Hsame2 & Hok2).
  simpl. split_and!.
  - rewrite Hlog2, Hlog1. unfold ingestionCalls. by rewrite <- app_assoc.
  - eapply same_but_ingestion_trans; [apply (same_but_ingestion_status st)|].
    eapply same_but_ingestion_trans; [exact Hframe1|].
    eapply same_but_ingestion_trans; [exact Hframe2|].
    apply same_but_ingestion_status.
  - done.
  - rewrite Hcorpus2. exact Hsame1.
  - eapply same_update_trans; [|exact Hsame2]. rewrite Haus1. apply same_update_refl.
  - intros Hs Hc Hu. split; simpl.
    + rewrite Hcorpus2. apply Hok1; [done|]. intros d Hd.
      apply (covered_by_itself cd_isProcessedForRag cd_id). by rewrite <- Hc.
    + apply Hok2; [done|]. intros u Hu'. rewrite Haus1 in Hu'.
      apply (covered_by_itself au_isProcessedForRag au_id). by rewrite <- Hu.
Qed.


End IngestionFacts.

(** X14. The ingestion run calls the ingestion service exactly once for
    each document that is not marked as processed (for every document when
    reprocessing is forced), the company documents first and each corpus
    in its order, whatever the service answers; a processed document is
    never sent again.  Without a client nothing is called.  With a
    client, the run changes nothing of the state but the two corpora, the
    ingestion status and the ingestion flag, which is off at the end; in
    the corpora at most the processed marks change. *)
Theorem ingestion_calls_each_unprocessed_document_once (world : World)
    (log : list Call) (forceReprocessAll : bool) (closure st : AppState) :
  let r := run world log (ingestAllUnprocessedDocuments forceReprocessAll closure st) in
  r.2 = log ++ (if ai closure then ingestionCalls forceReprocessAll closure else [])
  ∧ (ai closure = true →
     same_but_ingestion st r.1
     ∧ isIngestionProcessing r.1 = false
     ∧ Forall2 same_document (internalCorpus st) (internalCorpus r.1)
     ∧ Forall2 same_update (userAustracContent st) (userAustracContent r.1)).
Proof.
  cbv zeta. destruct (ai closure) eqn:Hai.
  - destruct (run_ingestAll world log forceReprocessAll closure st Hai)
      as (Hlog & Hframe & Hflag & Hc & Hu & _).
    by split_and!.
  - unfold ingestAllUnprocessedDocuments. rewrite Hai. simpl.
    split; [by rewrite app_nil_r | done].
Qed.


Section PostProcessingFacts.
Variable world : World.
Implicit Types (log : list Call) (v : option string).

Lemma orNA_nonempty v : orNA v ≠ EmptyString.
Proof. unfold orNA. destruct v as [[|c s]|]; done. Qed.

Lemma orNA_kept v : kept_or_NA v (orNA v).
Proof. unfold kept_or_NA, orNA. destruct v as [s|]; [|done]. by destruct (truthy s). Qed.

Lemma coercePriority_kept v : kept_or_Medium v (coercePriority v).
Proof.
  unfold kept_or_Medium, coercePriority. destruct v as [p|]; [|done].
  destruct (existsb (String.eqb p) ["High"; "Medium"; "Low"]) eqn:E.
  - rewrite bool_decide_eq_true_2; [done|].
    apply existsb_exists in E as (x & Hx & Heq). apply String.eqb_eq in Heq.
    subst. by apply list_elem_of_In.
  - rewrite bool_decide_eq_false_2; [done|]. intros Hin.
    assert (existsb (String.eqb p) ["High"; "Medium"; "Low"] = true); [|congruence].
    apply existsb_exists. exists p. split; [by apply list_elem_of_In|].
    apply String.eqb_refl.
Qed.

Lemma coercePriority_valid v : coercePriority v ∈ priorities.
Proof.
  pose proof (coercePriority_kept v) as H. unfold kept_or_Medium in H.
  destruct v as [p|]; [|rewrite H; set_solver].
  destruct (bool_decide (p ∈ priorities)) eqn:E; rewrite H.
  - by apply bool_decide_eq_true in E.
  - unfold priorities. set_solver.
Qed.

Lemma run_finishSuggestedChange log index raw :
  let c := (run world log (finishSuggestedChange index raw)).1 in
  finished_change c
  ∧ kept_or_NA (raw_document_section raw) (document_section c)
  ∧ kept_or_NA (raw_current_status_summary raw) (current_status_summary c)
  ∧ kept_or_NA (raw_austrac_relevance raw) (austrac_relevance c)
  ∧ kept_or_NA (raw_suggested_modification raw) (suggested_modification c)
  ∧ kept_or_Medium (raw_priority raw) (priority c)
  ∧ source_document_name c = raw_source_document_name raw
  ∧ sc_userFeedback c = raw_sc_userFeedback raw.
Proof.
  cbv zeta. unfold finishSuggestedChange. rewrite !run_bind, !run_call. simpl.
  split_and!; try done; try apply orNA_kept; try apply coercePriority_kept.
  unfold finished_change. simpl.
  split_and!; try done; try apply orNA_nonempty. apply coercePriority_valid.
Qed.

Lemma run_finishActionPlanItem log index raw :
  let i := (run world log (finishActionPlanItem index raw)).1 in
  finished_item i
  ∧ kept_or_NA (raw_task raw) (task i)
  ∧ kept_or_NA (raw_responsible raw) (responsible i)
  ∧ kept_or_NA (raw_timeline raw) (timeline i)
  ∧ kept_or_Medium (raw_priority_level raw) (priority_level i)
  ∧ ap_userFeedback i = raw_ap_userFeedback raw.
Proof.
  cbv zeta. unfold finishActionPlanItem. rewrite !run_bind, !run_call. simpl.
  split_and!; try done; try apply orNA_kept; try apply coercePriority_kept.
  unfold finished_item. simpl.
  split_and!; try done; try apply orNA_nonempty. apply coercePriority_valid.
Qed.

Lemma run_mapiM_Forall2 {A B} (P : A → B → Prop) (f : nat → A → Prog B) log index xs :
  (∀ log i x, P x (run world log (f i x)).1) →
  Forall2 P xs (run world log (mapiM f index xs)).1.
Proof.
  intros Hf. revert log index. induction xs as [|x xs IH]; intros log index; simpl;
    [constructor|].
  rewrite !run_bind. simpl. constructor; [apply Hf | apply IH].
Qed.

End PostProcessingFacts.

(** X16. The post-processing of a parsed answer, whatever the clock and
    the id source give: it yields one suggested change for each parsed one
    and one action item for each parsed one, in order; every priority is
    High, Medium or Low, a parsed priority being kept when it is one of the
    three and replaced by Medium otherwise; every text is kept when it is
    there and not empty and is N/A otherwise, so no text is empty; the
    source document name and the feedback are kept; and the ids carry the
    prefix of their kind, so that the id of a suggested change never starts
    with ddsc. *)
Theorem post_processing_completes (world : World) (log : list Call) (index : nat)
    (changes : list RawSuggestedChange) (items : list RawActionPlanItem) :
  Forall2 (λ raw c,
             finished_change c
             ∧ kept_or_NA (raw_document_section raw) (document_section c)
             ∧ kept_or_NA (raw_current_status_summary raw) (current_status_summary c)
             ∧ kept_or_NA (raw_austrac_relevance raw) (austrac_relevance c)
             ∧ kept_or_NA (raw_suggested_modification raw) (suggested_modification c)
             ∧ kept_or_Medium (raw_priority raw) (priority c)
             ∧ source_document_name c = raw_source_document_name raw
             ∧ sc_userFeedback c = raw_sc_userFeedback raw)
    changes (run world log (mapiM finishSuggestedChange index changes)).1
  ∧ Forall2 (λ raw i,
               finished_item i
               ∧ kept_or_NA (raw_task raw) (task i)
               ∧ kept_or_NA (raw_responsible raw) (responsible i)
               ∧ kept_or_NA (raw_timeline raw) (timeline i)
               ∧ kept_or_Medium (raw_priority_level raw) (priority_level i)
               ∧ ap_userFeedback i = raw_ap_userFeedback raw)
      items (run world log (mapiM finishActionPlanItem index items)).1.
Proof.
  split; apply run_mapiM_Forall2; intros.
  - apply run_finishSuggestedChange.
  - apply run_finishActionPlanItem.
Qed.

Section OutcomeFacts.
Variable RAG_TOP_K_CHUNKS_ANALYSIS : nat.
Variable JSON_parse : string → option RawChallengeResult.
Variable world : World.
Implicit Types (log : list Call) (st closure : AppState).

Lemma parseAndSave_outcome log jsonStr systemPromptText userPromptText
    targetedRegulatory targetedCompany newSummarizedLocalUpdates
    contextualLearningsForChallenge st :
  let st' :=
    (run world log
       (parseAndSave JSON_parse jsonStr systemPromptText userPromptText
          targetedRegulatory targetedCompany newSummarizedLocalUpdates
          contextualLearningsForChallenge st)).1 in
  (error st = None → activeAnalysisId st = None → challengeResult st = None →
   review_saved st st' ∨ review_failed st st').
Proof.
  cbv zeta. intros He Ha Hc.
  unfold parseAndSave. destruct (JSON_parse jsonStr) as [parsedResult|].
  2:{ right. by repeat split. }
  cbv zeta. rewrite !run_bind.
  set (r1 := run world log (mapiM finishSuggestedChange 0 _)).
  set (r2 := run world r1.2 (mapiM finishActionPlanItem 0 _)).
  destruct (groupSuggestions r1.1) as [g|] eqn:Hg.
  2:{ right. by repeat split. }
  rewrite !run_bind, !run_call. simpl. left.
  eexists _, r1.1, r2.1, g. split_and!; try done.
  - eapply Forall2_Forall_r; [apply (run_mapiM_Forall2 world (λ _ c, finished_change c))|].
    + intros. apply run_finishSuggestedChange.
    + by apply Forall_true.
  - eapply Forall2_Forall_r; [apply (run_mapiM_Forall2 world (λ _ i, finished_item i))|].
    + intros. apply run_finishActionPlanItem.
    + by apply Forall_true.
Qed.

Lemma review_outcome_frame st0 st st' :
  savedAnalyses st = savedAnalyses st0 →
  review_saved st st' ∨ review_failed st st' →
  review_saved st0 st' ∨ review_failed st0 st'.
Proof.
  intros Hs [(sa & sc & ap & g & H & Hrest)|(H & Hrest)]; [left|right].
  - exists sa, sc, ap, g. by rewrite <- Hs.
  - split; [congruence | done].
Qed.

Lemma analyse_outcome log closure targetedRegulatory targetedCompany st :
  let st' :=
    (run world log
       (analyse RAG_TOP_K_CHUNKS_ANALYSIS JSON_parse closure targetedRegulatory
          targetedCompany st)).1 in
  error st = None → activeAnalysisId st = None → challengeResult st = None →
  review_saved st st' ∨ review_failed st st'.
Proof.
  cbv zeta. intros He Ha Hc. unfold analyse. cbv zeta.
  rewrite !(run_bind _ _ (mapM _ _)).
  set (r := run world log (mapM summarize targetedRegulatory)).
  rewrite !(run_bind _ _ (call (RetrieveContext _ _))), !run_call. cbn [fst snd].
  set (st1 := match selectContextualLearningsForChallengePrompt _ _ _ with
              | [] => _ | _ => _ end).
  assert (Hst1 : savedAnalyses st1 = savedAnalyses st ∧ error st1 = None
                 ∧ activeAnalysisId st1 = None ∧ challengeResult st1 = None).
  { unfold st1. by destruct (selectContextualLearningsForChallengePrompt _ _ _). }
  destruct Hst1 as (Hs1 & He1 & Ha1 & Hc1).
  destruct (world _ r.2 (RetrieveContext _ _)) as [chunks|message].
  2:{ right. unfold failRun, extendNotification. simpl. by split_and!. }
  rewrite !(run_bind _ _ (call (GenerateContent _ _ _))), !run_call. cbn [fst snd].
  destruct (world _ _ (GenerateContent _ _ _)) as [responseText|message].
  2:{ right. unfold failRun, extendNotification. simpl. by split_and!. }
  eapply review_outcome_frame; [|apply parseAndSave_outcome]; try done.
Qed.

Lemma same_but_ingestion_core st st' :
  same_but_ingestion st st' →
  savedAnalyses st' = savedAnalyses st ∧ activeAnalysisId st' = activeAnalysisId st
  ∧ challengeResult st' = challengeResult st ∧ error st' = error st.
Proof.
  unfold same_but_ingestion. destruct st, st'. simpl. intros H.
  injection H; intros; subst; by split_and!.
Qed.

Lemma review_outcome_status st st' status :
  review_saved st st' ∨ review_failed st st' →
  review_saved st (setIngestionStatus status st')
  ∨ review_failed st (setIngestionStatus status st').
Proof. intros [H|H]; [left|right]; exact H. Qed.

Lemma review_saved_shows_stored st st' : review_saved st st' → shows_stored st'.
Proof.
  intros (sa & sc & ap & g & Hs & Ha & Hty & Hr & _ & _ & _ & Hc & _) id Hid.
  rewrite Ha in Hid. simplify_eq. eexists sa, _. rewrite Hs. split_and!.
  - unfold find. simpl. by rewrite String.eqb_refl.
  - unfold resultSource. rewrite Hty. exact Hr.
  - rewrite Hty. congruence.
Qed.

Lemma generateGapReview_outcome log targetRegulatoryIds companyDocIds st :
  ai st = true → companyDocIds ≠ [] → targetRegulatoryIds ≠ [] →
  let st' :=
    (run world log
       (generateGapReview RAG_TOP_K_CHUNKS_ANALYSIS JSON_parse targetRegulatoryIds
          companyDocIds st)).1 in
  review_saved st st' ∨ review_failed st st'.
Proof.
  intros Hai Hc Hr. cbv zeta. unfold generateGapReview. rewrite Hai. simpl negb.
  cbv iota.
  destruct companyDocIds as [|c cs]; [done|].
  destruct targetRegulatoryIds as [|t ts]; [done|].
  cbn [length Nat.eqb orb]. cbv zeta. rewrite !run_bind.
  set (st1 := setCurrentAnalysisPrompts None _).
  match goal with
  | |- context [run world log (if ?b then ?p else ?q)] =>
      set (r := run world log (if b then p else q))
  end.
  assert (Hcore : savedAnalyses r.1 = savedAnalyses st ∧ activeAnalysisId r.1 = None
                  ∧ challengeResult r.1 = None ∧ error r.1 = None).
  { unfold r. destruct (_ || _); [|done].
    rewrite run_bind.
    match goal with
    | |- context [ingestAllUnprocessedDocuments false st ?s] =>
        destruct (run_ingestAll world log false st s Hai) as (_ & Hframe & _)
    end.
    apply same_but_ingestion_core in Hframe as (H1 & H2 & H3 & H4).
    simpl. by rewrite H1, H2, H3, H4. }
  destruct Hcore as (H1 & H2 & H3 & H4).
  apply review_outcome_status.
  apply (review_outcome_frame st r.1); [done|]. by apply analyse_outcome.
Qed.

End OutcomeFacts.

(** X17. The outcome of a Gap Review run of the client-side workflow,
    whatever the Generator, the Retriever and the ingestion service answer.
    The run ends in success exactly when it saved an analysis: a new Gap
    Review at the head of the store, named by the active pointer, whose
    result holds the post-processed suggested changes, the action plan and
    the grouping of these changes and is the displayed result, with the
    error message and the selection cleared.  Otherwise the store is as before and there is an
    error message; after the guards, no analysis is active and nothing is
    displayed.  The run never removes or alters a saved analysis, and a
    display that agreed with the store agrees with it afterwards. *)
Theorem gap_review_outcome (RAG_TOP_K_CHUNKS_ANALYSIS : nat)
    (JSON_parse : string → option RawChallengeResult) (world : World)
    (log : list Call) (targetRegulatoryIds companyDocIds : list string)
    (st : AppState) :
  let st' :=
    (run world log
       (generateGapReview RAG_TOP_K_CHUNKS_ANALYSIS JSON_parse targetRegulatoryIds
          companyDocIds st)).1 in
  (fetchStatus st' = SUCCESS ↔ review_saved st st')
  ∧ (fetchStatus st' ≠ SUCCESS →
     savedAnalyses st' = savedAnalyses st ∧ is_Some (error st'))
  ∧ (ai st = true → companyDocIds ≠ [] → targetRegulatoryIds ≠ [] →
     review_saved st st' ∨ review_failed st st')
  ∧ (shows_stored st → shows_stored st').
Proof.
  intros st'.
  assert (Hsaved_status : review_saved st st' → fetchStatus st' = SUCCESS)
    by by intros (? & ? & ? & ? & _ & _ & _ & _ & _ & _ & _ & _ & ? & _).
  destruct (ai st) eqn:Hai.
  2:{ assert (Hst' : st' = setFetchStatus ERROR
                           (setError (Some "AI client not initialized.") st)).
      { unfold st', generateGapReview. by rewrite Hai. }
      split_and!.
      - split; [|done]. by rewrite Hst'.
      - intros _. rewrite Hst'. split; [done | by eexists].
      - done.
      - rewrite Hst'. intros H id Hid. exact (H id Hid). }
  destruct (decide (companyDocIds = [] ∨ targetRegulatoryIds = [])) as [Hempty|Hfull].
  { assert (Hst' : st' = setFetchStatus IDLE (setError (Some validationMessage) st)).
    { unfold st', generateGapReview. rewrite Hai. simpl negb. cbv iota.
      by rewrite empty_selection. }
    split_and!.
    - split; [|done]. by rewrite Hst'.
    - intros _. rewrite Hst'. split; [done | by eexists].
    - intros _ Hc Hr. by destruct Hempty.
    - rewrite Hst'. intros H id Hid. exact (H id Hid). }
  assert (companyDocIds ≠ [] ∧ targetRegulatoryIds ≠ []) as [Hc Hr].
  { split; intros ->; apply Hfull; [by left | by right]. }
  destruct (generateGapReview_outcome RAG_TOP_K_CHUNKS_ANALYSIS JSON_parse world log
              targetRegulatoryIds companyDocIds st Hai Hc Hr) as [Hsaved|Hfailed];
    fold st' in Hsaved || fold st' in Hfailed.
  - split_and!.
    + by split.
    + intros Hne. by rewrite Hsaved_status in Hne.
    + intros _ _ _. by left.
    + intros _. by eapply review_saved_shows_stored.
  - pose proof Hfailed as (Hs & Ha & _ & Hf & He & _). split_and!.
    + split; [congruence|]. intros H. apply Hsaved_status in H. congruence.
    + done.
    + intros _ _ _. by right.
    + intros _. by apply shows_stored_no_pointer.
Qed.

(** X18. A Gap Review run of the frontend variant that passes the
    validation makes exactly one call, to the backend service, with the
    selection, both corpora and the store; it never calls the Generator or
    the Retriever.  When the backend throws, the store is as before, no
    analysis is active, nothing is displayed and the error message carries
    the message of the exception.  When it returns an analysis, the store
    is the previous one with this analysis, sorted most recent first; the
    active pointer names it and its result is the displayed one. *)
Theorem frontend_gap_review_outcome (world : World) (log : list Call)
    (targetRegulatoryIds companyDocIds : list string) (st : AppState) :
  companyDocIds ≠ [] → targetRegulatoryIds ≠ [] →
  let request :=
    GapReviewInBackend targetRegulatoryIds companyDocIds (userAustracContent st)
      (internalCorpus st) (savedAnalyses st) in
  let r := run world log
             (Frontend.generateGapReview targetRegulatoryIds companyDocIds st) in
  r.2 = log ++ [MkCall request]
  ∧ match world _ log request with
    | Thrown message =>
        savedAnalyses r.1 = savedAnalyses st
        ∧ activeAnalysisId r.1 = None ∧ challengeResult r.1 = None
        ∧ fetchStatus r.1 = ERROR
        ∧ error r.1
          = Some ("An error occurred while generating the Gap Review: " +:+ message)
    | Returned newSavedAnalysis =>
        savedAnalyses r.1 = sortByTimestampDesc (newSavedAnalysis :: savedAnalyses st)
        ∧ savedAnalyses r.1 ≡ₚ newSavedAnalysis :: savedAnalyses st
        ∧ sorted_desc (savedAnalyses r.1)
        ∧ activeAnalysisId r.1 = Some (sa_id newSavedAnalysis)
        ∧ challengeResult r.1 = challengeAnalysisResult newSavedAnalysis
        ∧ fetchStatus r.1 = SUCCESS ∧ error r.1 = None
    end.
Proof.
  intros Hc Hr request r. unfold r, Frontend.generateGapReview.
  destruct companyDocIds as [|c cs]; [done|].
  destruct targetRegulatoryIds as [|t ts]; [done|].
  cbn [length Nat.eqb orb]. cbv zeta. rewrite run_bind, run_call. cbn [fst snd].
  fold request. destruct (world _ log request) as [new|message]; simpl.
  - split; [done|].
    destruct (systemPrompt new) as [sp|], (userPrompt new) as [up|];
      try destruct (truthy sp && truthy up); simpl; split_and!; try done;
      first [apply (sortByTimestampDesc_perm (new :: savedAnalyses st))
            |apply (sortByTimestampDesc_sorted (new :: savedAnalyses st))].
  - by split_and!.
Qed.

Section RoundTripFacts.
Implicit Types (u s tail : string) (c : ascii) (caps : captures).

Lemma all_chars_split (p : ascii → bool) u1 c u2 :
  all_chars p (u1 +:+ String c u2) = true → p c = true.
Proof.
  induction u1 as [|b u1 IH]; simpl.
  - by intros [? _]%andb_true_iff.
  - intros [_ ?]%andb_true_iff. by apply IH.
Qed.

(** A lazy star over a class stops at the first place where what
    follows it matches. *)
Lemma star_lazy_class {R} (p : ascii → bool) (k : @cont R) s' x u :
  ∀ fuel pos caps,
    String.length u ≤ fuel → all_chars p u = true →
    (∀ u1 c u2, u = u1 +:+ String c u2 →
                k (pos + String.length u1) (String c u2 +:+ s') caps = None) →
    k (pos + String.length u) s' caps = Some x →
    star_loop (λ pos s caps k, rmatch (Cls p) pos s (reset (Cls p) caps) k)
      false k fuel pos (u +:+ s') caps = Some x.
Proof.
  induction u as [|c u IH]; intros fuel pos caps Hfuel Hall Hearly Hend.
  - rewrite append_nil_l. simpl in Hend. rewrite Nat.add_0_r in Hend.
    destruct fuel; simpl; by rewrite Hend.
  - destruct fuel as [|fuel]; [simpl in Hfuel; lia|].
    simpl in Hall. apply andb_true_iff in Hall as [Hc Hall].
    rewrite append_cons. cbn [star_loop].
    pose proof (Hearly EmptyString c u eq_refl) as H0.
    simpl in H0. rewrite Nat.add_0_r, ?append_cons in H0. rewrite H0. cbn [orelse].
    cbn [rmatch]. rewrite Hc.
    assert ((pos <? S pos) = true) as -> by (apply Nat.ltb_lt; lia).
    apply IH.
    + simpl in Hfuel. lia.
    + done.
    + intros u1 b u2 ->. specialize (Hearly (String c u1) b u2 eq_refl).
      simpl in Hearly. by rewrite Nat.add_succ_r in Hearly.
    + simpl in Hend. by rewrite Nat.add_succ_r in Hend.
Qed.

Lemma exec_from_skip r pos c s :
  match_at r pos (String c s) = None →
  exec_from r pos (String c s) = exec_from r (S pos) s.
Proof. intros H. by rewrite exec_from_unfold, H. Qed.

(** The fragment between the quotes is read back. *)
Lemma learningDocSection_here pos u tail :
  all_chars section_char u = true →
  match_at learningDocSectionRegex pos ("regarding '" +:+ u +:+ "'" +:+ tail)
  = Some (S (pos + 11 + String.length u), <[1 := u]> ∅).
Proof.
  intros Hall. unfold match_at, learningDocSectionRegex.
  rewrite rmatch_Seq, rmatch_Lit, strip_prefix_append.
  rewrite rmatch_Seq, rmatch_Group, rmatch_Star.
  change (String.length "regarding '") with 11.
  erewrite (star_lazy_class is_dot).
  - reflexivity.
  - rewrite length_append. lia.
  - clear -Hall. induction u as [|c u IH]; [done|]. simpl in *.
    apply andb_true_iff in Hall as [Hc Hall]. unfold section_char in Hc.
    apply andb_true_iff in Hc as [-> _]. by apply IH.
  - intros u1 c u2 ->. apply all_chars_split in Hall. unfold section_char in Hall.
    apply andb_true_iff in Hall as [_ Hq]. apply negb_true_iff in Hq.
    rewrite append_cons, rmatch_Chr.
    rewrite Ascii.eqb_sym in Hq. by rewrite Hq.
  - rewrite rmatch_Chr. rewrite append_cons. simpl.
    replace (pos + 11 + String.length u - (pos + 11)) with (String.length u) by lia.
    by rewrite substring0_append.
Qed.

Lemma learningPoint_shape sa change fb :
  ∃ tail, learningPoint sa change fb
          = "Feedback for suggestion " +:+ "regarding '" +:+ document_section change
            +:+ "'" +:+ tail.
Proof.
  unfold learningPoint.
  destruct (notes fb) as [n|]; [destruct (truthy n)|];
    (destruct (finalAdoptedText fb) as [t|]; [destruct (truthy t)|]);
    eexists; rewrite ?append_assoc; repeat f_equal;
    rewrite ?append_cons, ?append_nil_l; reflexivity.
Qed.

Lemma docSectionFromLearning_learningPoint sa change fb :
  document_section change ≠ EmptyString →
  all_chars section_char (document_section change) = true →
  docSectionFromLearning (learningPoint sa change fb)
  = Some (toLowerCase (document_section change)).
Proof.
  intros Hne Hall. destruct (learningPoint_shape sa change fb) as [tail ->].
  unfold docSectionFromLearning, exec.
  set (X := "regarding '" +:+ document_section change +:+ "'" +:+ tail).
  rewrite !append_cons, append_nil_l.
  do 24 (rewrite exec_from_skip by reflexivity).
  rewrite exec_from_unfold. unfold X. rewrite learningDocSection_here by done.
  unfold group. simpl. rewrite lookup_insert_eq.
  by destruct (document_section change).
Qed.

End RoundTripFacts.

(** X19. A learning is read back by the selection for the prompt.  For a
    suggested change whose section name is not empty and holds no single
    quote and no line break, the fragment that the selection reads in the
    learning of the change is the section name in lower case, whatever the
    analysis and the feedback are.  So the learning is relevant to a list of
    documents exactly when the lower-cased section name contains the
    lower-cased name of one of them, and a relevant learning at the head of
    the learnings is selected as soon as the cap is not zero. *)
Theorem learning_read_back_by_selection (sa : SavedAnalysis) (change : SuggestedChange)
    (fb : UserFeedback) (docs : list CompanyDocument) (others : list string)
    (cap : nat) :
  document_section change ≠ EmptyString →
  all_chars section_char (document_section change) = true →
  let learning := learningPoint sa change fb in
  docSectionFromLearning learning = Some (toLowerCase (document_section change))
  ∧ relevant docs learning
    = existsb (λ d, includes (toLowerCase (document_section change))
                      (toLowerCase (cd_name d))) docs
  ∧ (relevant docs learning = true →
     ∃ selected,
       selectContextualLearningsForChallengePrompt (learning :: others) docs (S cap)
       = learning :: selected).
Proof.
  intros Hne Hall learning.
  pose proof (docSectionFromLearning_learningPoint sa change fb Hne Hall) as Hsec.
  fold learning in Hsec. split; [done|]. split.
  - unfold relevant. by rewrite Hsec.
  - intros Hrel. rewrite selection_exact. cbn [List.filter]. rewrite Hrel.
    cbn [newKeys]. unfold dedupKey at 1. rewrite Hsec. simpl.
    rewrite bool_decide_eq_false_2 by set_solver. by eexists.
Qed.

Section ProtocolFacts.
Variable RAG_TOP_K_CHUNKS_ANALYSIS : nat.
Variable JSON_parse : string → option RawChallengeResult.
Variable world : World.
Implicit Types (log : list Call).

Lemma run_clock_only {A} (p : Prog A) log :
  clock_only p →
  ∃ clock, (run world log p).2 = log ++ clock ∧ Forall (λ c, isClockCall c = true) clock.
Proof.
  revert log. induction p as [a|R e k IH]; intros log H; simpl.
  - exists []. by rewrite app_nil_r.
  - destruct H as [He Hk].
    destruct (IH (world R log e) (log ++ [MkCall e]) (Hk _)) as (clock & -> & Hc).
    exists (MkCall e :: clock). rewrite <- app_assoc. split; [done|].
    constructor; [|done]. by destruct e.
Qed.

Lemma clock_only_bind {A B} (p : Prog A) (g : A → Prog B) :
  clock_only p → (∀ a, clock_only (g a)) → clock_only (Effects.bind p g).
Proof.
  induction p as [a|R e k IH]; simpl; [by intros _ H|].
  intros [He Hk] Hg. split; [done|]. intros r. by apply IH.
Qed.

Lemma clock_only_mapiM {A B} (g : nat → A → Prog B) index xs :
  (∀ i x, clock_only (g i x)) → clock_only (mapiM g index xs).
Proof.
  intros Hg. revert index. induction xs as [|x xs IH]; intros index; simpl; [done|].
  apply clock_only_bind; [done|]. intros y. apply clock_only_bind; [done|]. done.
Qed.

Lemma clock_only_parseAndSave jsonStr systemPromptText userPromptText
    targetedRegulatory targetedCompany newSummarizedLocalUpdates
    contextualLearningsForChallenge st :
  clock_only
    (parseAndSave JSON_parse jsonStr systemPromptText userPromptText
       targetedRegulatory targetedCompany newSummarizedLocalUpdates
       contextualLearningsForChallenge st).
Proof.
  unfold parseAndSave. destruct (JSON_parse jsonStr) as [parsedResult|]; [|done].
  cbv zeta. apply clock_only_bind.
  { apply clock_only_mapiM. intros i x. unfold finishSuggestedChange.
    repeat (apply clock_only_bind || split || intros || done). }
  intros changes. apply clock_only_bind.
  { apply clock_only_mapiM. intros i x. unfold finishActionPlanItem.
    repeat (apply clock_only_bind || split || intros || done). }
  intros plan. destruct (groupSuggestions changes); [|done].
  repeat (apply clock_only_bind || split || intros || done).
Qed.

Lemma run_mapM_summarize log docs :
  ∃ prompts,
    (run world log (mapM summarize docs)).2
    = log ++ map (λ p, MkCall (GenerateContent p false false)) prompts
    ∧ length prompts = length docs.
Proof.
  revert log. induction docs as [|u docs IH]; intros log; cbn [mapM].
  - exists []. simpl. by rewrite app_nil_r.
  - rewrite !run_bind. cbn [run snd].
    assert (∃ prompt, (run world log (summarize u)).2
                      = log ++ [MkCall (GenerateContent prompt false false)])
      as [prompt ->] by (by eexists).
    destruct (IH (log ++ [MkCall (GenerateContent prompt false false)]))
      as (prompts & -> & Hlen).
    exists (prompt :: prompts). simpl. rewrite <- app_assoc. split; [done | by f_equal].
Qed.

Lemma run_analyse_calls log closure targetedRegulatory targetedCompany st :
  ∃ summaryPrompts query rest,
    (run world log
       (analyse RAG_TOP_K_CHUNKS_ANALYSIS JSON_parse closure targetedRegulatory
          targetedCompany st)).2
    = log ++ map (λ p, MkCall (GenerateContent p false false)) summaryPrompts
        ++ [MkCall (RetrieveContext query RAG_TOP_K_CHUNKS_ANALYSIS)] ++ rest
    ∧ length summaryPrompts = length targetedRegulatory
    ∧ (rest = []
       ∨ ∃ prompt clock,
           rest = MkCall (GenerateContent prompt true false) :: clock
           ∧ Forall (λ c, isClockCall c = true) clock).
Proof.
  unfold analyse. cbv zeta. rewrite !(run_bind _ _ (mapM _ _)).
  destruct (run_mapM_summarize log targetedRegulatory) as (prompts & Hlog & Hlen).
  set (r := run world log (mapM summarize targetedRegulatory)) in *.
  rewrite !(run_bind _ _ (call (RetrieveContext _ _))), !run_call. cbn [fst snd].
  match goal with
  | |- context [MkCall (RetrieveContext ?q _)] => set (query := q)
  end.
  destruct (world _ r.2 (RetrieveContext _ _)) as [chunks|message].
  2:{ exists prompts, query, []. simpl. rewrite Hlog, <- app_assoc.
      split; [done|]. split; [done | by left]. }
  rewrite !(run_bind _ _ (call (GenerateContent _ _ _))), !run_call. cbn [fst snd].
  match goal with
  | |- context [MkCall (GenerateContent ?p true false)] => set (prompt := p)
  end.
  destruct (world _ _ (GenerateContent _ _ _)) as [responseText|message].
  2:{ exists prompts, query, [MkCall (GenerateContent prompt true false)].
      simpl. rewrite Hlog, <- !app_assoc. split; [done|]. split; [done|].
      right. by exists prompt, []. }
  match goal with
  | |- context [run world ?l (parseAndSave ?a ?b ?c ?d ?e ?f ?g ?h ?i)] =>
      destruct (run_clock_only (parseAndSave a b c d e f g h i) l
                  (clock_only_parseAndSave b c d e f g h i))
        as (clock & -> & Hclock)
  end.
  exists prompts, query, (MkCall (GenerateContent prompt true false) :: clock).
  rewrite Hlog, <- !app_assoc. split; [done|]. split; [done|].
  right. by exists prompt, clock.
Qed.

End ProtocolFacts.

(** X20. The calls of a Gap Review run that passes its guards, in order
    and whatever the collaborators answer: when a targeted document is not
    yet processed, the ingestion calls for the documents of both corpora
    that are not processed; then one call of the Generator for the summary
    of each targeted regulatory document, none of which stops the run;
    then exactly one call of the Retriever, with the cap on the chunks;
    then, unless the Retriever threw, one call of the Generator for the
    analysis in JSON mode and without the search tool, followed by nothing
    but readings of the clock and of the id source. *)
Theorem gap_review_call_protocol (RAG_TOP_K_CHUNKS_ANALYSIS : nat)
    (JSON_parse : string → option RawChallengeResult) (world : World)
    (log : list Call) (targetRegulatoryIds companyDocIds : list string)
    (st : AppState) :
  ai st = true → companyDocIds ≠ [] → targetRegulatoryIds ≠ [] →
  let targetedRegulatory :=
    targetedRegulatoryContent (userAustracContent st) targetRegulatoryIds in
  let targetedCompany := targetedCompanyDocs (internalCorpus st) companyDocIds in
  let uningestedDocsExist :=
    existsb (λ d, notProcessed (cd_isProcessedForRag d)) targetedCompany
    || existsb (λ d, notProcessed (au_isProcessedForRag d)) targetedRegulatory in
  ∃ summaryPrompts query rest,
    (run world log
       (generateGapReview RAG_TOP_K_CHUNKS_ANALYSIS JSON_parse targetRegulatoryIds
          companyDocIds st)).2
    = log ++ (if uningestedDocsExist then ingestionCalls false st else [])
        ++ map (λ p, MkCall (GenerateContent p false false)) summaryPrompts
        ++ [MkCall (RetrieveContext query RAG_TOP_K_CHUNKS_ANALYSIS)] ++ rest
    ∧ length summaryPrompts = length targetedRegulatory
    ∧ (rest = []
       ∨ ∃ prompt clock,
           rest = MkCall (GenerateContent prompt true false) :: clock
           ∧ Forall (λ c, isClockCall c = true) clock).
Proof.
  intros Hai Hc Hr targetedRegulatory targetedCompany uningestedDocsExist.
  unfold generateGapReview. rewrite Hai. simpl negb. cbv iota.
  destruct companyDocIds as [|c cs]; [done|].
  destruct targetRegulatoryIds as [|t ts]; [done|].
  cbn [length Nat.eqb orb]. cbv zeta. rewrite !run_bind.
  fold targetedRegulatory targetedCompany. fold uningestedDocsExist.
  match goal with
  | |- context [run world log (if uningestedDocsExist then ?p else ?q)] =>
      set (r := run world log (if uningestedDocsExist then p else q))
  end.
  assert (Hlog : r.2 = log ++ (if uningestedDocsExist then ingestionCalls false st
                               else [])).
  { unfold r. destruct uningestedDocsExist; [|by rewrite app_nil_r].
    rewrite run_bind.
    match goal with
    | |- context [ingestAllUnprocessedDocuments false st ?s] =>
        destruct (run_ingestAll world log false st s Hai) as (-> & _)
    end.
    done. }
  destruct (run_analyse_calls RAG_TOP_K_CHUNKS_ANALYSIS JSON_parse world r.2 st
              targetedRegulatory targetedCompany r.1)
    as (prompts & query & rest & -> & Hlen & Hrest).
  exists prompts, query, rest. simpl. rewrite Hlog, <- !app_assoc. by split_and!.
Qed.

Section SimulationFacts.
Variable uids : nat → string.
Variable sizes : nat → nat.
Variable year : string.
Implicit Types (chunks mockChunks : list DocumentChunk) (c : DocumentChunk).

Lemma addGeneric_length queryText todo i mockChunks :
  length (addGeneric uids sizes queryText todo i mockChunks) = length mockChunks + todo.
Proof.
  revert i mockChunks. induction todo as [|todo IH]; intros i mockChunks; simpl; [lia|].
  rewrite IH, length_app. simpl. lia.
Qed.

Lemma addGeneric_simulated queryText todo i mockChunks :
  Forall (λ c, startsWith (documentId c) "simulated-" = true) mockChunks →
  Forall (λ c, startsWith (documentId c) "simulated-" = true)
    (addGeneric uids sizes queryText todo i mockChunks).
Proof.
  revert i mockChunks. induction todo as [|todo IH]; intros i mockChunks H; simpl;
    [done|].
  apply IH. apply Forall_app. split; [done|]. by repeat constructor.
Qed.

Lemma simulated_not_regulatory docs c :
  Forall (λ d, startsWith (au_id d) "simulated-" = false) docs →
  startsWith (documentId c) "simulated-" = true →
  isTargetedRegulatoryChunk docs c = false.
Proof.
  intros Hdocs Hc. unfold isTargetedRegulatoryChunk. apply andb_false_iff. right.
  induction Hdocs as [|d l Hd _ IH]; simpl; [done|]. rewrite IH, orb_false_r.
  apply String.eqb_neq. intros Heq. congruence.
Qed.

Lemma simulated_not_company docs c :
  Forall (λ d, startsWith (cd_id d) "simulated-" = false) docs →
  startsWith (documentId c) "simulated-" = true →
  isTargetedCompanyChunk docs c = false.
Proof.
  intros Hdocs Hc. unfold isTargetedCompanyChunk. apply andb_false_iff. right.
  induction Hdocs as [|d l Hd _ IH]; simpl; [done|]. rewrite IH, orb_false_r.
  apply String.eqb_neq. intros Heq. congruence.
Qed.

Lemma filter_none {A} (p : A → bool) (l : list A) :
  Forall (λ x, p x = false) l → List.filter p l = [].
Proof. induction 1 as [|x l Hx _ IH]; simpl; [done|]. by rewrite Hx. Qed.

Lemma Forall_filter_keeps {A} (P : A → Prop) (p : A → bool) (l : list A) :
  Forall P l → Forall P (List.filter p l).
Proof.
  induction 1 as [|x l Hx _ IH]; simpl; [done|]. destruct (p x); [by constructor|done].
Qed.

Lemma simulated_retrieval_sim queryText topK :
  Forall (λ c, startsWith (documentId c) "simulated-" = true)
    (retrieveContextFromVertexAI uids sizes year queryText topK).
Proof.
  unfold retrieveContextFromVertexAI. cbv zeta.
  set (m2 := if someIn _ _ then _ else _).
  assert (H2 : Forall (λ c, startsWith (documentId c) "simulated-" = true) m2).
  { unfold m2. repeat case_match; simpl; by repeat constructor. }
  apply Forall_take. destruct (_ || _); [by apply addGeneric_simulated | done].
Qed.

End SimulationFacts.

(** X21. The simulated retrieval service returns exactly as many chunks
    as it is asked for, whatever the query and the random draws are; and
    every chunk it returns names a simulated document: its document id
    starts with simulated-. *)
Theorem simulated_retrieval_size (uids : nat → string) (sizes : nat → nat)
    (year queryText : string) (topK : nat) :
  let chunks := retrieveContextFromVertexAI uids sizes year queryText topK in
  length chunks = topK
  ∧ Forall (λ c, startsWith (documentId c) "simulated-" = true) chunks.
Proof.
  cbv zeta. split; [|apply simulated_retrieval_sim].
  unfold retrieveContextFromVertexAI. cbv zeta.
  set (m2 := if someIn _ _ then _ else _). rewrite length_take.
  destruct (Nat.ltb_spec (length m2) topK) as [Hlt|Hge]; simpl.
  - rewrite addGeneric_length. lia.
  - destruct (Nat.eqb_spec (length m2) 0) as [H0|Hn0]; [|lia].
    rewrite addGeneric_length. lia.
Qed.

(** X22. With the simulated retrieval service the Gap Review prompt holds
    no retrieved text.  When no document of the corpora has an id that
    starts with simulated-, no chunk of the service is about a targeted
    document, whatever the query, the cap, the selection and the random
    draws are; so the context of the user prompt is the one built without
    any chunk: the summaries of the targeted regulatory documents and the
    names of the targeted company documents. *)
Theorem simulated_chunks_never_targeted (uids : nat → string) (sizes : nat → nat)
    (year queryText : string) (topK : nat) (userAustracContent : list AustracUpdate)
    (internalCorpus : list CompanyDocument)
    (targetRegulatoryIds companyDocIds : list string)
    (newSummarizedLocalUpdates : list AustracUpdate) :
  Forall (λ d, startsWith (au_id d) "simulated-" = false) userAustracContent →
  Forall (λ d, startsWith (cd_id d) "simulated-" = false) internalCorpus →
  let relevantChunks := retrieveContextFromVertexAI uids sizes year queryText topK in
  let targetedRegulatory :=
    targetedRegulatoryContent userAustracContent targetRegulatoryIds in
  let targetedCompany := targetedCompanyDocs internalCorpus companyDocIds in
  List.filter (isTargetedRegulatoryChunk targetedRegulatory) relevantChunks = []
  ∧ List.filter (isTargetedCompanyChunk targetedCompany) relevantChunks = []
  ∧ userPromptContext relevantChunks targetedRegulatory targetedCompany
      newSummarizedLocalUpdates
    = userPromptContext [] targetedRegulatory targetedCompany newSummarizedLocalUpdates.
Proof.
  intros Hreg Hcomp relevantChunks targetedRegulatory targetedCompany.
  pose proof (simulated_retrieval_sim uids sizes year queryText topK) as Hsim.
  assert (H1 : List.filter (isTargetedRegulatoryChunk targetedRegulatory)
                 relevantChunks = []).
  { apply filter_none. eapply Forall_impl; [exact Hsim|]. intros c Hc.
    apply simulated_not_regulatory; [|done]. by apply Forall_filter_keeps. }
  assert (H2 : List.filter (isTargetedCompanyChunk targetedCompany) relevantChunks = []).
  { apply filter_none. eapply Forall_impl; [exact Hsim|]. intros c Hc.
    apply simulated_not_company; [|done]. by apply Forall_filter_keeps. }
  split; [done|]. split; [done|].
  unfold userPromptContext, austracContextFromChunks, companyContextFromChunks.
  by rewrite H1, H2.
Qed.

Section WordRepairFacts.
Implicit Types (s pre post rest w : string) (c x : ascii) (caps : captures).
Local Arguments Ascii.eqb : simpl never.

Lemma space_not_ident_start c : is_space c = true → is_ident_start c = false.
Proof. destruct c as [[] [] [] [] [] [] [] []]; by vm_compute. Qed.

Lemma word_not_space c : is_word c = true → is_space c = false.
Proof. destruct c as [[] [] [] [] [] [] [] []]; by vm_compute. Qed.

Lemma ident_start_word c : is_ident_start c = true → is_word c = true.
Proof. destruct c as [[] [] [] [] [] [] [] []]; by vm_compute. Qed.

Lemma skip_space s : skip is_space s = trimStart s.
Proof. induction s as [|c s IH]; [done|]. simpl. by rewrite IH. Qed.

Lemma leading_skip p s : s = leading p s +:+ skip p s.
Proof.
  induction s as [|c s IH]; [done|]. simpl. destruct (p c); [|done].
  rewrite append_cons. by f_equal.
Qed.

Lemma greedy_class {R} (p : ascii → bool) (k : @cont R) fuel pos s caps :
  (∀ pos' c r caps', p c = true → k pos' (String c r) caps' = None) →
  String.length s ≤ fuel →
  star_loop (λ pos s caps k, rmatch (Cls p) pos s (reset (Cls p) caps) k)
    true k fuel pos s caps
  = k (pos + String.length (leading p s)) (skip p s) caps.
Proof.
  intros Hk. revert fuel pos. induction s as [|c s IH]; intros fuel pos Hfuel.
  - simpl. rewrite Nat.add_0_r. by destruct fuel.
  - destruct fuel as [|fuel]; [simpl in Hfuel; lia|].
    simpl. destruct (p c) eqn:Hc.
    + assert ((pos <? S pos) = true) as -> by (apply Nat.ltb_lt; lia).
      rewrite IH by (simpl in Hfuel; lia). simpl.
      replace (pos + S (String.length (leading p s)))
        with (S pos + String.length (leading p s)) by lia.
      unfold orelse. destruct (k _ (skip p s) caps) eqn:Hres; [done|].
      by rewrite Hk.
    + simpl. by rewrite Nat.add_0_r.
Qed.

(** Spaces and the closing code unit [x] in group [i]. *)
Lemma rmatch_tail {R} (kf : @cont R) i x pos s caps :
  is_space x = false →
  rmatch (spaces ⋅ Group i (Chr x))%re pos s caps kf
  = match trimStart s with
    | String y rest =>
        if Ascii.eqb x y
        then kf (S (pos + String.length (leading is_space s))) rest
               (<[i := String y EmptyString]> caps)
        else None
    | EmptyString => None
    end.
Proof.
  intros Hx. rewrite rmatch_Seq, rmatch_spaces.
  - rewrite rmatch_Group, rmatch_Chr. destruct (trimStart s) as [|y rest]; [done|].
    destruct (Ascii.eqb x y); [|done].
    replace (S (pos + String.length (leading is_space s))
             - (pos + String.length (leading is_space s))) with 1 by lia.
    unfold substring0. simpl. by destruct rest.
  - intros pos' c r caps' Hc. rewrite rmatch_Group, rmatch_Chr.
    destruct (Ascii.eqb_spec x c) as [->|]; [congruence | done].
Qed.

Lemma rmatch_ident {R} (k : @cont R) pos s caps :
  (∀ pos' c r caps', is_word c = true → k pos' (String c r) caps' = None) →
  rmatch ident pos s caps k
  = match s with
    | String c0 s3 =>
        if is_ident_start c0
        then k (S pos + String.length (leading is_word s3)) (skip is_word s3) caps
        else None
    | EmptyString => None
    end.
Proof.
  intros Hk. unfold ident. rewrite rmatch_Seq. cbn [rmatch].
  destruct s as [|c0 s3]; [done|]. destruct (is_ident_start c0); [|done].
  by apply greedy_class.
Qed.

Lemma word_not_closer c :
  is_word c = true → Ascii.eqb "{" c = false ∧ Ascii.eqb "," c = false.
Proof. destruct c as [[] [] [] [] [] [] [] []]; by vm_compute. Qed.

(** The text that [word_after_brace] goes over. *)
Lemma word_after_brace_Some x s rest :
  word_after_brace x s = Some rest →
  ∃ s1 c0 s3,
    s = String "}" s1 ∧ trimStart s1 = String c0 s3 ∧ is_ident_start c0 = true
    ∧ trimStart (skip is_word s3) = String x rest
    ∧ s = (String "}" (leading is_space s1) +:+ String c0 (leading is_word s3)
           +:+ leading is_space (skip is_word s3) +:+ String x EmptyString) +:+ rest.
Proof.
  unfold word_after_brace. destruct s as [|b s1]; [done|].
  destruct (Ascii.eqb_spec "}" b) as [<-|]; [|done].
  destruct (trimStart s1) as [|c0 s3] eqn:E1; [done|].
  destruct (is_ident_start c0) eqn:E2; [|done].
  destruct (trimStart (skip is_word s3)) as [|y rest'] eqn:E3; [done|].
  destruct (Ascii.eqb_spec x y) as [<-|]; [|done]. intros [= ->].
  exists s1, c0, s3. split_and!; try done.
  rewrite !append_assoc, !append_cons, append_nil_l. f_equal.
  rewrite (leading_trimStart s1) at 1. f_equal. rewrite E1. f_equal.
  rewrite (leading_skip is_word s3) at 1. f_equal.
  rewrite (leading_trimStart (skip is_word s3)) at 1. by rewrite E3.
Qed.

Lemma match_at_malformationRegex1 pos s :
  match word_after_brace "{" s with
  | Some rest =>
      ∃ m caps, s = m +:+ rest ∧ m ≠ EmptyString
        ∧ match_at malformationRegex1 pos s = Some (pos + String.length m, caps)
        ∧ expand [TGroup 1; TLit ", "; TGroup 3] caps = "}, {"
  | None => match_at malformationRegex1 pos s = None
  end.
Proof.
  assert (Hgen : match_at malformationRegex1 pos s
    = match s with
      | String b s1 =>
          if Ascii.eqb "}" b then
            match trimStart s1 with
            | String c0 s3 =>
                if is_ident_start c0 then
                  match trimStart (skip is_word s3) with
                  | String y rest =>
                      if Ascii.eqb "{" y
                      then Some (S (S (S pos + String.length (leading is_space s1))
                                    + String.length (leading is_word s3)
                                    + String.length (leading is_space (skip is_word s3))),
                                 <[3 := String y EmptyString]>
                                   (<[2 := substring0
                                             (S (String.length (leading is_word s3)))
                                             (trimStart s1)]>
                                      (<[1 := String b EmptyString]> ∅)))
                      else None
                  | EmptyString => None
                  end
                else None
            | EmptyString => None
            end
          else None
      | EmptyString => None
      end).
  { unfold match_at, malformationRegex1.
    rewrite rmatch_Seq, rmatch_Group, rmatch_Chr. destruct s as [|b s1]; [done|].
    destruct (Ascii.eqb "}" b); [|done].
    rewrite rmatch_Seq, rmatch_spaces.
    2:{ intros pos' c r caps' Hc. rewrite rmatch_Seq, rmatch_Group. unfold ident.
        rewrite rmatch_Seq. cbn [rmatch]. by rewrite space_not_ident_start. }
    rewrite rmatch_Seq, rmatch_Group, rmatch_ident.
    2:{ intros pos' c r caps' Hc. rewrite rmatch_tail by done.
        cbn [trimStart]. rewrite (word_not_space c Hc).
        by destruct (word_not_closer c Hc) as [-> _]. }
    destruct (trimStart s1) as [|c0 s3] eqn:E1; [done|].
    destruct (is_ident_start c0); [|done].
    rewrite rmatch_tail by done.
    destruct (trimStart (skip is_word s3)) as [|y rest]; [done|].
    destruct (Ascii.eqb "{" y); [|done].
    replace (S pos - pos) with 1 by lia.
    replace (S (S pos + String.length (leading is_space s1))
             + String.length (leading is_word s3)
             - (S pos + String.length (leading is_space s1)))
      with (S (String.length (leading is_word s3))) by lia.
    unfold substring0 at 2. simpl. by destruct s1. }
  destruct (word_after_brace "{" s) as [rest|] eqn:E.
  - pose proof (word_after_brace_Some _ _ _ E) as (s1 & c0 & s3 & -> & E1 & E2 & E3 & Hs).
    eexists _, _. split; [exact Hs|]. split; [done|].
    rewrite Hgen, E1, E2, E3. simpl Ascii.eqb.
    assert (Ascii.eqb "}" "}" = true) as -> by done.
    assert (Ascii.eqb "{" "{" = true) as -> by done.
    split.
    + f_equal. f_equal. rewrite !length_append. simpl. lia.
    + cbn [expand]. rewrite lookup_insert_eq.
      rewrite lookup_insert_ne, lookup_insert_ne, lookup_insert_eq by done. done.
  - rewrite Hgen. unfold word_after_brace in E. destruct s as [|b s1]; [done|].
    destruct (Ascii.eqb "}" b); [|done].
    destruct (trimStart s1) as [|c0 s3]; [done|].
    destruct (is_ident_start c0); [|done].
    destruct (trimStart (skip is_word s3)) as [|y rest]; [done|].
    by destruct (Ascii.eqb "{" y).
Qed.

Lemma match_at_malformationRegex2 pos s :
  match word_after_brace "," s with
  | Some rest =>
      ∃ m caps, s = m +:+ rest ∧ m ≠ EmptyString
        ∧ match_at malformationRegex2 pos s = Some (pos + String.length m, caps)
        ∧ expand [TGroup 1; TGroup 2] caps = "},"
  | None => match_at malformationRegex2 pos s = None
  end.
Proof.
  assert (Hgen : match_at malformationRegex2 pos s
    = match s with
      | String b s1 =>
          if Ascii.eqb "}" b then
            match trimStart s1 with
            | String c0 s3 =>
                if is_ident_start c0 then
                  match trimStart (skip is_word s3) with
                  | String y rest =>
                      if Ascii.eqb "," y
                      then Some (S (S (S pos + String.length (leading is_space s1))
                                    + String.length (leading is_word s3)
                                    + String.length (leading is_space (skip is_word s3))),
                                 <[2 := String y EmptyString]>
                                   (<[1 := String b EmptyString]> ∅))
                      else None
                  | EmptyString => None
                  end
                else None
            | EmptyString => None
            end
          else None
      | EmptyString => None
      end).
  { unfold match_at, malformationRegex2.
    rewrite rmatch_Seq, rmatch_Group, rmatch_Chr. destruct s as [|b s1]; [done|].
    destruct (Ascii.eqb "}" b); [|done].
    rewrite rmatch_Seq, rmatch_spaces.
    2:{ intros pos' c r caps' Hc. rewrite rmatch_Seq. unfold ident.
        rewrite rmatch_Seq. cbn [rmatch]. by rewrite space_not_ident_start. }
    rewrite rmatch_Seq, rmatch_ident.
    2:{ intros pos' c r caps' Hc. rewrite rmatch_tail by done.
        cbn [trimStart]. rewrite (word_not_space c Hc).
        by destruct (word_not_closer c Hc) as [_ ->]. }
    destruct (trimStart s1) as [|c0 s3] eqn:E1; [done|].
    destruct (is_ident_start c0); [|done].
    rewrite rmatch_tail by done.
    destruct (trimStart (skip is_word s3)) as [|y rest]; [done|].
    destruct (Ascii.eqb "," y); [|done].
    replace (S pos - pos) with 1 by lia.
    unfold substring0. simpl. by destruct s1. }
  destruct (word_after_brace "," s) as [rest|] eqn:E.
  - pose proof (word_after_brace_Some _ _ _ E) as (s1 & c0 & s3 & -> & E1 & E2 & E3 & Hs).
    eexists _, _. split; [exact Hs|]. split; [done|].
    rewrite Hgen, E1, E2, E3.
    assert (Ascii.eqb "}" "}" = true) as -> by done.
    assert (Ascii.eqb "," "," = true) as -> by done.
    split.
    + f_equal. f_equal. rewrite !length_append. simpl. lia.
    + cbn [expand]. rewrite lookup_insert_eq.
      rewrite lookup_insert_ne, lookup_insert_eq by done. done.
  - rewrite Hgen. unfold word_after_brace in E. destruct s as [|b s1]; [done|].
    destruct (Ascii.eqb "}" b); [|done].
    destruct (trimStart s1) as [|c0 s3]; [done|].
    destruct (is_ident_start c0); [|done].
    destruct (trimStart (skip is_word s3)) as [|y rest]; [done|].
    by destruct (Ascii.eqb "," y).
Qed.

End WordRepairFacts.

(** The replacement of every word between a closing brace and the code
    unit [x], for an expression [r] that matches just these. *)
Section BraceWordReplace.
Variables (r : regex) (t : list tpiece) (x : ascii) (rep : string).
Hypothesis matches :
  ∀ pos s,
    match word_after_brace x s with
    | Some rest =>
        ∃ m caps, s = m +:+ rest ∧ m ≠ EmptyString
          ∧ match_at r pos s = Some (pos + String.length m, caps)
          ∧ expand t caps = rep
    | None => match_at r pos s = None
    end.
Hypothesis x_not_space : is_space x = false.
Hypothesis x_not_word : is_word x = false.
Implicit Types (s pre post rest w ws : string) (c : ascii).
Local Arguments Ascii.eqb : simpl never.

Lemma replace_from_word fuel pos s :
  replace_from (S fuel) r t pos s
  = match word_after_brace x s with
    | Some rest =>
        rep +:+ replace_from fuel r t (pos + (String.length s - String.length rest)) rest
    | None =>
        match s with
        | EmptyString => EmptyString
        | String c s' => String c (replace_from fuel r t (S pos) s')
        end
    end.
Proof.
  rewrite replace_from_S. pose proof (matches pos s) as H.
  destruct (word_after_brace x s) as [rest|]; [|by rewrite H].
  destruct H as (m & caps & -> & Hm & -> & ->).
  assert ((pos <? pos + String.length m) = true) as ->.
  { apply Nat.ltb_lt. destruct m; [done|]. simpl. lia. }
  replace (pos + String.length m - pos) with (String.length m) by lia.
  rewrite drop_append, length_append. do 3 f_equal. lia.
Qed.

Lemma word_after_brace_shorter s rest :
  word_after_brace x s = Some rest → String.length rest < String.length s.
Proof.
  intros E. pose proof (matches 0 s) as H. rewrite E in H.
  destruct H as (m & caps & -> & Hm & _). rewrite length_append.
  destruct m; [done|]. simpl. lia.
Qed.

Lemma replace_from_word_fuel fuel1 fuel2 pos1 pos2 s :
  String.length s < fuel1 → String.length s < fuel2 →
  replace_from fuel1 r t pos1 s = replace_from fuel2 r t pos2 s.
Proof.
  revert fuel2 pos1 pos2 s.
  induction fuel1 as [|fuel1 IH]; intros [|fuel2] pos1 pos2 s H1 H2; [lia..|].
  rewrite !replace_from_word.
  destruct (word_after_brace x s) as [rest|] eqn:E.
  - apply word_after_brace_shorter in E. f_equal. apply IH; lia.
  - destruct s as [|c s]; [done|]. simpl in H1, H2. f_equal. apply IH; lia.
Qed.

Lemma skip_all (p : ascii → bool) a c s :
  all_chars p a = true → p c = false → skip p (a +:+ String c s) = String c s.
Proof.
  intros Ha Hc. induction a as [|b a IH].
  - rewrite append_nil_l. simpl. by rewrite Hc.
  - simpl in Ha. apply andb_true_iff in Ha as [Hb Ha]. rewrite append_cons. simpl.
    rewrite Hb. by apply IH.
Qed.

(** The defect itself. *)
Lemma word_after_brace_defect ws1 w ws2 post :
  all_chars is_space ws1 = true → identifier w = true →
  all_chars is_space ws2 = true →
  word_after_brace x ("}" +:+ ws1 +:+ w +:+ ws2 +:+ String x post) = Some post.
Proof.
  intros H1 Hw H2. destruct w as [|c0 w']; [done|]. simpl in Hw.
  apply andb_true_iff in Hw as [Hc0 Hw'].
  rewrite append_cons, append_nil_l. unfold word_after_brace.
  assert (Ascii.eqb "}" "}" = true) as -> by done.
  rewrite append_cons.
  destruct (trimStart_spaces ws1 c0 (w' +:+ ws2 +:+ String x post) H1) as [-> _].
  { apply word_not_space. by apply ident_start_word. }
  rewrite Hc0.
  assert (skip is_word (w' +:+ ws2 +:+ String x post) = ws2 +:+ String x post) as ->.
  { destruct ws2 as [|b ws2].
    - rewrite append_nil_l. by apply skip_all.
    - rewrite append_cons. apply skip_all; [done|]. simpl in H2.
      apply andb_true_iff in H2 as [Hb _].
      destruct (is_word b) eqn:E; [|done]. apply word_not_space in E. congruence. }
  destruct (trimStart_spaces ws2 x post H2 x_not_space) as [-> _].
  by rewrite Ascii.eqb_refl.
Qed.

(** Before the defect nothing matches. *)
Lemma word_after_brace_clean c pre tail :
  no_word_after_brace (String c pre) = true →
  word_after_brace x (String c (pre +:+ String "}" tail)) = None.
Proof.
  simpl. intros [Hc _]%andb_true_iff. unfold word_after_brace.
  destruct (Ascii.eqb "}" c); [|done].
  pose proof (trimStart_append pre "}" tail eq_refl) as H.
  destruct (trimStart pre) as [|d a'].
  - destruct H as [-> _]. done.
  - destruct H as (-> & _). apply negb_true_iff in Hc. by rewrite Hc.
Qed.

Lemma replace_from_defect fuel pos pre ws1 w ws2 post :
  no_word_after_brace pre = true →
  all_chars is_space ws1 = true → identifier w = true →
  all_chars is_space ws2 = true →
  String.length (pre +:+ "}" +:+ ws1 +:+ w +:+ ws2 +:+ String x post) < fuel →
  replace_from fuel r t pos (pre +:+ "}" +:+ ws1 +:+ w +:+ ws2 +:+ String x post)
  = pre +:+ rep +:+ replace r t post.
Proof.
  intros Hpre H1 Hw H2. revert pos fuel.
  induction pre as [|c pre IH]; intros pos fuel Hfuel.
  - destruct fuel as [|fuel]; [lia|]. rewrite !append_nil_l.
    rewrite append_nil_l in Hfuel.
    rewrite replace_from_word, word_after_brace_defect by done. f_equal.
    apply replace_from_word_fuel; [|lia].
    rewrite !length_append in Hfuel. simpl in Hfuel. lia.
  - destruct fuel as [|fuel]; [lia|]. rewrite !append_cons.
    rewrite append_cons in Hfuel. rewrite replace_from_word.
    change ("}" +:+ ws1 +:+ w +:+ ws2 +:+ String x post)
      with (String "}" (ws1 +:+ w +:+ ws2 +:+ String x post)).
    rewrite word_after_brace_clean by done. f_equal.
    change (String "}" (ws1 +:+ w +:+ ws2 +:+ String x post))
      with ("}" +:+ ws1 +:+ w +:+ ws2 +:+ String x post).
    apply IH.
    + simpl in Hpre. by apply andb_true_iff in Hpre as [_ ?].
    + simpl in Hfuel. lia.
Qed.

End BraceWordReplace.

Section WordRepairs.
Implicit Types (s : string).

Lemma fixMissingComma_replace s :
  fixMissingComma s = replace malformationRegex1 [TGroup 1; TLit ", "; TGroup 3] s.
Proof.
  unfold fixMissingComma. destruct (test malformationRegex1 s) eqn:E; [done|].
  by rewrite replace_no_match.
Qed.

Lemma fixExtraneousWord_replace s :
  fixExtraneousWord s = replace malformationRegex2 [TGroup 1; TGroup 2] s.
Proof.
  unfold fixExtraneousWord. destruct (test malformationRegex2 s) eqn:E; [done|].
  by rewrite replace_no_match.
Qed.

End WordRepairs.

(** X23. The repair of a word between two objects and of a word before a
    comma.  Take a text in which a closing brace is followed by spaces, an
    identifier, spaces and an opening brace, while before it no closing
    brace is followed, after spaces, by a letter or an underscore.  The
    first repair step keeps what is before, replaces the defect by the
    closing brace, a comma, a space and the opening brace, and goes on
    repairing what follows.  The second step does the same for a defect
    that ends in a comma instead of the opening brace, leaving the closing
    brace and the comma. *)
Theorem word_after_brace_repaired (pre ws1 w ws2 post : string) :
  no_word_after_brace pre = true →
  all_chars is_space ws1 = true → identifier w = true →
  all_chars is_space ws2 = true →
  fixMissingComma (pre +:+ "}" +:+ ws1 +:+ w +:+ ws2 +:+ "{" +:+ post)
  = pre +:+ "}, {" +:+ fixMissingComma post
  ∧ fixExtraneousWord (pre +:+ "}" +:+ ws1 +:+ w +:+ ws2 +:+ "," +:+ post)
    = pre +:+ "}," +:+ fixExtraneousWord post.
Proof.
  intros Hpre H1 Hw H2. rewrite !fixMissingComma_replace, !fixExtraneousWord_replace.
  split.
  - unfold replace at 1.
    apply (replace_from_defect malformationRegex1 [TGroup 1; TLit ", "; TGroup 3]
             "{" "}, {" match_at_malformationRegex1 eq_refl eq_refl); try done.
    apply Nat.lt_succ_diag_r.
  - unfold replace at 1.
    apply (replace_from_defect malformationRegex2 [TGroup 1; TGroup 2]
             "," "}," match_at_malformationRegex2 eq_refl eq_refl); try done.
    apply Nat.lt_succ_diag_r.
Qed.

Section FenceFacts.
Implicit Types (s body lang ws : string) (c : ascii) (caps : captures).
Local Arguments Ascii.eqb : simpl never.

(** A greedy star over a class goes as far as it can when what follows
    it matches there. *)
Lemma greedy_class_max {R} (p : ascii → bool) (k : @cont R) x fuel pos s caps :
  String.length s ≤ fuel →
  k (pos + String.length (leading p s)) (skip p s) caps = Some x →
  star_loop (λ pos s caps k, rmatch (Cls p) pos s (reset (Cls p) caps) k)
    true k fuel pos s caps = Some x.
Proof.
  revert fuel pos. induction s as [|c s IH]; intros fuel pos Hfuel Hk.
  - simpl in Hk. rewrite Nat.add_0_r in Hk. destruct fuel; simpl; by rewrite Hk.
  - destruct fuel as [|fuel]; [simpl in Hfuel; lia|].
    simpl. simpl in Hk. destruct (p c) eqn:Hc.
    + assert ((pos <? S pos) = true) as -> by (apply Nat.ltb_lt; lia).
      match goal with |- orelse ?a _ = _ => assert (a = Some x) as -> end; [|done].
      apply IH; [simpl in Hfuel; lia|].
      simpl in Hk. by rewrite Nat.add_succ_r in Hk.
    + simpl in Hk. rewrite Nat.add_0_r in Hk. simpl. by rewrite Hk.
Qed.

Lemma leading_all (p : ascii → bool) a c s :
  all_chars p a = true → p c = false → leading p (a +:+ String c s) = a.
Proof.
  intros Ha Hc. induction a as [|b a IH].
  - rewrite append_nil_l. simpl. by rewrite Hc.
  - simpl in Ha. apply andb_true_iff in Ha as [Hb Ha]. rewrite append_cons. simpl.
    rewrite Hb. f_equal. by apply IH.
Qed.

(** The closing fence: spaces and three backticks at the end. *)
Lemma rmatch_closing {R} (kf : @cont R) pos s caps :
  rmatch (spaces ⋅ Lit "```" ⋅ Eos)%re pos s caps kf
  = if String.eqb (trimStart s) "```"
    then kf (pos + String.length s) EmptyString caps else None.
Proof.
  rewrite rmatch_Seq, rmatch_spaces.
  2:{ intros pos' c r caps' Hc. rewrite rmatch_Seq, rmatch_Lit.
      cbn [strip_prefix]. destruct (Ascii.eqb_spec "`" c) as [<-|]; [|done].
      by vm_compute in Hc. }
  rewrite rmatch_Seq, rmatch_Lit.
  rewrite (leading_trimStart s) at 3. rewrite length_append.
  destruct (trimStart s) as [|c1 [|c2 [|c3 [|c4 r]]]];
    cbn [strip_prefix String.eqb];
    rewrite ?(Ascii.eqb_sym c1), ?(Ascii.eqb_sym c2), ?(Ascii.eqb_sym c3);
    try done;
    repeat (match goal with |- context [Ascii.eqb "`" ?c] =>
              destruct (Ascii.eqb "`" c); [|done] end);
    try done.
  cbn [rmatch String.length]. by rewrite Nat.add_assoc.
Qed.

(** The end of the fence expression: an optional line feed, spaces and
    three backticks at the end. *)
Lemma rmatch_fence_end {R} (kf : @cont R) pos s caps :
  rmatch (Opt (Chr nl_char) ⋅ spaces ⋅ Lit "```" ⋅ Eos)%re pos s caps kf
  = if String.eqb (trimStart s) "```"
    then kf (pos + String.length s) EmptyString caps else None.
Proof.
  rewrite rmatch_Seq. cbn [rmatch]. fold spaces.
  change (reset (Chr nl_char) caps) with caps.
  pose proof (rmatch_closing kf) as Hclosing. cbn [rmatch] in Hclosing.
  fold spaces in Hclosing.
  destruct s as [|c s].
  - simpl orelse at 1. apply (Hclosing pos EmptyString caps).
  - destruct (Ascii.eqb_spec nl_char c) as [<-|Hc].
    + assert ((pos <? S pos) = true) as -> by (apply Nat.ltb_lt; lia).
      rewrite (Hclosing (S pos) s caps), (Hclosing pos (String nl_char s) caps).
      change (trimStart (String nl_char s)) with (trimStart s).
      simpl String.length. rewrite Nat.add_succ_r.
      change (S pos + String.length s) with (S (pos + String.length s)).
      destruct (String.eqb (trimStart s) "```"); [|done].
      unfold orelse. by destruct (kf _ _ _).
    + simpl orelse at 1. apply (Hclosing pos (String c s) caps).
Qed.

Lemma trimEnd_last s d : last_char s = Some d → is_space d = false → trimEnd s = s.
Proof.
  induction s as [|a [|b s] IH]; [done|..]; intros Hl Hd.
  - injection Hl as ->. simpl. by rewrite Hd.
  - change (trimEnd (String a (String b s)))
      with (match trimEnd (String b s) with
            | EmptyString => if is_space a then EmptyString else String a EmptyString
            | t => String a t
            end).
    by rewrite (IH Hl Hd).
Qed.

Lemma trimEnd_spaces w : all_chars is_space w = true → trimEnd w = EmptyString.
Proof.
  induction w as [|a w IH]; [done|]. simpl. intros [Ha Hw]%andb_true_iff.
  by rewrite (IH Hw), Ha.
Qed.

Lemma trimEnd_append_spaces a w :
  all_chars is_space w = true → trimEnd (a +:+ w) = trimEnd a.
Proof.
  intros Hw. induction a as [|x a IH].
  - rewrite append_nil_l. by apply trimEnd_spaces.
  - rewrite append_cons. simpl. by rewrite IH.
Qed.

(** White space is not skipped past a text that does not end in it. *)
Lemma trimStart_not_fence sfx d r :
  last_char sfx = Some d → is_space d = false →
  String.eqb (trimStart (sfx +:+ r +:+ "```")) "```" = false.
Proof.
  intros Hl Hd. apply String.eqb_neq. intros Heq.
  assert (Hlen : 3 < String.length (trimStart (sfx +:+ r +:+ "```"))); [|rewrite Heq in Hlen; simpl in Hlen; lia].
  clear Heq. induction sfx as [|a [|b sfx] IH]; [done|..].
  - injection Hl as ->. rewrite append_cons, append_nil_l. simpl. rewrite Hd.
    simpl. rewrite length_append. simpl. lia.
  - rewrite append_cons. cbn [trimStart]. destruct (is_space a).
    + by apply IH.
    + simpl. rewrite !length_append. simpl. lia.
Qed.

Lemma rmatch_Opt {R} (k : @cont R) r pos s caps :
  rmatch (Opt r) pos s caps k
  = orelse
      (rmatch r pos s (reset r caps)
         (λ pos' s' caps', if pos <? pos' then k pos' s' caps' else None))
      (k pos s caps).
Proof. done. Qed.

(** From the white space after the language tag to the end of the fenced
    text: group 2 is the body. *)
Lemma fence_body {R} (kf : @cont R) x pos caps ws c rest ws' d :
  all_chars is_space ws = true → all_chars is_space ws' = true →
  is_space c = false →
  last_char (String c rest) = Some d → is_space d = false →
  kf (pos + String.length (ws +:+ String c rest +:+ ws' +:+ "```"))
     EmptyString (<[2 := String c rest]> caps) = Some x →
  rmatch (spaces ⋅ Opt (Chr nl_char) ⋅ Group 2 (Star false (Cls is_any))
            ⋅ Opt (Chr nl_char) ⋅ spaces ⋅ Lit "```" ⋅ Eos)%re
    pos (ws +:+ String c rest +:+ ws' +:+ "```") caps kf
  = Some x.
Proof.
  intros Hws Hws' Hc Hl Hd Hkf.
  rewrite rmatch_Seq. unfold spaces at 1. rewrite rmatch_Star.
  apply greedy_class_max; [done|].
  rewrite (append_cons c rest).
  rewrite (skip_all is_space ws c _ Hws Hc), (leading_all is_space ws c _ Hws Hc).
  rewrite rmatch_Seq, rmatch_Opt, rmatch_Chr. cbv beta iota.
  destruct (Ascii.eqb_spec nl_char c) as [<-|_]; [by vm_compute in Hc|].
  unfold orelse at 1.
  rewrite rmatch_Seq, rmatch_Group, rmatch_Star.
  rewrite <- append_cons.
  apply star_lazy_class.
  - rewrite length_append. lia.
  - clear. generalize (String c rest). intros u. by induction u.
  - intros u1 a u2 Hu. rewrite rmatch_fence_end.
    rewrite trimStart_not_fence with (d := d); [done| |done].
    rewrite Hu in Hl. by rewrite last_char_append in Hl.
  - rewrite rmatch_fence_end.
    destruct (trimStart_spaces ws' "`" "``" Hws' eq_refl) as [Hts _].
    change (ws' +:+ "```") with (ws' +:+ String "`" "``"). rewrite Hts.
    change (String.eqb "```" "```") with true. cbv iota.
    rewrite Nat.add_sub', substring0_append.
    rewrite <- Hkf. f_equal. rewrite !length_append. lia.
Qed.

Lemma greedy_class_none {R} (p : ascii → bool) (k : @cont R) fuel pos c s caps :
  p c = false →
  star_loop (λ pos s caps k, rmatch (Cls p) pos s (reset (Cls p) caps) k)
    true k fuel pos (String c s) caps
  = k pos (String c s) caps.
Proof. intros Hc. destruct fuel; [done|]. simpl. by rewrite Hc. Qed.

Lemma space_not_word c : is_space c = true → is_word c = false.
Proof.
  intros Hc. destruct (is_word c) eqn:Hw; [|done].
  apply word_not_space in Hw. congruence.
Qed.

(** The fence expression on a fenced text: group 2 is the body. *)
Lemma fence_match lang ws c rest ws' d :
  all_chars is_word lang = true →
  all_chars is_space ws = true → all_chars is_space ws' = true →
  is_space c = false → is_word c = false →
  last_char (String c rest) = Some d → is_space d = false →
  ∃ n caps,
    match_at fenceRegex 0
      ("```" +:+ lang +:+ ws +:+ String c rest +:+ ws' +:+ "```")
    = Some (n, caps)
    ∧ caps !! 2 = Some (String c rest).
Proof.
  intros Hlang Hws Hws' Hc Hcw Hl Hd.
  unfold match_at, fenceRegex.
  rewrite rmatch_Seq. change (rmatch Bos 0 ?s ?caps ?k) with (k 0 s caps).
  cbv beta. rewrite rmatch_Seq, rmatch_Lit, strip_prefix_append.
  rewrite rmatch_Seq, rmatch_Opt, rmatch_Group, rmatch_Star.
  set (s := ws +:+ String c rest +:+ ws' +:+ "```").
  assert (∃ e s0, s = String e s0 ∧ is_word e = false) as (e & s0 & Hs & He).
  { subst s. destruct ws as [|w ws].
    - rewrite append_nil_l, append_cons. by eexists _, _.
    - rewrite append_cons. eexists _, _. split; [done|].
      simpl in Hws. apply andb_true_iff in Hws as [Hw _]. by apply space_not_word. }
  set (kf := λ (pos' : nat) (_ : string) (caps : captures), Some (pos', caps)).
  destruct lang as [|l0 lang].
  - rewrite append_nil_l. rewrite Hs. rewrite greedy_class_none by done.
    rewrite Nat.ltb_irrefl. unfold orelse at 1. rewrite <- Hs. subst s.
    eexists _, _. split.
    + apply (fence_body kf _ _ ∅ ws c rest ws' d); try done.
    + apply lookup_insert_eq.
  - set (caps1 := <[1 := String l0 lang]> (reset (Group 1 (Star true (Cls is_word))) ∅)).
    exists (0 + String.length "```" + String.length (String l0 lang) + String.length s),
      (<[2 := String c rest]> caps1).
    split; [|apply lookup_insert_eq].
    match goal with |- orelse ?a _ = _ =>
      assert (a = Some (0 + String.length "```" + String.length (String l0 lang)
                          + String.length s,
                        <[2 := String c rest]> caps1)) as ->; [|done] end.
    apply greedy_class_max; [done|]. rewrite Hs.
    rewrite (skip_all is_word _ e s0 Hlang He), (leading_all is_word _ e s0 Hlang He).
    assert ((0 + String.length "```" <? 0 + String.length "```"
              + String.length (String l0 lang)) = true) as ->.
    { apply Nat.ltb_lt. simpl. lia. }
    rewrite Nat.add_sub', <- Hs, substring0_append. subst s.
    apply (fence_body kf _ _ caps1 ws c rest ws' d); done.
Qed.

Lemma last_char_append_r a b d : last_char b = Some d → last_char (a +:+ b) = Some d.
Proof.
  intros Hb. rewrite last_char_append; [done|]. by destruct b.
Qed.

End FenceFacts.

(** X24. A fenced answer is unwrapped: three backticks, a language tag of
    word characters, white space, a body, white space and three backticks
    give the body, when the body starts with a code unit that is neither
    white space nor a word character and does not end in white space.
    With white space around the fence, the repair works on the body. *)
Theorem fenced_answer_unwrapped (w1 lang ws rest ws' w2 : string) (c d : ascii) :
  all_chars is_space w1 = true → all_chars is_word lang = true →
  all_chars is_space ws = true → all_chars is_space ws' = true →
  all_chars is_space w2 = true →
  is_space c = false → is_word c = false →
  last_char (String c rest) = Some d → is_space d = false →
  stripFence ("```" +:+ lang +:+ ws +:+ String c rest +:+ ws' +:+ "```")
  = String c rest
  ∧ repair (w1 +:+ ("```" +:+ lang +:+ ws +:+ String c rest +:+ ws' +:+ "```")
              +:+ w2)
    = fixMissingPriorityKey (fixExtraneousWord (fixMissingComma (String c rest))).
Proof.
  intros Hw1 Hlang Hws Hws' Hw2 Hc Hcw Hl Hd.
  assert (Hstrip : stripFence ("```" +:+ lang +:+ ws +:+ String c rest +:+ ws' +:+ "```")
                   = String c rest).
  { destruct (fence_match lang ws c rest ws' d) as (n & caps & Hm & Hcaps); try done.
    unfold stripFence, exec. rewrite exec_from_unfold, Hm. unfold group. cbn [m_groups].
    rewrite Hcaps. cbn [truthy]. unfold trim. cbn [trimStart]. rewrite Hc.
    by apply trimEnd_last with d. }
  split; [done|]. unfold repair. cbv zeta.
  assert (trim (w1 +:+ ("```" +:+ lang +:+ ws +:+ String c rest +:+ ws' +:+ "```")
                  +:+ w2)
          = "```" +:+ lang +:+ ws +:+ String c rest +:+ ws' +:+ "```") as ->;
    [|by rewrite Hstrip].
  unfold trim.
  change ("```" +:+ lang +:+ ws +:+ String c rest +:+ ws' +:+ "```")
    with (String "`" ("``" +:+ lang +:+ ws +:+ String c rest +:+ ws' +:+ "```")).
  rewrite append_cons.
  destruct (trimStart_spaces w1 "`"
              (("``" +:+ lang +:+ ws +:+ String c rest +:+ ws' +:+ "```") +:+ w2)
              Hw1 eq_refl) as [-> _].
  rewrite <- append_cons, trimEnd_append_spaces by done.
  apply trimEnd_last with "`"%char; [|done].
  rewrite <- append_cons. by repeat apply last_char_append_r.
Qed.

Section CardFacts.
Implicit Types (s t : string) (c : ascii).

Lemma trimEnd_shape s :
  trimEnd s = EmptyString
  ∨ ∃ d, last_char (trimEnd s) = Some d ∧ is_space d = false.
Proof.
  induction s as [|a s IH]; [by left|]. simpl.
  destruct (trimEnd s) as [|b t] eqn:E.
  - destruct (is_space a) eqn:Ha; [by left|]. right. by exists a.
  - right. destruct IH as [|(d & Hl & Hd)]; [done|]. by exists d.
Qed.

Lemma trimEnd_idem s : trimEnd (trimEnd s) = trimEnd s.
Proof.
  destruct (trimEnd_shape s) as [->|(d & Hl & Hd)]; [done|].
  by apply trimEnd_last with d.
Qed.

Lemma trimStart_shape s :
  trimStart s = EmptyString
  ∨ ∃ c t, trimStart s = String c t ∧ is_space c = false.
Proof.
  induction s as [|a s IH]; [by left|]. simpl.
  destruct (is_space a) eqn:Ha; [done|]. right. by exists a, s.
Qed.

Lemma trimEnd_head c t :
  is_space c = false → ∃ t', trimEnd (String c t) = String c t'.
Proof.
  intros Hc. simpl. destruct (trimEnd t); rewrite ?Hc; by eexists.
Qed.

Lemma trim_idem s : trim (trim s) = trim s.
Proof.
  unfold trim. destruct (trimStart_shape s) as [->|(c & t & -> & Hc)]; [done|].
  destruct (trimEnd_head c t Hc) as [t' Ht']. rewrite Ht' at 1.
  cbn [trimStart]. rewrite Hc, <- Ht'. apply trimEnd_idem.
Qed.

End CardFacts.

(** X25. The card of a suggested change.  Choosing the placeholder of the
    status selector clears the status but keeps the notes and the adopted
    text, and the change then gives no learning, whatever it had adopted.
    Saving notes keeps the status and stores the trimmed notes; for a
    change that is Not Applicable and has no adopted text, it gives a
    learning exactly when the notes are not blank. *)
Theorem card_status_and_notes (isoNow typed : string) (analysis : SavedAnalysis)
    (change : SuggestedChange) :
  let reset := updateChange (sc_id change) (handleStatusChange "select") isoNow change in
  let noted := updateChange (sc_id change) (handleSaveNotes typed) isoNow change in
  (feedbackLearning analysis reset = None
   ∧ notesOf reset = notesOf change ∧ adoptedTextOf reset = adoptedTextOf change)
  ∧ statusOf noted = statusOf change
  ∧ notesOf noted = Some (trim typed)
  ∧ (statusOf change = Some "Not Applicable" →
     truthy_opt (adoptedTextOf change) = false →
     (is_Some (feedbackLearning analysis noted) ↔ trim typed ≠ EmptyString)).
Proof.
  cbv zeta. unfold updateChange. rewrite String.eqb_refl.
  unfold feedbackLearning, statusOf, notesOf, adoptedTextOf, qualifies.
  cbn [sc_userFeedback spreadFeedback handleStatusChange handleSaveNotes
       fu_status fu_notes fu_finalAdoptedText status notes finalAdoptedText
       default String.eqb Ascii.eqb].
  change (String.eqb "select" "select") with true. cbv iota. cbn [default].
  destruct (sc_userFeedback change) as [fb|]; cbn [default blankFeedback mbind option_bind
    status notes finalAdoptedText]; (split; [done|]); (split; [done|]); (split; [done|]).
  - unfold id. intros -> Had. change (String.eqb "Not Applicable" "Actioned") with false.
    change (truthy "Not Applicable") with true.
    change (String.eqb "Not Applicable" "Not Applicable") with true.
    rewrite Had, trim_idem. cbn [andb orb].
    destruct (trim typed) as [|c t] eqn:E; cbn [truthy andb String.eqb negb].
    + split; [by intros [? ?]|done].
    + split; [done|]. intros _. by eexists.
  - done.
Qed.

(** ** The prompt selection and the payload of a learning *)

Section PayloadFacts.
Implicit Types (s u v t a b rest : string) (c q : ascii) (caps : captures).
Local Arguments Ascii.eqb : simpl never.





















End PayloadFacts.



(** Two learnings with different fragments and different cores can have
    the same key: the second one, although relevant, is then not
    selected. *)
Lemma same_key_for_another_fragment_and_core :
  docSectionFromLearning Scenarios.learningAbC = Some "ab"
  ∧ coreLearningContent Scenarios.learningAbC = "c"
  ∧ docSectionFromLearning Scenarios.learningABc = Some "a"
  ∧ coreLearningContent Scenarios.learningABc = "bc"
  ∧ relevant [Scenarios.documentA] Scenarios.learningABc = true
  ∧ selectContextualLearningsForChallengePrompt
      [Scenarios.learningAbC; Scenarios.learningABc] [Scenarios.documentA]
      defaultMaxLearningsForPrompt
    = [Scenarios.learningAbC].
Proof. by vm_compute. Qed.


(** ** The properties above on the sample data *)

Lemma merge_without_target_witness :
  updateFeedbackInSavedAnalyses "analysis-9" {[ "action_plan" := VPlan [] ]} 3000
    Samples.store
  = Samples.store.
Proof.
  destruct (merge_without_target "analysis-9" {[ "action_plan" := VPlan [] ]} 3000
              Samples.store) as [_ Hsorted].
  - intros sa Hin Hid.
    apply elem_of_cons in Hin as [->|Hin]; [discriminate|].
    apply elem_of_cons in Hin as [->|Hin]; [discriminate|].
    by apply elem_of_nil in Hin.
  - apply Hsorted. repeat constructor; simpl; lia.
Defined.

Lemma merge_twice_witness :
  resultOf "analysis-1"
    (updateFeedbackInSavedAnalyses "analysis-1" {[ "suggested_changes" := VChanges [] ]}
       4000
       (updateFeedbackInSavedAnalyses "analysis-1" {[ "action_plan" := VPlan [] ]} 3000
          Samples.store))
  = Some (mergeResult Scenarios.olderResult
            (mergeResult {[ "action_plan" := VPlan [] ]}
               {[ "suggested_changes" := VChanges [] ]})).
Proof.
  destruct (merge_twice "analysis-1" {[ "action_plan" := VPlan [] ]}
              {[ "suggested_changes" := VChanges [] ]} 3000 4000 Samples.store
              Samples.older Scenarios.olderResult) as (Hread & _).
  - apply (bool_decide_unpack _). vm_compute. exact I.
  - reflexivity.
  - reflexivity.
  - exact Hread.
Defined.

Lemma load_shows_the_stored_result_witness :
  challengeResult
    (view_state (loadAnalysisForViewing "analysis-1" None Scenarios.historyView))
  = Some Scenarios.olderResult
  ∧ activeTab (loadAnalysisForViewing "analysis-1" None Scenarios.historyView)
    = tabChallenge.
Proof.
  destruct (load_shows_the_stored_result "analysis-1" Scenarios.historyView
              Samples.older Scenarios.olderResult)
    as (_ & _ & _ & _ & _ & Hshown & _); [reflexivity..|].
  simpl in Hshown. destruct Hshown as (Hresult & _ & _ & _ & Htab).
  split; [exact Hresult | exact Htab].
Defined.

Lemma load_absent_clears_witness :
  displayed_state_cleared None
    (view_state (loadAnalysisForViewing "analysis-9" None Scenarios.historyView)).
Proof.
  destruct (load_absent_clears "analysis-9" Scenarios.historyView)
    as (Hcleared & _); [reflexivity|].
  exact Hcleared.
Defined.

Lemma display_agrees_with_store_preserved_witness :
  shows_stored (handleDeleteAnalysis "analysis-2" Scenarios.viewingOlder)
  ∧ shows_stored (handleRenameAnalysis "analysis-1" "Q1 review" Scenarios.viewingOlder).
Proof.
  destruct (display_agrees_with_store_preserved Scenarios.viewingOlder)
    as (Hrename & Hdelete & _).
  - intros id Hid. injection Hid as <-.
    exists Samples.older, Scenarios.olderResult. split_and!; reflexivity.
  - split; [apply Hdelete | apply Hrename].
Defined.

Lemma feedback_keeps_display_and_store_agreeing_witness :
  ∃ st',
    handleUpdateSuggestedChangeFeedback "sc-2" (handleStatusChange "Actioned")
      "2025-03-01T09:00:00.000Z" 3000 Scenarios.viewingOlder
    = Some st'
    ∧ shows_stored st'.
Proof.
  destruct (feedback_keeps_display_and_store_agreeing "sc-2"
              (handleStatusChange "Actioned") "2025-03-01T09:00:00.000Z" 3000
              Scenarios.viewingOlder) as [Hchallenge _].
  - apply (bool_decide_unpack _). vm_compute. exact I.
  - intros id Hid. injection Hid as <-.
    exists Samples.older, Scenarios.olderResult. split_and!; reflexivity.
  - destruct Hchallenge as [Hchange _].
    + intros id sa Hid Hfind. injection Hid as <-. injection Hfind as <-. reflexivity.
    + eexists. split; [reflexivity|]. apply Hchange. reflexivity.
Defined.

Lemma change_feedback_update_spec_witness :
  ∃ st' r',
    handleUpdateSuggestedChangeFeedback "sc-2" (handleSaveNotes " Agreed. ")
      "2025-03-01T09:00:00.000Z" 3000 Scenarios.viewingOlder
    = Some st'
    ∧ challengeResult st' = Some r'
    ∧ Forall2 (feedback_updated "sc-2" (handleSaveNotes " Agreed. ")
                 "2025-03-01T09:00:00.000Z")
        (changesOf Scenarios.olderResult) (changesOf r').
Proof.
  destruct (change_feedback_update_spec "sc-2" (handleSaveNotes " Agreed. ")
              "2025-03-01T09:00:00.000Z" 3000 Scenarios.viewingOlder "analysis-1")
    as [Hchallenge _]; [reflexivity|discriminate|].
  eexists.
  destruct (Hchallenge Scenarios.olderResult _ eq_refl eq_refl)
    as (r' & Hresult & Hchanges & _).
  exists r'. split_and!; [reflexivity | exact Hresult | exact Hchanges].
Defined.


Lemma chat_puts_the_active_analysis_first_witness :
  length (finalLearningsForPrompt ["Keep answers short."] Scenarios.viewingOlder) ≤ 10
  ∧ Samples.learningPolicyA
    ∈ finalLearningsForPrompt ["Keep answers short."] Scenarios.viewingOlder.
Proof.
  destruct (chat_puts_the_active_analysis_first ["Keep answers short."]
              Scenarios.viewingOlder "analysis-1" Samples.older)
    as (_ & Hlength & _ & Hgiven); [reflexivity|discriminate|reflexivity|].
  split; [exact Hlength|]. apply Hgiven.
  - vm_compute. lia.
  - apply (list_elem_of_lookup_2 _ 0). vm_compute. reflexivity.
Defined.


Lemma frontend_gap_review_outcome_witness :
  (run Samples.offline []
     (Frontend.generateGapReview ["reg-1"] ["doc-a"]
        (Samples.stateWith true Samples.store None))).2
  = [MkCall (GapReviewInBackend ["reg-1"] ["doc-a"] [Samples.regulation]
               [Samples.policyA; Samples.policyB] Samples.store)].
Proof.
  destruct (frontend_gap_review_outcome Samples.offline [] ["reg-1"] ["doc-a"]
              (Samples.stateWith true Samples.store None))
    as [Hcalls _]; [discriminate|discriminate|exact Hcalls].
Defined.

Lemma learning_read_back_by_selection_witness :
  docSectionFromLearning
    (learningPoint Samples.older
       (Samples.change "sc-1" "Policy A.pdf" (Some "Policy A.pdf") (Some Samples.actioned))
       Samples.actioned)
  = Some "policy a.pdf".
Proof.
  destruct (learning_read_back_by_selection Samples.older
              (Samples.change "sc-1" "Policy A.pdf" (Some "Policy A.pdf")
                 (Some Samples.actioned))
              Samples.actioned [Samples.policyA] [] 0)
    as [Hsection _]; [discriminate|reflexivity|exact Hsection].
Defined.

Lemma gap_review_call_protocol_witness :
  ∃ summaryPrompts query rest,
    (run Samples.offline []
       (generateGapReview 5 (λ _, None) ["reg-1"] ["doc-a"]
          (Samples.stateWith true Samples.store None))).2
    = map (λ p, MkCall (GenerateContent p false false)) summaryPrompts
        ++ [MkCall (RetrieveContext query 5)] ++ rest
    ∧ length summaryPrompts = 1.
Proof.
  destruct (gap_review_call_protocol 5 (λ _, None) Samples.offline [] ["reg-1"]
              ["doc-a"] (Samples.stateWith true Samples.store None))
    as (summaryPrompts & query & rest & Hcalls & Hlength & _);
    [reflexivity|discriminate|discriminate|].
  exists summaryPrompts, query, rest. split; [exact Hcalls | exact Hlength].
Defined.

Lemma simulated_chunks_never_targeted_witness :
  List.filter
    (isTargetedRegulatoryChunk (targetedRegulatoryContent [Samples.regulation] ["reg-1"]))
    (retrieveContextFromVertexAI (λ _, "k3j9") (λ _, 1) "2025"
       "transfer reporting policy" 3)
  = [].
Proof.
  destruct (simulated_chunks_never_targeted (λ _, "k3j9") (λ _, 1) "2025"
              "transfer reporting policy" 3 [Samples.regulation]
              [Samples.policyA; Samples.policyB] ["reg-1"] ["doc-a"] [])
    as [Hregulatory _]; [repeat constructor..|exact Hregulatory].
Defined.

Lemma word_after_brace_repaired_witness :
  fixMissingComma ("[{" +:+ "}" +:+ " " +:+ "oops" +:+ " " +:+ "{" +:+ "}]")
  = "[{" +:+ "}, {" +:+ fixMissingComma "}]".
Proof.
  destruct (word_after_brace_repaired "[{" " " "oops" " " "}]")
    as [Hcomma _]; [reflexivity..|exact Hcomma].
Defined.

Lemma fenced_answer_unwrapped_witness :
  stripFence Scenarios.fencedObject = String "{" "}".
Proof.
  destruct (fenced_answer_unwrapped EmptyString "json" (String nl_char EmptyString) "}"
              (String nl_char EmptyString) EmptyString "{" "}")
    as [Hbody _]; [reflexivity..|exact Hbody].
Defined.
